(** * Clipbox streaming of the LOD voxel terrain, and the GPU normal-map task

    A shallow embedding of
    [terrain/variable_lod/voxel_lod_terrain_update_clipbox_streaming.cpp] and
    of [GenerateDistanceNormalMapGPUTask::prepare]
    ([engine/generate_distance_normalmap_gpu_task.cpp]), then of the cleanup
    of that task, of [VoxelDataBlock] ([storage/voxel_data_block.h]) and of
    [VoxelDataLoader::Processor::process_block]
    ([terrain/voxel_provider_thread.cpp]).

    Coordinates are C++ [int]s.  Signed overflow is undefined in C++, so the
    arithmetic is carried out on [Z]: the results below describe every run in
    which no intermediate value leaves the range of [int].  Reference counts
    ([RefCount], an [unsigned int] guarded against decrement at zero) are
    [nat].  Hash maps keyed by block position are [gmap]s. *)

From Stdlib Require Import ZArith Lia Bool.
From stdpp Require Import base decidable countable gmap list fin_maps sorting.

Local Open Scope Z_scope.

(** ** Integer helpers ([util/math/funcs.h], not part of the sources at hand) *)

Module math.

(** Modelled from the spec: [math::floordiv], the division rounding towards
    minus infinity that the spec calls [floordiv]; the header defining it is
    missing.  For a positive divisor this is [Z.div]. *)
Definition floordiv (x d : Z) : Z := x / d.

(** Modelled from the spec: [math::ceildiv], the division rounding towards
    plus infinity that the spec calls [ceildiv]. *)
Definition ceildiv (x d : Z) : Z := - floordiv (- x) d.

(** Modelled from the spec: [math::clamp(x, lo, hi)]. *)
Definition clamp (x lo hi : Z) : Z :=
  if x <? lo then lo else if hi <? x then hi else x.

End math.

(** ** [Vector3i] *)

(** Modelled from the spec: [Vector3i], the "ivec3" of block positions; its
    header is not part of the sources at hand. *)
Record Vector3i : Type := mkVector3i { x : Z; y : Z; z : Z }.

#[global] Instance Vector3i_eq_dec : EqDecision Vector3i.
Proof. solve_decision. Defined.

#[global] Instance Vector3i_countable : Countable Vector3i.
Proof.
  refine (inj_countable' (fun v => (x v, y v, z v))
                         (fun t => mkVector3i t.1.1 t.1.2 t.2) _).
  intros []; reflexivity.
Defined.

Module Vector3iUtil.
(** [Vector3iUtil::create(v)]: the same value on the three axes. *)
Definition create (v : Z) : Vector3i := mkVector3i v v v.
End Vector3iUtil.

Definition vmap (f : Z -> Z) (a : Vector3i) : Vector3i :=
  mkVector3i (f (x a)) (f (y a)) (f (z a)).

Definition vzip (f : Z -> Z -> Z) (a b : Vector3i) : Vector3i :=
  mkVector3i (f (x a) (x b)) (f (y a) (y b)) (f (z a) (z b)).

Definition vadd : Vector3i -> Vector3i -> Vector3i := vzip Z.add.
Definition vsub : Vector3i -> Vector3i -> Vector3i := vzip Z.sub.
Definition vmin : Vector3i -> Vector3i -> Vector3i := vzip Z.min.
Definition vmax : Vector3i -> Vector3i -> Vector3i := vzip Z.max.
Definition vscale (a : Vector3i) (k : Z) : Vector3i := vmap (fun c => c * k) a.
(** [v >> n] and [v << n], per component (arithmetic shifts). *)
Definition vshr (a : Vector3i) (n : Z) : Vector3i := vmap (fun c => Z.shiftr c n) a.
Definition vshl (a : Vector3i) (n : Z) : Vector3i := vmap (fun c => Z.shiftl c n) a.
Definition vfloordiv (a : Vector3i) (d : Z) : Vector3i := vmap (fun c => math.floordiv c d) a.
Definition vceildiv (a : Vector3i) (d : Z) : Vector3i := vmap (fun c => math.ceildiv c d) a.

Definition vzero : Vector3i := Vector3iUtil.create 0.

(** A vector all of whose components are even. *)
Definition veven (a : Vector3i) : Prop :=
  Z.even (x a) = true /\ Z.even (y a) = true /\ Z.even (z a) = true.

(** ** [Box3i] ([util/math/box3i.h], not part of the sources at hand) *)

(** Modelled from the spec: [Box3i], "an integer AABB in chunk coordinates",
    given by its position and its size. *)
Record Box3i : Type := mkBox3i { pos : Vector3i; size : Vector3i }.

#[global] Instance Box3i_eq_dec : EqDecision Box3i.
Proof. solve_decision. Defined.

Module Box3i.

(** [Box3i()], the default box: zero position and zero size. *)
Definition empty : Box3i := mkBox3i vzero vzero.

(** Exclusive upper corner. *)
Definition end_ (b : Box3i) : Vector3i := vadd (pos b) (size b).

(** Modelled from the spec: [Box3i::from_min_max], the box from [min]
    (inclusive) to [max] (exclusive). *)
Definition from_min_max (pmin pmax : Vector3i) : Box3i :=
  mkBox3i pmin (vsub pmax pmin).

(** Modelled from the spec: [Box3i::contains(Vector3i)], whether a cell lies
    in the box. *)
Definition contains (b : Box3i) (p : Vector3i) : bool :=
  let e := end_ b in
  (x (pos b) <=? x p) && (y (pos b) <=? y p) && (z (pos b) <=? z p)
  && (x p <? x e) && (y p <? y e) && (z p <? z e).

(** Modelled from the spec: [Box3i::contains(Box3i)], the [⊇] of the spec's
    invariants, comparing corners. *)
Definition contains_box (b other : Box3i) : bool :=
  let e := end_ b in
  let oe := end_ other in
  (x (pos b) <=? x (pos other)) && (y (pos b) <=? y (pos other))
  && (z (pos b) <=? z (pos other))
  && (x oe <=? x e) && (y oe <=? y e) && (z oe <=? z e).

(** Modelled from the spec: [Box3i::intersects]: two boxes intersect unless
    one starts at or after the end of the other on some axis. *)
Definition intersects (a b : Box3i) : bool :=
  let ae := end_ a in
  let be := end_ b in
  negb ((x be <=? x (pos a)) || (y be <=? y (pos a)) || (z be <=? z (pos a))
        || (x ae <=? x (pos b)) || (y ae <=? y (pos b)) || (z ae <=? z (pos b))).

(** Modelled from the spec: [Box3i::padded(m)], growing the box by [m] on
    each side. *)
Definition padded (b : Box3i) (m : Z) : Box3i :=
  mkBox3i (vsub (pos b) (Vector3iUtil.create m))
          (vadd (size b) (Vector3iUtil.create (2 * m))).

(** Modelled from the spec: [Box3i::scaled(k)], position and size times [k]. *)
Definition scaled (b : Box3i) (k : Z) : Box3i :=
  mkBox3i (vscale (pos b) k) (vscale (size b) k).

(** Modelled from the spec: [Box3i::downscaled(step)], the box in a grid of
    step [step], rounded outwards. *)
Definition downscaled (b : Box3i) (step : Z) : Box3i :=
  let p := vfloordiv (pos b) step in
  let maxp := vfloordiv (vsub (end_ b) (Vector3iUtil.create 1)) step in
  mkBox3i p (vadd (vsub maxp p) (Vector3iUtil.create 1)).

(** Modelled from the spec: [Box3i::downscaled_inner(step)], the box in a
    grid of step [step], rounded inwards. *)
Definition downscaled_inner (b : Box3i) (step : Z) : Box3i :=
  from_min_max (vceildiv (pos b) step) (vfloordiv (end_ b) step).

(** One axis of [clip]: both ends are clamped into the limit, and a
    negative size becomes zero. *)
Definition clip_range (p s lim_pos lim_size : Z) : Z * Z :=
  let lim_max := lim_pos + lim_size in
  let p' := math.clamp p lim_pos lim_max in
  let max' := math.clamp (p + s) lim_pos lim_max in
  (p', Z.max (max' - p') 0).

(** Modelled from the spec: [Box3i::clip] / [clipped], the box cut to the
    limit box ("no negative-size boxes emitted"). *)
Definition clipped (b lim : Box3i) : Box3i :=
  let cx := clip_range (x (pos b)) (x (size b)) (x (pos lim)) (x (size lim)) in
  let cy := clip_range (y (pos b)) (y (size b)) (y (pos lim)) (y (size lim)) in
  let cz := clip_range (z (pos b)) (z (size b)) (z (pos lim)) (z (size lim)) in
  mkBox3i (mkVector3i cx.1 cy.1 cz.1) (mkVector3i cx.2 cy.2 cz.2).

(** Modelled from the spec: [Box3i::merge_with], the bounding box of the
    two boxes (the spec's [box.union]). *)
Definition merge_with (b other : Box3i) : Box3i :=
  let min_pos := vmin (pos b) (pos other) in
  let max_pos := vmax (end_ b) (end_ other) in
  mkBox3i min_pos (vsub max_pos min_pos).

(** A box with even position and even size on every axis. *)
Definition even_box (b : Box3i) : Prop := veven (pos b) /\ veven (size b).

End Box3i.

(** ** The base box of a viewer *)

(** [get_base_box_in_chunks]. *)
Definition get_base_box_in_chunks
    (viewer_position_voxels : Vector3i) (distance_voxels chunk_size : Z)
    (make_even : bool) : Box3i :=
  let minp := vsub viewer_position_voxels (Vector3iUtil.create distance_voxels) in
  let maxp := vadd viewer_position_voxels (Vector3iUtil.create (distance_voxels + 1)) in
  let minp := vfloordiv minp chunk_size in
  let maxp := vceildiv maxp chunk_size in
  let minp := if make_even then vscale (vfloordiv minp 2) 2 else minp in
  let maxp := if make_even then vscale (vceildiv maxp 2) 2 else maxp in
  Box3i.from_min_max minp maxp.

(** [get_lod_distance_in_mesh_chunks]; the argument is
    [static_cast<int>(Math::ceil(lod_distance_in_voxels))], and [/] on the
    non-negative [int]s involved is truncating division. *)
Definition get_lod_distance_in_mesh_chunks (lod_distance_ceil mesh_block_size : Z) : Z :=
  Z.max (Z.quot lod_distance_ceil mesh_block_size) 1.

(** ** The streaming state ([VoxelLodTerrainUpdateData]) *)

(** Modelled from the spec: [RefCount], the "refcount" of viewers, declared
    outside the sources at hand: [add] increments; [remove] decrements and
    does nothing at zero, the count being unsigned. *)
Module RefCount.
Definition add (c : nat) : nat := S c.
Definition remove (c : nat) : nat := Nat.pred c.
End RefCount.

(** Modelled from the spec: the mesh states, "state ∈ {NEVER_UPDATED,
    NEED_UPDATE, UPDATE_NOT_SENT, UPDATE_SENT}"; the enumeration is declared
    in [voxel_lod_terrain_update_data.h], which is not at hand. *)
Inductive MeshState : Type :=
| MESH_NEVER_UPDATED
| MESH_NEED_UPDATE
| MESH_UPDATE_NOT_SENT
| MESH_UPDATE_SENT.

#[global] Instance MeshState_eq_dec : EqDecision MeshState.
Proof. solve_decision. Defined.

(** Modelled from the spec: [MeshBlockState], "{ state, active: bool,
    loaded: bool, mesh_viewers: refcount, collision_viewers: refcount }". *)
Record MeshBlockState : Type := mkMeshBlockState {
  state : MeshState;
  active : bool;
  loaded : bool;
  mesh_viewers : nat;
  collision_viewers : nat
}.

#[global] Instance MeshBlockState_eq_dec : EqDecision MeshBlockState.
Proof. solve_decision. Defined.

(** A default-constructed [MeshBlockState]. *)
Definition MeshBlockState_default : MeshBlockState :=
  mkMeshBlockState MESH_NEVER_UPDATED false false 0%nat 0%nat.

Definition set_state (s : MeshState) (mb : MeshBlockState) : MeshBlockState :=
  mkMeshBlockState s (active mb) (loaded mb) (mesh_viewers mb) (collision_viewers mb).

Definition set_active (a : bool) (mb : MeshBlockState) : MeshBlockState :=
  mkMeshBlockState (state mb) a (loaded mb) (mesh_viewers mb) (collision_viewers mb).

Definition set_viewers (mv cv : nat) (mb : MeshBlockState) : MeshBlockState :=
  mkMeshBlockState (state mb) (active mb) (loaded mb) mv cv.

(** Modelled from the spec: [LoadingDataBlock], "{ viewers: refcount }", the
    number of viewers waiting for the block. *)
Record LoadingDataBlock : Type := mkLoadingDataBlock { viewers : nat }.

#[global] Instance LoadingDataBlock_eq_dec : EqDecision LoadingDataBlock.
Proof. solve_decision. Defined.

(** Modelled from the spec: [BlockLocation], a block position and its LOD
    (the "(lod, position)" of the spec). *)
Record BlockLocation : Type := mkBlockLocation { position : Vector3i; lod : nat }.

#[global] Instance BlockLocation_eq_dec : EqDecision BlockLocation.
Proof. solve_decision. Defined.

(** Modelled from the spec: the "Per-LOD state" ([VoxelLodTerrainUpdateData::Lod]),
    "{ mesh_map, loading_blocks, mesh_blocks_pending_update,
    mesh_blocks_to_activate/deactivate/unload }". *)
Record Lod : Type := mkLod {
  mesh_map : gmap Vector3i MeshBlockState;
  loading_blocks : gmap Vector3i LoadingDataBlock;
  mesh_blocks_pending_update : list Vector3i;
  mesh_blocks_to_activate : list Vector3i;
  mesh_blocks_to_deactivate : list Vector3i;
  mesh_blocks_to_unload : list Vector3i
}.

Definition Lod_default : Lod := mkLod ∅ ∅ [] [] [] [].

Definition set_mesh_map (m : gmap Vector3i MeshBlockState) (l : Lod) : Lod :=
  mkLod m (loading_blocks l) (mesh_blocks_pending_update l)
        (mesh_blocks_to_activate l) (mesh_blocks_to_deactivate l)
        (mesh_blocks_to_unload l).

Definition set_loading_blocks (lb : gmap Vector3i LoadingDataBlock) (l : Lod) : Lod :=
  mkLod (mesh_map l) lb (mesh_blocks_pending_update l)
        (mesh_blocks_to_activate l) (mesh_blocks_to_deactivate l)
        (mesh_blocks_to_unload l).

Definition set_pending_update (p : list Vector3i) (l : Lod) : Lod :=
  mkLod (mesh_map l) (loading_blocks l) p
        (mesh_blocks_to_activate l) (mesh_blocks_to_deactivate l)
        (mesh_blocks_to_unload l).

Definition push_to_activate (p : Vector3i) (l : Lod) : Lod :=
  mkLod (mesh_map l) (loading_blocks l) (mesh_blocks_pending_update l)
        (mesh_blocks_to_activate l ++ [p]) (mesh_blocks_to_deactivate l)
        (mesh_blocks_to_unload l).

Definition push_to_deactivate (p : Vector3i) (l : Lod) : Lod :=
  mkLod (mesh_map l) (loading_blocks l) (mesh_blocks_pending_update l)
        (mesh_blocks_to_activate l) (mesh_blocks_to_deactivate l ++ [p])
        (mesh_blocks_to_unload l).

Definition push_to_unload (p : Vector3i) (l : Lod) : Lod :=
  mkLod (mesh_map l) (loading_blocks l) (mesh_blocks_pending_update l)
        (mesh_blocks_to_activate l) (mesh_blocks_to_deactivate l)
        (mesh_blocks_to_unload l ++ [p]).

(** Modelled from the spec: [ViewerBoxState], "{ view_distance_voxels,
    local_position_voxels, requires_collisions, requires_meshes,
    data_box_per_lod[L], mesh_box_per_lod[L] } where L is the LOD count". *)
Record ViewerBoxState : Type := mkViewerBoxState {
  view_distance_voxels : Z;
  local_position_voxels : Vector3i;
  requires_collisions : bool;
  requires_meshes : bool;
  data_box_per_lod : list Box3i;
  mesh_box_per_lod : list Box3i
}.

(** Modelled from the spec: the "opaque" viewer id. *)
Definition ViewerID : Type := nat.

(** Modelled from the spec: [PairedViewer], "{ id, state: ViewerBoxState,
    prev_state: ViewerBoxState }". *)
Record PairedViewer : Type := mkPairedViewer {
  pv_id : ViewerID;
  pv_state : ViewerBoxState;
  prev_state : ViewerBoxState
}.

(** A default-constructed [ViewerBoxState]: every box is [Box3i()]. *)
Definition ViewerBoxState_default (lod_count : nat) : ViewerBoxState :=
  mkViewerBoxState 0 vzero false false
                   (replicate lod_count Box3i.empty)
                   (replicate lod_count Box3i.empty).

Definition PairedViewer_new (lod_count : nat) (i : ViewerID) : PairedViewer :=
  mkPairedViewer i (ViewerBoxState_default lod_count) (ViewerBoxState_default lod_count).

(** Modelled from the spec: the Viewer, "{ id, world_position,
    view_distance, requires_visuals, requires_collisions }", as the planner
    sees it once the volume transform is applied: [local_position] is
    [floor_to_int(world_to_local.xform(world_position))] and
    [view_distance_scaled] is
    [static_cast<int>(view_distance * view_distance_scale)]. *)
Record Viewer : Type := mkViewer {
  local_position : Vector3i;
  view_distance_scaled : Z;
  require_collisions : bool;
  require_visuals : bool
}.

(** Modelled from the spec: the planner's settings
    ([VoxelLodTerrainUpdateData::Settings]), "mesh-block size power-of-two,
    lod_distance (voxels), view_distance cap"; [lod_distance_ceil] is
    [static_cast<int>(Math::ceil(lod_distance))]. *)
Record Settings : Type := mkSettings {
  mesh_block_size_po2 : Z;
  lod_distance_ceil : Z;
  settings_view_distance_voxels : Z
}.

(** Box of a per-LOD array; [Box3i()] stands for a slot never written. *)
Definition box_at (boxes : list Box3i) (lod_index : nat) : Box3i :=
  default Box3i.empty (boxes !! lod_index).

(** Modelled from the spec: [ClipboxStreamingState], the paired viewers and
    the "two mutex-protected inboxes (loaded_data_blocks,
    loaded_mesh_blocks)" filled by the loading and meshing workers. *)
Record ClipboxStreamingState : Type := mkClipboxStreamingState {
  paired_viewers : list PairedViewer;
  loaded_data_blocks : list BlockLocation;
  loaded_mesh_blocks : list BlockLocation
}.

(** Modelled from the spec: the streaming state
    ([VoxelLodTerrainUpdateData::State]): the per-LOD states and the clipbox
    streaming state. *)
Record State : Type := mkState {
  lods : list Lod;
  clipbox_streaming : ClipboxStreamingState
}.

(** ** Pairing viewers and planning their boxes: [process_viewers] *)

(** Both overloads of [find_index]: the index of the first entry whose id is
    [i]. *)
Fixpoint find_index {A : Type} (key : A -> ViewerID) (l : list A) (i : ViewerID)
  : option nat :=
  match l with
  | [] => None
  | a :: l' => if decide (key a = i) then Some 0%nat else S <$> find_index key l' i
  end.

(** [contains(viewers, id)]. *)
Definition contains (viewers : list (ViewerID * Viewer)) (i : ViewerID) : bool :=
  bool_decide (is_Some (find_index fst viewers i)).

Definition set_boxes (data mesh : list Box3i) (s : ViewerBoxState) : ViewerBoxState :=
  mkViewerBoxState (view_distance_voxels s) (local_position_voxels s)
                   (requires_collisions s) (requires_meshes s) data mesh.

(** What the first loop of [process_viewers] does to the paired viewer of a
    destroyed viewer: the view distance is nullified, the previous state takes
    that state, and every box is reset. *)
Definition unpair_destroyed (pv : PairedViewer) : PairedViewer :=
  let s := pv_state pv in
  let s0 := mkViewerBoxState 0 (local_position_voxels s) (requires_collisions s)
                             (requires_meshes s) (data_box_per_lod s) (mesh_box_per_lod s) in
  mkPairedViewer (pv_id pv)
                 (set_boxes ((fun _ => Box3i.empty) <$> data_box_per_lod s0)
                            ((fun _ => Box3i.empty) <$> mesh_box_per_lod s0) s0)
                 s0.

(** The loop over destroyed viewers, from paired viewer index [index] on. *)
Fixpoint process_destroyed_viewers (viewers : list (ViewerID * Viewer))
    (pvs : list PairedViewer) (index : nat) : list PairedViewer * list nat :=
  match pvs with
  | [] => ([], [])
  | pv :: rest =>
      let r := process_destroyed_viewers viewers rest (S index) in
      if contains viewers (pv_id pv) then (pv :: r.1, r.2)
      else (unpair_destroyed pv :: r.1, index :: r.2)
  end.

Section planner.

Variable volume_settings : Settings.
Variable lod_count : nat.
Variable volume_bounds_in_voxels : Box3i.
Variable data_block_size_po2 : Z.
Variable can_mesh : bool.

Definition data_block_size : Z := Z.shiftl 1 data_block_size_po2.
Definition mesh_block_size : Z := Z.shiftl 1 (mesh_block_size_po2 volume_settings).
Definition mesh_to_data_factor : Z := Z.quot mesh_block_size data_block_size.
Definition lod_distance_in_mesh_chunks : Z :=
  get_lod_distance_in_mesh_chunks (lod_distance_ceil volume_settings) mesh_block_size.
Definition lod_distance_in_data_chunks : Z :=
  lod_distance_in_mesh_chunks * mesh_to_data_factor.

Definition last_lod_mesh_block_size : Z :=
  Z.shiftl mesh_block_size (Z.of_nat (lod_count - 1)).
Definition last_lod_distance_in_mesh_chunks (view_distance : Z) : Z :=
  Z.max (math.ceildiv view_distance last_lod_mesh_block_size) lod_distance_in_mesh_chunks.
Definition last_lod_distance_in_data_chunks : Z :=
  last_lod_mesh_block_size * mesh_to_data_factor.

(** [lod_index == lod_count - 1]. *)
Definition is_last_lod (lod_index : nat) : bool :=
  bool_decide (lod_index = (lod_count - 1)%nat).

(** [volume_bounds_in_voxels.downscaled(lod_mesh_block_size)]. *)
Definition volume_bounds_in_mesh_blocks (lod_index : nat) : Box3i :=
  Box3i.downscaled volume_bounds_in_voxels
    (Z.shiftl 1 (mesh_block_size_po2 volume_settings + Z.of_nat lod_index)).

(** [Box3i(bounds.pos >> po2, bounds.size >> po2)]. *)
Definition volume_bounds_in_data_blocks (lod_index : nat) : Box3i :=
  let po2 := data_block_size_po2 + Z.of_nat lod_index in
  mkBox3i (vshr (pos volume_bounds_in_voxels) po2)
          (vshr (size volume_bounds_in_voxels) po2).

(** The neighboring-rule box built from the mesh box of the child LOD. *)
Definition neighboring_min_box (child_box : Box3i) (lod_index : nat) : Box3i :=
  let min_pad := 2 in
  let min_box :=
    Box3i.padded (mkBox3i (vshr (pos child_box) 1) (vshr (size child_box) 1)) min_pad in
  if is_last_lod lod_index then min_box
  else Box3i.scaled (Box3i.downscaled min_box 2) 2.

(** The mesh box an iteration of the mesh-box loop computes for
    [lod_index], the boxes of the smaller LODs being already in
    [mesh_boxes] (meshes required). *)
Definition planned_mesh_box (position : Vector3i) (view_distance : Z)
    (mesh_boxes : list Box3i) (lod_index : nat) : Box3i :=
  let lod_mesh_block_size :=
    Z.shiftl 1 (mesh_block_size_po2 volume_settings + Z.of_nat lod_index) in
  let ld := if is_last_lod lod_index then last_lod_distance_in_mesh_chunks view_distance
            else lod_distance_in_mesh_chunks in
  let new_mesh_box :=
    get_base_box_in_chunks position (ld * lod_mesh_block_size) lod_mesh_block_size
                           (negb (is_last_lod lod_index)) in
  let new_mesh_box :=
    match lod_index with
    | O => new_mesh_box
    | S child_index =>
        Box3i.merge_with new_mesh_box
          (neighboring_min_box (box_at mesh_boxes child_index) lod_index)
    end in
  Box3i.clipped new_mesh_box (volume_bounds_in_mesh_blocks lod_index).

(** One iteration of the mesh-box loop. *)
Definition plan_mesh_box (position : Vector3i) (view_distance : Z)
    (mesh_boxes : list Box3i) (lod_index : nat) : list Box3i :=
  <[lod_index := planned_mesh_box position view_distance mesh_boxes lod_index]> mesh_boxes.

(** The data box derived from the mesh box of [lod_index] (meshes
    required). *)
Definition planned_data_box_from_mesh (mesh_boxes : list Box3i) (lod_index : nat) : Box3i :=
  let mesh_box := box_at mesh_boxes lod_index in
  Box3i.clipped
    (Box3i.padded (mkBox3i (vscale (pos mesh_box) mesh_to_data_factor)
                           (vscale (size mesh_box) mesh_to_data_factor)) 1)
    (volume_bounds_in_data_blocks lod_index).

(** One iteration of the data-box loop (meshes required). *)
Definition plan_data_box_from_mesh (mesh_boxes data_boxes : list Box3i)
    (lod_index : nat) : list Box3i :=
  <[lod_index := planned_data_box_from_mesh mesh_boxes lod_index]> data_boxes.

(** The data box of [lod_index] when meshes are not required. *)
Definition planned_data_box_alone (position : Vector3i) (lod_index : nat) : Box3i :=
  let lod_data_block_size := Z.shiftl 1 (data_block_size_po2 + Z.of_nat lod_index) in
  let ld := if is_last_lod lod_index then lod_distance_in_data_chunks
            else last_lod_distance_in_data_chunks in
  Box3i.clipped
    (get_base_box_in_chunks position (ld * lod_data_block_size) lod_data_block_size
                            (negb (is_last_lod lod_index)))
    (volume_bounds_in_data_blocks lod_index).

(** One iteration of the data-box loop when meshes are not required. *)
Definition plan_data_box_alone (position : Vector3i) (data_boxes : list Box3i)
    (lod_index : nat) : list Box3i :=
  <[lod_index := planned_data_box_alone position lod_index]> data_boxes.

(** The body of the loop over viewers, for an already paired viewer. *)
Definition plan_viewer (viewer : Viewer) (paired_viewer : PairedViewer) : PairedViewer :=
  let prev := pv_state paired_viewer in
  let view_distance :=
    Z.min (view_distance_scaled viewer) (settings_view_distance_voxels volume_settings) in
  let position := local_position viewer in
  let collisions := require_collisions viewer in
  let meshes := require_visuals viewer && can_mesh in
  let lod_indices := seq 0 lod_count in
  let new_state :=
    if collisions || meshes then
      let mesh_boxes :=
        foldl (plan_mesh_box position view_distance) (mesh_box_per_lod prev) lod_indices in
      let data_boxes :=
        foldl (plan_data_box_from_mesh mesh_boxes) (data_box_per_lod prev) lod_indices in
      mkViewerBoxState view_distance position collisions meshes data_boxes mesh_boxes
    else
      let mesh_boxes :=
        foldl (fun boxes lod_index => <[lod_index := Box3i.empty]> boxes)
              (mesh_box_per_lod prev) lod_indices in
      let data_boxes :=
        foldl (plan_data_box_alone position) (data_box_per_lod prev) lod_indices in
      mkViewerBoxState view_distance position collisions meshes data_boxes mesh_boxes in
  mkPairedViewer (pv_id paired_viewer) new_state prev.

(** The loop over viewers: pair the viewer if it is new, then plan. *)
Definition pair_and_plan (pvs : list PairedViewer) (viewer_and_id : ViewerID * Viewer)
  : list PairedViewer :=
  let viewer_id := viewer_and_id.1 in
  let viewer := viewer_and_id.2 in
  let paired :=
    match find_index pv_id pvs viewer_id with
    | Some paired_viewer_index => (pvs, paired_viewer_index)
    | None => (pvs ++ [PairedViewer_new lod_count viewer_id], length pvs)
    end in
  alter (plan_viewer viewer) paired.2 paired.1.

(** [process_viewers]: the new paired viewers and
    [unpaired_viewers_to_remove]. *)
Definition process_viewers (cs : ClipboxStreamingState)
    (viewers : list (ViewerID * Viewer)) : ClipboxStreamingState * list nat :=
  let d := process_destroyed_viewers viewers (paired_viewers cs) 0 in
  let pvs := foldl pair_and_plan d.1 viewers in
  (mkClipboxStreamingState pvs (loaded_data_blocks cs) (loaded_mesh_blocks cs), d.2).

End planner.

(** [remove_unpaired_viewers]: indices are taken from the last to the first;
    each removed entry is overwritten by the last entry, which is popped. *)
Definition remove_unpaired_viewer (pvs : list PairedViewer) (vi : nat) : list PairedViewer :=
  match last pvs with
  | Some back => removelast (<[vi := back]> pvs)
  | None => pvs
  end.

Definition remove_unpaired_viewers (unpaired_viewers_to_remove : list nat)
    (pvs : list PairedViewer) : list PairedViewer :=
  foldl remove_unpaired_viewer pvs (rev unpaired_viewers_to_remove).

(** ** Cells of a box and box difference *)

(** The integers [a], [a+1], ..., [a+n-1] (none when [n <= 0]). *)
Definition zrange (a n : Z) : list Z :=
  (fun i => a + Z.of_nat i) <$> seq 0 (Z.to_nat n).

Module Box3iCells.

(** Modelled from the spec: [Box3i::for_each_cell], the cells of the box,
    with [z] outermost and [x] innermost. *)
Definition for_each_cell (b : Box3i) : list Vector3i :=
  cz ← zrange (z (pos b)) (z (size b));
  cy ← zrange (y (pos b)) (y (size b));
  cx ← zrange (x (pos b)) (x (size b));
  [mkVector3i cx cy cz].

(** Modelled from the spec: [Box3i::difference], "decomposition of the outer
    box minus the inner intersection into up to six axis-aligned sub-boxes":
    the slabs of [a] below [b] on x, y, z, then above [b] on x, y, z, each
    cut from what the previous slabs left.  The whole of [a] when the boxes
    do not intersect. *)
Definition difference (a b : Box3i) : list Box3i :=
  if negb (Box3i.intersects a b) then [a]
  else
    let b_min := pos b in
    let b_max := Box3i.end_ b in
    let a_min := pos a in
    let a_max := Box3i.end_ a in
    let out := [] in
    (* below, x *)
    let cut := bool_decide (x a_min < x b_min) in
    let out := if cut then
                 out ++ [mkBox3i a_min (mkVector3i (x b_min - x a_min)
                                                   (y a_max - y a_min) (z a_max - z a_min))]
               else out in
    let a_min := if cut then mkVector3i (x b_min) (y a_min) (z a_min) else a_min in
    (* below, y *)
    let cut := bool_decide (y a_min < y b_min) in
    let out := if cut then
                 out ++ [mkBox3i a_min (mkVector3i (x a_max - x a_min)
                                                   (y b_min - y a_min) (z a_max - z a_min))]
               else out in
    let a_min := if cut then mkVector3i (x a_min) (y b_min) (z a_min) else a_min in
    (* below, z *)
    let cut := bool_decide (z a_min < z b_min) in
    let out := if cut then
                 out ++ [mkBox3i a_min (mkVector3i (x a_max - x a_min)
                                                   (y a_max - y a_min) (z b_min - z a_min))]
               else out in
    let a_min := if cut then mkVector3i (x a_min) (y a_min) (z b_min) else a_min in
    (* above, x *)
    let cut := bool_decide (x b_max < x a_max) in
    let out := if cut then
                 out ++ [mkBox3i (mkVector3i (x b_max) (y a_min) (z a_min))
                                 (mkVector3i (x a_max - x b_max)
                                             (y a_max - y a_min) (z a_max - z a_min))]
               else out in
    let a_max := if cut then mkVector3i (x b_max) (y a_max) (z a_max) else a_max in
    (* above, y *)
    let cut := bool_decide (y b_max < y a_max) in
    let out := if cut then
                 out ++ [mkBox3i (mkVector3i (x a_min) (y b_max) (z a_min))
                                 (mkVector3i (x a_max - x a_min)
                                             (y a_max - y b_max) (z a_max - z a_min))]
               else out in
    let a_max := if cut then mkVector3i (x a_max) (y b_max) (z a_max) else a_max in
    (* above, z *)
    let cut := bool_decide (z b_max < z a_max) in
    let out := if cut then
                 out ++ [mkBox3i (mkVector3i (x a_min) (y a_min) (z b_max))
                                 (mkVector3i (x a_max - x a_min)
                                             (y a_max - y a_min) (z a_max - z b_max))]
               else out in
    out.

End Box3iCells.

(** ** The data grid ([VoxelData], not part of the sources at hand) *)

(** Modelled from the spec: a resident DataBlock, of which the streaming
    code needs the "view_count" and the "modified_flag". *)
Record DataBlock : Type := mkDataBlock { view_count : nat; modified_flag : bool }.

(** Modelled from the spec: the Data Grid, "chunked voxel storage across
    LODs" with "view/unview refcounted area operations", together with the
    configuration the streaming code reads from it. *)
Record VoxelData : Type := mkVoxelData {
  data_lods : list (gmap Vector3i DataBlock);
  data_bounds : Box3i;
  data_block_size_po2_ : Z;
  data_lod_count : nat;
  streaming_enabled : bool;
  full_load_completed : bool
}.

Definition set_data_lods (l : list (gmap Vector3i DataBlock)) (d : VoxelData) : VoxelData :=
  mkVoxelData l (data_bounds d) (data_block_size_po2_ d) (data_lod_count d)
              (streaming_enabled d) (full_load_completed d).

Module VoxelDataOps.

Definition blocks_at (d : VoxelData) (lod_index : nat) : gmap Vector3i DataBlock :=
  default ∅ (data_lods d !! lod_index).

(** Modelled from the spec: [view_area], which "increments refcounts over
    box cells; splits results": a resident block gets one more view, an
    absent one is reported missing.  Returns the grid and the missing
    cells. *)
Definition view_cell (lod_index : nat) (acc : VoxelData * list Vector3i) (cell : Vector3i)
  : VoxelData * list Vector3i :=
  let d := acc.1 in
  match blocks_at d lod_index !! cell with
  | Some blk =>
      (set_data_lods
         (alter (insert cell (mkDataBlock (RefCount.add (view_count blk)) (modified_flag blk)))
                lod_index (data_lods d)) d,
       acc.2)
  | None => (d, acc.2 ++ [cell])
  end.

Definition view_area (d : VoxelData) (box : Box3i) (lod_index : nat)
    (out_missing : list Vector3i) : VoxelData * list Vector3i :=
  foldl (view_cell lod_index) (d, out_missing) (Box3iCells.for_each_cell box).

(** The outputs of [unview_area]. *)
Record Unviewed : Type := mkUnviewed {
  uv_data : VoxelData;
  uv_found : list Vector3i;
  uv_missing : list Vector3i;
  uv_to_save : list BlockLocation
}.

(** Modelled from the spec: [unview_area], which "decrements refcounts;
    reports which were present and which were pending": a resident block
    loses a view and, when none is left, is removed, reported found and, if
    modified, handed over for saving; an absent cell is reported missing. *)
Definition unview_cell (lod_index : nat) (acc : Unviewed) (cell : Vector3i) : Unviewed :=
  let d := uv_data acc in
  match blocks_at d lod_index !! cell with
  | Some blk =>
      let c := RefCount.remove (view_count blk) in
      if bool_decide (c = 0%nat) then
        mkUnviewed (set_data_lods (alter (delete cell) lod_index (data_lods d)) d)
                   (uv_found acc ++ [cell]) (uv_missing acc)
                   (if modified_flag blk
                    then uv_to_save acc ++ [mkBlockLocation cell lod_index]
                    else uv_to_save acc)
      else
        mkUnviewed
          (set_data_lods
             (alter (insert cell (mkDataBlock c (modified_flag blk))) lod_index (data_lods d)) d)
          (uv_found acc) (uv_missing acc) (uv_to_save acc)
  | None =>
      mkUnviewed d (uv_found acc) (uv_missing acc ++ [cell]) (uv_to_save acc)
  end.

Definition unview_area (acc : Unviewed) (box : Box3i) (lod_index : nat) : Unviewed :=
  foldl (unview_cell lod_index) acc (Box3iCells.for_each_cell box).

(** Modelled from the spec: [has_all_blocks_in_area]. *)
Definition has_all_blocks_in_area (d : VoxelData) (box : Box3i) (lod_index : nat) : bool :=
  forallb (fun cell => bool_decide (is_Some (blocks_at d lod_index !! cell)))
          (Box3iCells.for_each_cell box).

End VoxelDataOps.

(** ** The streaming differ for data blocks: [process_data_blocks_sliding_box] *)

(** How a loop body leaves: go on with the next iteration, [break] out of the
    loop over LODs, or [return] from the function. *)
Inductive Flow : Type := Continue | Break | Return.

(** The [Lod] at an index of [state.lods]. *)
Definition lod_at (ls : list Lod) (lod_index : nat) : Lod :=
  default Lod_default (ls !! lod_index).

(** [add_loading_block]: the new loading blocks, and whether the block is
    requested for the first time. *)
Definition add_loading_block (l : Lod) (position : Vector3i) : Lod * bool :=
  match loading_blocks l !! position with
  | None =>
      (set_loading_blocks
         (<[position := mkLoadingDataBlock (RefCount.add 0)]> (loading_blocks l)) l, true)
  | Some lb =>
      (set_loading_blocks
         (<[position := mkLoadingDataBlock (RefCount.add (viewers lb))]> (loading_blocks l)) l,
       false)
  end.

(** The loop over [data_blocks_to_load] that drops a cancelled request: the
    first entry equal to [bloc] is overwritten by the last entry, which is
    popped. *)
Definition remove_block_to_load (bloc : BlockLocation) (to_load : list BlockLocation)
  : list BlockLocation :=
  match list_find (fun b => b = bloc) to_load, last to_load with
  | Some (i, _), Some back => removelast (<[i := back]> to_load)
  | _, _ => to_load
  end.

(** What the data differ reads and writes. *)
Record DataStreaming : Type := mkDataStreaming {
  ds_lods : list Lod;
  ds_data : VoxelData;
  ds_blocks_to_save : list BlockLocation;
  ds_blocks_to_load : list BlockLocation
}.

(** The loop over the cells [unview_area] reported missing: the viewer
    reference of each loading block is dropped and the load cancelled when
    none is left.  A cell that has no loading block makes the function
    [return]. *)
Fixpoint unview_missing_blocks (lod_index : nat) (l : Lod)
    (to_load : list BlockLocation) (missing : list Vector3i)
  : Lod * list BlockLocation * Flow :=
  match missing with
  | [] => (l, to_load, Continue)
  | bpos :: rest =>
      match loading_blocks l !! bpos with
      | None => (l, to_load, Return)
      | Some loading_block =>
          let c := RefCount.remove (viewers loading_block) in
          if bool_decide (c = 0%nat) then
            unview_missing_blocks lod_index
              (set_loading_blocks (delete bpos (loading_blocks l)) l)
              (remove_block_to_load (mkBlockLocation bpos lod_index) to_load) rest
          else
            unview_missing_blocks lod_index
              (set_loading_blocks (<[bpos := mkLoadingDataBlock c]> (loading_blocks l)) l)
              to_load rest
      end
  end.

(** Modelled from the spec: [unordered_remove_if] "drops" from the vector the
    items that satisfy the predicate.  Here the predicate of the data differ:
    an update outside [mesh_box] is dropped and, if its block is in the mesh
    map, the block goes back to [MESH_NEED_UPDATE]. *)
Definition cancel_updates_outside_data (mesh_box : Box3i) (l : Lod) : Lod :=
  let dropped := filter (fun bpos => Box3i.contains mesh_box bpos = false)
                        (mesh_blocks_pending_update l) in
  let kept := filter (fun bpos => Box3i.contains mesh_box bpos = true)
                     (mesh_blocks_pending_update l) in
  set_pending_update kept
    (set_mesh_map
       (foldl (fun m bpos => alter (set_state MESH_NEED_UPDATE) bpos m) (mesh_map l) dropped)
       l).

Section data_differ.

Variable settings : Settings.
Variable lod_count : nat.
Variable can_load : bool.

(** The "Cancel updates" block at the end of the loop over LODs. *)
Definition cancel_data_updates (data : VoxelData) (new_data_box : Box3i) (l : Lod) : Lod :=
  let mesh_block_size := Z.shiftl 1 (mesh_block_size_po2 settings) in
  let data_block_size := Z.shiftl 1 (data_block_size_po2_ data) in
  let padded_new_box := Box3i.padded new_data_box (-1) in
  let mesh_box :=
    if data_block_size <? mesh_block_size then
      Box3i.downscaled_inner padded_new_box (Z.quot mesh_block_size data_block_size)
    else padded_new_box in
  cancel_updates_outside_data mesh_box l.

(** "Detect blocks to load". *)
Definition load_entering_blocks (lod_index : nat) (new_data_box prev_data_box : Box3i)
    (c : DataStreaming) : DataStreaming :=
  let viewed :=
    foldl (fun acc box_to_load => VoxelDataOps.view_area acc.1 box_to_load lod_index acc.2)
          (ds_data c, []) (Box3iCells.difference new_data_box prev_data_box) in
  let added :=
    foldl (fun (acc : Lod * list BlockLocation) bpos =>
             let r := add_loading_block acc.1 bpos in
             (r.1, if r.2 then acc.2 ++ [mkBlockLocation bpos lod_index] else acc.2))
          (lod_at (ds_lods c) lod_index, ds_blocks_to_load c) viewed.2 in
  mkDataStreaming (<[lod_index := added.1]> (ds_lods c)) viewed.1
                  (ds_blocks_to_save c) added.2.

(** "Detect blocks to unload". *)
Definition unload_leaving_blocks (lod_index : nat) (new_data_box prev_data_box : Box3i)
    (c : DataStreaming) : DataStreaming * Flow :=
  let uv :=
    foldl (fun acc box_to_remove => VoxelDataOps.unview_area acc box_to_remove lod_index)
          (VoxelDataOps.mkUnviewed (ds_data c) [] [] (ds_blocks_to_save c))
          (Box3iCells.difference prev_data_box new_data_box) in
  let l := lod_at (ds_lods c) lod_index in
  let l := set_loading_blocks
             (foldl (fun m bpos => delete bpos m) (loading_blocks l)
                    (VoxelDataOps.uv_found uv)) l in
  let r := unview_missing_blocks lod_index l (ds_blocks_to_load c)
                                 (VoxelDataOps.uv_missing uv) in
  (mkDataStreaming (<[lod_index := r.1.1]> (ds_lods c)) (VoxelDataOps.uv_data uv)
                   (VoxelDataOps.uv_to_save uv) r.1.2,
   r.2).

(** The body of the loop over LODs for one paired viewer. *)
Definition process_data_lod (paired_viewer : PairedViewer) (lod_index : nat)
    (c : DataStreaming) : DataStreaming * Flow :=
  let data := ds_data c in
  let po2 := data_block_size_po2_ data + Z.of_nat lod_index in
  let bounds_in_data_blocks :=
    mkBox3i (vshr (pos (data_bounds data)) po2) (vshr (size (data_bounds data)) po2) in
  let new_data_box := box_at (data_box_per_lod (pv_state paired_viewer)) lod_index in
  let prev_data_box := box_at (data_box_per_lod (prev_state paired_viewer)) lod_index in
  if negb (Box3i.intersects new_data_box bounds_in_data_blocks)
     && negb (Box3i.intersects prev_data_box bounds_in_data_blocks)
  then (c, Break)
  else
    let r :=
      if bool_decide (prev_data_box <> new_data_box) then
        let c := if can_load
                 then load_entering_blocks lod_index new_data_box prev_data_box c
                 else c in
        unload_leaving_blocks lod_index new_data_box prev_data_box c
      else (c, Continue) in
    match r.2 with
    | Return => r
    | _ =>
        let c := r.1 in
        (mkDataStreaming
           (alter (cancel_data_updates (ds_data c) new_data_box) lod_index (ds_lods c))
           (ds_data c) (ds_blocks_to_save c) (ds_blocks_to_load c),
         Continue)
    end.

(** The loop over LODs, from the biggest to the smallest. *)
Fixpoint process_data_lods (paired_viewer : PairedViewer) (lod_indices : list nat)
    (c : DataStreaming) : DataStreaming * Flow :=
  match lod_indices with
  | [] => (c, Continue)
  | lod_index :: rest =>
      let r := process_data_lod paired_viewer lod_index c in
      match r.2 with
      | Continue => process_data_lods paired_viewer rest r.1
      | Break => (r.1, Continue)
      | Return => r
      end
  end.

(** The loop over paired viewers. *)
Fixpoint process_data_viewers (pvs : list PairedViewer) (c : DataStreaming)
  : DataStreaming :=
  match pvs with
  | [] => c
  | paired_viewer :: rest =>
      let r := process_data_lods paired_viewer (rev (seq 0 lod_count)) c in
      match r.2 with
      | Return => r.1
      | _ => process_data_viewers rest r.1
      end
  end.

(** [process_data_blocks_sliding_box]; it does nothing in full load mode. *)
Definition process_data_blocks_sliding_box (state : State) (data : VoxelData)
    (blocks_to_save data_blocks_to_load : list BlockLocation) : DataStreaming :=
  let c := mkDataStreaming (lods state) data blocks_to_save data_blocks_to_load in
  if streaming_enabled data
  then process_data_viewers (paired_viewers (clipbox_streaming state)) c
  else c.

End data_differ.

(** ** The differ for mesh blocks: [process_mesh_blocks_sliding_box] *)

(** [get_child_position_from_first_sibling]; [child_index] is unsigned. *)
Definition get_child_position_from_first_sibling (first_sibling_position : Vector3i)
    (child_index : nat) : Vector3i :=
  let i := Z.of_nat child_index in
  mkVector3i (x first_sibling_position + Z.land i 1)
             (y first_sibling_position + Z.shiftr (Z.land i 2) 1)
             (z first_sibling_position + Z.shiftr (Z.land i 4) 2).

(** [get_child_position]. *)
Definition get_child_position (parent_position : Vector3i) (child_index : nat) : Vector3i :=
  get_child_position_from_first_sibling (vscale parent_position 2) child_index.

(** "Add meshes entering range", for one cell. *)
Definition view_mesh_cell (is_full_load_mode : bool) (l : Lod) (bpos : Vector3i) : Lod :=
  match mesh_map l !! bpos with
  | None =>
      (* [insert_new], then the two reference counts *)
      let mesh_block := MeshBlockState_default in
      let mesh_block := if is_full_load_mode
                        then set_state MESH_UPDATE_NOT_SENT mesh_block else mesh_block in
      let l := if is_full_load_mode
               then set_pending_update (mesh_blocks_pending_update l ++ [bpos]) l else l in
      set_mesh_map
        (<[bpos := set_viewers (RefCount.add (mesh_viewers mesh_block))
                               (RefCount.add (collision_viewers mesh_block)) mesh_block]>
           (mesh_map l)) l
  | Some mesh_block =>
      set_mesh_map
        (<[bpos := set_viewers (RefCount.add (mesh_viewers mesh_block))
                               (RefCount.add (collision_viewers mesh_block)) mesh_block]>
           (mesh_map l)) l
  end.

(** "Remove meshes out of range", for one cell. *)
Definition unview_mesh_cell (l : Lod) (bpos : Vector3i) : Lod :=
  match mesh_map l !! bpos with
  | Some mesh_block =>
      let mv := RefCount.remove (mesh_viewers mesh_block) in
      let cv := RefCount.remove (collision_viewers mesh_block) in
      if bool_decide (mv = 0%nat) && bool_decide (cv = 0%nat) then
        push_to_unload bpos (set_mesh_map (delete bpos (mesh_map l)) l)
      else
        set_mesh_map (<[bpos := set_viewers mv cv mesh_block]> (mesh_map l)) l
  | None => l
  end.

(** "Show parents when children are removed", for one cell of the parent
    box; [l] is the LOD the children left. *)
Definition show_parent_cell (l parent_lod : Lod) (bpos : Vector3i) : Lod :=
  match mesh_map parent_lod !! bpos with
  | Some mesh_block =>
      if negb (active mesh_block) then
        let child_bpos0 := vshl bpos 1 in
        match mesh_map l !! child_bpos0 with
        | Some _ => parent_lod
        | None =>
            push_to_activate bpos
              (set_mesh_map (<[bpos := set_active true mesh_block]> (mesh_map parent_lod))
                            parent_lod)
        end
      else parent_lod
  | None => parent_lod
  end.

Section mesh_differ.

Variable settings : Settings.
Variable bounds_in_voxels : Box3i.
Variable lod_count : nat.
Variable is_full_load_mode : bool.
Variable can_load : bool.

(** What the differ does with one box of [prev_mesh_box \ new_mesh_box]. *)
Definition remove_out_of_range_box (lod_index : nat) (ls : list Lod)
    (out_of_range_box : Box3i) : list Lod :=
  let l := foldl unview_mesh_cell (lod_at ls lod_index)
                 (Box3iCells.for_each_cell out_of_range_box) in
  let ls := <[lod_index := l]> ls in
  let parent_lod_index := S lod_index in
  if bool_decide (parent_lod_index < lod_count)%nat then
    let parent_box :=
      mkBox3i (vshr (pos out_of_range_box) 1) (vshr (size out_of_range_box) 1) in
    let parent_lod :=
      foldl (show_parent_cell l) (lod_at ls parent_lod_index)
            (Box3iCells.for_each_cell parent_box) in
    <[parent_lod_index := parent_lod]> ls
  else ls.

(** What the differ does with one box of [new_mesh_box \ prev_mesh_box]. *)
Definition add_entering_box (lod_index : nat) (ls : list Lod) (box_to_add : Box3i)
  : list Lod :=
  alter (fun l => foldl (view_mesh_cell is_full_load_mode) l
                        (Box3iCells.for_each_cell box_to_add))
        lod_index ls.

(** The last block of the loop: updates outside the new mesh box are dropped
    from the pending list. *)
Definition cancel_mesh_updates (new_mesh_box : Box3i) (l : Lod) : Lod :=
  set_pending_update
    (filter (fun bpos => Box3i.contains new_mesh_box bpos = true)
            (mesh_blocks_pending_update l)) l.

(** The body of the loop over LODs for one paired viewer. *)
Definition process_mesh_lod (paired_viewer : PairedViewer) (lod_index : nat)
    (ls : list Lod) : list Lod * Flow :=
  let lod_mesh_block_size :=
    Z.shiftl 1 (mesh_block_size_po2 settings + Z.of_nat lod_index) in
  let bounds_in_mesh_blocks := Box3i.downscaled bounds_in_voxels lod_mesh_block_size in
  let new_mesh_box := box_at (mesh_box_per_lod (pv_state paired_viewer)) lod_index in
  let prev_mesh_box := box_at (mesh_box_per_lod (prev_state paired_viewer)) lod_index in
  if negb (Box3i.intersects new_mesh_box bounds_in_mesh_blocks)
     && negb (Box3i.intersects prev_mesh_box bounds_in_mesh_blocks)
  then (ls, Break)
  else
    let ls :=
      if bool_decide (prev_mesh_box <> new_mesh_box) then
        let ls := if can_load
                  then foldl (add_entering_box lod_index) ls
                             (Box3iCells.difference new_mesh_box prev_mesh_box)
                  else ls in
        foldl (remove_out_of_range_box lod_index) ls
              (Box3iCells.difference prev_mesh_box new_mesh_box)
      else ls in
    (alter (cancel_mesh_updates new_mesh_box) lod_index ls, Continue).

Fixpoint process_mesh_lods (paired_viewer : PairedViewer) (lod_indices : list nat)
    (ls : list Lod) : list Lod :=
  match lod_indices with
  | [] => ls
  | lod_index :: rest =>
      let r := process_mesh_lod paired_viewer lod_index ls in
      match r.2 with
      | Continue => process_mesh_lods paired_viewer rest r.1
      | _ => r.1
      end
  end.

(** [process_mesh_blocks_sliding_box]. *)
Definition process_mesh_blocks_sliding_box (state : State) : State :=
  mkState
    (foldl (fun ls paired_viewer =>
              process_mesh_lods paired_viewer (rev (seq 0 lod_count)) ls)
           (lods state) (paired_viewers (clipbox_streaming state)))
    (clipbox_streaming state).

End mesh_differ.

(** ** Load completions *)

(** The second half of the cell loop of
    [process_loaded_data_blocks_trigger_meshing], once the mesh position is
    known not to have been checked yet. *)
Definition trigger_meshing_at (data : VoxelData) (bounds_in_data_blocks : Box3i)
    (data_to_mesh_shift : Z) (lod_index : nat) (l : Lod) (mesh_block_pos : Vector3i) : Lod :=
  match mesh_map l !! mesh_block_pos with
  | None => l
  | Some mesh_block =>
      match state mesh_block with
      | MESH_NEED_UPDATE | MESH_NEVER_UPDATED =>
          let data_box :=
            Box3i.clipped
              (mkBox3i (vsub (vshl mesh_block_pos data_to_mesh_shift) (mkVector3i 1 1 1))
                       (Vector3iUtil.create (Z.shiftl 1 data_to_mesh_shift + 2)))
              bounds_in_data_blocks in
          if VoxelDataOps.has_all_blocks_in_area data data_box lod_index then
            set_pending_update (mesh_blocks_pending_update l ++ [mesh_block_pos])
              (set_mesh_map
                 (<[mesh_block_pos := set_state MESH_UPDATE_NOT_SENT mesh_block]> (mesh_map l)) l)
          else l
      | _ => l
      end
  end.

(** [process_loaded_data_blocks_trigger_meshing].  The per-LOD sets of mesh
    positions already checked are kept as one set of (LOD, position) pairs. *)
Definition process_loaded_data_blocks_trigger_meshing (data : VoxelData) (st : State)
    (settings : Settings) (bounds_in_voxels : Box3i) : State :=
  if negb (streaming_enabled data) then st
  else
    let tls_loaded_blocks := loaded_data_blocks (clipbox_streaming st) in
    let data_to_mesh_shift := mesh_block_size_po2 settings - data_block_size_po2_ data in
    let step_cell (bloc : BlockLocation) (bounds_in_data_blocks : Box3i)
                  (acc : list Lod * gset (nat * Vector3i)) (data_bpos : Vector3i) :=
      let mesh_block_pos := vshr data_bpos data_to_mesh_shift in
      if bool_decide ((lod bloc, mesh_block_pos) ∈ acc.2) then acc
      else
        (alter (fun l => trigger_meshing_at data bounds_in_data_blocks data_to_mesh_shift
                                            (lod bloc) l mesh_block_pos)
               (lod bloc) acc.1,
         {[ (lod bloc, mesh_block_pos) ]} ∪ acc.2) in
    let step_bloc (acc : list Lod * gset (nat * Vector3i)) (bloc : BlockLocation) :=
      let po2 := data_block_size_po2_ data + Z.of_nat (lod bloc) in
      let bounds_in_data_blocks :=
        mkBox3i (vshr (pos bounds_in_voxels) po2) (vshr (size bounds_in_voxels) po2) in
      let data_neighboring :=
        Box3i.clipped (mkBox3i (vsub (position bloc) (mkVector3i 1 1 1)) (mkVector3i 3 3 3))
                      bounds_in_data_blocks in
      foldl (step_cell bloc bounds_in_data_blocks) acc
            (Box3iCells.for_each_cell data_neighboring) in
    let r := foldl step_bloc (lods st, ∅) tls_loaded_blocks in
    mkState r.1
            (mkClipboxStreamingState (paired_viewers (clipbox_streaming st)) []
                                     (loaded_mesh_blocks (clipbox_streaming st))).

(** Whether the eight children of [parent_bpos] are all in the mesh map of
    [l] and loaded (the sibling loop of [update_mesh_block_load]). *)
Definition all_siblings_loaded (l : Lod) (parent_bpos : Vector3i) : bool :=
  forallb (fun sibling_index =>
             match mesh_map l !! get_child_position parent_bpos sibling_index with
             | Some sibling => loaded sibling
             | None => false
             end) (seq 0 8).

(** [mesh_block.active = true] with the push onto [mesh_blocks_to_activate]. *)
Definition activate_block (bpos : Vector3i) (l : Lod) : Lod :=
  push_to_activate bpos (set_mesh_map (alter (set_active true) bpos (mesh_map l)) l).

(** [parent_mesh_block.active = false] with the push onto
    [mesh_blocks_to_deactivate]. *)
Definition deactivate_block (bpos : Vector3i) (l : Lod) : Lod :=
  push_to_deactivate bpos (set_mesh_map (alter (set_active false) bpos (mesh_map l)) l).

(** [update_mesh_block_load], on [state.lods].  The recursion goes down one
    LOD at a time. *)
Fixpoint update_mesh_block_load (lod_count lod_index : nat) (ls : list Lod)
    (bpos : Vector3i) {struct lod_index} : list Lod :=
  match mesh_map (lod_at ls lod_index) !! bpos with
  | None => ls
  | Some mesh_block =>
      if negb (loaded mesh_block) then ls
      else
        let parent_lod_index := S lod_index in
        if bool_decide (parent_lod_index = lod_count) then
          (* Root *)
          let ls := if negb (active mesh_block)
                    then alter (activate_block bpos) lod_index ls else ls in
          match lod_index with
          | O => ls
          | S child_lod_index =>
              foldl (fun ls child_index =>
                       update_mesh_block_load lod_count child_lod_index ls
                                              (get_child_position bpos child_index))
                    ls (seq 0 8)
          end
        else
          (* Not root *)
          let parent_bpos := vshr bpos 1 in
          match mesh_map (lod_at ls parent_lod_index) !! parent_bpos with
          | None => ls
          | Some parent_mesh_block =>
              if active parent_mesh_block
                 && all_siblings_loaded (lod_at ls lod_index) parent_bpos then
                (* Hide parent *)
                let ls := alter (deactivate_block parent_bpos) parent_lod_index ls in
                (* Show siblings *)
                foldl (fun ls sibling_index =>
                         let sibling_bpos := get_child_position parent_bpos sibling_index in
                         let ls := alter (activate_block sibling_bpos) lod_index ls in
                         match lod_index with
                         | O => ls
                         | S child_lod_index =>
                             foldl (fun ls (child_index : nat) =>
                                      update_mesh_block_load lod_count child_lod_index ls
                                        (get_child_position sibling_bpos sibling_index))
                                   ls (seq 0 8)
                         end)
                      ls (seq 0 8)
              else ls
          end
  end.

(** [process_loaded_mesh_blocks_trigger_visibility_changes].  The transition
    masks it then refreshes are not part of the state modelled here. *)
Definition process_loaded_mesh_blocks_trigger_visibility_changes (st : State)
    (lod_count : nat) : State :=
  let tls_loaded_blocks := loaded_mesh_blocks (clipbox_streaming st) in
  mkState
    (foldl (fun ls bloc => update_mesh_block_load lod_count (lod bloc) ls (position bloc))
           (lods st) tls_loaded_blocks)
    (mkClipboxStreamingState (paired_viewers (clipbox_streaming st))
                             (loaded_data_blocks (clipbox_streaming st)) []).

(** ** One update: [process_clipbox_streaming] *)

(** What one update leaves behind. *)
Record Streamed : Type := mkStreamed {
  out_state : State;
  out_data : VoxelData;
  out_blocks_to_save : list BlockLocation;
  out_blocks_to_load : list BlockLocation
}.

Definition process_clipbox_streaming (st : State) (data : VoxelData)
    (viewers : list (ViewerID * Viewer))
    (data_blocks_to_save data_blocks_to_load : list BlockLocation)
    (settings : Settings) (can_load can_mesh : bool) : Streamed :=
  let lod_count := data_lod_count data in
  let bounds_in_voxels := data_bounds data in
  let pv := process_viewers settings lod_count bounds_in_voxels (data_block_size_po2_ data)
                            can_mesh (clipbox_streaming st) viewers in
  let st := mkState (lods st) pv.1 in
  let unpaired_viewers_to_remove := pv.2 in
  let ds :=
    if streaming_enabled data then
      process_data_blocks_sliding_box settings lod_count can_load st data
                                      data_blocks_to_save data_blocks_to_load
    else mkDataStreaming (lods st) data data_blocks_to_save data_blocks_to_load in
  let st := mkState (ds_lods ds) (clipbox_streaming st) in
  if negb (streaming_enabled data) && negb (full_load_completed data) then
    mkStreamed st (ds_data ds) (ds_blocks_to_save ds) (ds_blocks_to_load ds)
  else
    let st := process_mesh_blocks_sliding_box settings bounds_in_voxels lod_count
                                              (negb (streaming_enabled data)) can_load st in
    let cs := clipbox_streaming st in
    let st := mkState (lods st)
                      (mkClipboxStreamingState
                         (remove_unpaired_viewers unpaired_viewers_to_remove (paired_viewers cs))
                         (loaded_data_blocks cs) (loaded_mesh_blocks cs)) in
    let st := if streaming_enabled data
              then process_loaded_data_blocks_trigger_meshing (ds_data ds) st settings
                                                              bounds_in_voxels
              else st in
    let st := process_loaded_mesh_blocks_trigger_visibility_changes st lod_count in
    mkStreamed st (ds_data ds) (ds_blocks_to_save ds) (ds_blocks_to_load ds).

(** ** The GPU normal-map task: [GenerateDistanceNormalMapGPUTask::prepare] *)

Module GPU.

(** Modelled from the spec: a resource handle of the rendering device; [0]
    is the "null handle" ([RID::is_null]). *)
Definition RID : Type := nat.
Definition is_null (r : RID) : bool := bool_decide (r = 0%nat).

(** Modelled from the spec: the calls of the "GPU backend contract" that
    [prepare] makes on the rendering device. *)
Inductive DeviceCall : Type :=
| TextureCreate (width height : Z)
| StorageBufferCreate (size_bytes : Z)
| UniformBufferCreate (size_bytes : Z)
| ComputePipelineCreate (shader : RID)
| UniformSetCreate (uniforms : list RID) (shader : RID)
| ComputeListBegin
| ComputeListBindComputePipeline (pipeline : RID)
| ComputeListBindUniformSet (uniform_set : RID)
| ComputeListDispatch (groups_x groups_y groups_z : Z)
| ComputeListAddBarrier
| ComputeListEnd.

#[global] Instance DeviceCall_eq_dec : EqDecision DeviceCall.
Proof. solve_decision. Defined.

(** Modelled from the spec: the rendering device, an external collaborator:
    the calls recorded so far, and the handle it answers to the call made
    after [n] earlier calls. *)
Record RenderingDevice : Type := mkRenderingDevice {
  answer : nat -> RID;
  calls : list DeviceCall
}.

(** Modelled from the spec: a [ComputeShader] ([compute_shader.h] is not at
    hand): whether it is valid, and its handle. *)
Record ComputeShader : Type := mkComputeShader { is_valid : bool; shader_rid : RID }.

(** Modelled from the spec: the "capability bundle { gather_hits_shader,
    detail_normalmap_shader, dilate_shader, filtering_sampler }" held by the
    [VoxelEngine] singleton. *)
Record EngineShaders : Type := mkEngineShaders {
  detail_gather_hits_compute_shader : RID;
  detail_normalmap_compute_shader : RID;
  dilate_normalmap_compute_shader : RID;
  filtering_sampler : RID
}.

(** Modelled from the spec: the resource of a parameter of the modifier
    shader ([compute_shader_resource.h] is not at hand): whether it is valid,
    whether [get_type()] is [TYPE_TEXTURE], and its handle. *)
Record ComputeShaderResource : Type := mkComputeShaderResource {
  resource_is_valid : bool;
  resource_is_texture : bool;
  get_rid : RID
}.

(** Modelled from the spec: a parameter of the modifier shader ("sampler +
    texture pairs"): its binding and its resource. *)
Record Param : Type := mkParam { binding : Z; resource : ComputeShaderResource }.

(** Modelled from the spec: the inputs of the task, declared in its header.
    Vertices, indices, triangles and tiles are kept by their number of
    elements, which is all [prepare] reads. *)
Record Task : Type := mkTask {
  mesh_vertices : nat;
  mesh_indices : nat;
  cell_triangles : nat;
  tile_data : nat;
  shader : option ComputeShader;
  shader_params : option (list Param);
  tile_size_pixels : Z;
  texture_width : Z;
  texture_height : Z
}.

(** The handles [prepare] stores in the task (the [_..._rid] members). *)
Inductive RidField : Type :=
| normalmap_texture0_rid | normalmap_texture1_rid
| mesh_vertices_rid | mesh_indices_rid | cell_triangles_rid | tile_data_rid
| gather_hits_params_rid | hit_positions_buffer_rid | modifier_params_rid
| sd_buffer0_rid | sd_buffer1_rid | normalmap_params_rid | dilation_params_rid
| gather_hits_pipeline_rid | detail_modifier_pipeline_rid
| detail_normalmap_pipeline_rid | normalmap_dilation_pipeline_rid.

#[global] Instance RidField_eq_dec : EqDecision RidField.
Proof. solve_decision. Defined.

Record PrepState : Type := mkPrepState {
  rids : list (RidField * RID);
  device : RenderingDevice
}.

(** A step of [prepare]: it changes the state and either yields a value or
    leaves the function early ([ERR_FAIL_COND]). *)
Definition Prep (A : Type) : Type := PrepState -> PrepState * option A.

Definition ret {A : Type} (a : A) : Prep A := fun s => (s, Some a).

Definition bind {A B : Type} (m : Prep A) (k : A -> Prep B) : Prep B :=
  fun s => match m s with
           | (s', Some a) => k a s'
           | (s', None) => (s', None)
           end.

Notation "'let*' x ':=' m 'in' k" := (bind m (fun x => k))
  (at level 10, x name, m at level 100, k at level 200).
Notation "'run' m 'in' k" := (bind m (fun _ => k))
  (at level 10, m at level 100, k at level 200).

(** [ERR_FAIL_COND(c)]. *)
Definition ERR_FAIL_COND (c : bool) : Prep unit :=
  fun s => if c then (s, None) else (s, Some tt).

(** Modelled from the spec: [ZN_ASSERT(c)], a macro defined outside the
    sources at hand: an assertion that fails stops the run where it stands. *)
Definition ZN_ASSERT (c : bool) : Prep unit :=
  fun s => if c then (s, Some tt) else (s, None).

(** A call on the device: it is recorded, and the device answers. *)
Definition rd (c : DeviceCall) : Prep RID :=
  fun s =>
    let d := device s in
    (mkPrepState (rids s) (mkRenderingDevice (answer d) (calls d ++ [c])),
     Some (answer d (length (calls d)))).

(** Assignment to a handle of the task. *)
Definition store (f : RidField) (r : RID) : Prep unit :=
  fun s => (mkPrepState (rids s ++ [(f, r)]) (device s), Some tt).

(** A resource created and kept in the task without a check. *)
Definition create (f : RidField) (c : DeviceCall) : Prep RID :=
  let* r := rd c in run store f r in ret r.

(** A resource created, kept in the task, and checked:
    [ERR_FAIL_COND(rid.is_null())]. *)
Definition create_checked (f : RidField) (c : DeviceCall) : Prep RID :=
  let* r := create f c in run ERR_FAIL_COND (is_null r) in ret r.

(** The dispatch of the three per-tile stages. *)
Definition dispatch_tiles (t : Task) : DeviceCall :=
  ComputeListDispatch (math.ceildiv (tile_size_pixels t) 4)
                      (math.ceildiv (tile_size_pixels t) 4)
                      (math.ceildiv (Z.of_nat (tile_data t)) 4).

(** The dispatch of the two dilation passes. *)
Definition dispatch_dilation (t : Task) : DeviceCall :=
  ComputeListDispatch (math.ceildiv (texture_width t) 8)
                      (math.ceildiv (texture_height t) 8) 1.

(** The loop over the extra parameters of the modifier shader: each is
    asserted to be valid and to be a texture, and gives a uniform made of the
    filtering sampler and of its texture. *)
Fixpoint append_param_uniforms (e : EngineShaders) (params : list Param)
    (detail_modifier_uniforms : list RID) : Prep (list RID) :=
  match params with
  | [] => ret detail_modifier_uniforms
  | p :: params =>
      run ZN_ASSERT (resource_is_valid (resource p)) in
      run ZN_ASSERT (resource_is_texture (resource p)) in
      append_param_uniforms e params
        (detail_modifier_uniforms ++ [filtering_sampler e; get_rid (resource p)])
  end.

(** [shader_params != nullptr && shader_params->params.size() > 0], then the
    loop. *)
Definition extra_params (e : EngineShaders) (t : Task)
    (detail_modifier_uniforms : list RID) : Prep (list RID) :=
  match shader_params t with
  | Some params =>
      if bool_decide (0 < length params)%nat
      then append_param_uniforms e params detail_modifier_uniforms
      else ret detail_modifier_uniforms
  | None => ret detail_modifier_uniforms
  end.

(** The value an [unsigned int] of 32 bits takes from a product computed
    in [size_t]. *)
Definition to_unsigned_int (v : Z) : Z := v mod 2 ^ 32.

(** [prepare].  Byte sizes: a vertex is a [Vector4f] (16 bytes), an index or
    a triangle entry an [int32_t], a tile descriptor 4 bytes; the three
    parameter blocks take 20, 12 and 16 bytes.  The sizes of the hit
    position buffer and of the signed-distance buffers are kept in an
    [unsigned int]. *)
Definition prepare (e : EngineShaders) (t : Task) : Prep unit :=
  run ERR_FAIL_COND (bool_decide (mesh_vertices t = 0%nat)) in
  run ERR_FAIL_COND (bool_decide (mesh_indices t = 0%nat)) in
  run ERR_FAIL_COND (bool_decide (cell_triangles t = 0%nat)) in
  match shader t with
  | None => ERR_FAIL_COND true
  | Some sh =>
      run ERR_FAIL_COND (negb (is_valid sh)) in
      let tex := TextureCreate (texture_width t) (texture_height t) in
      let* texture0 := create_checked normalmap_texture0_rid tex in
      let* texture1 := create_checked normalmap_texture1_rid tex in
      let* vertices :=
        create_checked mesh_vertices_rid
                       (StorageBufferCreate (16 * Z.of_nat (mesh_vertices t))) in
      let* indices :=
        create_checked mesh_indices_rid
                       (StorageBufferCreate (4 * Z.of_nat (mesh_indices t))) in
      let* triangles :=
        create_checked cell_triangles_rid
                       (StorageBufferCreate (4 * Z.of_nat (cell_triangles t))) in
      let* tiles :=
        create_checked tile_data_rid (StorageBufferCreate (4 * Z.of_nat (tile_data t))) in
      let* gather_hits_params :=
        create_checked gather_hits_params_rid (StorageBufferCreate 20) in
      let hit_positions_buffer_size_bytes :=
        to_unsigned_int
          (Z.of_nat (tile_data t) * (tile_size_pixels t * tile_size_pixels t) * 4 * 4) in
      let* hit_positions :=
        create hit_positions_buffer_rid
               (StorageBufferCreate hit_positions_buffer_size_bytes) in
      let* modifier_params := create modifier_params_rid (StorageBufferCreate 12) in
      let sd_buffer_size_bytes :=
        to_unsigned_int
          (Z.of_nat (tile_data t) * (tile_size_pixels t * tile_size_pixels t) * 4 * 4) in
      let* sd_buffer0 := create sd_buffer0_rid (StorageBufferCreate sd_buffer_size_bytes) in
      let* sd_buffer1 := create sd_buffer1_rid (StorageBufferCreate sd_buffer_size_bytes) in
      let* normalmap_params := create normalmap_params_rid (StorageBufferCreate 16) in
      let* dilation_params :=
        create_checked dilation_params_rid (UniformBufferCreate 16) in
      (* Pipelines *)
      let gather_hits_shader_rid := detail_gather_hits_compute_shader e in
      run ERR_FAIL_COND (is_null gather_hits_shader_rid) in
      let* gather_hits_pipeline :=
        create_checked gather_hits_pipeline_rid
                       (ComputePipelineCreate gather_hits_shader_rid) in
      let modifier_shader_rid := shader_rid sh in
      let* detail_modifier_pipeline :=
        create_checked detail_modifier_pipeline_rid
                       (ComputePipelineCreate modifier_shader_rid) in
      let detail_normalmap_shader_rid := detail_normalmap_compute_shader e in
      run ERR_FAIL_COND (is_null detail_normalmap_shader_rid) in
      let* detail_normalmap_pipeline :=
        create_checked detail_normalmap_pipeline_rid
                       (ComputePipelineCreate detail_normalmap_shader_rid) in
      let dilation_shader_rid := dilate_normalmap_compute_shader e in
      run ERR_FAIL_COND (is_null dilation_shader_rid) in
      let* normalmap_dilation_pipeline :=
        create_checked normalmap_dilation_pipeline_rid
                       (ComputePipelineCreate dilation_shader_rid) in
      (* Make compute list *)
      run rd ComputeListBegin in
      (* Gather hits *)
      let* gather_hits_uniform_set :=
        rd (UniformSetCreate [vertices; indices; triangles; tiles; gather_hits_params;
                              hit_positions] gather_hits_shader_rid) in
      run rd (ComputeListBindComputePipeline gather_hits_pipeline) in
      run rd (ComputeListBindUniformSet gather_hits_uniform_set) in
      run rd (dispatch_tiles t) in
      run rd ComputeListAddBarrier in
      (* Generate signed distances *)
      let* detail_modifier_uniforms :=
        extra_params e t [hit_positions; modifier_params; sd_buffer0; sd_buffer1] in
      let* detail_modifier_uniform_set :=
        rd (UniformSetCreate detail_modifier_uniforms modifier_shader_rid) in
      run rd (ComputeListBindComputePipeline detail_modifier_pipeline) in
      run rd (ComputeListBindUniformSet detail_modifier_uniform_set) in
      run rd (dispatch_tiles t) in
      run rd ComputeListAddBarrier in
      (* Normalmap rendering *)
      let* detail_normalmap_uniform_set :=
        rd (UniformSetCreate [sd_buffer1; vertices; indices; hit_positions;
                              normalmap_params; texture0] detail_normalmap_shader_rid) in
      run rd (ComputeListBindComputePipeline detail_normalmap_pipeline) in
      run rd (ComputeListBindUniformSet detail_normalmap_uniform_set) in
      run rd (dispatch_tiles t) in
      run rd ComputeListAddBarrier in
      (* Dilation step 1 *)
      let* dilation_uniform_set :=
        rd (UniformSetCreate [texture0; texture1; dilation_params] dilation_shader_rid) in
      run rd (ComputeListBindComputePipeline normalmap_dilation_pipeline) in
      run rd (ComputeListBindUniformSet dilation_uniform_set) in
      run rd (dispatch_dilation t) in
      run rd ComputeListAddBarrier in
      (* Dilation step 2 *)
      let* dilation_uniform_set :=
        rd (UniformSetCreate [texture1; texture0; dilation_params] dilation_shader_rid) in
      run rd (ComputeListBindUniformSet dilation_uniform_set) in
      run rd (dispatch_dilation t) in
      run rd ComputeListEnd in
      ret tt
  end.

(** Running [prepare] on a fresh task and a device that has recorded
    nothing: the calls recorded, and whether [prepare] ran to its end. *)
Definition run_prepare (e : EngineShaders) (t : Task) (answers : nat -> RID)
  : list DeviceCall * bool :=
  let r := prepare e t (mkPrepState [] (mkRenderingDevice answers [])) in
  (calls (device r.1), bool_decide (is_Some r.2)).

(** A compute list was begun. *)
Definition begins_compute_list (cs : list DeviceCall) : bool :=
  bool_decide (ComputeListBegin ∈ cs).

(** A dispatch was recorded. *)
Definition records_dispatch (cs : list DeviceCall) : bool :=
  existsb (fun c => match c with ComputeListDispatch _ _ _ => true | _ => false end) cs.

(** The group counts of the dispatches recorded, in order. *)
Definition dispatches (cs : list DeviceCall) : list (Z * Z * Z) :=
  omap (fun c => match c with
                 | ComputeListDispatch gx gy gz => Some (gx, gy, gz)
                 | _ => None
                 end) cs.

End GPU.

(** * Specification vocabulary and scenarios *)

(** ** Rounded quotients and axes *)

(** [q] is [n] divided by [c], rounded down. *)
Definition is_floordiv (c q n : Z) : Prop := q * c <= n < (q + 1) * c.

(** [q] is [n] divided by [c], rounded up. *)
Definition is_ceildiv (c q n : Z) : Prop := (q - 1) * c < n <= q * c.

(** A relation holding on the three axes. *)
Definition vforall2 (R : Z -> Z -> Prop) (a b : Vector3i) : Prop :=
  R (x a) (x b) /\ R (y a) (y b) /\ R (z a) (z b).

(** ** Planning *)

(** One iteration of a loop over LODs: slot [i] of a per-LOD array receives
    a value computed from the array. *)
Definition fill_slot {A : Type} (g : list A -> nat -> A) (acc : list A) (i : nat) : list A :=
  <[i := g acc i]> acc.

(** The per-LOD arrays of a paired viewer hold a box for each LOD. *)
Definition wf_paired_viewer (lod_count : nat) (pv : PairedViewer) : Prop :=
  (lod_count <= length (mesh_box_per_lod (pv_state pv)))%nat
  /\ (lod_count <= length (data_box_per_lod (pv_state pv)))%nat.

(** The paired viewers have distinct ids and well-formed arrays. *)
Definition well_formed (lod_count : nat) (cs : ClipboxStreamingState) : Prop :=
  NoDup (pv_id <$> paired_viewers cs)
  /\ Forall (wf_paired_viewer lod_count) (paired_viewers cs).

(** Ids are distinct, arrays are well formed, and the paired viewers of the
    viewers in [seen] have the property [P]. *)
Definition planned_so_far (lod_count : nat) (P : PairedViewer -> Prop)
    (seen : ViewerID -> Prop) (pvs : list PairedViewer) : Prop :=
  NoDup (pv_id <$> pvs) /\ Forall (wf_paired_viewer lod_count) pvs
  /\ forall pv, pv ∈ pvs -> seen (pv_id pv) -> P pv.

(** The mesh box of a LOD in data blocks, grown by one block on each side. *)
Definition padded_mesh_box_in_data_blocks (volume_settings : Settings)
    (data_block_size_po2 : Z) (mesh_box : Box3i) : Box3i :=
  let factor := mesh_to_data_factor volume_settings data_block_size_po2 in
  Box3i.padded (mkBox3i (vscale (pos mesh_box) factor) (vscale (size mesh_box) factor)) 1.

(** In a viewer state that requires meshes or collisions, the data box of
    every LOD is the padded mesh box clipped to the bounds, and it contains
    every cell of the padded mesh box that lies within the bounds. *)
Definition data_boxes_follow_mesh_boxes (volume_settings : Settings) (lod_count : nat)
    (volume_bounds_in_voxels : Box3i) (data_block_size_po2 : Z) (pv : PairedViewer) : Prop :=
  requires_collisions (pv_state pv) || requires_meshes (pv_state pv) = true ->
  forall lod_index, (lod_index < lod_count)%nat ->
    let mesh_box := box_at (mesh_box_per_lod (pv_state pv)) lod_index in
    let data_box := box_at (data_box_per_lod (pv_state pv)) lod_index in
    let bounds := volume_bounds_in_data_blocks volume_bounds_in_voxels
                                               data_block_size_po2 lod_index in
    let padded := padded_mesh_box_in_data_blocks volume_settings data_block_size_po2
                                                 mesh_box in
    data_box = Box3i.clipped padded bounds
    /\ forall cell,
        Box3i.contains padded cell = true ->
        Box3i.contains bounds cell = true ->
        Box3i.contains data_box cell = true.

(** A viewer standing on the corner of a volume of 2 x 2 x 2 blocks of 16
    voxels, with a single LOD. *)
Definition corner_settings : Settings := mkSettings 4 16 512.
Definition corner_bounds : Box3i := mkBox3i vzero (mkVector3i 32 32 32).
Definition corner_viewer : Viewer := mkViewer vzero 16 false true.
Definition corner_planned : ClipboxStreamingState :=
  (process_viewers corner_settings 1 corner_bounds 4 true
                   (mkClipboxStreamingState [] [] []) [(0%nat, corner_viewer)]).1.
Definition corner_paired_viewer : PairedViewer :=
  default (PairedViewer_new 1 0%nat) (head (paired_viewers corner_planned)).

(** The three components of a vector are multiples of [d]. *)
Definition vdivides (d : Z) (v : Vector3i) : Prop :=
  (d | x v) /\ (d | y v) /\ (d | z v).

(** The volume bounds start and extend by multiples of the mesh block size of
    the root LOD. *)
Definition bounds_aligned_to_root_blocks (volume_settings : Settings) (lod_count : nat)
    (volume_bounds_in_voxels : Box3i) : Prop :=
  vdivides (last_lod_mesh_block_size volume_settings lod_count) (pos volume_bounds_in_voxels)
  /\ vdivides (last_lod_mesh_block_size volume_settings lod_count)
              (size volume_bounds_in_voxels).

(** In a viewer state that requires meshes or collisions, the mesh box of
    every LOD but the root has even position and even size. *)
Definition non_root_mesh_boxes_even (lod_count : nat) (pv : PairedViewer) : Prop :=
  requires_collisions (pv_state pv) || requires_meshes (pv_state pv) = true ->
  forall lod_index, (S lod_index < lod_count)%nat ->
    Box3i.even_box (box_at (mesh_box_per_lod (pv_state pv)) lod_index).

(** A viewer at the origin of a volume with two LODs and mesh blocks of 16
    voxels: once with bounds [-64,64)^3, multiples of the root block size 32,
    once with bounds [-16,32)^3. *)
Definition two_lod_settings : Settings := mkSettings 4 16 512.
Definition origin_viewer : Viewer := mkViewer vzero 16 false true.
Definition aligned_bounds : Box3i := mkBox3i (mkVector3i (-64) (-64) (-64)) (mkVector3i 128 128 128).
Definition unaligned_bounds : Box3i :=
  mkBox3i (mkVector3i (-16) (-16) (-16)) (mkVector3i 48 48 48).
Definition planned_in (bounds : Box3i) : PairedViewer :=
  default (PairedViewer_new 2 0%nat)
    (head (paired_viewers
             (process_viewers two_lod_settings 2 bounds 4 true
                (mkClipboxStreamingState [] [] []) [(0%nat, origin_viewer)]).1)).

(** ** Updates *)

(** One update from the outputs of the previous one, with fresh request
    lists. *)
Definition tick (settings : Settings) (can_load can_mesh : bool) (s : Streamed)
    (viewers : list (ViewerID * Viewer)) : Streamed :=
  process_clipbox_streaming (out_state s) (out_data s) viewers [] [] settings can_load can_mesh.

(** The state before any update: no paired viewer, empty mesh maps, empty
    loading blocks, empty inboxes, nothing resident in the data grid. *)
Definition initial_state (lod_count : nat) : State :=
  mkState (replicate lod_count Lod_default) (mkClipboxStreamingState [] [] []).

Definition initial_data (lod_count : nat) (bounds : Box3i) (streaming full_load : bool)
  : VoxelData :=
  mkVoxelData (replicate lod_count ∅) bounds 4 lod_count streaming full_load.

Definition initial (lod_count : nat) (bounds : Box3i) (streaming full_load : bool) : Streamed :=
  mkStreamed (initial_state lod_count) (initial_data lod_count bounds streaming full_load) [] [].

(** What a LOD holds, maps listed entry by entry. *)
Definition lod_contents (l : Lod)
  : list (Vector3i * MeshBlockState) * list (Vector3i * LoadingDataBlock)
    * list Vector3i * list Vector3i * list Vector3i * list Vector3i :=
  (map_to_list (mesh_map l), map_to_list (loading_blocks l),
   mesh_blocks_pending_update l, mesh_blocks_to_activate l,
   mesh_blocks_to_deactivate l, mesh_blocks_to_unload l).

(** The positions in the loading blocks of a LOD. *)
Definition loading_positions (s : Streamed) (lod_index : nat) : list Vector3i :=
  (map_to_list (loading_blocks (lod_at (lods (out_state s)) lod_index))).*1.

Module RoundTrip.

(** Two LODs, blocks of 16 voxels, a volume of 32 x 32 x 32 voxels, streaming
    on.  The viewer requires neither visuals nor collisions. *)
Definition settings : Settings := mkSettings 4 16 512.
Definition bounds : Box3i := mkBox3i vzero (mkVector3i 32 32 32).
Definition viewer_at (p : Vector3i) : Viewer := mkViewer p 64 false false.

Definition added : Streamed :=
  tick settings true true (initial 2 bounds true false) [(7%nat, viewer_at vzero)].
Definition moved : Streamed :=
  tick settings true true added [(7%nat, viewer_at (mkVector3i (-100) 0 0))].
Definition removed : Streamed := tick settings true true moved [].

End RoundTrip.

Module TwoViewers.

(** One LOD, blocks of 16 voxels, everything loaded up-front (no streaming),
    and two viewers 256 voxels apart. *)
Definition settings : Settings := mkSettings 4 16 512.
Definition bounds : Box3i :=
  mkBox3i (mkVector3i (-1024) (-1024) (-1024)) (mkVector3i 2048 2048 2048).
Definition viewers : list (ViewerID * Viewer) :=
  [(1%nat, mkViewer vzero 16 true true); (2%nat, mkViewer (mkVector3i 256 0 0) 16 true true)].

(** The state once [process_viewers] has paired and planned both viewers. *)
Definition planned : State :=
  mkState (lods (initial_state 1))
          (process_viewers settings 1 bounds 4 true
                           (clipbox_streaming (initial_state 1)) viewers).1.

(** The mesh differ, for the first viewer only and for both. *)
Definition after_first_viewer : list Lod :=
  foldl (fun ls pv => process_mesh_lods settings bounds 1 true true pv [0%nat] ls)
        (lods planned) (take 1 (paired_viewers (clipbox_streaming planned))).
Definition after_both_viewers : State :=
  process_mesh_blocks_sliding_box settings bounds 1 true true planned.

Definition updated : Streamed := tick settings true true (initial 1 bounds false true) viewers.

End TwoViewers.

Module Unview.

(** One LOD, blocks of 16 voxels, streaming on.  The first viewer is paired
    while loading is off, so none of its blocks is ever requested; the second
    viewer, two blocks further, has its blocks requested; then both leave. *)
Definition settings : Settings := mkSettings 4 16 512.
Definition bounds : Box3i :=
  mkBox3i (mkVector3i (-1024) (-1024) (-1024)) (mkVector3i 2048 2048 2048).
Definition first_viewer : Viewer := mkViewer vzero 16 false false.
Definition second_viewer : Viewer := mkViewer (mkVector3i 32 0 0) 16 false false.

Definition first_paired : Streamed :=
  tick settings false true (initial 1 bounds true false) [(1%nat, first_viewer)].
Definition second_paired : Streamed :=
  tick settings true true first_paired [(1%nat, first_viewer); (2%nat, second_viewer)].
Definition both_removed : Streamed := tick settings true true second_paired [].

(** A cell of both data boxes, [[-1,2)^3] and [[1,4) x [-1,2)^2]. *)
Definition shared_cell : Vector3i := mkVector3i 1 (-1) (-1).

End Unview.

(** ** The GPU task *)

Module Prepare.

(** Four tiles of 16 x 16 pixels in a 64 x 64 atlas, valid shaders, and
    non-empty inputs. *)
Definition engine : GPU.EngineShaders := GPU.mkEngineShaders 101%nat 102%nat 103%nat 104%nat.
Definition task : GPU.Task :=
  GPU.mkTask 3%nat 3%nat 1%nat 4%nat (Some (GPU.mkComputeShader true 100%nat)) None 16 64 64.

(** The same task with one extra parameter of the modifier shader, a
    texture that is valid or not. *)
Definition task_with_parameter (valid : bool) : GPU.Task :=
  GPU.mkTask 3%nat 3%nat 1%nat 4%nat (Some (GPU.mkComputeShader true 100%nat))
             (Some [GPU.mkParam 4 (GPU.mkComputeShaderResource valid true 200%nat)])
             16 64 64.

(** A device on which every allocation succeeds. *)
Definition healthy (n : nat) : GPU.RID := S n.

(** A device that answers the null handle to the call made after [k] calls. *)
Definition failing_at (k : nat) (n : nat) : GPU.RID := if decide (n = k) then 0%nat else S n.

End Prepare.

(** ** Subdivision *)

(** Two states whose mesh maps hold the same positions at every LOD. *)
Definition same_positions (ls ls' : list Lod) : Prop :=
  forall lod_index bpos,
    is_Some (mesh_map (lod_at ls' lod_index) !! bpos)
    <-> is_Some (mesh_map (lod_at ls lod_index) !! bpos).

(** What the code does once the parent is active and the eight siblings are
    loaded: hide the parent, show each sibling and, below LOD 0's parent,
    call [update_mesh_block_load] eight times on the child of the sibling
    that has the sibling's own index. *)
Definition subdivide (lod_count lod_index : nat) (ls : list Lod) (parent_bpos : Vector3i)
  : list Lod :=
  foldl (fun ls sibling_index =>
           let sibling_bpos := get_child_position parent_bpos sibling_index in
           let ls := alter (activate_block sibling_bpos) lod_index ls in
           match lod_index with
           | O => ls
           | S child_lod_index =>
               foldl (fun ls (child_index : nat) =>
                        update_mesh_block_load lod_count child_lod_index ls
                                               (get_child_position sibling_bpos sibling_index))
                     ls (seq 0 8)
           end)
        (alter (deactivate_block parent_bpos) (S lod_index) ls) (seq 0 8).

(** The subdivision check for the children of [parent_bpos], which any loaded
    child triggers. *)
Definition settle (lod_count lod_index : nat) (ls : list Lod) (parent_bpos : Vector3i)
  : list Lod :=
  match mesh_map (lod_at ls (S lod_index)) !! parent_bpos with
  | Some parent_mesh_block =>
      if active parent_mesh_block && all_siblings_loaded (lod_at ls lod_index) parent_bpos
      then subdivide lod_count lod_index ls parent_bpos
      else ls
  | None => ls
  end.

(** The recursion the spec describes for one sibling: the activation check
    of each of its eight children. *)
Definition recurse_into_children (lod_count lod_index : nat) (ls : list Lod)
    (sibling_bpos : Vector3i) : list Lod :=
  match lod_index with
  | O => ls
  | S child_lod_index =>
      foldl (fun ls child_index =>
               update_mesh_block_load lod_count child_lod_index ls
                                      (get_child_position sibling_bpos child_index))
            ls (seq 0 8)
  end.

(** Follows the spec's words: "deactivate parent, activate all 8 siblings,
    and recurse each sibling into its children". *)
Definition subdivide_as_specified (lod_count lod_index : nat) (ls : list Lod)
    (parent_bpos : Vector3i) : list Lod :=
  foldl (fun ls sibling_index =>
           let sibling_bpos := get_child_position parent_bpos sibling_index in
           recurse_into_children lod_count lod_index
             (alter (activate_block sibling_bpos) lod_index ls) sibling_bpos)
        (alter (deactivate_block parent_bpos) (S lod_index) ls) (seq 0 8).

Module Subdivision.

(** Three LODs.  The root block at the origin is active; its eight children at
    LOD 1 are loaded, and so are the eight children at LOD 0 of the LOD-1
    block at the origin. *)
Definition block (is_active : bool) : MeshBlockState :=
  mkMeshBlockState MESH_UPDATE_SENT is_active true 1 1.
Definition unit_cells : list Vector3i :=
  Box3iCells.for_each_cell (mkBox3i vzero (mkVector3i 2 2 2)).
Definition blocks_at (cells : list Vector3i) (is_active : bool)
  : gmap Vector3i MeshBlockState :=
  list_to_map ((fun p => (p, block is_active)) <$> cells).
Definition lods : list Lod :=
  [set_mesh_map (blocks_at unit_cells false) Lod_default;
   set_mesh_map (blocks_at unit_cells false) Lod_default;
   set_mesh_map (blocks_at [vzero] true) Lod_default].
Definition loaded_block : Vector3i := mkVector3i 1 0 0.

End Subdivision.

(** * More of the code *)

(** ** The GPU task: what [prepare] leaves, and the cleanup *)

Module GPUCalls.

(** A call that allocates a texture, a buffer or a pipeline. *)
Definition creates_resource (c : GPU.DeviceCall) : bool :=
  match c with
  | GPU.TextureCreate _ _ | GPU.StorageBufferCreate _ | GPU.UniformBufferCreate _
  | GPU.ComputePipelineCreate _ => true
  | _ => false
  end.

(** The calls recorded from [compute_list_begin] on, that call included. *)
Fixpoint from_compute_list_begin (cs : list GPU.DeviceCall) : list GPU.DeviceCall :=
  match cs with
  | [] => []
  | GPU.ComputeListBegin :: _ => cs
  | _ :: cs' => from_compute_list_begin cs'
  end.

(** Running [prepare] on a fresh task and a device that has recorded
    nothing: the state it leaves. *)
Definition prepared (e : GPU.EngineShaders) (t : GPU.Task) (answers : nat -> GPU.RID)
  : GPU.PrepState :=
  (GPU.prepare e t (GPU.mkPrepState [] (GPU.mkRenderingDevice answers []))).1.

(** The extra parameters of the modifier shader, none when the task has no
    [shader_params]. *)
Definition extra_shader_params (t : GPU.Task) : list GPU.Param :=
  default [] (GPU.shader_params t).

(** Every extra parameter is valid and is a texture: no assertion of
    [prepare] fails. *)
Definition params_are_textures (t : GPU.Task) : bool :=
  forallb (fun p => GPU.resource_is_valid (GPU.resource p)
                    && GPU.resource_is_texture (GPU.resource p))
          (extra_shader_params t).

(** The value of a handle of the task: the last one assigned, the null
    handle if none was. *)
Definition rid_of (rids : list (GPU.RidField * GPU.RID)) (f : GPU.RidField) : GPU.RID :=
  default 0%nat (snd <$> last (filter (fun fr => fr.1 = f) rids)).

(** Modelled from the spec: what [collect_texture_and_cleanup] asks of the
    device, "download image A as bytes, then free all allocated resources";
    [free_rendering_device_rid] is declared in [util/godot/funcs.h], which is
    not at hand. *)
Inductive CollectCall : Type :=
| TextureGetData (texture : GPU.RID) (layer : Z)
| FreeRid (rid : GPU.RID).

(** The handles [collect_texture_and_cleanup] frees, in its order. *)
Definition cleanup_order : list GPU.RidField :=
  [GPU.normalmap_texture0_rid; GPU.normalmap_texture1_rid;
   GPU.gather_hits_pipeline_rid; GPU.detail_modifier_pipeline_rid;
   GPU.detail_normalmap_pipeline_rid; GPU.normalmap_dilation_pipeline_rid;
   GPU.mesh_vertices_rid; GPU.mesh_indices_rid; GPU.cell_triangles_rid; GPU.tile_data_rid;
   GPU.gather_hits_params_rid; GPU.dilation_params_rid; GPU.hit_positions_buffer_rid;
   GPU.modifier_params_rid; GPU.sd_buffer0_rid; GPU.sd_buffer1_rid;
   GPU.normalmap_params_rid].

(** [collect_texture_and_cleanup], by the calls it makes on the device. *)
Definition collect_texture_and_cleanup (rids : list (GPU.RidField * GPU.RID))
  : list CollectCall :=
  TextureGetData (rid_of rids GPU.normalmap_texture0_rid) 0
  :: ((fun f => FreeRid (rid_of rids f)) <$> cleanup_order).

(** The handles freed, in order. *)
Definition freed (cs : list CollectCall) : list GPU.RID :=
  omap (fun c => match c with FreeRid r => Some r | _ => None end) cs.

End GPUCalls.

(** ** A block of voxel data: [storage/voxel_data_block.h] *)

(** Modelled from the spec: a [VoxelBuffer], of which the code at hand reads
    the size only ([voxel_buffer.h] is not at hand).  A [Ref<VoxelBuffer>]
    is an [option], the null reference being [None]. *)
Record VoxelBuffer : Type := mkVoxelBuffer { get_size : Vector3i }.

Module VoxelDataBlock.

(** The members of [VoxelDataBlock].  Modelled from the spec: [viewers], a
    [VoxelRefCount] ([voxel_ref_count.h] is not at hand), is a count of
    viewers that a new block starts at zero. *)
Record t : Type := mk {
  position : Vector3i;
  lod_index : nat;
  viewers : nat;
  _voxels : option VoxelBuffer;
  _needs_lodding : bool;
  _modified : bool;
  _max_lod_hint : bool
}.

(** [const int bs = size], for an [unsigned int] of 32 bits. *)
Definition int_of_unsigned (u : Z) : Z := if u <? 2 ^ 31 then u else u - 2 ^ 32.

(** [VoxelDataBlock::create]; [None] is [nullptr]. *)
Definition create (bpos : Vector3i) (buffer : option VoxelBuffer) (size : Z)
    (p_lod_index : nat) : option t :=
  let bs := int_of_unsigned size in
  match buffer with
  | None => None
  | Some b =>
      if bool_decide (get_size b <> mkVector3i bs bs bs) then None
      else Some (mk bpos p_lod_index 0 buffer false false false)
  end.

(** [get_voxels]; a null buffer, on which debug builds crash, is [None]. *)
Definition get_voxels (block : t) : option VoxelBuffer := _voxels block.

(** [set_voxels]: a null buffer is refused. *)
Definition set_voxels (block : t) (buffer : option VoxelBuffer) : t :=
  match buffer with
  | None => block
  | Some _ => mk (position block) (lod_index block) (viewers block) buffer
                 (_needs_lodding block) (_modified block) (_max_lod_hint block)
  end.

Definition set_modified (block : t) (modified : bool) : t :=
  mk (position block) (lod_index block) (viewers block) (_voxels block)
     (_needs_lodding block) modified (_max_lod_hint block).

Definition is_modified (block : t) : bool := _modified block.

Definition set_needs_lodding (block : t) (need_lodding : bool) : t :=
  mk (position block) (lod_index block) (viewers block) (_voxels block)
     need_lodding (_modified block) (_max_lod_hint block).

Definition get_needs_lodding (block : t) : bool := _needs_lodding block.

(** A call of one of the setters. *)
Inductive Setter : Type :=
| SetVoxels (buffer : option VoxelBuffer)
| SetModified (modified : bool)
| SetNeedsLodding (need_lodding : bool).

Definition call (block : t) (s : Setter) : t :=
  match s with
  | SetVoxels buffer => set_voxels block buffer
  | SetModified modified => set_modified block modified
  | SetNeedsLodding need_lodding => set_needs_lodding block need_lodding
  end.

End VoxelDataBlock.

(** ** Loading blocks from a provider: [terrain/voxel_provider_thread.cpp] *)

Module VoxelDataLoader.

(** What [Processor::process_block] asks of the provider: the arguments of
    [emerge_block]. *)
Record EmergeBlock : Type := mkEmergeBlock {
  out_buffer : VoxelBuffer;
  origin_in_voxels : Vector3i;
  emerge_lod : nat
}.

(** [Processor::process_block]: the call it makes on the provider, and the
    buffer it puts in [output.voxels_loaded].  [emerge_block] is the
    provider's, a collaborator outside the sources at hand, given here by
    the buffer it leaves. *)
Definition process_block (emerge_block : EmergeBlock -> VoxelBuffer)
    (block_size_pow2 : Z) (block_position : Vector3i) (lod : nat)
  : EmergeBlock * option VoxelBuffer :=
  let bs := Z.shiftl 1 block_size_pow2 in
  let buffer := mkVoxelBuffer (mkVector3i bs bs bs) in
  let block_origin_in_voxels := vscale block_position (Z.shiftl bs (Z.of_nat lod)) in
  let asked := mkEmergeBlock buffer block_origin_in_voxels lod in
  (asked, Some (emerge_block asked)).

End VoxelDataLoader.

(** * Vocabulary of the further properties *)

(** A voxel within [d] of [center] on every axis. *)
Definition within_distance (center : Vector3i) (d : Z) (p : Vector3i) : Prop :=
  vforall2 (fun c v => c - d <= v <= c + d) center p.

(** The three components of a vector are non-negative. *)
Definition vnonneg (v : Vector3i) : Prop := 0 <= x v /\ 0 <= y v /\ 0 <= z v.

(** Every cell of [b] is a cell of [lim]. *)
Definition box_within (b lim : Box3i) : Prop :=
  forall cell, Box3i.contains b cell = true -> Box3i.contains lim cell = true.

(** The boxes planned for a paired viewer lie within the volume at every
    LOD, and none has a negative size. *)
Definition planned_within_bounds (volume_settings : Settings) (lod_count : nat)
    (volume_bounds_in_voxels : Box3i) (data_block_size_po2 : Z) (pv : PairedViewer) : Prop :=
  forall lod_index, (lod_index < lod_count)%nat ->
    let mesh_box := box_at (mesh_box_per_lod (pv_state pv)) lod_index in
    let data_box := box_at (data_box_per_lod (pv_state pv)) lod_index in
    box_within mesh_box
      (volume_bounds_in_mesh_blocks volume_settings volume_bounds_in_voxels lod_index)
    /\ box_within data_box
         (volume_bounds_in_data_blocks volume_bounds_in_voxels data_block_size_po2 lod_index)
    /\ vnonneg (size mesh_box) /\ vnonneg (size data_box).

(** Every box of the viewer state is the default box. *)
Definition all_boxes_empty (s : ViewerBoxState) : Prop :=
  (forall lod_index, box_at (mesh_box_per_lod s) lod_index = Box3i.empty)
  /\ (forall lod_index, box_at (data_box_per_lod s) lod_index = Box3i.empty).

(** The mesh box of the root LOD holds the root mesh block of every voxel
    that is within the view distance of the viewer and within the volume. *)
Definition root_mesh_box_reaches_view_distance (volume_settings : Settings) (lod_count : nat)
    (volume_bounds_in_voxels : Box3i) (pv : PairedViewer) : Prop :=
  requires_collisions (pv_state pv) || requires_meshes (pv_state pv) = true ->
  forall voxel,
    within_distance (local_position_voxels (pv_state pv))
                    (view_distance_voxels (pv_state pv)) voxel ->
    let root := (lod_count - 1)%nat in
    let block := vfloordiv voxel (last_lod_mesh_block_size volume_settings lod_count) in
    Box3i.contains (volume_bounds_in_mesh_blocks volume_settings volume_bounds_in_voxels root)
                   block = true ->
    Box3i.contains (box_at (mesh_box_per_lod (pv_state pv)) root) block = true.

(** The mesh boxes of the paired viewer are nested: the parent of every cell
    of the mesh box of a LOD is a cell of the mesh box of the next LOD. *)
Definition mesh_boxes_nested (lod_count : nat) (pv : PairedViewer) : Prop :=
  forall lod_index, (S lod_index < lod_count)%nat ->
    forall cell,
      Box3i.contains (box_at (mesh_box_per_lod (pv_state pv)) lod_index) cell = true ->
      Box3i.contains (box_at (mesh_box_per_lod (pv_state pv)) (S lod_index)) (vshr cell 1)
      = true.

(** Every loading block of the LOD is awaited by at least one viewer. *)
Definition loading_blocks_viewed (l : Lod) : Prop :=
  map_Forall (fun _ lb => (0 < viewers lb)%nat) (loading_blocks l).

(** Every mesh block of the LOD has as many mesh viewers as collision
    viewers, and at least one. *)
Definition mesh_blocks_viewed (l : Lod) : Prop :=
  map_Forall (fun _ mb => mesh_viewers mb = collision_viewers mb /\ (0 < mesh_viewers mb)%nat)
             (mesh_map l).

(** The per-LOD boxes of the paired viewer are the ones of the previous
    update, for the LODs in use. *)
Definition data_boxes_unchanged (lod_count : nat) (pv : PairedViewer) : Prop :=
  forall lod_index, (lod_index < lod_count)%nat ->
    box_at (data_box_per_lod (prev_state pv)) lod_index
    = box_at (data_box_per_lod (pv_state pv)) lod_index.

Definition mesh_boxes_unchanged (lod_count : nat) (pv : PairedViewer) : Prop :=
  forall lod_index, (lod_index < lod_count)%nat ->
    box_at (mesh_box_per_lod (prev_state pv)) lod_index
    = box_at (mesh_box_per_lod (pv_state pv)) lod_index.

(** What the differs never touch when they cancel a mesh update: everything
    of a mesh block but its state. *)
Definition viewed_block (mb : MeshBlockState) : bool * bool * nat * nat :=
  (active mb, loaded mb, mesh_viewers mb, collision_viewers mb).

(** [l'] is [l] with some pending mesh updates cancelled: nothing else
    differs but the state of mesh blocks. *)
Definition cancelled_updates_only (l l' : Lod) : Prop :=
  loading_blocks l' = loading_blocks l
  /\ viewed_block <$> mesh_map l' = viewed_block <$> mesh_map l
  /\ mesh_blocks_to_activate l' = mesh_blocks_to_activate l
  /\ mesh_blocks_to_deactivate l' = mesh_blocks_to_deactivate l
  /\ mesh_blocks_to_unload l' = mesh_blocks_to_unload l
  /\ mesh_blocks_pending_update l' ⊆ mesh_blocks_pending_update l.

Definition same_but_cancelled_updates : list Lod -> list Lod -> Prop :=
  Forall2 cancelled_updates_only.

(** What the data differ leaves alone when no data box changed. *)
Definition data_streaming_still (c c' : DataStreaming) : Prop :=
  ds_data c' = ds_data c /\ ds_blocks_to_save c' = ds_blocks_to_save c
  /\ ds_blocks_to_load c' = ds_blocks_to_load c
  /\ same_but_cancelled_updates (ds_lods c) (ds_lods c').

(** The pending mesh updates of the LOD are distinct, and each is for a block
    of the mesh map in state [MESH_UPDATE_NOT_SENT]. *)
Definition pending_updates_not_sent (l : Lod) : Prop :=
  NoDup (mesh_blocks_pending_update l)
  /\ forall bpos, bpos ∈ mesh_blocks_pending_update l ->
       state <$> mesh_map l !! bpos = Some MESH_UPDATE_NOT_SENT.

(** The same, but for the updates outside [box], of which nothing is said. *)
Definition pending_updates_not_sent_within (box : Box3i) (l : Lod) : Prop :=
  NoDup (mesh_blocks_pending_update l)
  /\ forall bpos, bpos ∈ mesh_blocks_pending_update l ->
       Box3i.contains box bpos = true ->
       state <$> mesh_map l !! bpos = Some MESH_UPDATE_NOT_SENT.

(** While the blocks leaving the box of LOD [k] are removed: nothing is said
    of the updates of that LOD outside the new box. *)
Definition pending_but_outside (new_mesh_box : Box3i) (k : nat) (ls : list Lod) : Prop :=
  forall j l, ls !! j = Some l ->
    if decide (j = k) then pending_updates_not_sent_within new_mesh_box l
    else pending_updates_not_sent l.

(** Two data grids with the same configuration. *)
Definition same_config (d d' : VoxelData) : Prop :=
  data_bounds d' = data_bounds d
  /\ data_block_size_po2_ d' = data_block_size_po2_ d
  /\ data_lod_count d' = data_lod_count d
  /\ streaming_enabled d' = streaming_enabled d
  /\ full_load_completed d' = full_load_completed d.

(** The update runs its differs: it does not return early for a full load
    that is not completed. *)
Definition runs_differs (data : VoxelData) : bool :=
  streaming_enabled data || full_load_completed data.

(** The boxes of every paired viewer are those of the previous update. *)
Definition viewers_still (lod_count : nat) (cs : ClipboxStreamingState) : Prop :=
  Forall (fun pv => data_boxes_unchanged lod_count pv /\ mesh_boxes_unchanged lod_count pv)
         (paired_viewers cs).

(** No block finished loading that the update would react to. *)
Definition inboxes_empty (data : VoxelData) (cs : ClipboxStreamingState) : Prop :=
  loaded_mesh_blocks cs = []
  /\ (streaming_enabled data = true -> loaded_data_blocks cs = []).

(** * Vocabulary of the differs and of the subdivision *)

(** The cells the differ visits when it removes the meshes out of range: those
    of the boxes of [prev_mesh_box.difference(new_mesh_box)], box after box. *)
Definition leaving_cells (prev_mesh_box new_mesh_box : Box3i) : list Vector3i :=
  Box3iCells.difference prev_mesh_box new_mesh_box ≫= Box3iCells.for_each_cell.

(** [Box3i(out_of_range_box.pos >> 1, out_of_range_box.size >> 1)]. *)
Definition parent_box (out_of_range_box : Box3i) : Box3i :=
  mkBox3i (vshr (pos out_of_range_box) 1) (vshr (size out_of_range_box) 1).

(** Follows the spec's words: an entry whose cell leaves the mesh box of a
    viewer has "both its mesh_viewers and collision_viewers refcounts
    decremented", and is "erased from the mesh map exactly when both
    refcounts reach zero". *)
Definition erased_when_unviewed (mesh_block : MeshBlockState) : bool :=
  bool_decide ((mesh_viewers mesh_block - 1 = 0)%nat
               /\ (collision_viewers mesh_block - 1 = 0)%nat).

Definition unviewed (entry : option MeshBlockState) : option MeshBlockState :=
  match entry with
  | Some mesh_block =>
      if erased_when_unviewed mesh_block then None
      else Some (set_viewers (mesh_viewers mesh_block - 1) (collision_viewers mesh_block - 1)
                             mesh_block)
  | None => None
  end.

(** The entry of a cell that enters the mesh box of a viewer: a new block
    when there was none, and one more viewer of each kind. *)
Definition viewed (is_full_load_mode : bool) (entry : option MeshBlockState)
  : MeshBlockState :=
  match entry with
  | Some mesh_block =>
      set_viewers (S (mesh_viewers mesh_block)) (S (collision_viewers mesh_block)) mesh_block
  | None =>
      mkMeshBlockState (if is_full_load_mode then MESH_UPDATE_NOT_SENT else MESH_NEVER_UPDATED)
                       false false 1 1
  end.

(** The cells of the mesh map that an unviewed cell is erased from. *)
Definition erased_cell (m : gmap Vector3i MeshBlockState) (cell : Vector3i) : Prop :=
  exists mesh_block, m !! cell = Some mesh_block /\ erased_when_unviewed mesh_block = true.

#[global] Instance erased_cell_dec m cell : Decision (erased_cell m cell).
Proof.
  unfold erased_cell. destruct (m !! cell) as [mb|].
  - destruct (erased_when_unviewed mb) eqn:E.
    + left. eauto.
    + right. intros (mb' & [= <-] & H). congruence.
  - right. intros (mb' & H & _). discriminate.
Defined.

(** What the differ decides for a cell of the parent box: the parent is
    shown again when it is in the mesh map, inactive, and its first child is
    not in the mesh map [m] of the child LOD. *)
Definition shown_again (m : gmap Vector3i MeshBlockState)
    (parents : gmap Vector3i MeshBlockState) (bpos : Vector3i) : Prop :=
  exists mesh_block, parents !! bpos = Some mesh_block /\ active mesh_block = false
                     /\ m !! vshl bpos 1 = None.

#[global] Instance shown_again_dec m parents bpos : Decision (shown_again m parents bpos).
Proof.
  unfold shown_again. destruct (parents !! bpos) as [mb|].
  - destruct (active mb) eqn:Ea.
    + right. intros (mb' & [= <-] & H & _). congruence.
    + destruct (m !! vshl bpos 1) eqn:Ec.
      * right. intros (mb' & _ & _ & H). discriminate.
      * left. eauto.
  - right. intros (mb' & H & _). discriminate.
Defined.

(** The cells of the parent LOD the differ visits when it shows parents
    again: those of the parent boxes of the boxes of
    [prev_mesh_box.difference(new_mesh_box)], box after box. *)
Definition parents_of_leaving_cells (prev_mesh_box new_mesh_box : Box3i) : list Vector3i :=
  Box3iCells.difference prev_mesh_box new_mesh_box
  ≫= (fun out_of_range_box => Box3iCells.for_each_cell (parent_box out_of_range_box)).

(** The cells the differ visits when it adds the meshes entering range. *)
Definition entering_cells (prev_mesh_box new_mesh_box : Box3i) : list Vector3i :=
  Box3iCells.difference new_mesh_box prev_mesh_box ≫= Box3iCells.for_each_cell.

(** The test that ends the loop over LODs of a paired viewer: neither mesh
    box of the LOD intersects the bounds. *)
Definition mesh_boxes_outside_bounds (settings : Settings) (bounds_in_voxels : Box3i)
    (paired_viewer : PairedViewer) (lod_index : nat) : bool :=
  let bounds_in_mesh_blocks :=
    Box3i.downscaled bounds_in_voxels
                     (Z.shiftl 1 (mesh_block_size_po2 settings + Z.of_nat lod_index)) in
  negb (Box3i.intersects (box_at (mesh_box_per_lod (pv_state paired_viewer)) lod_index)
                         bounds_in_mesh_blocks)
  && negb (Box3i.intersects (box_at (mesh_box_per_lod (prev_state paired_viewer)) lod_index)
                            bounds_in_mesh_blocks).

(** The loop over LODs of a paired viewer, which goes from the largest LOD
    down, gets to [lod_index] and goes through it. *)
Definition lod_loop_reaches (settings : Settings) (bounds_in_voxels : Box3i)
    (lod_count : nat) (paired_viewer : PairedViewer) (lod_index : nat) : bool :=
  forallb (fun j => negb (mesh_boxes_outside_bounds settings bounds_in_voxels paired_viewer j))
          (seq lod_index (lod_count - lod_index)).

(** [process_mesh_lod]: the per-LOD states after the two passes over boxes,
    before updates are cancelled. *)
Definition moved_boxes (lod_count : nat) (is_full_load_mode can_load : bool)
    (prev_mesh_box new_mesh_box : Box3i) (lod_index : nat) (ls : list Lod) : list Lod :=
  foldl (remove_out_of_range_box lod_count lod_index)
        (if can_load
         then foldl (add_entering_box is_full_load_mode lod_index) ls
                    (Box3iCells.difference new_mesh_box prev_mesh_box)
         else ls)
        (Box3iCells.difference prev_mesh_box new_mesh_box).

Section mesh_differ_steps.

Variable settings : Settings.
Variable bounds_in_voxels : Box3i.
Variable lod_count : nat.
Variable is_full_load_mode : bool.
Variable can_load : bool.

(** The loop over LODs for one paired viewer. *)
Definition process_mesh_viewer (ls : list Lod) (paired_viewer : PairedViewer) : list Lod :=
  process_mesh_lods settings bounds_in_voxels lod_count is_full_load_mode can_load
                    paired_viewer (rev (seq 0 lod_count)) ls.

(** The per-LOD states when [process_mesh_blocks_sliding_box], started on
    [ls], is done with the paired viewers [seen] and gets to [lod_index] in
    the loop over LODs of [paired_viewer]. *)
Definition lods_before_mesh_lod (ls : list Lod) (seen : list PairedViewer)
    (paired_viewer : PairedViewer) (lod_index : nat) : list Lod :=
  process_mesh_lods settings bounds_in_voxels lod_count is_full_load_mode can_load
                    paired_viewer (rev (seq (S lod_index) (lod_count - S lod_index)))
                    (foldl process_mesh_viewer ls seen).

(** How it goes on from the per-LOD states [ls] that this LOD leaves: the
    smaller LODs of [paired_viewer], then the paired viewers [rest]. *)
Definition lods_after_mesh_lod (ls : list Lod) (paired_viewer : PairedViewer)
    (lod_index : nat) (rest : list PairedViewer) : list Lod :=
  foldl process_mesh_viewer
        (process_mesh_lods settings bounds_in_voxels lod_count is_full_load_mode can_load
                           paired_viewer (rev (seq 0 lod_index)) ls)
        rest.

End mesh_differ_steps.

(** The two reference counts of a mesh block. *)
Definition viewer_counts (mesh_block : MeshBlockState) : nat * nat :=
  (mesh_viewers mesh_block, collision_viewers mesh_block).

(** The eight children of every block are viewed alike: all in the mesh map
    with the same reference counts, or none of them in it. *)
Definition siblings_viewed_alike (m : gmap Vector3i MeshBlockState) : Prop :=
  forall parent i j, (i < 8)%nat -> (j < 8)%nat ->
    viewer_counts <$> m !! get_child_position parent i
    = viewer_counts <$> m !! get_child_position parent j.

(** Follows the spec's words: "no child of the parent still exists in the
    mesh map". *)
Definition no_child_left (m : gmap Vector3i MeshBlockState) (parent : Vector3i) : Prop :=
  forall child_index, (child_index < 8)%nat ->
    m !! get_child_position parent child_index = None.

(** A viewer of a volume of two LODs whose bounds are multiples of the root
    block size moves by two blocks along x. *)
Module Moved.

Definition bounds : Box3i := aligned_bounds.
Definition viewer_at (p : Vector3i) : Viewer := mkViewer p 16 false true.
Definition first : Streamed :=
  tick two_lod_settings true true (initial 2 bounds false true) [(1%nat, viewer_at vzero)].

(** The state the mesh differ starts from in the second update. *)
Definition planned : State :=
  mkState (lods (out_state first))
          (process_viewers two_lod_settings 2 bounds 4 true
                           (clipbox_streaming (out_state first))
                           [(1%nat, viewer_at (mkVector3i 32 0 0))]).1.
Definition paired_viewer : PairedViewer :=
  default (PairedViewer_new 2 0%nat) (head (paired_viewers (clipbox_streaming planned))).

End Moved.

(** The bounds are not multiples of the root block size.  Two viewers stand
    at the origin, then the first one goes away by three blocks along y; or
    one viewer stands at the origin, then moves by two blocks along x. *)
Module Unaligned.

Definition bounds : Box3i := unaligned_bounds.
Definition viewer_at (p : Vector3i) : Viewer := mkViewer p 16 false true.
Definition two_viewers : Streamed :=
  tick two_lod_settings true true (initial 2 bounds false true)
       [(1%nat, viewer_at vzero); (2%nat, viewer_at vzero)].
Definition one_gone_away : Streamed :=
  tick two_lod_settings true true two_viewers
       [(1%nat, viewer_at (mkVector3i 0 48 0)); (2%nat, viewer_at vzero)].
Definition one_viewer : Streamed :=
  tick two_lod_settings true true (initial 2 bounds false true) [(1%nat, viewer_at vzero)].
Definition one_moved : Streamed :=
  tick two_lod_settings true true one_viewer [(1%nat, viewer_at (mkVector3i 32 0 0))].

(** The LOD-1 block whose LOD-0 children are the cells [-2,0)^3, of which
    only [(-1,-1,-1)] lies within the bounds. *)
Definition parent : Vector3i := mkVector3i (-1) (-1) (-1).
Definition child : Vector3i := mkVector3i (-1) (-1) (-1).

End Unaligned.

(** Everything of a mesh block but whether it is active. *)
Definition unless_active (mesh_block : MeshBlockState) : MeshState * bool * nat * nat :=
  (state mesh_block, loaded mesh_block, mesh_viewers mesh_block, collision_viewers mesh_block).

(** Whether [update_mesh_block_load] finds what it needs to subdivide the
    parent of [bpos]: the block in the mesh map and loaded, below the root,
    its parent in the mesh map and active, and the eight siblings loaded. *)
Definition subdivides (lod_count lod_index : nat) (ls : list Lod) (bpos : Vector3i) : bool :=
  match mesh_map (lod_at ls lod_index) !! bpos with
  | Some mesh_block =>
      loaded mesh_block && negb (bool_decide (S lod_index = lod_count))
      && match mesh_map (lod_at ls (S lod_index)) !! vshr bpos 1 with
         | Some parent_mesh_block =>
             active parent_mesh_block
             && all_siblings_loaded (lod_at ls lod_index) (vshr bpos 1)
         | None => false
         end
  | None => false
  end.

(** Two lists of LODs whose mesh maps show the same through [f], LOD by
    LOD. *)
Definition same_up_to {A : Type} (f : MeshBlockState -> A) (ls ls' : list Lod) : Prop :=
  length ls' = length ls
  /\ forall k, f <$> mesh_map (lod_at ls' k) = f <$> mesh_map (lod_at ls k).

(** What becomes of the LOD of the siblings when one of them is shown: it is
    activated and pushed onto [mesh_blocks_to_activate]; when [further]
    holds, it is deactivated at once and pushed onto
    [mesh_blocks_to_deactivate], its own children being shown instead. *)
Definition show_sibling (further : bool) (sibling_bpos : Vector3i) (l : Lod) : Lod :=
  let l := mkLod (alter (set_active true) sibling_bpos (mesh_map l)) (loading_blocks l)
                 (mesh_blocks_pending_update l)
                 (mesh_blocks_to_activate l ++ [sibling_bpos])
                 (mesh_blocks_to_deactivate l) (mesh_blocks_to_unload l) in
  if further
  then mkLod (alter (set_active false) sibling_bpos (mesh_map l)) (loading_blocks l)
             (mesh_blocks_pending_update l) (mesh_blocks_to_activate l)
             (mesh_blocks_to_deactivate l ++ [sibling_bpos]) (mesh_blocks_to_unload l)
  else l.

(** Whether a sibling that is shown is subdivided in turn: it is not at
    LOD 0, and it is when its own eight children are in the mesh map and
    loaded. *)
Definition subdivided_further (lod_index : nat) (ls : list Lod) (sibling_bpos : Vector3i)
  : bool :=
  match lod_index with
  | O => false
  | S child_lod_index => all_siblings_loaded (lod_at ls child_lod_index) sibling_bpos
  end.

(** The body of the loop of [update_mesh_block_load] that shows the
    siblings. *)
Definition show_sibling_step (lod_count lod_index : nat) (parent_bpos : Vector3i)
    (ls : list Lod) (sibling_index : nat) : list Lod :=
  let sibling_bpos := get_child_position parent_bpos sibling_index in
  let ls := alter (activate_block sibling_bpos) lod_index ls in
  match lod_index with
  | O => ls
  | S child_lod_index =>
      foldl (fun ls (child_index : nat) =>
               update_mesh_block_load lod_count child_lod_index ls
                                      (get_child_position sibling_bpos sibling_index))
            ls (seq 0 8)
  end.

(** The mesh boxes of a viewer state as the planner leaves them: at every
    LOD the box lies within the bounds and has no negative size; below the
    root, the parent of each of its cells is a cell of the box of the next
    LOD, and the box is even when the bounds are multiples of the root block
    size. *)
Definition mesh_boxes_in_order (settings : Settings) (lod_count : nat)
    (bounds_in_voxels : Box3i) (s : ViewerBoxState) : Prop :=
  forall lod_index, (lod_index < lod_count)%nat ->
    let mesh_box := box_at (mesh_box_per_lod s) lod_index in
    box_within mesh_box (volume_bounds_in_mesh_blocks settings bounds_in_voxels lod_index)
    /\ vnonneg (size mesh_box)
    /\ ((S lod_index < lod_count)%nat ->
        (bounds_aligned_to_root_blocks settings lod_count bounds_in_voxels ->
         Box3i.even_box mesh_box)
        /\ forall cell, Box3i.contains mesh_box cell = true ->
                        Box3i.contains (box_at (mesh_box_per_lod s) (S lod_index))
                                       (vshr cell 1) = true).

(** A paired viewer with a box for each LOD, whose mesh boxes are in order
    in its state and in its previous state. *)
Definition viewer_boxes_in_order (settings : Settings) (lod_count : nat)
    (bounds_in_voxels : Box3i) (pv : PairedViewer) : Prop :=
  wf_paired_viewer lod_count pv
  /\ mesh_boxes_in_order settings lod_count bounds_in_voxels (pv_state pv)
  /\ mesh_boxes_in_order settings lod_count bounds_in_voxels (prev_state pv).

(** Below the root, the children of every block are viewed alike. *)
Definition alike_below_root (lod_count : nat) (ls : list Lod) : Prop :=
  forall lod_index, (S lod_index < lod_count)%nat ->
    siblings_viewed_alike (mesh_map (lod_at ls lod_index)).

(** What the updates keep of a state, for given settings and bounds: there
    is a LOD state for each LOD, the paired viewers have their boxes in
    order and, when the bounds are multiples of the root block size, the
    children of every block below the root are viewed alike. *)
Definition mesh_streaming_in_order (settings : Settings) (lod_count : nat)
    (bounds_in_voxels : Box3i) (st : State) : Prop :=
  (lod_count <= length (lods st))%nat
  /\ Forall (viewer_boxes_in_order settings lod_count bounds_in_voxels)
            (paired_viewers (clipbox_streaming st))
  /\ (bounds_aligned_to_root_blocks settings lod_count bounds_in_voxels ->
      alike_below_root lod_count (lods st)).

(** The corner viewer, paired and planned, once its viewer is gone. *)
Definition corner_removed : ClipboxStreamingState :=
  (process_viewers corner_settings 1 corner_bounds 4 true corner_planned []).1.
Definition corner_removed_paired_viewer : PairedViewer :=
  default (PairedViewer_new 1 0%nat) (head (paired_viewers corner_removed)).

(** * Properties *)

(** ** Division and evenness *)

Lemma floordiv_spec (n c : Z) : 0 < c -> is_floordiv c (math.floordiv n c) n.
Proof.
  intros Hc. unfold is_floordiv, math.floordiv.
  pose proof (Z.mul_div_le n c Hc). pose proof (Z.mul_succ_div_gt n c Hc). lia.
Qed.

Lemma ceildiv_spec (n c : Z) : 0 < c -> is_ceildiv c (math.ceildiv n c) n.
Proof.
  intros Hc. unfold is_ceildiv, math.ceildiv.
  pose proof (floordiv_spec (- n) c Hc) as [H1 H2]. lia.
Qed.

Lemma even_double (k : Z) : Z.even (k * 2) = true.
Proof. rewrite Z.even_mul. apply orb_true_r. Qed.

Lemma even_add (a b : Z) : Z.even a = true -> Z.even b = true -> Z.even (a + b) = true.
Proof. intros Ha Hb. rewrite Z.even_add, Ha, Hb. reflexivity. Qed.

Lemma even_sub (a b : Z) : Z.even a = true -> Z.even b = true -> Z.even (a - b) = true.
Proof. intros Ha Hb. rewrite Z.even_sub, Ha, Hb. reflexivity. Qed.

Lemma even_min (a b : Z) : Z.even a = true -> Z.even b = true -> Z.even (Z.min a b) = true.
Proof. intros Ha Hb. destruct (Z.min_spec a b) as [[_ ->]|[_ ->]]; assumption. Qed.

Lemma even_max (a b : Z) : Z.even a = true -> Z.even b = true -> Z.even (Z.max a b) = true.
Proof. intros Ha Hb. destruct (Z.max_spec a b) as [[_ ->]|[_ ->]]; assumption. Qed.

Lemma even_clamp (a lo hi : Z) :
  Z.even a = true -> Z.even lo = true -> Z.even hi = true ->
  Z.even (math.clamp a lo hi) = true.
Proof.
  intros Ha Hlo Hhi. unfold math.clamp.
  destruct (a <? lo); [assumption|]. destruct (hi <? a); assumption.
Qed.

Create HintDb evenness.

#[local] Hint Resolve even_double even_add even_sub even_min even_max even_clamp : evenness.

(** Unfolds the vector operations down to their components. *)
Ltac vsimpl :=
  unfold vadd, vsub, vmin, vmax, vscale, vshr, vshl, vfloordiv, vceildiv, vzero,
    vzip, vmap, Vector3iUtil.create in *;
  cbn [x y z pos size] in *.

(** ** C2: the base box *)

(** Claim C2.  For every viewer position, distance and positive chunk size,
    the base box starts at [floordiv(center - d, c)] and ends (exclusively)
    at [ceildiv(center + d + 1, c)], both being the true rounded quotients;
    with [make_even], the start is moved down and the end up to the nearest
    multiple of 2, so that position and size are even on every axis. *)
Theorem get_base_box_in_chunks_spec (center : Vector3i) (d c : Z) (make_even : bool) :
  0 < c ->
  let b := get_base_box_in_chunks center d c make_even in
  let lo := vfloordiv (vsub center (Vector3iUtil.create d)) c in
  let hi := vceildiv (vadd center (Vector3iUtil.create (d + 1))) c in
  vforall2 (is_floordiv c) lo (vsub center (Vector3iUtil.create d))
  /\ vforall2 (is_ceildiv c) hi (vadd center (Vector3iUtil.create (d + 1)))
  /\ (make_even = false -> pos b = lo /\ Box3i.end_ b = hi)
  /\ (make_even = true ->
      vforall2 (fun m l => Z.even m = true /\ m <= l < m + 2) (pos b) lo
      /\ vforall2 (fun m h => Z.even m = true /\ h <= m < h + 2) (Box3i.end_ b) hi
      /\ Box3i.even_box b).
Proof.
  intros Hc b lo hi.
  split; [|split; [|split]].
  - repeat split; apply floordiv_spec; assumption.
  - repeat split; apply ceildiv_spec; assumption.
  - intros ->. subst b lo hi. unfold get_base_box_in_chunks, Box3i.end_, Box3i.from_min_max.
    destruct center as [cx cy cz]. vsimpl. split; [reflexivity|]. f_equal; lia.
  - intros ->.
    assert (Hf : forall n, Z.even (math.floordiv n 2 * 2) = true
                           /\ math.floordiv n 2 * 2 <= n < math.floordiv n 2 * 2 + 2).
    { intros n. split; [apply even_double|].
      pose proof (floordiv_spec n 2 ltac:(lia)) as [? ?]. lia. }
    assert (Hce : forall n, Z.even (math.ceildiv n 2 * 2) = true
                            /\ n <= math.ceildiv n 2 * 2 < n + 2).
    { intros n. split; [apply even_double|].
      pose proof (ceildiv_spec n 2 ltac:(lia)) as [? ?]. lia. }
    subst b lo hi. unfold get_base_box_in_chunks, Box3i.end_, Box3i.from_min_max,
      Box3i.even_box, veven, vforall2.
    destruct center as [cx cy cz]. vsimpl.
    repeat match goal with
           | |- context [?a + (?b - ?a)] => replace (a + (b - a)) with b by lia
           end.
    split; [repeat split; apply Hf|].
    split; [repeat split; apply Hce|].
    repeat split; auto with evenness.
Qed.

Lemma get_base_box_in_chunks_spec_witness :
  let b := get_base_box_in_chunks (mkVector3i 5 (-7) 40) 32 16 true in
  pos b = mkVector3i (-2) (-4) 0 /\ Box3i.end_ b = mkVector3i 4 2 6 /\ Box3i.even_box b.
Proof.
  pose proof (get_base_box_in_chunks_spec (mkVector3i 5 (-7) 40) 32 16 true ltac:(lia))
    as (_ & _ & _ & H).
  destruct (H eq_refl) as (_ & _ & He).
  split; [reflexivity|]. split; [reflexivity|]. exact He.
Defined.

(** ** Loops that fill a per-LOD array *)

Section array_loops.

Context {A : Type}.
Variable g : list A -> nat -> A.

Lemma fill_slots_length (n : nat) (l : list A) :
  length (foldl (fill_slot g) l (seq 0 n)) = length l.
Proof.
  induction n as [|n IH]; [reflexivity|].
  rewrite seq_S, foldl_app. cbn. unfold fill_slot at 1.
  rewrite length_insert. exact IH.
Qed.

(** If each iteration establishes [Q i] for the slot it writes, given [Q] on
    the slots written before, then [Q] holds on every slot written. *)
Lemma fill_slots_invariant (Q : nat -> A -> Prop) (n : nat) (l : list A) :
  (n <= length l)%nat ->
  (forall acc i, (i < n)%nat -> length acc = length l ->
                 (forall j, (j < i)%nat -> exists a, acc !! j = Some a /\ Q j a) ->
                 Q i (g acc i)) ->
  forall j, (j < n)%nat ->
            exists a, foldl (fill_slot g) l (seq 0 n) !! j = Some a /\ Q j a.
Proof.
  induction n as [|n IH]; intros Hn Hstep j Hj; [lia|].
  rewrite seq_S, foldl_app. cbn.
  assert (IH' : forall j, (j < n)%nat ->
              exists a, foldl (fill_slot g) l (seq 0 n) !! j = Some a /\ Q j a).
  { apply IH; [lia|]. intros acc i Hi. apply Hstep. lia. }
  unfold fill_slot at 1.
  destruct (decide (j = n)) as [->|Hne].
  - eexists. split.
    + apply list_lookup_insert_eq. rewrite fill_slots_length. lia.
    + apply Hstep; [lia|apply fill_slots_length|exact IH'].
  - rewrite list_lookup_insert_ne by congruence. apply IH'. lia.
Qed.

End array_loops.

(** ** Cells and clipping *)

(** Turns boolean comparisons into propositions. *)
Ltac bool_to_prop :=
  repeat match goal with
         | H : _ && _ = true |- _ => apply andb_true_iff in H; destruct H
         | H : (_ <=? _) = true |- _ => apply Z.leb_le in H
         | H : (_ <? _) = true |- _ => apply Z.ltb_lt in H
         | |- _ && _ = true => apply andb_true_iff; split
         | |- (_ <=? _) = true => apply Z.leb_le
         | |- (_ <? _) = true => apply Z.ltb_lt
         end.

Lemma clamp_cases (a lo hi : Z) :
  (a < lo /\ math.clamp a lo hi = lo)
  \/ (lo <= a /\ hi < a /\ math.clamp a lo hi = hi)
  \/ (lo <= a <= hi /\ math.clamp a lo hi = a).
Proof.
  unfold math.clamp.
  destruct (Z.ltb_spec a lo); [left; lia|].
  destruct (Z.ltb_spec hi a); [right; left; lia|right; right; lia].
Qed.

Lemma clip_range_keeps (p s lp ls c : Z) :
  p <= c < p + s -> lp <= c < lp + ls ->
  (Box3i.clip_range p s lp ls).1 <= c
  < (Box3i.clip_range p s lp ls).1 + (Box3i.clip_range p s lp ls).2.
Proof.
  intros Hb Hl. unfold Box3i.clip_range. cbv zeta. cbn [fst snd].
  destruct (clamp_cases p lp (lp + ls)) as [[? ->]|[(? & ? & ->)|[? ->]]];
    destruct (clamp_cases (p + s) lp (lp + ls)) as [[? ->]|[(? & ? & ->)|[? ->]]]; lia.
Qed.

(** [Box3i.contains] as a proposition, axis by axis. *)
Lemma contains_iff (b : Box3i) (c : Vector3i) :
  Box3i.contains b c = true <->
  (x (pos b) <= x c < x (pos b) + x (size b))
  /\ (y (pos b) <= y c < y (pos b) + y (size b))
  /\ (z (pos b) <= z c < z (pos b) + z (size b)).
Proof.
  unfold Box3i.contains, Box3i.end_. vsimpl.
  rewrite !andb_true_iff, !Z.leb_le, !Z.ltb_lt. lia.
Qed.

(** A cell of a box that lies in the limit box is kept by [clipped]. *)
Lemma clipped_keeps_cells_in_limit (b lim : Box3i) (cell : Vector3i) :
  Box3i.contains b cell = true -> Box3i.contains lim cell = true ->
  Box3i.contains (Box3i.clipped b lim) cell = true.
Proof.
  rewrite !contains_iff. unfold Box3i.clipped. cbn [pos size x y z].
  intros (Hx & Hy & Hz) (Lx & Ly & Lz).
  repeat split; apply clip_range_keeps; lia.
Qed.
(** ** What planning establishes for every paired viewer *)

Lemma find_index_Some {A : Type} (key : A -> ViewerID) (l : list A) (i : ViewerID) (n : nat) :
  find_index key l i = Some n -> exists a, l !! n = Some a /\ key a = i.
Proof.
  revert n. induction l as [|a l IH]; intros n; cbn; [discriminate|].
  destruct (decide (key a = i)) as [Hk|Hk].
  - intros [= <-]. exists a. split; [reflexivity|exact Hk].
  - destruct (find_index key l i) as [m|]; cbn; [|discriminate].
    intros [= <-]. cbn. apply IH. reflexivity.
Qed.

Lemma find_index_None {A : Type} (key : A -> ViewerID) (l : list A) (i : ViewerID) :
  find_index key l i = None -> i ∉ key <$> l.
Proof.
  induction l as [|a l IH]; cbn; intros H.
  - apply not_elem_of_nil.
  - destruct (decide (key a = i)) as [Hk|Hk]; [discriminate|].
    destruct (find_index key l i) eqn:E; [discriminate|].
    rewrite not_elem_of_cons. split; [congruence|]. apply IH. reflexivity.
Qed.

Lemma find_index_is_Some {A : Type} (key : A -> ViewerID) (l : list A) (i : ViewerID) :
  i ∈ key <$> l -> is_Some (find_index key l i).
Proof.
  intros Hin. destruct (find_index key l i) eqn:E; [eauto|].
  exfalso. revert Hin. apply find_index_None. exact E.
Qed.

Lemma process_destroyed_viewers_ids viewers pvs k :
  pv_id <$> (process_destroyed_viewers viewers pvs k).1 = pv_id <$> pvs.
Proof.
  revert k. induction pvs as [|pv pvs IH]; intros k; cbn; [reflexivity|].
  destruct (contains viewers (pv_id pv)); cbn; rewrite IH; reflexivity.
Qed.

Lemma process_destroyed_viewers_wf lod_count viewers pvs k :
  Forall (wf_paired_viewer lod_count) pvs ->
  Forall (wf_paired_viewer lod_count) (process_destroyed_viewers viewers pvs k).1.
Proof.
  intros H. revert k. induction H as [|pv pvs Hpv _ IH]; intros k; cbn; [constructor|].
  destruct (contains viewers (pv_id pv)); cbn; constructor; auto.
  destruct Hpv as [Hm Hd]. unfold wf_paired_viewer, unpair_destroyed. cbn.
  rewrite !length_fmap. auto.
Qed.

Section planned.

Variable volume_settings : Settings.
Variable lod_count : nat.
Variable volume_bounds_in_voxels : Box3i.
Variable data_block_size_po2 : Z.
Variable can_mesh : bool.

Abbreviation plan := (plan_viewer volume_settings lod_count volume_bounds_in_voxels
                                  data_block_size_po2 can_mesh).
Abbreviation wf := (wf_paired_viewer lod_count).

Lemma plan_mesh_boxes_length position view_distance boxes n :
  length (foldl (plan_mesh_box volume_settings lod_count volume_bounds_in_voxels
                               position view_distance) boxes (seq 0 n))
  = length boxes.
Proof.
  exact (fill_slots_length
           (planned_mesh_box volume_settings lod_count volume_bounds_in_voxels
                             position view_distance) n boxes).
Qed.

Lemma plan_data_boxes_length mesh_boxes boxes n :
  length (foldl (plan_data_box_from_mesh volume_settings volume_bounds_in_voxels
                                         data_block_size_po2 mesh_boxes) boxes (seq 0 n))
  = length boxes.
Proof.
  exact (fill_slots_length
           (fun _ => planned_data_box_from_mesh volume_settings volume_bounds_in_voxels
                                                data_block_size_po2 mesh_boxes) n boxes).
Qed.

Lemma reset_mesh_boxes_length (boxes : list Box3i) n :
  length (foldl (fun boxes lod_index => <[lod_index := Box3i.empty]> boxes)
                boxes (seq 0 n))
  = length boxes.
Proof. exact (fill_slots_length (fun _ _ => Box3i.empty) n boxes). Qed.

Lemma plan_data_boxes_alone_length position boxes n :
  length (foldl (plan_data_box_alone volume_settings lod_count volume_bounds_in_voxels
                                     data_block_size_po2 position) boxes (seq 0 n))
  = length boxes.
Proof.
  exact (fill_slots_length
           (fun _ => planned_data_box_alone volume_settings lod_count volume_bounds_in_voxels
                                            data_block_size_po2 position) n boxes).
Qed.

Lemma plan_viewer_wf viewer pv : wf pv -> wf (plan viewer pv).
Proof.
  intros [Hm Hd]. unfold wf_paired_viewer, plan_viewer. cbn.
  destruct (require_collisions viewer || require_visuals viewer && can_mesh); cbn.
  - rewrite plan_mesh_boxes_length, plan_data_boxes_length. auto.
  - rewrite reset_mesh_boxes_length, plan_data_boxes_alone_length. auto.
Qed.

(** A property that planning establishes for a paired viewer. *)
Variable P : PairedViewer -> Prop.
Hypothesis plan_establishes : forall viewer pv, wf pv -> P (plan viewer pv).

Abbreviation planned_until := (planned_so_far lod_count P).

Lemma pair_and_plan_planned seen pvs i viewer :
  planned_until seen pvs ->
  planned_until (fun j => j = i \/ seen j)
    (pair_and_plan volume_settings lod_count volume_bounds_in_voxels
                   data_block_size_po2 can_mesh pvs (i, viewer)).
Proof.
  intros (Hnd & Hwf & HP). unfold pair_and_plan. cbn [fst snd].
  destruct (find_index pv_id pvs i) as [n|] eqn:E; cbn [fst snd].
  - destruct (find_index_Some _ _ _ _ E) as (a & Ha & Hid).
    assert (Hids : pv_id <$> alter (plan viewer) n pvs = pv_id <$> pvs).
    { rewrite (list_fmap_alter pv_id (plan viewer) (fun j => j)).
      - apply list_alter_id. reflexivity.
      - apply Forall_true. reflexivity. }
    split; [rewrite Hids; exact Hnd|]. split.
    + apply Forall_alter; [exact Hwf|]. intros. apply plan_viewer_wf. assumption.
    + intros pv Hin Hseen. apply list_elem_of_lookup in Hin as [k Hk].
      destruct (decide (k = n)) as [->|Hne].
      * rewrite list_lookup_alter_eq, Ha in Hk. cbn in Hk. injection Hk as <-.
        apply plan_establishes. rewrite Forall_forall in Hwf.
        apply Hwf. apply list_elem_of_lookup. eauto.
      * rewrite list_lookup_alter_ne in Hk by congruence.
        apply HP; [apply list_elem_of_lookup; eauto|].
        destruct Hseen as [Hi|Hs]; [|exact Hs]. exfalso. apply Hne.
        apply (NoDup_lookup _ _ _ (pv_id pv) Hnd); rewrite list_lookup_fmap.
        -- rewrite Hk. reflexivity.
        -- rewrite Ha. cbn. congruence.
  - pose proof (find_index_None _ _ _ E) as Hnot.
    assert (Hnew : wf (PairedViewer_new lod_count i)).
    { split; cbn; rewrite length_replicate; lia. }
    rewrite alter_app_r_alt, Nat.sub_diag by lia. cbn [alter list_alter].
    split; [|split].
    + rewrite fmap_app. cbn. apply NoDup_app. split; [exact Hnd|]. split.
      * intros j Hj Hj'. apply list_elem_of_singleton in Hj'. subst j. contradiction.
      * apply NoDup_singleton.
    + apply Forall_app. split; [exact Hwf|]. constructor; [|constructor].
      apply plan_viewer_wf. exact Hnew.
    + intros pv Hin Hseen. apply elem_of_app in Hin as [Hin|Hin].
      * apply HP; [exact Hin|]. destruct Hseen as [Hi|Hs]; [|exact Hs].
        exfalso. apply Hnot. rewrite <- Hi. apply list_elem_of_fmap_2. exact Hin.
      * apply list_elem_of_singleton in Hin. subst pv. apply plan_establishes. exact Hnew.
Qed.

Lemma pair_and_plan_all_planned viewers seen pvs :
  planned_until seen pvs ->
  planned_until (fun j => j ∈ viewers.*1 \/ seen j)
    (foldl (pair_and_plan volume_settings lod_count volume_bounds_in_voxels
                          data_block_size_po2 can_mesh) pvs viewers).
Proof.
  revert seen pvs. induction viewers as [|[i viewer] viewers IH]; intros seen pvs H.
  - cbn. destruct H as (? & ? & HP). repeat split; auto.
    intros pv Hin [Hs|Hs]; [inversion Hs|]. auto.
  - cbn [foldl]. apply (pair_and_plan_planned _ _ i viewer) in H.
    apply IH in H. destruct H as (? & ? & HP). repeat split; auto.
    intros pv Hin Hs. apply HP; [exact Hin|]. cbn in Hs.
    rewrite elem_of_cons in Hs. tauto.
Qed.

(** After [process_viewers], every paired viewer of a viewer that is still
    there has the property planning establishes. *)
Lemma process_viewers_planned cs viewers :
  NoDup (pv_id <$> paired_viewers cs) ->
  Forall wf (paired_viewers cs) ->
  forall pv,
    pv ∈ paired_viewers
           (process_viewers volume_settings lod_count volume_bounds_in_voxels
                            data_block_size_po2 can_mesh cs viewers).1 ->
    pv_id pv ∈ viewers.*1 -> P pv.
Proof.
  intros Hnd Hwf pv Hin Hid. unfold process_viewers in Hin. cbn in Hin.
  destruct (pair_and_plan_all_planned viewers (fun _ => False)
              (process_destroyed_viewers viewers (paired_viewers cs) 0).1)
    as (_ & _ & HP).
  - split; [rewrite process_destroyed_viewers_ids; exact Hnd|].
    split; [apply process_destroyed_viewers_wf; exact Hwf|]. intros ? ? [].
  - apply HP; [exact Hin|]. left. exact Hid.
Qed.

End planned.

(** ** Well-formedness of the paired viewers is kept by every update *)

Lemma process_viewers_well_formed volume_settings lod_count volume_bounds_in_voxels
    data_block_size_po2 can_mesh cs viewers :
  well_formed lod_count cs ->
  well_formed lod_count
    (process_viewers volume_settings lod_count volume_bounds_in_voxels
                     data_block_size_po2 can_mesh cs viewers).1.
Proof.
  intros [Hnd Hwf]. unfold process_viewers, well_formed. cbn [fst paired_viewers].
  destruct (pair_and_plan_all_planned volume_settings lod_count volume_bounds_in_voxels
              data_block_size_po2 can_mesh (fun _ => True) ltac:(intros; exact I) viewers
              (fun _ => False)
              (process_destroyed_viewers viewers (paired_viewers cs) 0).1)
    as (H1 & H2 & _).
  - split; [rewrite process_destroyed_viewers_ids; exact Hnd|].
    split; [apply process_destroyed_viewers_wf; exact Hwf|]. intros ? ? [].
  - split; assumption.
Qed.

(** Removing an entry by overwriting it with the last one keeps the other
    entries. *)
Lemma remove_unpaired_viewer_sublist (pvs : list PairedViewer) (vi : nat) :
  exists kept, remove_unpaired_viewer pvs vi ≡ₚ kept /\ kept `sublist_of` pvs.
Proof.
  unfold remove_unpaired_viewer.
  destruct (last pvs) as [back|] eqn:Hlast; [|exists pvs; split; reflexivity].
  apply last_Some in Hlast as [init ->].
  destruct (decide (vi < length init)%nat) as [Hvi|Hvi].
  - rewrite insert_app_l by exact Hvi. rewrite removelast_last.
    rewrite insert_take_drop by exact Hvi.
    exists (take vi init ++ drop (S vi) init ++ [back]). split.
    + rewrite (Permutation_app_comm (drop (S vi) init) [back]). cbn. reflexivity.
    + rewrite app_assoc. apply sublist_app; [|reflexivity].
      transitivity (take vi init ++ drop vi init); [|rewrite take_drop; reflexivity].
      apply sublist_app; [reflexivity|].
      replace (S vi) with (vi + 1)%nat by lia. rewrite <- drop_drop. apply sublist_drop.
  - exists init. split; [|apply sublist_inserts_r; reflexivity].
    destruct (decide (vi = length init)) as [->|Hne].
    + rewrite <- (Nat.add_0_r (length init)), insert_app_r. cbn.
      rewrite removelast_last. reflexivity.
    + rewrite list_insert_ge by (rewrite length_app; cbn; lia).
      rewrite removelast_last. reflexivity.
Qed.

Lemma remove_unpaired_viewer_well_formed (lod_count : nat) (pvs : list PairedViewer)
    (vi : nat) :
  NoDup (pv_id <$> pvs) /\ Forall (wf_paired_viewer lod_count) pvs ->
  NoDup (pv_id <$> remove_unpaired_viewer pvs vi)
  /\ Forall (wf_paired_viewer lod_count) (remove_unpaired_viewer pvs vi).
Proof.
  intros [Hnd Hwf].
  destruct (remove_unpaired_viewer_sublist pvs vi) as (kept & Hperm & Hsub).
  rewrite Hperm. split.
  - eapply sublist_NoDup; [exact Hnd|]. apply fmap_sublist. exact Hsub.
  - rewrite Forall_forall in *. intros pv Hin. apply Hwf.
    eapply elem_of_sublist; [exact Hin|exact Hsub].
Qed.

Lemma remove_unpaired_viewers_well_formed (lod_count : nat) (indices : list nat)
    (pvs : list PairedViewer) :
  NoDup (pv_id <$> pvs) /\ Forall (wf_paired_viewer lod_count) pvs ->
  NoDup (pv_id <$> remove_unpaired_viewers indices pvs)
  /\ Forall (wf_paired_viewer lod_count) (remove_unpaired_viewers indices pvs).
Proof.
  unfold remove_unpaired_viewers. generalize (rev indices). clear indices.
  intros indices. revert pvs. induction indices as [|vi indices IH]; intros pvs H;
    [exact H|].
  cbn [foldl]. apply IH, remove_unpaired_viewer_well_formed, H.
Qed.

(** Well-formedness is kept by every update. *)
Lemma process_clipbox_streaming_well_formed st data viewers to_save to_load settings
    can_load can_mesh :
  well_formed (data_lod_count data) (clipbox_streaming st) ->
  well_formed (data_lod_count data)
    (clipbox_streaming
       (out_state (process_clipbox_streaming st data viewers to_save to_load settings
                                             can_load can_mesh))).
Proof.
  intros Hwf.
  pose proof (process_viewers_well_formed settings (data_lod_count data) (data_bounds data)
                (data_block_size_po2_ data) can_mesh _ viewers Hwf) as Hpv.
  unfold process_clipbox_streaming. cbv zeta.
  destruct (negb (streaming_enabled data) && negb (full_load_completed data));
    [exact Hpv|].
  unfold well_formed in *.
  destruct (streaming_enabled data); cbn;
    unfold process_loaded_data_blocks_trigger_meshing; cbn;
    try (destruct (streaming_enabled _); cbn);
    apply remove_unpaired_viewers_well_formed; exact Hpv.
Qed.

Lemma initial_state_well_formed (lod_count : nat) :
  well_formed lod_count (clipbox_streaming (initial_state lod_count)).
Proof. split; constructor. Qed.

(** ** C3: data boxes follow mesh boxes *)

Section data_boxes.

Variable volume_settings : Settings.
Variable lod_count : nat.
Variable volume_bounds_in_voxels : Box3i.
Variable data_block_size_po2 : Z.
Variable can_mesh : bool.

Lemma plan_viewer_data_boxes viewer pv :
  wf_paired_viewer lod_count pv ->
  data_boxes_follow_mesh_boxes volume_settings lod_count volume_bounds_in_voxels
    data_block_size_po2
    (plan_viewer volume_settings lod_count volume_bounds_in_voxels
                 data_block_size_po2 can_mesh viewer pv).
Proof.
  intros [Hm Hd] Hreq i Hi. unfold plan_viewer in *. cbn [pv_state] in *.
  destruct (require_collisions viewer || require_visuals viewer && can_mesh) eqn:E;
    [|cbn in Hreq; congruence].
  cbn [mesh_box_per_lod data_box_per_lod].
  set (mesh_boxes := foldl (plan_mesh_box _ _ _ _ _) _ _).
  destruct (fill_slots_invariant
              (fun _ => planned_data_box_from_mesh volume_settings volume_bounds_in_voxels
                                                   data_block_size_po2 mesh_boxes)
              (fun j a => a = planned_data_box_from_mesh
                                volume_settings volume_bounds_in_voxels
                                data_block_size_po2 mesh_boxes j)
              lod_count (data_box_per_lod (pv_state pv)) ltac:(lia)
              ltac:(reflexivity) i Hi) as (a & Ha & ->).
  assert (Hbox : box_at (foldl (plan_data_box_from_mesh volume_settings
                                  volume_bounds_in_voxels data_block_size_po2 mesh_boxes)
                               (data_box_per_lod (pv_state pv)) (seq 0 lod_count)) i
                 = planned_data_box_from_mesh volume_settings volume_bounds_in_voxels
                                              data_block_size_po2 mesh_boxes i).
  { unfold box_at. change (plan_data_box_from_mesh volume_settings volume_bounds_in_voxels
                             data_block_size_po2 mesh_boxes)
      with (fill_slot (fun _ : list Box3i =>
                         planned_data_box_from_mesh volume_settings volume_bounds_in_voxels
                                                    data_block_size_po2 mesh_boxes)).
    rewrite Ha. reflexivity. }
  cbv zeta. rewrite Hbox. split; [reflexivity|].
  intros cell Hc Hb. apply clipped_keeps_cells_in_limit; assumption.
Qed.

End data_boxes.

(** After the planner has run on well-formed paired viewers, the data boxes
    of every paired viewer whose viewer is among the viewers given follow
    its mesh boxes. *)
Lemma process_viewers_data_boxes_planned
    (volume_settings : Settings) (lod_count : nat) (volume_bounds_in_voxels : Box3i)
    (data_block_size_po2 : Z) (can_mesh : bool)
    (cs : ClipboxStreamingState) (viewers : list (ViewerID * Viewer)) :
  well_formed lod_count cs ->
  forall pv,
    pv ∈ paired_viewers
           (process_viewers volume_settings lod_count volume_bounds_in_voxels
                            data_block_size_po2 can_mesh cs viewers).1 ->
    pv_id pv ∈ viewers.*1 ->
    data_boxes_follow_mesh_boxes volume_settings lod_count volume_bounds_in_voxels
                                 data_block_size_po2 pv.
Proof.
  intros [Hnd Hwf]. apply process_viewers_planned; [|exact Hnd|exact Hwf].
  intros viewer pv Hpv. apply plan_viewer_data_boxes. exact Hpv.
Qed.

(** Claim C3 as stated fails at the border of the volume: the mesh box of the
    corner viewer is [0,2)^3, padded it is [-1,3)^3, and the data box, clipped
    to the bounds, is [0,2)^3, which does not contain the padded mesh box. *)
Lemma data_box_contains_padded_mesh_box_counterexample :
  paired_viewers corner_planned = [corner_paired_viewer]
  /\ requires_meshes (pv_state corner_paired_viewer) = true
  /\ box_at (mesh_box_per_lod (pv_state corner_paired_viewer)) 0%nat
     = mkBox3i vzero (mkVector3i 2 2 2)
  /\ box_at (data_box_per_lod (pv_state corner_paired_viewer)) 0%nat
     = mkBox3i vzero (mkVector3i 2 2 2)
  /\ Box3i.contains_box
       (box_at (data_box_per_lod (pv_state corner_paired_viewer)) 0%nat)
       (padded_mesh_box_in_data_blocks corner_settings 4
          (box_at (mesh_box_per_lod (pv_state corner_paired_viewer)) 0%nat))
     = false.
Proof. vm_compute. repeat split; reflexivity. Qed.

(** ** C4: mesh boxes of the non-root LODs are even *)

Lemma veven_intro (a b c : Z) :
  Z.even a = true -> Z.even b = true -> Z.even c = true -> veven (mkVector3i a b c).
Proof. intros. repeat split; assumption. Qed.

Lemma base_box_even (center : Vector3i) (d c : Z) :
  Box3i.even_box (get_base_box_in_chunks center d c true).
Proof.
  unfold get_base_box_in_chunks, Box3i.from_min_max, Box3i.even_box. vsimpl.
  split; apply veven_intro; auto with evenness.
Qed.

Lemma scaled_by_two_even (b : Box3i) : Box3i.even_box (Box3i.scaled b 2).
Proof.
  unfold Box3i.scaled, Box3i.even_box. vsimpl.
  split; apply veven_intro; auto with evenness.
Qed.

Lemma merge_with_even (a b : Box3i) :
  Box3i.even_box a -> Box3i.even_box b -> Box3i.even_box (Box3i.merge_with a b).
Proof.
  intros [(? & ? & ?) (? & ? & ?)] [(? & ? & ?) (? & ? & ?)].
  unfold Box3i.merge_with, Box3i.even_box, Box3i.end_. vsimpl.
  split; apply veven_intro; auto 6 with evenness.
Qed.

Lemma clip_range_even (p s lp ls : Z) :
  Z.even p = true -> Z.even s = true -> Z.even lp = true -> Z.even ls = true ->
  Z.even (Box3i.clip_range p s lp ls).1 = true
  /\ Z.even (Box3i.clip_range p s lp ls).2 = true.
Proof.
  intros. unfold Box3i.clip_range. cbv zeta. cbn [fst snd].
  split; auto 8 with evenness.
Qed.

Lemma clipped_even (b lim : Box3i) :
  Box3i.even_box b -> Box3i.even_box lim -> Box3i.even_box (Box3i.clipped b lim).
Proof.
  intros [(? & ? & ?) (? & ? & ?)] [(? & ? & ?) (? & ? & ?)].
  unfold Box3i.clipped, Box3i.even_box. cbn [pos size].
  split; apply veven_intro; apply clip_range_even; assumption.
Qed.

Lemma floordiv_multiple (k s : Z) : 0 < s -> math.floordiv (k * s) s = k.
Proof. intros. unfold math.floordiv. apply Z.div_mul. lia. Qed.

Lemma floordiv_multiple_pred (k s : Z) : 0 < s -> math.floordiv (k * s - 1) s = k - 1.
Proof.
  intros. unfold math.floordiv. symmetry.
  apply (Z.div_unique_pos (k * s - 1) s (k - 1) (s - 1)); lia.
Qed.

(** A box whose position and size are multiples of [2 * t * s] is even once
    downscaled by [s]. *)
Lemma downscaled_even (b : Box3i) (s t : Z) :
  0 < s -> vdivides (2 * t * s) (pos b) -> vdivides (2 * t * s) (size b) ->
  Box3i.even_box (Box3i.downscaled b s).
Proof.
  intros Hs (Hx & Hy & Hz) (Sx & Sy & Sz).
  assert (H1 : forall p, (2 * t * s | p) -> Z.even (math.floordiv p s) = true).
  { intros p [k ->]. replace (k * (2 * t * s)) with ((k * t * 2) * s) by lia.
    rewrite floordiv_multiple by lia. apply even_double. }
  assert (H2 : forall p q, (2 * t * s | p) -> (2 * t * s | q) ->
               Z.even (math.floordiv (p + q - 1) s - math.floordiv p s + 1) = true).
  { intros p q [k ->] [m ->].
    replace (k * (2 * t * s) + m * (2 * t * s) - 1) with (((k + m) * t * 2) * s - 1) by lia.
    replace (k * (2 * t * s)) with ((k * t * 2) * s) by lia.
    rewrite floordiv_multiple_pred, floordiv_multiple by lia.
    replace ((k + m) * t * 2 - 1 - k * t * 2 + 1) with ((m * t) * 2) by lia.
    apply even_double. }
  unfold Box3i.downscaled, Box3i.even_box, Box3i.end_. vsimpl.
  split; apply veven_intro; auto.
Qed.

Section even_mesh_boxes.

Variable volume_settings : Settings.
Variable lod_count : nat.
Variable volume_bounds_in_voxels : Box3i.
Variable data_block_size_po2 : Z.
Variable can_mesh : bool.

Hypothesis mesh_block_size_po2_nonneg : 0 <= mesh_block_size_po2 volume_settings.
Hypothesis bounds_aligned :
  bounds_aligned_to_root_blocks volume_settings lod_count volume_bounds_in_voxels.

Lemma root_block_size_factor (lod_index : nat) :
  (S lod_index < lod_count)%nat ->
  last_lod_mesh_block_size volume_settings lod_count
  = 2 * 2 ^ Z.of_nat (lod_count - 2 - lod_index)
    * Z.shiftl 1 (mesh_block_size_po2 volume_settings + Z.of_nat lod_index).
Proof.
  intros Hi. unfold last_lod_mesh_block_size, mesh_block_size.
  rewrite !Z.shiftl_1_l, Z.shiftl_mul_pow2 by lia.
  replace (Z.of_nat (lod_count - 1))
    with (1 + Z.of_nat (lod_count - 2 - lod_index) + Z.of_nat lod_index) by lia.
  rewrite !Z.pow_add_r by lia. lia.
Qed.

Lemma volume_bounds_in_mesh_blocks_even (lod_index : nat) :
  (S lod_index < lod_count)%nat ->
  Box3i.even_box (volume_bounds_in_mesh_blocks volume_settings volume_bounds_in_voxels
                                               lod_index).
Proof.
  intros Hi. destruct bounds_aligned as [Hp Hs].
  rewrite (root_block_size_factor lod_index Hi) in Hp, Hs.
  unfold volume_bounds_in_mesh_blocks.
  refine (downscaled_even _ _ _ _ Hp Hs).
  rewrite Z.shiftl_1_l. apply Z.pow_pos_nonneg; lia.
Qed.

Lemma planned_mesh_box_even position view_distance mesh_boxes (lod_index : nat) :
  (S lod_index < lod_count)%nat ->
  Box3i.even_box (planned_mesh_box volume_settings lod_count volume_bounds_in_voxels
                                   position view_distance mesh_boxes lod_index).
Proof.
  intros Hi. unfold planned_mesh_box, neighboring_min_box.
  assert (Hlast : is_last_lod lod_count lod_index = false).
  { unfold is_last_lod. apply bool_decide_eq_false. lia. }
  rewrite Hlast. cbn [negb].
  apply clipped_even; [|apply volume_bounds_in_mesh_blocks_even; exact Hi].
  destruct lod_index as [|child_index]; [apply base_box_even|].
  apply merge_with_even; [apply base_box_even|apply scaled_by_two_even].
Qed.

Lemma plan_viewer_mesh_boxes_even viewer pv :
  wf_paired_viewer lod_count pv ->
  non_root_mesh_boxes_even lod_count
    (plan_viewer volume_settings lod_count volume_bounds_in_voxels
                 data_block_size_po2 can_mesh viewer pv).
Proof.
  intros [Hm Hd] Hreq i Hi. unfold plan_viewer in *. cbn [pv_state] in *.
  destruct (require_collisions viewer || require_visuals viewer && can_mesh) eqn:E;
    [|cbn in Hreq; congruence].
  cbn [mesh_box_per_lod].
  destruct (fill_slots_invariant
              (planned_mesh_box volume_settings lod_count volume_bounds_in_voxels
                 (local_position viewer)
                 (Z.min (view_distance_scaled viewer)
                        (settings_view_distance_voxels volume_settings)))
              (fun j a => (S j < lod_count)%nat -> Box3i.even_box a)
              lod_count (mesh_box_per_lod (pv_state pv)) ltac:(lia)
              ltac:(intros acc j _ _ _ Hj; apply planned_mesh_box_even; exact Hj) i ltac:(lia))
    as (a & Ha & Heven).
  unfold box_at.
  change (plan_mesh_box volume_settings lod_count volume_bounds_in_voxels
            (local_position viewer)
            (Z.min (view_distance_scaled viewer)
                   (settings_view_distance_voxels volume_settings)))
    with (fill_slot (planned_mesh_box volume_settings lod_count volume_bounds_in_voxels
                       (local_position viewer)
                       (Z.min (view_distance_scaled viewer)
                              (settings_view_distance_voxels volume_settings)))).
  rewrite Ha. cbn. apply Heven. exact Hi.
Qed.

End even_mesh_boxes.

(** Claim C4, as amended.  Provided the volume bounds start and extend by
    multiples of the root LOD's mesh block size, after the planner has run on
    well-formed paired viewers, for every paired viewer whose viewer is still
    there and requires meshes (or collisions) and for every LOD index but the
    last, the stored mesh box has even position and even size on every axis. *)
Theorem process_viewers_mesh_boxes_even
    (volume_settings : Settings) (lod_count : nat) (volume_bounds_in_voxels : Box3i)
    (data_block_size_po2 : Z) (can_mesh : bool)
    (cs : ClipboxStreamingState) (viewers : list (ViewerID * Viewer)) :
  0 <= mesh_block_size_po2 volume_settings ->
  bounds_aligned_to_root_blocks volume_settings lod_count volume_bounds_in_voxels ->
  well_formed lod_count cs ->
  forall pv,
    pv ∈ paired_viewers
           (process_viewers volume_settings lod_count volume_bounds_in_voxels
                            data_block_size_po2 can_mesh cs viewers).1 ->
    pv_id pv ∈ viewers.*1 ->
    non_root_mesh_boxes_even lod_count pv.
Proof.
  intros Hpo2 Hal [Hnd Hwf]. apply process_viewers_planned; [|exact Hnd|exact Hwf].
  intros viewer pv Hpv. apply plan_viewer_mesh_boxes_even; assumption.
Qed.

Lemma process_viewers_mesh_boxes_even_witness :
  Box3i.even_box (box_at (mesh_box_per_lod (pv_state (planned_in aligned_bounds))) 0%nat).
Proof.
  refine (process_viewers_mesh_boxes_even two_lod_settings 2 aligned_bounds 4 true
            (mkClipboxStreamingState [] [] []) [(0%nat, origin_viewer)]
            _ _ _ (planned_in aligned_bounds) _ _ _ 0%nat _).
  - vm_compute. discriminate.
  - split; repeat split; ((exists (-2); reflexivity) || (exists 4; reflexivity)).
  - split; constructor.
  - apply list_elem_of_In. vm_compute. left. reflexivity.
  - apply list_elem_of_In. vm_compute. left. reflexivity.
  - vm_compute. reflexivity.
  - lia.
Defined.

(** Claim C4 as stated fails when the bounds are not multiples of the root
    block size: with bounds [-16,32)^3 the LOD-0 mesh box [-2,2)^3 is clipped
    to [-1,2)^3, of odd position and odd size. *)
Lemma mesh_box_even_counterexample :
  requires_meshes (pv_state (planned_in unaligned_bounds)) = true
  /\ box_at (mesh_box_per_lod (pv_state (planned_in unaligned_bounds))) 0%nat
     = mkBox3i (mkVector3i (-1) (-1) (-1)) (mkVector3i 3 3 3)
  /\ ~ Box3i.even_box (box_at (mesh_box_per_lod (pv_state (planned_in unaligned_bounds))) 0%nat).
Proof.
  split; [vm_compute; reflexivity|]. split; [vm_compute; reflexivity|].
  intros [(H & _) _]. vm_compute in H. discriminate.
Qed.

(** ** The first child of a block *)

Lemma first_child_position (bpos : Vector3i) : get_child_position bpos 0 = vshl bpos 1.
Proof.
  destruct bpos as [bx by_ bz]. unfold get_child_position, get_child_position_from_first_sibling.
  vsimpl. rewrite !Z.shiftl_mul_pow2 by lia. change (Z.of_nat 0) with 0.
  rewrite !Z.land_0_l, !Z.shiftr_0_l, Z.pow_1_r. f_equal; lia.
Qed.

(** ** Whole updates *)

(** Membership in a concrete list of positions, settled by evaluation. *)
Lemma elem_of_by_evaluation (p : Vector3i) (l : list Vector3i) :
  bool_decide (p ∈ l) = true -> p ∈ l.
Proof. apply bool_decide_eq_true_1. Qed.

Lemma not_elem_of_by_evaluation (p : Vector3i) (l : list Vector3i) :
  bool_decide (p ∈ l) = false -> p ∉ l.
Proof. apply bool_decide_eq_false_1. Qed.

(** *** C6: a viewer is added, moved and removed *)

(** Claim C6 at a failing input.  The viewer is added at the origin, moved to
    (-100,0,0) and removed, an update running after each step.  At the end no
    paired viewer is left, yet the eight LOD-0 blocks requested for the viewer
    are still in [loading_blocks]: in the last update the root-LOD boxes do
    not intersect the bounds, the loop over LODs breaks, and LOD 0 is never
    unviewed. *)
Theorem viewer_round_trip_leaves_loading_blocks :
  paired_viewers (clipbox_streaming (out_state RoundTrip.removed)) = []
  /\ (fun l => map_to_list (mesh_map l)) <$> lods (out_state RoundTrip.removed) = [[]; []]
  /\ length (loading_positions RoundTrip.added 0) = 8%nat
  /\ length (loading_positions RoundTrip.removed 0) = 8%nat
  /\ loading_blocks (lod_at (lods (out_state RoundTrip.removed)) 0) !! vzero
     = Some (mkLoadingDataBlock 1)
  /\ (fun pv => data_box_per_lod (pv_state pv))
       <$> paired_viewers (clipbox_streaming (out_state RoundTrip.moved))
     = [[mkBox3i vzero (mkVector3i 2 2 2); mkBox3i vzero (mkVector3i 0 1 1)]]
  /\ out_state RoundTrip.removed <> initial_state 2.
Proof.
  split; [vm_compute; reflexivity|].
  split; [vm_compute; reflexivity|].
  split; [vm_compute; reflexivity|].
  split; [vm_compute; reflexivity|].
  split; [vm_compute; reflexivity|].
  split; [vm_compute; reflexivity|].
  intros H.
  assert (H0 : loading_blocks (lod_at (lods (out_state RoundTrip.removed)) 0) !! vzero
               = loading_blocks (lod_at (lods (initial_state 2)) 0) !! vzero)
    by (rewrite H; reflexivity).
  vm_compute in H0. discriminate.
Qed.

(** The same three updates with a viewer that requires visuals leave nothing
    behind. *)
Example mesh_viewer_round_trip :
  let viewer_at p := mkViewer p 64 false true in
  let added := tick RoundTrip.settings true true (initial 2 RoundTrip.bounds true false)
                    [(7%nat, viewer_at vzero)] in
  let moved := tick RoundTrip.settings true true added
                    [(7%nat, viewer_at (mkVector3i (-100) 0 0))] in
  let removed := tick RoundTrip.settings true true moved [] in
  length (map_to_list (mesh_map (lod_at (lods (out_state added)) 0))) = 8%nat
  /\ paired_viewers (clipbox_streaming (out_state removed)) = []
  /\ (fun l => (map_to_list (mesh_map l), map_to_list (loading_blocks l)))
       <$> lods (out_state removed) = [([], []); ([], [])].
Proof. repeat split; vm_compute; reflexivity. Qed.

(** *** C7: mesh updates cancelled by the differs *)

Lemma revert_dropped_lookup (dropped : list Vector3i) (m : gmap Vector3i MeshBlockState)
    (bpos : Vector3i) :
  bpos ∈ dropped ->
  state <$> (foldl (fun m p => alter (set_state MESH_NEED_UPDATE) p m) m dropped !! bpos)
  = (fun _ => MESH_NEED_UPDATE) <$> (m !! bpos).
Proof.
  revert m. induction dropped as [|p dropped IH]; intros m Hin; [inversion Hin|].
  cbn [foldl]. destruct (decide (bpos ∈ dropped)) as [Hd|Hd].
  - rewrite IH by exact Hd. rewrite lookup_alter. case_decide; [|reflexivity].
    subst. destruct (m !! bpos); reflexivity.
  - apply elem_of_cons in Hin as [->|Hin]; [|contradiction].
    clear IH. revert m. induction dropped as [|q dropped IH]; intros m.
    + cbn. rewrite lookup_alter_eq. destruct (m !! p); reflexivity.
    + cbn [foldl]. apply not_elem_of_cons in Hd as [Hne Hd].
      rewrite (map_eq (alter (set_state MESH_NEED_UPDATE) q (alter (set_state MESH_NEED_UPDATE) p m))
                      (alter (set_state MESH_NEED_UPDATE) p (alter (set_state MESH_NEED_UPDATE) q m))).
      * rewrite IH by exact Hd. rewrite lookup_alter_ne by congruence. reflexivity.
      * intros k. rewrite !lookup_alter. repeat case_decide; subst; try congruence;
          destruct (m !! k); reflexivity.
Qed.

(** The data differ: an update it cancels is dropped from the pending list,
    and its block, if it is in the mesh map, goes back to [MESH_NEED_UPDATE]. *)
Lemma cancel_updates_outside_data_reverts (mesh_box : Box3i) (l : Lod) (bpos : Vector3i) :
  bpos ∈ mesh_blocks_pending_update l ->
  Box3i.contains mesh_box bpos = false ->
  (bpos ∉ mesh_blocks_pending_update (cancel_updates_outside_data mesh_box l))
  /\ state <$> (mesh_map (cancel_updates_outside_data mesh_box l) !! bpos)
     = (fun _ => MESH_NEED_UPDATE) <$> (mesh_map l !! bpos).
Proof.
  intros Hin Hout. unfold cancel_updates_outside_data. cbn. split.
  - rewrite list_elem_of_filter. intros [Hc _]. congruence.
  - apply revert_dropped_lookup. apply list_elem_of_filter. split; assumption.
Qed.

(** Claim C7 at a failing input.  In the first update with two viewers, the
    mesh block at the origin enters the first viewer's mesh box and its update
    is pending; when the mesh differ then handles the second viewer, whose
    mesh box does not contain the origin, the update is dropped from the
    pending list while the block, still in the mesh map, stays in
    [MESH_UPDATE_NOT_SENT] instead of going back to [MESH_NEED_UPDATE]. *)
Theorem mesh_cancel_leaves_update_not_sent :
  vzero ∈ mesh_blocks_pending_update (lod_at TwoViewers.after_first_viewer 0)
  /\ (vzero ∉ mesh_blocks_pending_update (lod_at (lods TwoViewers.after_both_viewers) 0))
  /\ mesh_map (lod_at (lods TwoViewers.after_both_viewers) 0) !! vzero
     = Some (mkMeshBlockState MESH_UPDATE_NOT_SENT false false 1 1)
  /\ lod_contents <$> lods (out_state TwoViewers.updated)
     = lod_contents <$> lods TwoViewers.after_both_viewers.
Proof.
  split; [apply elem_of_by_evaluation; vm_compute; reflexivity|].
  split; [apply not_elem_of_by_evaluation; vm_compute; reflexivity|].
  split; vm_compute; reflexivity.
Qed.

(** *** C8: unviewing a block that was never requested *)

(** Whatever follows it in the batch, a cell without a loading block ends the
    loop with [Return], the LOD and the load requests as they were. *)
Lemma unview_missing_blocks_unknown_first (lod_index : nat) (l : Lod)
    (to_load : list BlockLocation) (bpos : Vector3i) (rest : list Vector3i) :
  loading_blocks l !! bpos = None ->
  unview_missing_blocks lod_index l to_load (bpos :: rest) = (l, to_load, Return).
Proof. intros Hnone. cbn [unview_missing_blocks]. rewrite Hnone. reflexivity. Qed.

(** Claim C8 at a failing input, first on the loop itself: of the two cells
    reported missing, the first has no loading block, the second has one with
    a single viewer.  The loop returns at the first cell and the loading block
    of the second is left as it was. *)
Lemma unview_missing_blocks_returns_early :
  let l := set_loading_blocks {[ mkVector3i 1 0 0 := mkLoadingDataBlock 1 ]} Lod_default in
  let r := unview_missing_blocks 0 l [mkBlockLocation (mkVector3i 1 0 0) 0]
                                 [vzero; mkVector3i 1 0 0] in
  r.2 = Return
  /\ loading_blocks r.1.1 !! mkVector3i 1 0 0 = Some (mkLoadingDataBlock 1)
  /\ r.1.2 = [mkBlockLocation (mkVector3i 1 0 0) 0].
Proof. vm_compute. repeat split; reflexivity. Qed.

(** Claim C8 at a failing input, on whole updates.  When both viewers are
    removed, the cells of the first viewer's box are unviewed first; its first
    cell was never requested, so [process_data_blocks_sliding_box] returns:
    the shared cell, later in the same batch, keeps its loading block with
    its viewer, and so do all 27 blocks requested for the second viewer,
    although no paired viewer is left. *)
Theorem unview_of_unknown_block_stops_processing :
  loading_positions Unview.first_paired 0 = []
  /\ length (loading_positions Unview.second_paired 0) = 27%nat
  /\ (fun pv => box_at (data_box_per_lod (pv_state pv)) 0)
       <$> paired_viewers (clipbox_streaming (out_state Unview.second_paired))
     = [mkBox3i (mkVector3i (-1) (-1) (-1)) (mkVector3i 3 3 3);
        mkBox3i (mkVector3i 1 (-1) (-1)) (mkVector3i 3 3 3)]
  /\ paired_viewers (clipbox_streaming (out_state Unview.both_removed)) = []
  /\ loading_blocks (lod_at (lods (out_state Unview.both_removed)) 0) !! Unview.shared_cell
     = Some (mkLoadingDataBlock 1)
  /\ length (loading_positions Unview.both_removed 0) = 27%nat.
Proof. repeat split; vm_compute; reflexivity. Qed.

(** *** C9: [prepare] and failed allocations *)

(** The allocations [prepare] checks: a null handle for a texture, for the
    vertex, index, triangle, tile or gather-hits parameter buffer, for the
    dilation parameter buffer or for a pipeline ends [prepare] before the
    compute list begins.  So do empty vertices, indices or triangle lists and
    a null or invalid modifier shader. *)
Lemma prepare_aborts_on_checked_failures :
  Forall (fun k => let r := GPU.run_prepare Prepare.engine Prepare.task (Prepare.failing_at k) in
                   GPU.begins_compute_list r.1 = false /\ GPU.records_dispatch r.1 = false
                   /\ r.2 = false)
         [0; 1; 2; 3; 4; 5; 6; 12; 13; 14; 15; 16]%nat
  /\ Forall (fun t => GPU.run_prepare Prepare.engine t Prepare.healthy = ([], false))
       [GPU.mkTask 0%nat 3%nat 1%nat 4%nat (Some (GPU.mkComputeShader true 100%nat)) None 16 64 64;
        GPU.mkTask 3%nat 0%nat 1%nat 4%nat (Some (GPU.mkComputeShader true 100%nat)) None 16 64 64;
        GPU.mkTask 3%nat 3%nat 0%nat 4%nat (Some (GPU.mkComputeShader true 100%nat)) None 16 64 64;
        GPU.mkTask 3%nat 3%nat 1%nat 4%nat None None 16 64 64;
        GPU.mkTask 3%nat 3%nat 1%nat 4%nat (Some (GPU.mkComputeShader false 100%nat)) None 16 64 64].
Proof. split; repeat constructor. Qed.

(** Claim C9 at failing inputs.  With valid shaders and non-empty inputs, a
    null handle answered for the hit-positions buffer (or for the modifier
    parameters, either signed-distance buffer or the normal-map parameters)
    does not stop [prepare]: the compute list begins and the five dispatches
    are recorded.  Nor does an empty tile list, on a device that allocates
    every buffer. *)
Theorem prepare_begins_compute_list_despite_null_buffer :
  Forall (fun k => let r := GPU.run_prepare Prepare.engine Prepare.task (Prepare.failing_at k) in
                   GPU.begins_compute_list r.1 = true /\ GPU.records_dispatch r.1 = true
                   /\ r.2 = true
                   /\ GPU.dispatches r.1
                      = [(4, 4, 1); (4, 4, 1); (4, 4, 1); (8, 8, 1); (8, 8, 1)])
         [7; 8; 9; 10; 11]%nat
  /\ (let r := GPU.run_prepare Prepare.engine
                 (GPU.mkTask 3%nat 3%nat 1%nat 0%nat (Some (GPU.mkComputeShader true 100%nat)) None 16 64 64)
                 Prepare.healthy in
      GPU.begins_compute_list r.1 = true /\ GPU.records_dispatch r.1 = true).
Proof. split; [repeat constructor|]. vm_compute. split; reflexivity. Qed.

(** ** A mesh block finishes loading *)

(** One step of [update_mesh_block_load], whatever the LOD. *)
Lemma update_mesh_block_load_unfold (lod_count lod_index : nat) (ls : list Lod)
    (bpos : Vector3i) :
  update_mesh_block_load lod_count lod_index ls bpos
  = match mesh_map (lod_at ls lod_index) !! bpos with
    | None => ls
    | Some mesh_block =>
        if negb (loaded mesh_block) then ls
        else
          if bool_decide (S lod_index = lod_count) then
            let ls := if negb (active mesh_block)
                      then alter (activate_block bpos) lod_index ls else ls in
            match lod_index with
            | O => ls
            | S child_lod_index =>
                foldl (fun ls child_index =>
                         update_mesh_block_load lod_count child_lod_index ls
                                                (get_child_position bpos child_index))
                      ls (seq 0 8)
            end
          else
            let parent_bpos := vshr bpos 1 in
            match mesh_map (lod_at ls (S lod_index)) !! parent_bpos with
            | None => ls
            | Some parent_mesh_block =>
                if active parent_mesh_block
                   && all_siblings_loaded (lod_at ls lod_index) parent_bpos then
                  let ls := alter (deactivate_block parent_bpos) (S lod_index) ls in
                  foldl (fun ls sibling_index =>
                           let sibling_bpos := get_child_position parent_bpos sibling_index in
                           let ls := alter (activate_block sibling_bpos) lod_index ls in
                           match lod_index with
                           | O => ls
                           | S child_lod_index =>
                               foldl (fun ls (child_index : nat) =>
                                        update_mesh_block_load lod_count child_lod_index ls
                                          (get_child_position sibling_bpos sibling_index))
                                     ls (seq 0 8)
                           end)
                        ls (seq 0 8)
                else ls
            end
    end.
Proof. destruct lod_index; reflexivity. Qed.

(** The parent of a child is the block it was derived from. *)
Lemma parent_of_child (parent_bpos : Vector3i) (child_index : nat) :
  (child_index < 8)%nat -> vshr (get_child_position parent_bpos child_index) 1 = parent_bpos.
Proof.
  intros Hi. destruct parent_bpos as [px py pz].
  assert (Hbits : let i := Z.of_nat child_index in
                  0 <= Z.land i 1 < 2 /\ 0 <= Z.shiftr (Z.land i 2) 1 < 2
                  /\ 0 <= Z.shiftr (Z.land i 4) 2 < 2).
  { do 8 (destruct child_index as [|child_index]; [vm_compute; intuition discriminate|]).
    lia. }
  destruct Hbits as (Hx & Hy & Hz).
  assert (Hhalf : forall p b, 0 <= b < 2 -> Z.shiftr (p * 2 + b) 1 = p).
  { intros p b Hb. rewrite Z.shiftr_div_pow2 by lia. change (2 ^ 1) with 2.
    symmetry. apply (Z.div_unique (p * 2 + b) 2 p b); lia. }
  unfold get_child_position, get_child_position_from_first_sibling. vsimpl.
  rewrite !Hhalf by assumption. reflexivity.
Qed.

Lemma same_positions_refl ls : same_positions ls ls.
Proof. intros ? ?. reflexivity. Qed.

Lemma same_positions_trans ls1 ls2 ls3 :
  same_positions ls1 ls2 -> same_positions ls2 ls3 -> same_positions ls1 ls3.
Proof. intros H12 H23 i p. etransitivity; [apply H23|apply H12]. Qed.

Lemma lod_at_alter_ne (f : Lod -> Lod) (ls : list Lod) (i j : nat) :
  i <> j -> lod_at (alter f i ls) j = lod_at ls j.
Proof. intros Hne. unfold lod_at. rewrite list_lookup_alter_ne by exact Hne. reflexivity. Qed.

Lemma lod_at_alter_eq (f : Lod -> Lod) (ls : list Lod) (i : nat) :
  (i < length ls)%nat -> lod_at (alter f i ls) i = f (lod_at ls i).
Proof.
  intros Hi. unfold lod_at. rewrite list_lookup_alter_eq.
  destruct (lookup_lt_is_Some_2 ls i Hi) as [l ->]. reflexivity.
Qed.

(** Changing the [active] flag of a block moves no position. *)
Lemma same_positions_alter (f : Lod -> Lod) (ls : list Lod) (i : nat) :
  (forall l bpos, is_Some (mesh_map (f l) !! bpos) <-> is_Some (mesh_map l !! bpos)) ->
  same_positions ls (alter f i ls).
Proof.
  intros Hf j p. destruct (decide (i = j)) as [<-|Hne].
  - destruct (decide (i < length ls)%nat) as [Hi|Hi].
    + rewrite lod_at_alter_eq by exact Hi. apply Hf.
    + unfold lod_at. rewrite list_lookup_alter_eq, (lookup_ge_None_2 ls i) by lia. reflexivity.
  - rewrite lod_at_alter_ne by exact Hne. reflexivity.
Qed.

Lemma activate_block_positions (p : Vector3i) (l : Lod) (bpos : Vector3i) :
  is_Some (mesh_map (activate_block p l) !! bpos) <-> is_Some (mesh_map l !! bpos).
Proof.
  unfold activate_block. cbn. rewrite lookup_alter. case_decide; [|reflexivity].
  subst. rewrite fmap_is_Some. reflexivity.
Qed.

Lemma deactivate_block_positions (p : Vector3i) (l : Lod) (bpos : Vector3i) :
  is_Some (mesh_map (deactivate_block p l) !! bpos) <-> is_Some (mesh_map l !! bpos).
Proof.
  unfold deactivate_block. cbn. rewrite lookup_alter. case_decide; [|reflexivity].
  subst. rewrite fmap_is_Some. reflexivity.
Qed.

Lemma same_positions_foldl {B : Type} (f : list Lod -> B -> list Lod) (l : list B)
    (ls : list Lod) :
  (forall ls b, same_positions ls (f ls b)) -> same_positions ls (foldl f ls l).
Proof.
  intros Hf. revert ls. induction l as [|b l IH]; intros ls; [apply same_positions_refl|].
  cbn. eapply same_positions_trans; [apply Hf|apply IH].
Qed.

(** [update_mesh_block_load] inserts and erases nothing. *)
Lemma update_mesh_block_load_positions (lod_count lod_index : nat) (ls : list Lod)
    (bpos : Vector3i) :
  same_positions ls (update_mesh_block_load lod_count lod_index ls bpos).
Proof.
  revert ls bpos. induction lod_index as [|child_lod_index IH]; intros ls bpos;
    rewrite update_mesh_block_load_unfold; cbv zeta;
    (destruct (mesh_map (lod_at ls _) !! bpos) as [mesh_block|];
     [|apply same_positions_refl]);
    (destruct (negb (loaded mesh_block)); [apply same_positions_refl|]);
    destruct (bool_decide _).
  - destruct (negb (active mesh_block)); [|apply same_positions_refl].
    apply same_positions_alter, activate_block_positions.
  - destruct (mesh_map _ !! vshr bpos 1) as [parent|]; [|apply same_positions_refl].
    destruct (_ && _); [|apply same_positions_refl].
    eapply same_positions_trans;
      [apply same_positions_alter, deactivate_block_positions|].
    apply same_positions_foldl. intros ls' i.
    apply same_positions_alter, activate_block_positions.
  - eapply same_positions_trans; [|apply same_positions_foldl; intros; apply IH].
    destruct (negb (active mesh_block)); [|apply same_positions_refl].
    apply same_positions_alter, activate_block_positions.
  - destruct (mesh_map _ !! vshr bpos 1) as [parent|]; [|apply same_positions_refl].
    destruct (_ && _); [|apply same_positions_refl].
    eapply same_positions_trans;
      [apply same_positions_alter, deactivate_block_positions|].
    apply same_positions_foldl. intros ls' i.
    eapply same_positions_trans;
      [apply same_positions_alter, activate_block_positions|].
    apply same_positions_foldl. intros. apply IH.
Qed.

Lemma all_siblings_loaded_true (l : Lod) (parent_bpos : Vector3i) :
  all_siblings_loaded l parent_bpos = true
  <-> forall sibling_index, (sibling_index < 8)%nat ->
        exists sibling, mesh_map l !! get_child_position parent_bpos sibling_index = Some sibling
                        /\ loaded sibling = true.
Proof.
  unfold all_siblings_loaded. rewrite forallb_forall. split.
  - intros H i Hi. specialize (H i ltac:(apply in_seq; lia)).
    destruct (mesh_map l !! _) as [sibling|]; [eauto|discriminate].
  - intros H i Hi. apply in_seq in Hi. destruct (H i ltac:(lia)) as (sibling & -> & Hl).
    exact Hl.
Qed.

Lemma all_siblings_loaded_false (l : Lod) (parent_bpos : Vector3i) (sibling_index : nat) :
  (sibling_index < 8)%nat ->
  match mesh_map l !! get_child_position parent_bpos sibling_index with
  | Some sibling => loaded sibling = false
  | None => True
  end ->
  all_siblings_loaded l parent_bpos = false.
Proof.
  intros Hi Hs. apply not_true_is_false. intros Hall.
  destruct (proj1 (all_siblings_loaded_true _ _) Hall _ Hi) as (sibling & Hm & Hl).
  rewrite Hm in Hs. congruence.
Qed.

(** Below the root, [update_mesh_block_load] on any child of a block that is
    in the mesh map is the subdivision check of that block. *)
Lemma update_mesh_block_load_child (lod_count lod_index : nat) (ls : list Lod)
    (parent_bpos : Vector3i) (child_index : nat) :
  S lod_index <> lod_count ->
  (child_index < 8)%nat ->
  is_Some (mesh_map (lod_at ls (S lod_index)) !! parent_bpos) ->
  update_mesh_block_load lod_count lod_index ls (get_child_position parent_bpos child_index)
  = settle lod_count lod_index ls parent_bpos.
Proof.
  intros Hroot Hi [parent Hparent].
  rewrite update_mesh_block_load_unfold. cbv zeta. unfold settle.
  rewrite parent_of_child by exact Hi. rewrite Hparent.
  destruct (mesh_map (lod_at ls lod_index) !! get_child_position parent_bpos child_index)
    as [mesh_block|] eqn:Hchild.
  - destruct (loaded mesh_block) eqn:Hloaded; cbn [negb].
    + rewrite bool_decide_eq_false_2 by exact Hroot. reflexivity.
    + rewrite (all_siblings_loaded_false _ _ child_index Hi), andb_false_r;
        [reflexivity|]. rewrite Hchild. exact Hloaded.
  - rewrite (all_siblings_loaded_false _ _ child_index Hi), andb_false_r;
      [reflexivity|]. rewrite Hchild. exact I.
Qed.

(** Hence calls on children of one block, whichever children they are, amount
    to repeating the subdivision check of that block. *)
Lemma children_updates_settle (lod_count lod_index : nat) (parent_bpos : Vector3i)
    (child_of : nat -> nat) (indices : list nat) (ls : list Lod) :
  S lod_index <> lod_count ->
  (forall i, i ∈ indices -> (child_of i < 8)%nat) ->
  is_Some (mesh_map (lod_at ls (S lod_index)) !! parent_bpos) ->
  foldl (fun ls i => update_mesh_block_load lod_count lod_index ls
                       (get_child_position parent_bpos (child_of i))) ls indices
  = foldl (fun ls _ => settle lod_count lod_index ls parent_bpos) ls indices.
Proof.
  intros Hroot. revert ls. induction indices as [|i indices IH]; intros ls Hlt Hparent;
    [reflexivity|].
  cbn [foldl].
  assert (Hi : (child_of i < 8)%nat) by (apply Hlt; left).
  pose proof (update_mesh_block_load_child lod_count lod_index ls parent_bpos
                (child_of i) Hroot Hi Hparent) as Hstep.
  rewrite Hstep. apply IH.
  - intros k Hk. apply Hlt. right. exact Hk.
  - rewrite <- Hstep. apply update_mesh_block_load_positions. exact Hparent.
Qed.

(** Two loops that agree on the states an invariant describes. *)
Lemma foldl_ext_invariant {A B : Type} (I : A -> Prop) (f g : A -> B -> A) (l : list B) (a : A) :
  I a ->
  (forall a b, b ∈ l -> I a -> f a b = g a b) ->
  (forall a b, b ∈ l -> I a -> I (g a b)) ->
  foldl f a l = foldl g a l.
Proof.
  revert a. induction l as [|b l IH]; intros a Ha Hfg Hg; [reflexivity|].
  cbn [foldl]. rewrite (Hfg a b ltac:(left) Ha). apply IH.
  - apply Hg; [left|exact Ha].
  - intros a' b' Hb'. apply Hfg. right. exact Hb'.
  - intros a' b' Hb'. apply Hg. right. exact Hb'.
Qed.

(** The subdivision the code performs is the one the spec describes. *)
Lemma subdivide_as_specified_eq (lod_count lod_index : nat) (ls : list Lod)
    (parent_bpos : Vector3i) :
  (S lod_index < lod_count)%nat ->
  all_siblings_loaded (lod_at ls lod_index) parent_bpos = true ->
  subdivide lod_count lod_index ls parent_bpos
  = subdivide_as_specified lod_count lod_index ls parent_bpos.
Proof.
  intros Hroot Hall. unfold subdivide, subdivide_as_specified.
  destruct lod_index as [|child_lod_index]; [reflexivity|].
  set (start := alter (deactivate_block parent_bpos) (S (S child_lod_index)) ls).
  apply (foldl_ext_invariant (same_positions ls)).
  - apply same_positions_alter, deactivate_block_positions.
  - intros ls' i Hi Hsame. cbv zeta. unfold recurse_into_children.
    apply elem_of_seq in Hi.
    assert (Hsibling : is_Some (mesh_map (lod_at (alter (activate_block
                          (get_child_position parent_bpos i)) (S child_lod_index) ls')
                          (S child_lod_index)) !! get_child_position parent_bpos i)).
    { apply (same_positions_trans _ _ _ Hsame
               (same_positions_alter _ _ _ (activate_block_positions _))).
      destruct (proj1 (all_siblings_loaded_true _ _) Hall i ltac:(lia))
        as (sibling & -> & _). eauto. }
    rewrite (children_updates_settle lod_count child_lod_index _ (fun _ => i))
      by (try exact Hsibling; try lia; intros; lia).
    rewrite (children_updates_settle lod_count child_lod_index _ (fun k => k))
      by (try exact Hsibling; try lia; intros k Hk; apply elem_of_seq in Hk; lia).
    reflexivity.
  - intros ls' i Hi Hsame. cbv zeta.
    eapply same_positions_trans; [exact Hsame|].
    eapply same_positions_trans;
      [apply same_positions_alter, activate_block_positions|].
    unfold recurse_into_children. apply same_positions_foldl.
    intros. apply update_mesh_block_load_positions.
Qed.

(** On that state the root block is hidden, the eight LOD-1 blocks are shown,
    and the LOD-1 block at the origin is hidden again in favour of its eight
    loaded children. *)
Example update_mesh_block_load_subdivides_twice :
  let ls := update_mesh_block_load 3 1 Subdivision.lods Subdivision.loaded_block in
  mesh_blocks_to_deactivate (lod_at ls 2) = [vzero]
  /\ mesh_blocks_to_activate (lod_at ls 1) = rev (rev Subdivision.unit_cells)
  /\ mesh_blocks_to_deactivate (lod_at ls 1) = [vzero]
  /\ mesh_blocks_to_activate (lod_at ls 0) = rev (rev Subdivision.unit_cells)
  /\ active <$> (mesh_map (lod_at ls 1) !! vzero) = Some false
  /\ active <$> (mesh_map (lod_at ls 1) !! Subdivision.loaded_block) = Some true.
Proof. repeat split; vm_compute; reflexivity. Qed.

(** * Further properties *)

(** ** Looking up a viewer *)

(** Property X1.  [find_index] answers the position of the first entry that
    has the id looked for, and answers nothing exactly when no entry has it;
    [contains] tells whether a viewer of the list has the id. *)
Theorem find_index_spec {A : Type} (key : A -> ViewerID) (l : list A)
    (viewers : list (ViewerID * Viewer)) (i : ViewerID) :
  (forall n, find_index key l i = Some n <->
             (exists a, l !! n = Some a /\ key a = i)
             /\ forall m a, (m < n)%nat -> l !! m = Some a -> key a <> i)
  /\ (find_index key l i = None <-> i ∉ key <$> l)
  /\ (contains viewers i = true <-> i ∈ viewers.*1).
Proof.
  assert (Hsome : forall (l : list A) n, find_index key l i = Some n <->
             (exists a, l !! n = Some a /\ key a = i)
             /\ forall m a, (m < n)%nat -> l !! m = Some a -> key a <> i).
  { clear l. induction l as [|a l IH]; intros n.
    - cbn. split; [discriminate|]. intros [(a & Ha & _) _]. discriminate.
    - cbn [find_index]. destruct (decide (key a = i)) as [Hk|Hk].
      + split.
        * intros [= <-]. split; [exists a; split; [reflexivity|exact Hk]|]. intros m b Hm. lia.
        * intros [_ Hfirst]. destruct n as [|n]; [reflexivity|].
          exfalso. apply (Hfirst 0%nat a); [lia|reflexivity|exact Hk].
      + destruct n as [|n].
        * split.
          -- destruct (find_index key l i); discriminate.
          -- intros [(b & Hb & Hkb) _]. cbn in Hb. congruence.
        * split.
          -- destruct (find_index key l i) as [m|] eqn:E; cbn; [|discriminate].
             intros [= ->]. destruct (proj1 (IH n) eq_refl) as [Hex Hfirst].
             split; [exact Hex|]. intros [|m] b Hm Hb.
             ++ cbn in Hb. congruence.
             ++ apply (Hfirst m); [lia|exact Hb].
          -- intros [Hex Hfirst]. cbn in Hex.
             rewrite (proj2 (IH n)); [reflexivity|]. split; [exact Hex|].
             intros m b Hm Hb. apply (Hfirst (S m)); [lia|exact Hb]. }
  assert (Hnone : forall (B : Type) (k : B -> ViewerID) (l : list B),
             find_index k l i = None <-> i ∉ k <$> l).
  { intros B k l'. split; [apply find_index_None|].
    intros Hnot. destruct (find_index k l' i) as [n|] eqn:E; [|reflexivity].
    exfalso. apply Hnot. destruct (find_index_Some _ _ _ _ E) as (a & Ha & <-).
    apply list_elem_of_fmap_2. apply list_elem_of_lookup. eauto. }
  split; [apply Hsome|]. split; [apply Hnone|].
  unfold contains. rewrite bool_decide_eq_true. split.
  - intros [n Hn]. destruct (find_index_Some _ _ _ _ Hn) as (a & Ha & <-).
    apply list_elem_of_fmap_2. apply list_elem_of_lookup. eauto.
  - apply find_index_is_Some.
Qed.

(** ** The extent of the base box *)

Lemma floordiv_sub_multiple (n k c : Z) : 0 < c -> math.floordiv (n - k * c) c = n / c - k.
Proof.
  intros Hc. unfold math.floordiv.
  replace (n - k * c) with (n + (- k) * c) by lia. rewrite Z.div_add by lia. lia.
Qed.

Lemma ceildiv_succ_add_multiple (n k c : Z) :
  0 < c -> math.ceildiv (n + (k * c + 1)) c = n / c + k + 1.
Proof.
  intros Hc. unfold math.ceildiv, math.floordiv.
  replace (- (n + (k * c + 1))) with ((- n - 1) + (- k) * c) by lia.
  rewrite Z.div_add by lia.
  assert (H : (- n - 1) / c = - (n / c) - 1).
  { symmetry. apply (Z.div_unique_pos _ _ _ (c - 1 - n mod c)).
    - pose proof (Z.mod_pos_bound n c Hc). lia.
    - pose proof (Z.div_mod n c ltac:(lia)). lia. }
  rewrite H. lia.
Qed.

Lemma even_span (m k : Z) :
  math.ceildiv (m + 2 * k + 1) 2 * 2 - math.floordiv m 2 * 2 = 2 * k + 2.
Proof.
  unfold math.ceildiv, math.floordiv. Z.div_mod_to_equations. lia.
Qed.

(** Property X2.  For a positive chunk size and a distance of [k] chunks, the
    box of [get_base_box_in_chunks] spans [2 k + 1] chunks on each axis and
    starts [k] chunks before the chunk of the centre; made even, it spans
    [2 k + 2] chunks. *)
Theorem get_base_box_in_chunks_size (center : Vector3i) (k c : Z) (make_even : bool) :
  0 < c ->
  let b := get_base_box_in_chunks center (k * c) c make_even in
  size b = Vector3iUtil.create (if make_even then 2 * k + 2 else 2 * k + 1)
  /\ (make_even = false -> pos b = vsub (vfloordiv center c) (Vector3iUtil.create k)).
Proof.
  intros Hc b. subst b. unfold get_base_box_in_chunks, Box3i.from_min_max.
  destruct center as [cx cy cz]. vsimpl.
  rewrite !floordiv_sub_multiple, !ceildiv_succ_add_multiple by exact Hc.
  destruct make_even; cbn [pos size].
  - split; [|discriminate]. unfold Vector3iUtil.create. cbn [x y z].
    pose proof (even_span (cx / c - k) k) as Hx.
    pose proof (even_span (cy / c - k) k) as Hy.
    pose proof (even_span (cz / c - k) k) as Hz.
    revert Hx Hy Hz. generalize (cx / c) (cy / c) (cz / c). intros qx qy qz Hx Hy Hz.
    replace (qx - k + 2 * k + 1) with (qx + k + 1) in Hx by lia.
    replace (qy - k + 2 * k + 1) with (qy + k + 1) in Hy by lia.
    replace (qz - k + 2 * k + 1) with (qz + k + 1) in Hz by lia.
    rewrite Hx, Hy, Hz. reflexivity.
  - split; [|intros _; reflexivity].
    generalize (cx / c) (cy / c) (cz / c). intros qx qy qz. cbn [x y z]. f_equal; lia.
Qed.

Lemma get_base_box_in_chunks_size_witness :
  size (get_base_box_in_chunks (mkVector3i 5 (-7) 40) (2 * 16) 16 true) = Vector3iUtil.create 6
  /\ size (get_base_box_in_chunks (mkVector3i 5 (-7) 40) (2 * 16) 16 false)
     = Vector3iUtil.create 5.
Proof.
  split.
  - exact (proj1 (get_base_box_in_chunks_size (mkVector3i 5 (-7) 40) 2 16 true ltac:(lia))).
  - exact (proj1 (get_base_box_in_chunks_size (mkVector3i 5 (-7) 40) 2 16 false ltac:(lia))).
Defined.

Lemma base_box_axis_covers (cn d c v : Z) (make_even : bool) :
  0 < c -> cn - d <= v <= cn + d ->
  let lo := math.floordiv (cn - d) c in
  let hi := math.ceildiv (cn + (d + 1)) c in
  let lo' := if make_even then math.floordiv lo 2 * 2 else lo in
  let hi' := if make_even then math.ceildiv hi 2 * 2 else hi in
  lo' <= math.floordiv v c < lo' + (hi' - lo').
Proof.
  intros Hc Hv lo hi lo' hi'.
  assert (Hlo : lo <= math.floordiv v c).
  { subst lo. unfold math.floordiv. apply Z.div_le_mono; lia. }
  assert (Hhi : math.floordiv v c < hi).
  { subst hi. pose proof (ceildiv_spec (cn + (d + 1)) c Hc) as [_ H2].
    pose proof (floordiv_spec v c Hc) as [H3 _]. nia. }
  assert (Hlo' : lo' <= lo).
  { subst lo'. destruct make_even; [|lia].
    pose proof (floordiv_spec lo 2 ltac:(lia)) as [? ?]. lia. }
  assert (Hhi' : hi <= hi').
  { subst hi'. destruct make_even; [|lia].
    pose proof (ceildiv_spec hi 2 ltac:(lia)) as [? ?]. lia. }
  lia.
Qed.

Lemma base_box_covers (center : Vector3i) (d c : Z) (make_even : bool)
    (p : Vector3i) :
  0 < c ->
  within_distance center d p ->
  Box3i.contains (get_base_box_in_chunks center d c make_even) (vfloordiv p c) = true.
Proof.
  intros Hc (Hx & Hy & Hz). apply contains_iff.
  unfold get_base_box_in_chunks, Box3i.from_min_max.
  destruct center as [cx cy cz], p as [px py pz]. cbn [x y z] in *.
  pose proof (base_box_axis_covers cx d c px make_even Hc Hx) as Ax.
  pose proof (base_box_axis_covers cy d c py make_even Hc Hy) as Ay.
  pose proof (base_box_axis_covers cz d c pz make_even Hc Hz) as Az.
  cbv zeta in Ax, Ay, Az.
  destruct make_even; vsimpl; auto.
Qed.

(** Property X3.  For a positive chunk size, the box of
    [get_base_box_in_chunks] holds the chunk of every voxel that is within the
    distance of the centre on each axis, whether the box is made even or
    not. *)
Theorem get_base_box_in_chunks_covers (center : Vector3i) (d c : Z) (make_even : bool)
    (p : Vector3i) :
  0 < c ->
  within_distance center d p ->
  Box3i.contains (get_base_box_in_chunks center d c make_even) (vfloordiv p c) = true.
Proof. apply base_box_covers. Qed.

Lemma get_base_box_in_chunks_covers_witness :
  Box3i.contains (get_base_box_in_chunks (mkVector3i 5 (-7) 40) 32 16 true)
                 (vfloordiv (mkVector3i 37 (-39) 8) 16) = true.
Proof.
  apply (get_base_box_in_chunks_covers (mkVector3i 5 (-7) 40) 32 16 true
           (mkVector3i 37 (-39) 8)); [lia|].
  unfold within_distance, vforall2. cbn. lia.
Defined.

(** ** The planned boxes stay within the volume *)

Lemma clip_range_within (p s lp ls c : Z) :
  0 <= ls ->
  (Box3i.clip_range p s lp ls).1 <= c
  < (Box3i.clip_range p s lp ls).1 + (Box3i.clip_range p s lp ls).2 ->
  lp <= c < lp + ls.
Proof.
  intros Hls. unfold Box3i.clip_range. cbv zeta. cbn [fst snd].
  destruct (clamp_cases p lp (lp + ls)) as [[? ->]|[(? & ? & ->)|[? ->]]];
    destruct (clamp_cases (p + s) lp (lp + ls)) as [[? ->]|[(? & ? & ->)|[? ->]]]; lia.
Qed.

Lemma clip_range_size_nonneg (p s lp ls : Z) : 0 <= (Box3i.clip_range p s lp ls).2.
Proof. unfold Box3i.clip_range. cbv zeta. cbn [fst snd]. lia. Qed.

Lemma clipped_within (b lim : Box3i) :
  vnonneg (size lim) -> box_within (Box3i.clipped b lim) lim.
Proof.
  intros (Hx & Hy & Hz) cell. rewrite !contains_iff. unfold Box3i.clipped.
  cbn [pos size x y z]. intros (Cx & Cy & Cz).
  split; [exact (clip_range_within _ _ _ _ _ Hx Cx)|].
  split; [exact (clip_range_within _ _ _ _ _ Hy Cy)|exact (clip_range_within _ _ _ _ _ Hz Cz)].
Qed.

Lemma clipped_size_nonneg (b lim : Box3i) : vnonneg (size (Box3i.clipped b lim)).
Proof.
  unfold Box3i.clipped, vnonneg. cbn [pos size x y z].
  repeat split; apply clip_range_size_nonneg.
Qed.

Lemma empty_box_within (lim : Box3i) : box_within Box3i.empty lim.
Proof. intros cell. rewrite contains_iff. cbn. lia. Qed.

Lemma downscaled_axis_nonneg (p s step : Z) :
  0 <= s -> 0 <= step ->
  0 <= math.floordiv (p + s - 1) step - math.floordiv p step + 1.
Proof.
  intros Hs Hstep. unfold math.floordiv.
  destruct (decide (step = 0)) as [->|Hne].
  - rewrite !Z.div_0_r. lia.
  - assert (p / step - 1 <= (p + s - 1) / step); [|lia].
    replace (p / step - 1) with ((p + (-1) * step) / step) by (rewrite Z.div_add by lia; lia).
    apply Z.div_le_mono; nia.
Qed.

Lemma volume_bounds_in_mesh_blocks_nonneg settings bounds lod_index :
  vnonneg (size bounds) ->
  vnonneg (size (volume_bounds_in_mesh_blocks settings bounds lod_index)).
Proof.
  intros (Hx & Hy & Hz). unfold volume_bounds_in_mesh_blocks, Box3i.downscaled, Box3i.end_.
  assert (Hstep : 0 <= Z.shiftl 1 (mesh_block_size_po2 settings + Z.of_nat lod_index))
    by (apply Z.shiftl_nonneg; lia).
  revert Hstep. generalize (Z.shiftl 1 (mesh_block_size_po2 settings + Z.of_nat lod_index)).
  intros step Hstep. destruct bounds as [[px py pz] [sx sy sz]]. vsimpl.
  unfold vnonneg. cbn [x y z size].
  repeat split; apply downscaled_axis_nonneg; assumption.
Qed.

Lemma volume_bounds_in_data_blocks_nonneg bounds po2 lod_index :
  vnonneg (size bounds) ->
  vnonneg (size (volume_bounds_in_data_blocks bounds po2 lod_index)).
Proof.
  intros (Hx & Hy & Hz). unfold volume_bounds_in_data_blocks. cbv zeta.
  destruct bounds as [[px py pz] [sx sy sz]]. vsimpl. unfold vnonneg. cbn [x y z size].
  repeat split; apply Z.shiftr_nonneg; assumption.
Qed.

Section within_bounds.

Variable volume_settings : Settings.
Variable lod_count : nat.
Variable volume_bounds_in_voxels : Box3i.
Variable data_block_size_po2 : Z.
Variable can_mesh : bool.

Hypothesis bounds_nonneg : vnonneg (size volume_bounds_in_voxels).

Lemma plan_viewer_within_bounds viewer pv :
  wf_paired_viewer lod_count pv ->
  planned_within_bounds volume_settings lod_count volume_bounds_in_voxels
    data_block_size_po2
    (plan_viewer volume_settings lod_count volume_bounds_in_voxels
                 data_block_size_po2 can_mesh viewer pv).
Proof.
  intros [Hm Hd] i Hi. unfold plan_viewer. cbn [pv_state].
  pose proof (volume_bounds_in_mesh_blocks_nonneg volume_settings _ i bounds_nonneg) as Hmb.
  pose proof (volume_bounds_in_data_blocks_nonneg _ data_block_size_po2 i bounds_nonneg) as Hdb.
  destruct (require_collisions viewer || require_visuals viewer && can_mesh);
    cbn [mesh_box_per_lod data_box_per_lod]; cbv zeta.
  - destruct (fill_slots_invariant
                (planned_mesh_box volume_settings lod_count volume_bounds_in_voxels
                   (local_position viewer)
                   (Z.min (view_distance_scaled viewer)
                          (settings_view_distance_voxels volume_settings)))
                (fun j b => box_within b (volume_bounds_in_mesh_blocks volume_settings
                                            volume_bounds_in_voxels j)
                            /\ vnonneg (size b))
                lod_count (mesh_box_per_lod (pv_state pv)) Hm) with (j := i)
      as (mb & Hmb_at & Hmw & Hms); [|exact Hi|].
    { intros acc j Hj _ _. unfold planned_mesh_box. cbv zeta. split.
      - apply clipped_within. apply volume_bounds_in_mesh_blocks_nonneg. exact bounds_nonneg.
      - apply clipped_size_nonneg. }
    set (mesh_boxes := foldl _ (mesh_box_per_lod (pv_state pv)) (seq 0 lod_count)) in *.
    destruct (fill_slots_invariant
                (fun _ => planned_data_box_from_mesh volume_settings volume_bounds_in_voxels
                            data_block_size_po2 mesh_boxes)
                (fun j b => box_within b (volume_bounds_in_data_blocks
                                            volume_bounds_in_voxels data_block_size_po2 j)
                            /\ vnonneg (size b))
                lod_count (data_box_per_lod (pv_state pv)) Hd) with (j := i)
      as (db & Hdb_at & Hdw & Hds); [|exact Hi|].
    { intros acc j Hj _ _. unfold planned_data_box_from_mesh. cbv zeta. split.
      - apply clipped_within. apply volume_bounds_in_data_blocks_nonneg. exact bounds_nonneg.
      - apply clipped_size_nonneg. }
    unfold box_at.
    change (foldl (plan_mesh_box volume_settings lod_count volume_bounds_in_voxels
                     (local_position viewer)
                     (Z.min (view_distance_scaled viewer)
                            (settings_view_distance_voxels volume_settings))))
      with (foldl (fill_slot (planned_mesh_box volume_settings lod_count
                     volume_bounds_in_voxels (local_position viewer)
                     (Z.min (view_distance_scaled viewer)
                            (settings_view_distance_voxels volume_settings))))).
    fold mesh_boxes. rewrite Hmb_at.
    change (foldl (plan_data_box_from_mesh volume_settings volume_bounds_in_voxels
                     data_block_size_po2 mesh_boxes))
      with (foldl (fill_slot (fun _ => planned_data_box_from_mesh volume_settings
                     volume_bounds_in_voxels data_block_size_po2 mesh_boxes))).
    rewrite Hdb_at. cbn. auto.
  - destruct (fill_slots_invariant (fun _ _ => Box3i.empty)
                (fun _ b => b = Box3i.empty)
                lod_count (mesh_box_per_lod (pv_state pv)) Hm) with (j := i)
      as (mb & Hmb_at & ->); [reflexivity|exact Hi|].
    destruct (fill_slots_invariant
                (fun _ => planned_data_box_alone volume_settings lod_count
                            volume_bounds_in_voxels data_block_size_po2 (local_position viewer))
                (fun j b => box_within b (volume_bounds_in_data_blocks
                                            volume_bounds_in_voxels data_block_size_po2 j)
                            /\ vnonneg (size b))
                lod_count (data_box_per_lod (pv_state pv)) Hd) with (j := i)
      as (db & Hdb_at & Hdw & Hds); [|exact Hi|].
    { intros acc j Hj _ _. unfold planned_data_box_alone. cbv zeta. split.
      - apply clipped_within. apply volume_bounds_in_data_blocks_nonneg. exact bounds_nonneg.
      - apply clipped_size_nonneg. }
    unfold box_at.
    change (foldl (fun boxes lod_index => <[lod_index := Box3i.empty]> boxes))
      with (foldl (fill_slot (fun (_ : list Box3i) (_ : nat) => Box3i.empty))).
    rewrite Hmb_at.
    change (foldl (plan_data_box_alone volume_settings lod_count volume_bounds_in_voxels
                     data_block_size_po2 (local_position viewer)))
      with (foldl (fill_slot (fun _ => planned_data_box_alone volume_settings lod_count
                     volume_bounds_in_voxels data_block_size_po2 (local_position viewer)))).
    rewrite Hdb_at. cbn. split; [apply empty_box_within|]. split; [exact Hdw|].
    split; [|exact Hds]. unfold vnonneg. cbn. lia.
Qed.

End within_bounds.

(** ** Removing unpaired viewers *)

Lemma remove_unpaired_viewer_take (pvs : list PairedViewer) (vi : nat) :
  (vi < length pvs)%nat ->
  take vi (remove_unpaired_viewer pvs vi) = take vi pvs
  /\ drop vi (remove_unpaired_viewer pvs vi) ≡ₚ drop (S vi) pvs
  /\ length (remove_unpaired_viewer pvs vi) = (length pvs - 1)%nat.
Proof.
  intros Hvi. unfold remove_unpaired_viewer.
  destruct (last pvs) as [back|] eqn:Hlast.
  2:{ apply last_None in Hlast. subst pvs. cbn in Hvi. lia. }
  apply last_Some in Hlast as [init ->]. rewrite length_app in *. cbn [length] in *.
  destruct (decide (vi < length init)%nat) as [Hlt|Hge].
  - rewrite insert_app_l by exact Hlt. rewrite removelast_last.
    rewrite insert_take_drop by exact Hlt.
    assert (Hlen : length (take vi init) = vi) by (rewrite length_take; lia).
    split; [|split].
    + rewrite take_app_le by lia. rewrite take_app_le by lia.
      rewrite take_take. f_equal. lia.
    + rewrite drop_app_ge by lia. rewrite Hlen, Nat.sub_diag. cbn [drop].
      rewrite drop_app_le by lia. rewrite (Permutation_app_comm _ [back]). reflexivity.
    + rewrite length_app, Hlen. cbn. rewrite length_drop. lia.
  - assert (vi = length init) as -> by lia.
    rewrite list_insert_id by (rewrite lookup_app_r, Nat.sub_diag by lia; reflexivity).
    rewrite removelast_last. split; [|split].
    + rewrite take_app_le by lia. reflexivity.
    + rewrite drop_all. rewrite drop_ge by (rewrite length_app; cbn; lia). reflexivity.
    + lia.
Qed.

Lemma elem_of_drop_lookup {A : Type} (l : list A) (n : nat) (a : A) :
  a ∈ drop n l <-> exists k, (n <= k)%nat /\ l !! k = Some a.
Proof.
  rewrite list_elem_of_lookup. split.
  - intros [i Hi]. rewrite lookup_drop in Hi. exists (n + i)%nat. split; [lia|exact Hi].
  - intros (k & Hk & Hl). exists (k - n)%nat. rewrite lookup_drop.
    replace (n + (k - n))%nat with k by lia. exact Hl.
Qed.

(** When the indices are ascending and within the list, exactly the entries
    at these indices are removed. *)
Lemma remove_unpaired_viewers_elem_of (indices : list nat) (pvs : list PairedViewer) :
  StronglySorted lt indices ->
  Forall (fun vi => vi < length pvs)%nat indices ->
  (forall pv, pv ∈ remove_unpaired_viewers indices pvs
              <-> exists k, pvs !! k = Some pv /\ k ∉ indices)
  /\ length (remove_unpaired_viewers indices pvs) = (length pvs - length indices)%nat.
Proof.
  unfold remove_unpaired_viewers. revert pvs.
  induction indices as [|vi indices IH] using rev_ind; intros pvs Hsorted Hrange.
  - cbn. split; [|lia]. intros pv. rewrite list_elem_of_lookup. split.
    + intros [k Hk]. exists k. split; [exact Hk|apply not_elem_of_nil].
    + intros (k & Hk & _). eauto.
  - rewrite rev_app_distr. cbn [rev app foldl].
    apply Forall_app in Hrange as [Hrange Hvi]. apply Forall_inv in Hvi.
    assert (Hbelow : Forall (fun j => j < vi)%nat indices /\ StronglySorted lt indices).
    { clear -Hsorted. induction indices as [|j indices IH]; [split; constructor|].
      cbn in Hsorted. apply StronglySorted_inv in Hsorted as [Hs Hj].
      apply Forall_app in Hj as [Hj Hjv]. apply Forall_inv in Hjv.
      destruct (IH Hs) as [IH1 IH2]. split; constructor; auto. }
    destruct Hbelow as [Hbelow Hsorted'].
    destruct (remove_unpaired_viewer_take pvs vi Hvi) as (Htake & Hdrop & Hlen).
    set (pvs1 := remove_unpaired_viewer pvs vi) in *.
    destruct (IH pvs1 Hsorted') as [IHin IHlen].
    { rewrite Forall_forall in *. intros j Hj. specialize (Hbelow j Hj).
      specialize (Hrange j Hj). lia. }
    split.
    2:{ rewrite IHlen, Hlen, length_app. cbn. rewrite Forall_forall in Hbelow.
        destruct indices as [|j indices']; cbn; [lia|].
        specialize (Hbelow j ltac:(left)). lia. }
    intros pv. rewrite IHin. split.
    + intros (k & Hk & Hnot). destruct (decide (k < vi)%nat) as [Hlt|Hge].
      * exists k. split.
        -- rewrite <- (lookup_take_lt pvs vi k Hlt), <- Htake. rewrite lookup_take_lt by exact Hlt. exact Hk.
        -- rewrite not_elem_of_app, list_elem_of_singleton. split; [exact Hnot|lia].
      * assert (Hin : pv ∈ drop vi pvs1) by (apply elem_of_drop_lookup; exists k; split; [lia|exact Hk]).
        rewrite Hdrop in Hin. apply elem_of_drop_lookup in Hin as (k' & Hk' & Hl).
        exists k'. split; [exact Hl|].
        rewrite not_elem_of_app, list_elem_of_singleton. split; [|lia].
        intros Hin'. rewrite Forall_forall in Hbelow. specialize (Hbelow k' Hin'). lia.
    + intros (k & Hk & Hnot). rewrite not_elem_of_app, list_elem_of_singleton in Hnot.
      destruct Hnot as [Hnot Hne]. destruct (decide (k < vi)%nat) as [Hlt|Hge].
      * exists k. split; [|exact Hnot].
        rewrite <- (lookup_take_lt pvs1 vi k Hlt), Htake. rewrite lookup_take_lt by exact Hlt. exact Hk.
      * assert (Hin : pv ∈ drop (S vi) pvs) by (apply elem_of_drop_lookup; exists k; split; [lia|exact Hk]).
        rewrite <- Hdrop in Hin. apply elem_of_drop_lookup in Hin as (k' & Hk' & Hl).
        exists k'. split; [exact Hl|].
        intros Hin'. rewrite Forall_forall in Hbelow. specialize (Hbelow k' Hin'). lia.
Qed.

(** ** Membership of a viewer *)

Lemma contains_true_iff (viewers : list (ViewerID * Viewer)) (i : ViewerID) :
  contains viewers i = true <-> i ∈ viewers.*1.
Proof.
  unfold contains. rewrite bool_decide_eq_true. split.
  - intros [n Hn]. destruct (find_index_Some _ _ _ _ Hn) as (a & Ha & <-).
    apply list_elem_of_fmap_2. apply list_elem_of_lookup. eauto.
  - apply find_index_is_Some.
Qed.

Lemma contains_false_iff (viewers : list (ViewerID * Viewer)) (i : ViewerID) :
  contains viewers i = false <-> i ∉ viewers.*1.
Proof.
  rewrite <- contains_true_iff. destruct (contains viewers i); split; congruence.
Qed.

(** ** The first loop of [process_viewers] *)

Lemma process_destroyed_viewers_lookup viewers pvs index k :
  (process_destroyed_viewers viewers pvs index).1 !! k
  = (fun pv => if contains viewers (pv_id pv) then pv else unpair_destroyed pv) <$> pvs !! k.
Proof.
  revert index k. induction pvs as [|pv pvs IH]; intros index k; [reflexivity|].
  cbn [process_destroyed_viewers]. cbv zeta.
  destruct (contains viewers (pv_id pv)) eqn:E; cbn [fst];
    (destruct k as [|k]; cbn; [rewrite ?E; reflexivity|apply IH]).
Qed.

Lemma process_destroyed_viewers_length viewers pvs index :
  length (process_destroyed_viewers viewers pvs index).1 = length pvs.
Proof.
  revert index. induction pvs as [|pv pvs IH]; intros index; [reflexivity|].
  cbn [process_destroyed_viewers]. cbv zeta.
  destruct (contains viewers (pv_id pv)); cbn; rewrite IH; reflexivity.
Qed.

Lemma process_destroyed_viewers_indices viewers pvs index j :
  j ∈ (process_destroyed_viewers viewers pvs index).2
  <-> exists k pv, j = (index + k)%nat /\ pvs !! k = Some pv
                   /\ contains viewers (pv_id pv) = false.
Proof.
  revert index. induction pvs as [|pv pvs IH]; intros index.
  - cbn. split; [intros H; inversion H|]. intros (k & pv & _ & H & _). discriminate.
  - cbn [process_destroyed_viewers]. cbv zeta.
    destruct (contains viewers (pv_id pv)) eqn:E; cbn [snd].
    + rewrite IH. split.
      * intros (k & pv' & -> & Hk & Hc). exists (S k), pv'. split; [lia|]. split; assumption.
      * intros (k & pv' & -> & Hk & Hc). destruct k as [|k]; cbn in Hk.
        -- congruence.
        -- exists k, pv'. split; [lia|]. split; assumption.
    + rewrite elem_of_cons, IH. split.
      * intros [->|(k & pv' & -> & Hk & Hc)].
        -- exists 0%nat, pv. split; [lia|]. split; [reflexivity|exact E].
        -- exists (S k), pv'. split; [lia|]. split; assumption.
      * intros (k & pv' & -> & Hk & Hc). destruct k as [|k]; cbn in Hk.
        -- left. lia.
        -- right. exists k, pv'. split; [lia|]. split; assumption.
Qed.

Lemma process_destroyed_viewers_sorted viewers pvs index :
  StronglySorted lt (process_destroyed_viewers viewers pvs index).2.
Proof.
  revert index. induction pvs as [|pv pvs IH]; intros index; [constructor|].
  cbn [process_destroyed_viewers]. cbv zeta.
  destruct (contains viewers (pv_id pv)); cbn [snd]; [apply IH|].
  constructor; [apply IH|]. apply Forall_forall. intros j Hj.
  apply process_destroyed_viewers_indices in Hj as (k & ? & -> & _). lia.
Qed.

(** ** The second loop of [process_viewers] *)

Section pairing.

Variable volume_settings : Settings.
Variable lod_count : nat.
Variable volume_bounds_in_voxels : Box3i.
Variable data_block_size_po2 : Z.
Variable can_mesh : bool.

Abbreviation pair := (pair_and_plan volume_settings lod_count volume_bounds_in_voxels
                                    data_block_size_po2 can_mesh).
Abbreviation plan_ := (plan_viewer volume_settings lod_count volume_bounds_in_voxels
                                   data_block_size_po2 can_mesh).

Lemma alter_plan_ids viewer (n : nat) (pvs : list PairedViewer) :
  pv_id <$> alter (plan_ viewer) n pvs = pv_id <$> pvs.
Proof.
  rewrite (list_fmap_alter pv_id (plan_ viewer) (fun j => j)).
  - apply list_alter_id. reflexivity.
  - apply Forall_true. reflexivity.
Qed.

(** Planning for a viewer leaves the paired viewers of the other viewers as
    they are. *)
Lemma pair_and_plan_lookup_other pvs i viewer k pv :
  pvs !! k = Some pv -> pv_id pv <> i -> pair pvs (i, viewer) !! k = Some pv.
Proof.
  intros Hk Hne. unfold pair_and_plan. cbn [fst snd].
  destruct (find_index pv_id pvs i) as [n|] eqn:E; cbn [fst snd].
  - destruct (find_index_Some _ _ _ _ E) as (a & Ha & Hid).
    rewrite list_lookup_alter_ne; [exact Hk|]. intros ->. congruence.
  - rewrite list_lookup_alter_ne.
    + rewrite lookup_app_l; [exact Hk|]. eapply lookup_lt_Some; eauto.
    + apply lookup_lt_Some in Hk. lia.
Qed.

Lemma pair_and_plan_ids pvs i viewer :
  pv_id <$> pair pvs (i, viewer)
  = (pv_id <$> pvs) ++ match find_index pv_id pvs i with Some _ => [] | None => [i] end.
Proof.
  unfold pair_and_plan. cbn [fst snd].
  destruct (find_index pv_id pvs i) as [n|] eqn:E; cbn [fst snd].
  - rewrite alter_plan_ids, app_nil_r. reflexivity.
  - rewrite alter_plan_ids, fmap_app. reflexivity.
Qed.

Lemma pair_and_plan_paired pvs i viewer : i ∈ pv_id <$> pair pvs (i, viewer).
Proof.
  rewrite pair_and_plan_ids. destruct (find_index pv_id pvs i) as [n|] eqn:E.
  - rewrite app_nil_r. destruct (find_index_Some _ _ _ _ E) as (a & Ha & <-).
    apply list_elem_of_fmap_2. apply list_elem_of_lookup. eauto.
  - apply elem_of_app. right. apply list_elem_of_singleton. reflexivity.
Qed.

Lemma foldl_pair_and_plan_ids viewers pvs :
  exists extra, pv_id <$> foldl pair pvs viewers = (pv_id <$> pvs) ++ extra
                /\ (forall j, j ∈ extra -> j ∈ viewers.*1)
                /\ (forall j, j ∈ viewers.*1 -> j ∈ (pv_id <$> pvs) ++ extra).
Proof.
  revert pvs. induction viewers as [|[i viewer] viewers IH]; intros pvs.
  - exists []. cbn. rewrite app_nil_r. split; [reflexivity|].
    split; intros j Hj; inversion Hj.
  - cbn [foldl]. destruct (IH (pair pvs (i, viewer))) as (extra & Hids & Hex & Hall).
    rewrite pair_and_plan_ids in Hids. rewrite <- app_assoc in Hids.
    eexists. split; [exact Hids|]. split.
    + intros j Hj. cbn. apply elem_of_app in Hj as [Hj|Hj].
      * destruct (find_index pv_id pvs i); [inversion Hj|].
        apply list_elem_of_singleton in Hj. subst. left.
      * right. apply Hex. exact Hj.
    + intros j Hj. cbn in Hj. apply elem_of_cons in Hj as [->|Hj].
      * rewrite app_assoc, <- (pair_and_plan_ids pvs _ viewer). apply elem_of_app. left.
        apply pair_and_plan_paired.
      * specialize (Hall j Hj). rewrite pair_and_plan_ids, <- app_assoc in Hall. exact Hall.
Qed.

Lemma foldl_pair_and_plan_lookup_other viewers pvs k pv :
  pvs !! k = Some pv -> pv_id pv ∉ viewers.*1 -> foldl pair pvs viewers !! k = Some pv.
Proof.
  revert pvs. induction viewers as [|[i viewer] viewers IH]; intros pvs Hk Hnot;
    [exact Hk|].
  cbn [foldl]. cbn in Hnot. apply not_elem_of_cons in Hnot as [Hne Hnot].
  apply IH; [|exact Hnot]. apply pair_and_plan_lookup_other; assumption.
Qed.

(** An entry beyond the paired viewers there were belongs to a viewer. *)
Lemma foldl_pair_and_plan_lookup_new viewers pvs k pv :
  foldl pair pvs viewers !! k = Some pv -> (length pvs <= k)%nat -> pv_id pv ∈ viewers.*1.
Proof.
  intros Hk Hge. destruct (foldl_pair_and_plan_ids viewers pvs) as (extra & Hids & Hex & _).
  assert (H : (pv_id <$> foldl pair pvs viewers) !! k = Some (pv_id pv))
    by (rewrite list_lookup_fmap, Hk; reflexivity).
  rewrite Hids, lookup_app_r in H by (rewrite length_fmap; exact Hge).
  apply Hex. apply list_elem_of_lookup. eauto.
Qed.

Lemma foldl_pair_and_plan_prefix_ids viewers pvs k pv :
  foldl pair pvs viewers !! k = Some pv -> (k < length pvs)%nat ->
  exists pv0, pvs !! k = Some pv0 /\ pv_id pv0 = pv_id pv.
Proof.
  intros Hk Hlt. destruct (foldl_pair_and_plan_ids viewers pvs) as (extra & Hids & _).
  assert (H : (pv_id <$> foldl pair pvs viewers) !! k = Some (pv_id pv))
    by (rewrite list_lookup_fmap, Hk; reflexivity).
  rewrite Hids, lookup_app_l in H by (rewrite length_fmap; exact Hlt).
  rewrite list_lookup_fmap in H. destruct (pvs !! k) as [pv0|]; [|discriminate].
  cbn in H. exists pv0. split; [reflexivity|congruence].
Qed.

(** What [process_viewers] leaves for a destroyed viewer, and where. *)
Lemma process_viewers_destroyed_at cs viewers k pv :
  paired_viewers (process_viewers volume_settings lod_count volume_bounds_in_voxels
                    data_block_size_po2 can_mesh cs viewers).1 !! k = Some pv ->
  (k ∈ (process_viewers volume_settings lod_count volume_bounds_in_voxels
          data_block_size_po2 can_mesh cs viewers).2 <-> pv_id pv ∉ viewers.*1)
  /\ (pv_id pv ∉ viewers.*1 ->
      exists pv0, paired_viewers cs !! k = Some pv0 /\ pv = unpair_destroyed pv0).
Proof.
  unfold process_viewers. cbn [fst snd paired_viewers]. intros Hk.
  set (d := process_destroyed_viewers viewers (paired_viewers cs) 0) in *.
  assert (Hdlen : length d.1 = length (paired_viewers cs))
    by apply process_destroyed_viewers_length.
  assert (Hold : pv_id pv ∉ viewers.*1 ->
                 exists pv0, paired_viewers cs !! k = Some pv0 /\ pv = unpair_destroyed pv0).
  { intros Hnot. destruct (decide (k < length d.1)%nat) as [Hlt|Hge].
    2:{ exfalso. apply Hnot. eapply foldl_pair_and_plan_lookup_new; [exact Hk|lia]. }
    destruct (foldl_pair_and_plan_prefix_ids _ _ _ _ Hk Hlt) as (pv1 & Hk1 & Hid).
    assert (Hk' : foldl pair d.1 viewers !! k = Some pv1)
      by (apply foldl_pair_and_plan_lookup_other; [exact Hk1|rewrite Hid; exact Hnot]).
    assert (pv1 = pv) as -> by congruence.
    subst d. rewrite process_destroyed_viewers_lookup in Hk1.
    destruct (paired_viewers cs !! k) as [pv0|]; [|discriminate]. cbn in Hk1.
    destruct (contains viewers (pv_id pv0)) eqn:E.
    - injection Hk1 as <-. apply contains_true_iff in E. contradiction.
    - injection Hk1 as <-. exists pv0. split; reflexivity. }
  split; [|exact Hold]. split.
  - intros Hin. subst d. apply process_destroyed_viewers_indices in Hin
      as (k0 & pv0 & -> & Hk0 & Hc). cbn [Nat.add] in *.
    assert (Hlt : (k0 < length (process_destroyed_viewers viewers (paired_viewers cs) 0).1)%nat).
    { rewrite Hdlen. eapply lookup_lt_Some; eauto. }
    destruct (foldl_pair_and_plan_prefix_ids _ _ _ _ Hk Hlt) as (pv1 & Hk1 & Hid).
    rewrite process_destroyed_viewers_lookup, Hk0 in Hk1. cbn in Hk1. rewrite Hc in Hk1.
    injection Hk1 as <-. cbn in Hid. rewrite <- Hid. apply contains_false_iff. exact Hc.
  - intros Hnot. destruct (Hold Hnot) as (pv0 & Hk0 & ->). subst d.
    apply process_destroyed_viewers_indices. exists k, pv0. split; [reflexivity|].
    split; [exact Hk0|]. apply contains_false_iff. exact Hnot.
Qed.

Lemma process_viewers_indices_in_range cs viewers :
  Forall (fun vi => vi < length (paired_viewers
            (process_viewers volume_settings lod_count volume_bounds_in_voxels
               data_block_size_po2 can_mesh cs viewers).1))%nat
         (process_viewers volume_settings lod_count volume_bounds_in_voxels
            data_block_size_po2 can_mesh cs viewers).2.
Proof.
  unfold process_viewers. cbn [fst snd paired_viewers]. apply Forall_forall. intros j Hj.
  apply process_destroyed_viewers_indices in Hj as (k & pv & -> & Hk & _). cbn.
  apply lookup_lt_Some in Hk.
  destruct (foldl_pair_and_plan_ids viewers
              (process_destroyed_viewers viewers (paired_viewers cs) 0).1) as (extra & Hids & _).
  apply (f_equal length) in Hids. rewrite length_app, !length_fmap in Hids.
  rewrite process_destroyed_viewers_length in Hids. lia.
Qed.

End pairing.

Lemma process_viewers_ids volume_settings lod_count volume_bounds_in_voxels
    data_block_size_po2 can_mesh cs viewers (i : ViewerID) :
  i ∈ pv_id <$> paired_viewers
                  (process_viewers volume_settings lod_count volume_bounds_in_voxels
                                   data_block_size_po2 can_mesh cs viewers).1
  <-> i ∈ viewers.*1 \/ i ∈ pv_id <$> paired_viewers cs.
Proof.
  unfold process_viewers. cbn [fst paired_viewers].
  destruct (foldl_pair_and_plan_ids volume_settings lod_count volume_bounds_in_voxels
              data_block_size_po2 can_mesh viewers
              (process_destroyed_viewers viewers (paired_viewers cs) 0).1)
    as (extra & Hids & Hex & Hall).
  rewrite process_destroyed_viewers_ids in *. rewrite Hids. split.
  - intros Hin. apply elem_of_app in Hin as [Hin|Hin]; [right; exact Hin|left; auto].
  - intros [Hin|Hin]; [apply Hall; exact Hin|apply elem_of_app; left; exact Hin].
Qed.

(** ** What [process_viewers] leaves *)

Lemma box_at_cleared (boxes : list Box3i) (lod_index : nat) :
  box_at ((fun _ => Box3i.empty) <$> boxes) lod_index = Box3i.empty.
Proof.
  unfold box_at. rewrite list_lookup_fmap. destruct (boxes !! lod_index); reflexivity.
Qed.

Lemma unpair_destroyed_boxes_empty (pv : PairedViewer) :
  all_boxes_empty (pv_state (unpair_destroyed pv)).
Proof. split; intros i; cbn; apply box_at_cleared. Qed.

(** Property X5.  [process_viewers] reports the index of a paired viewer
    exactly when no viewer given has its id.  Such a paired viewer is left
    with a view distance of zero and a default box at every LOD, while its
    previous state holds the boxes it had, for the differs to unload. *)
Theorem process_viewers_unpairs_destroyed volume_settings lod_count volume_bounds_in_voxels
    data_block_size_po2 can_mesh cs viewers (k : nat) (pv : PairedViewer) :
  let r := process_viewers volume_settings lod_count volume_bounds_in_voxels
                           data_block_size_po2 can_mesh cs viewers in
  paired_viewers r.1 !! k = Some pv ->
  (k ∈ r.2 <-> pv_id pv ∉ viewers.*1)
  /\ (pv_id pv ∉ viewers.*1 ->
      view_distance_voxels (pv_state pv) = 0
      /\ all_boxes_empty (pv_state pv)
      /\ exists pv0, paired_viewers cs !! k = Some pv0
                     /\ pv_id pv0 = pv_id pv
                     /\ data_box_per_lod (prev_state pv) = data_box_per_lod (pv_state pv0)
                     /\ mesh_box_per_lod (prev_state pv) = mesh_box_per_lod (pv_state pv0)).
Proof.
  intros r Hk.
  destruct (process_viewers_destroyed_at volume_settings lod_count volume_bounds_in_voxels
              data_block_size_po2 can_mesh cs viewers k pv Hk) as [Hiff Hold].
  split; [exact Hiff|]. intros Hnot. destruct (Hold Hnot) as (pv0 & Hk0 & ->).
  split; [reflexivity|]. split; [apply unpair_destroyed_boxes_empty|].
  exists pv0. repeat split. exact Hk0.
Qed.

Lemma process_viewers_unpairs_destroyed_witness :
  let cs := mkClipboxStreamingState [PairedViewer_new 1 7%nat] [] [] in
  let r := process_viewers corner_settings 1 corner_bounds 4 true cs [] in
  r.2 = [0%nat]
  /\ ((0%nat ∈ r.2 <-> 7%nat ∉ ([] : list (ViewerID * Viewer)).*1)
      /\ (7%nat ∉ ([] : list (ViewerID * Viewer)).*1 ->
          view_distance_voxels (pv_state (unpair_destroyed (PairedViewer_new 1 7%nat))) = 0
          /\ all_boxes_empty (pv_state (unpair_destroyed (PairedViewer_new 1 7%nat)))
          /\ exists pv0, paired_viewers cs !! 0%nat = Some pv0
                     /\ pv_id pv0 = 7%nat
                     /\ data_box_per_lod (prev_state (unpair_destroyed (PairedViewer_new 1 7%nat)))
                        = data_box_per_lod (pv_state pv0)
                     /\ mesh_box_per_lod (prev_state (unpair_destroyed (PairedViewer_new 1 7%nat)))
                        = mesh_box_per_lod (pv_state pv0))).
Proof.
  intros cs r. split; [reflexivity|].
  exact (process_viewers_unpairs_destroyed corner_settings 1 corner_bounds 4 true cs [] 0%nat
           (unpair_destroyed (PairedViewer_new 1 7%nat)) eq_refl).
Defined.

(** Property X6.  When the paired viewers are well formed and the volume has
    no negative size, every box that [process_viewers] leaves, mesh or data,
    at every LOD, lies within the bounds of the volume at that LOD and has no
    negative size. *)
Theorem process_viewers_within_bounds volume_settings lod_count volume_bounds_in_voxels
    data_block_size_po2 can_mesh cs viewers :
  well_formed lod_count cs ->
  vnonneg (size volume_bounds_in_voxels) ->
  forall pv,
    pv ∈ paired_viewers
           (process_viewers volume_settings lod_count volume_bounds_in_voxels
                            data_block_size_po2 can_mesh cs viewers).1 ->
    planned_within_bounds volume_settings lod_count volume_bounds_in_voxels
                          data_block_size_po2 pv.
Proof.
  intros [Hnd Hwf] Hb pv Hin.
  destruct (decide (pv_id pv ∈ viewers.*1)) as [Hid|Hid].
  - revert pv Hin Hid. apply process_viewers_planned; [|exact Hnd|exact Hwf].
    intros viewer pv Hpv. apply plan_viewer_within_bounds; assumption.
  - apply list_elem_of_lookup in Hin as [k Hk].
    destruct (process_viewers_destroyed_at _ _ _ _ _ _ _ _ _ Hk) as [_ Hold].
    destruct (Hold Hid) as (pv0 & _ & ->).
    destruct (unpair_destroyed_boxes_empty pv0) as [Hm Hd].
    intros i _. cbv zeta. rewrite Hm, Hd.
    split; [apply empty_box_within|]. split; [apply empty_box_within|].
    split; unfold vnonneg; cbn; lia.
Qed.

Lemma process_viewers_within_bounds_witness :
  planned_within_bounds corner_settings 1 corner_bounds 4 corner_paired_viewer.
Proof.
  apply (process_viewers_within_bounds corner_settings 1 corner_bounds 4 true
           (mkClipboxStreamingState [] [] []) [(0%nat, corner_viewer)]).
  - split; constructor.
  - unfold vnonneg. cbn. lia.
  - vm_compute. left.
Defined.

(** Property X8.  Given ascending indices within the list,
    [remove_unpaired_viewers] removes the paired viewers at these indices and
    no other: what is left are the entries at the other indices, and the
    list is shorter by the number of indices. *)
Theorem remove_unpaired_viewers_spec (indices : list nat) (pvs : list PairedViewer) :
  StronglySorted lt indices ->
  Forall (fun vi => vi < length pvs)%nat indices ->
  (forall pv, pv ∈ remove_unpaired_viewers indices pvs
              <-> exists k, pvs !! k = Some pv /\ k ∉ indices)
  /\ length (remove_unpaired_viewers indices pvs) = (length pvs - length indices)%nat.
Proof.
  intros Hs Hr. split.
  - apply remove_unpaired_viewers_elem_of; assumption.
  - apply remove_unpaired_viewers_elem_of; assumption.
Qed.

Lemma remove_unpaired_viewers_spec_witness :
  (forall pv, pv ∈ remove_unpaired_viewers [0%nat]
                     [PairedViewer_new 1 7%nat; PairedViewer_new 1 8%nat]
              <-> exists k, [PairedViewer_new 1 7%nat; PairedViewer_new 1 8%nat] !! k = Some pv
                            /\ k ∉ [0%nat])
  /\ length (remove_unpaired_viewers [0%nat]
               [PairedViewer_new 1 7%nat; PairedViewer_new 1 8%nat]) = (2 - 1)%nat.
Proof.
  apply (remove_unpaired_viewers_spec [0%nat]
           [PairedViewer_new 1 7%nat; PairedViewer_new 1 8%nat]).
  - repeat constructor.
  - repeat constructor.
Defined.

(** Property X9.  After an update that runs its differs (streaming is on,
    or the full load is completed), the paired viewers are those of the
    viewers given: every viewer has a paired viewer, and every paired viewer
    has a viewer. *)
Theorem process_clipbox_streaming_pairs_the_viewers st data viewers to_save to_load settings
    can_load can_mesh (i : ViewerID) :
  streaming_enabled data || full_load_completed data = true ->
  i ∈ pv_id <$> paired_viewers
                  (clipbox_streaming
                     (out_state (process_clipbox_streaming st data viewers to_save to_load
                                                           settings can_load can_mesh)))
  <-> i ∈ viewers.*1.
Proof.
  intros Hmode.
  remember (process_viewers settings (data_lod_count data) (data_bounds data)
                            (data_block_size_po2_ data) can_mesh (clipbox_streaming st)
                            viewers) as r eqn:Hr.
  assert (Hout : paired_viewers
                   (clipbox_streaming
                      (out_state (process_clipbox_streaming st data viewers to_save to_load
                                                            settings can_load can_mesh)))
                 = remove_unpaired_viewers r.2 (paired_viewers r.1)).
  { unfold process_clipbox_streaming. cbv zeta. rewrite <- Hr.
    destruct (streaming_enabled data) eqn:Es; cbn in Hmode.
    - cbn. unfold process_loaded_data_blocks_trigger_meshing. cbn.
      match goal with
      | |- context [negb (streaming_enabled ?d)] => destruct (streaming_enabled d)
      end; reflexivity.
    - rewrite Hmode. cbn. reflexivity. }
  subst r.
  rewrite Hout.
  match type of Hout with
  | _ = remove_unpaired_viewers ?idx ?l =>
      destruct (remove_unpaired_viewers_elem_of idx l) as [Hin _]
  end.
  { apply process_destroyed_viewers_sorted. }
  { apply process_viewers_indices_in_range. }
  rewrite list_elem_of_fmap. split.
  - intros (pv & -> & Hpv). apply Hin in Hpv as (k & Hk & Hnot).
    destruct (process_viewers_destroyed_at _ _ _ _ _ _ _ _ _ Hk) as [Hiff _].
    destruct (decide (pv_id pv ∈ viewers.*1)) as [Hid|Hid]; [exact Hid|].
    exfalso. apply Hnot. apply Hiff. exact Hid.
  - intros Hid.
    assert (Hp : i ∈ pv_id <$> paired_viewers
                   (process_viewers settings (data_lod_count data) (data_bounds data)
                      (data_block_size_po2_ data) can_mesh (clipbox_streaming st) viewers).1).
    { apply process_viewers_ids. left. exact Hid. }
    apply list_elem_of_fmap in Hp as (pv & -> & Hpv).
    exists pv. split; [reflexivity|]. apply Hin.
    apply list_elem_of_lookup in Hpv as [k Hk]. exists k. split; [exact Hk|].
    destruct (process_viewers_destroyed_at _ _ _ _ _ _ _ _ _ Hk) as [Hiff _].
    intros Hrem. apply Hiff in Hrem. contradiction.
Qed.

Lemma process_clipbox_streaming_pairs_the_viewers_witness :
  7%nat ∈ pv_id <$> paired_viewers (clipbox_streaming (out_state RoundTrip.added))
  <-> 7%nat ∈ [(7%nat, RoundTrip.viewer_at vzero)].*1.
Proof.
  apply (process_clipbox_streaming_pairs_the_viewers
           (initial_state 2) (initial_data 2 RoundTrip.bounds true false)
           [(7%nat, RoundTrip.viewer_at vzero)] [] [] RoundTrip.settings true true 7%nat).
  reflexivity.
Defined.

(** Property X4.  After [process_viewers] the ids of the paired viewers are
    the ids of the viewers given together with the ids paired before: every
    viewer is paired, and this step drops no paired viewer (it reports the
    destroyed ones by index). *)
Theorem process_viewers_pairs_every_viewer volume_settings lod_count volume_bounds_in_voxels
    data_block_size_po2 can_mesh cs viewers (i : ViewerID) :
  i ∈ pv_id <$> paired_viewers
                  (process_viewers volume_settings lod_count volume_bounds_in_voxels
                                   data_block_size_po2 can_mesh cs viewers).1
  <-> i ∈ viewers.*1 \/ i ∈ pv_id <$> paired_viewers cs.
Proof. apply process_viewers_ids. Qed.

(** ** The planned boxes depend on the viewer only *)

Lemma fill_slots_agree {A : Type} (g : list A -> nat -> A) (n : nat) (l l' : list A) :
  (n <= length l)%nat -> (n <= length l')%nat ->
  (forall acc acc' i, (i < n)%nat ->
     (forall j, (j < i)%nat -> acc !! j = acc' !! j) -> g acc i = g acc' i) ->
  forall j, (j < n)%nat ->
    foldl (fill_slot g) l (seq 0 n) !! j = foldl (fill_slot g) l' (seq 0 n) !! j.
Proof.
  induction n as [|n IH]; intros Hl Hl' Hg j Hj; [lia|].
  rewrite !seq_S, !foldl_app. cbn [foldl Nat.add]. unfold fill_slot at 1 3.
  assert (IH' : forall j, (j < n)%nat ->
            foldl (fill_slot g) l (seq 0 n) !! j = foldl (fill_slot g) l' (seq 0 n) !! j).
  { apply IH; [lia|lia|]. intros acc acc' i Hi. apply Hg. lia. }
  destruct (decide (j = n)) as [->|Hne].
  - rewrite !list_lookup_insert_eq by (rewrite fill_slots_length; lia).
    f_equal. apply Hg; [lia|exact IH'].
  - rewrite !list_lookup_insert_ne by congruence. apply IH'. lia.
Qed.

Section planned_boxes.

Variable volume_settings : Settings.
Variable lod_count : nat.
Variable volume_bounds_in_voxels : Box3i.
Variable data_block_size_po2 : Z.
Variable can_mesh : bool.

Abbreviation plan := (plan_viewer volume_settings lod_count volume_bounds_in_voxels
                                  data_block_size_po2 can_mesh).

Lemma box_at_agree (boxes boxes' : list Box3i) (i : nat) :
  boxes !! i = boxes' !! i -> box_at boxes i = box_at boxes' i.
Proof. unfold box_at. intros ->. reflexivity. Qed.

Lemma planned_mesh_boxes_agree position view_distance (boxes boxes' : list Box3i) :
  (lod_count <= length boxes)%nat -> (lod_count <= length boxes')%nat ->
  forall j, (j < lod_count)%nat ->
    foldl (plan_mesh_box volume_settings lod_count volume_bounds_in_voxels position
                         view_distance) boxes (seq 0 lod_count) !! j
    = foldl (plan_mesh_box volume_settings lod_count volume_bounds_in_voxels position
                           view_distance) boxes' (seq 0 lod_count) !! j.
Proof.
  intros Hl Hl'.
  apply (fill_slots_agree
           (planned_mesh_box volume_settings lod_count volume_bounds_in_voxels position
                             view_distance) lod_count boxes boxes' Hl Hl').
  intros acc acc' i Hi Hagree. unfold planned_mesh_box. cbv zeta.
  destruct i as [|child]; [reflexivity|].
  rewrite (box_at_agree acc acc' child) by (apply Hagree; lia). reflexivity.
Qed.

(** Planning for a viewer gives the same boxes, for the LODs in use,
    whatever the boxes of the paired viewer were. *)
Lemma plan_viewer_boxes_agree viewer pv pv' :
  wf_paired_viewer lod_count pv -> wf_paired_viewer lod_count pv' ->
  forall lod_index, (lod_index < lod_count)%nat ->
    box_at (mesh_box_per_lod (pv_state (plan viewer pv))) lod_index
    = box_at (mesh_box_per_lod (pv_state (plan viewer pv'))) lod_index
    /\ box_at (data_box_per_lod (pv_state (plan viewer pv))) lod_index
       = box_at (data_box_per_lod (pv_state (plan viewer pv'))) lod_index.
Proof.
  intros [Hm Hd] [Hm' Hd'] i Hi. unfold plan_viewer. cbn [pv_state]. cbv zeta.
  destruct (require_collisions viewer || require_visuals viewer && can_mesh);
    cbn [mesh_box_per_lod data_box_per_lod].
  - assert (Hmesh : forall j, (j < lod_count)%nat ->
              box_at (foldl (plan_mesh_box volume_settings lod_count volume_bounds_in_voxels
                               (local_position viewer)
                               (Z.min (view_distance_scaled viewer)
                                      (settings_view_distance_voxels volume_settings)))
                            (mesh_box_per_lod (pv_state pv)) (seq 0 lod_count)) j
              = box_at (foldl (plan_mesh_box volume_settings lod_count volume_bounds_in_voxels
                                 (local_position viewer)
                                 (Z.min (view_distance_scaled viewer)
                                        (settings_view_distance_voxels volume_settings)))
                              (mesh_box_per_lod (pv_state pv')) (seq 0 lod_count)) j).
    { intros j Hj. apply box_at_agree. apply planned_mesh_boxes_agree; assumption. }
    split; [apply Hmesh; exact Hi|]. apply box_at_agree.
    match goal with
    | |- foldl (plan_data_box_from_mesh _ _ _ ?mb) _ _ !! _
         = foldl (plan_data_box_from_mesh _ _ _ ?mb') _ _ !! _ =>
        set (mesh_boxes := mb) in *; set (mesh_boxes' := mb') in *
    end.
    transitivity (foldl (plan_data_box_from_mesh volume_settings volume_bounds_in_voxels
                           data_block_size_po2 mesh_boxes)
                        (data_box_per_lod (pv_state pv')) (seq 0 lod_count) !! i).
    + apply (fill_slots_agree
               (fun _ => planned_data_box_from_mesh volume_settings volume_bounds_in_voxels
                           data_block_size_po2 mesh_boxes)
               lod_count _ _ Hd Hd'); [|exact Hi]. reflexivity.
    + clear Hd. revert Hd'. generalize (data_box_per_lod (pv_state pv')). intros boxes Hb.
      assert (Hgen : forall n, (n <= lod_count)%nat ->
                foldl (plan_data_box_from_mesh volume_settings volume_bounds_in_voxels
                         data_block_size_po2 mesh_boxes) boxes (seq 0 n)
                = foldl (plan_data_box_from_mesh volume_settings volume_bounds_in_voxels
                           data_block_size_po2 mesh_boxes') boxes (seq 0 n)).
      { induction n as [|n IH]; intros Hn; [reflexivity|].
        rewrite !seq_S, !foldl_app. cbn [foldl Nat.add]. rewrite IH by lia.
        unfold plan_data_box_from_mesh, planned_data_box_from_mesh. cbv zeta.
        rewrite (Hmesh n) by lia. reflexivity. }
      rewrite Hgen by lia. reflexivity.
  - split; apply box_at_agree.
    + apply (fill_slots_agree (fun _ _ => Box3i.empty) lod_count _ _ Hm Hm'); [|exact Hi].
      reflexivity.
    + apply (fill_slots_agree
               (fun _ => planned_data_box_alone volume_settings lod_count
                           volume_bounds_in_voxels data_block_size_po2
                           (local_position viewer))
               lod_count _ _ Hd Hd'); [|exact Hi]. reflexivity.
Qed.

Abbreviation pair := (pair_and_plan volume_settings lod_count volume_bounds_in_voxels
                                    data_block_size_po2 can_mesh).

(** What [pair_and_plan] leaves at an index for another viewer's id was
    there before. *)
Lemma pair_and_plan_lookup_other_inv pvs i viewer k pv :
  pair pvs (i, viewer) !! k = Some pv -> pv_id pv <> i -> pvs !! k = Some pv.
Proof.
  unfold pair_and_plan. cbn [fst snd].
  destruct (find_index pv_id pvs i) as [n|] eqn:E; cbn [fst snd]; intros Hk Hne.
  - destruct (decide (k = n)) as [->|Hkn].
    + rewrite list_lookup_alter_eq in Hk. destruct (pvs !! n) as [a|] eqn:Ha; [|discriminate].
      cbn in Hk. injection Hk as <-. cbn in Hne.
      destruct (find_index_Some _ _ _ _ E) as (a' & Ha' & Hid). congruence.
    + rewrite list_lookup_alter_ne in Hk by congruence. exact Hk.
  - destruct (decide (k = length pvs)) as [->|Hkn].
    + rewrite list_lookup_alter_eq, lookup_app_r, Nat.sub_diag in Hk by lia.
      cbn in Hk. injection Hk as <-. cbn in Hne. congruence.
    + rewrite list_lookup_alter_ne in Hk by congruence.
      destruct (decide (k < length pvs)%nat).
      * rewrite lookup_app_l in Hk by lia. exact Hk.
      * rewrite lookup_app_r in Hk by lia.
        destruct (k - length pvs)%nat as [|m] eqn:Em; [lia|]. cbn in Hk. discriminate.
Qed.

(** The entry [pair_and_plan] leaves for the viewer was planned from the
    paired viewer found there, or from a new one. *)
Lemma pair_and_plan_lookup_same pvs i viewer k pv :
  NoDup (pv_id <$> pvs) ->
  pair pvs (i, viewer) !! k = Some pv -> pv_id pv = i ->
  exists pv1, pv = plan viewer pv1
              /\ (pvs !! k = Some pv1
                  \/ (pv1 = PairedViewer_new lod_count i /\ i ∉ pv_id <$> pvs)).
Proof.
  intros Hnd. unfold pair_and_plan. cbn [fst snd].
  destruct (find_index pv_id pvs i) as [n|] eqn:E; cbn [fst snd]; intros Hk Hid.
  - destruct (find_index_Some _ _ _ _ E) as (a & Ha & Hida).
    destruct (decide (k = n)) as [->|Hkn].
    + rewrite list_lookup_alter_eq, Ha in Hk. cbn in Hk. injection Hk as <-.
      exists a. split; [reflexivity|]. left. exact Ha.
    + rewrite list_lookup_alter_ne in Hk by congruence. exfalso. apply Hkn.
      apply (NoDup_lookup _ _ _ i Hnd); rewrite list_lookup_fmap.
      * rewrite Hk. cbn. congruence.
      * rewrite Ha. cbn. congruence.
  - pose proof (find_index_None _ _ _ E) as Hnot.
    destruct (decide (k = length pvs)) as [->|Hkn].
    + rewrite list_lookup_alter_eq, lookup_app_r, Nat.sub_diag in Hk by lia.
      cbn in Hk. injection Hk as <-. eexists. split; [reflexivity|]. right.
      split; [reflexivity|exact Hnot].
    + rewrite list_lookup_alter_ne in Hk by congruence.
      destruct (decide (k < length pvs)%nat).
      * rewrite lookup_app_l in Hk by lia. exfalso. apply Hnot. rewrite <- Hid.
        apply list_elem_of_fmap_2. apply list_elem_of_lookup. eauto.
      * rewrite lookup_app_r in Hk by lia.
        destruct (k - length pvs)%nat as [|m] eqn:Em; [lia|]. cbn in Hk. discriminate.
Qed.

Lemma pair_and_plan_NoDup pvs i viewer :
  NoDup (pv_id <$> pvs) -> NoDup (pv_id <$> pair pvs (i, viewer)).
Proof.
  intros Hnd. rewrite pair_and_plan_ids.
  destruct (find_index pv_id pvs i) as [n|] eqn:E; [rewrite app_nil_r; exact Hnd|].
  apply NoDup_app. split; [exact Hnd|]. split; [|apply NoDup_singleton].
  intros j Hj Hj'. apply list_elem_of_singleton in Hj'. subst j.
  exact (find_index_None _ _ _ E Hj).
Qed.

Lemma foldl_pair_and_plan_lookup_other_inv viewers pvs k pv :
  foldl pair pvs viewers !! k = Some pv -> pv_id pv ∉ viewers.*1 -> pvs !! k = Some pv.
Proof.
  revert pvs. induction viewers as [|[i viewer] viewers IH]; intros pvs Hk Hnot;
    [exact Hk|].
  cbn [foldl] in Hk. cbn in Hnot. apply not_elem_of_cons in Hnot as [Hne Hnot].
  apply IH in Hk; [|exact Hnot]. eapply pair_and_plan_lookup_other_inv; eauto.
Qed.

(** With distinct viewer ids, the paired viewer of each viewer is planned
    once, from the paired viewer that was there or from a new one. *)
Lemma foldl_pair_and_plan_live viewers pvs k pv viewer :
  NoDup viewers.*1 -> NoDup (pv_id <$> pvs) ->
  foldl pair pvs viewers !! k = Some pv -> (pv_id pv, viewer) ∈ viewers ->
  exists pv1, pv = plan viewer pv1
              /\ (pvs !! k = Some pv1
                  \/ (pv1 = PairedViewer_new lod_count (pv_id pv)
                      /\ pv_id pv ∉ pv_id <$> pvs)).
Proof.
  revert pvs. induction viewers as [|[i v0] viewers IH]; intros pvs Hndv Hnd Hk Hin;
    [inversion Hin|].
  cbn [foldl] in Hk. cbn in Hndv. apply NoDup_cons in Hndv as [Hi Hndv].
  apply elem_of_cons in Hin as [Heq|Hin].
  - injection Heq as Hid ->. 
    apply foldl_pair_and_plan_lookup_other_inv in Hk; [|rewrite Hid; exact Hi].
    rewrite Hid. eapply pair_and_plan_lookup_same; eauto.
  - assert (Hne : pv_id pv <> i).
    { intros <-. apply Hi. apply (list_elem_of_fmap_2 fst) in Hin. exact Hin. }
    destruct (IH (pair pvs (i, v0)) Hndv (pair_and_plan_NoDup _ _ _ Hnd) Hk Hin)
      as (pv1 & -> & [H1|H1]).
    + exists pv1. split; [reflexivity|]. left.
      eapply pair_and_plan_lookup_other_inv; eauto.
    + exists pv1. split; [reflexivity|]. right. destruct H1 as [H1 H2].
      split; [exact H1|]. intros Hin'. apply H2. rewrite pair_and_plan_ids.
      apply elem_of_app. left. exact Hin'.
Qed.

End planned_boxes.

(** ** The root mesh box *)

Lemma merge_with_keeps_cells (b other : Box3i) (cell : Vector3i) :
  Box3i.contains b cell = true -> Box3i.contains (Box3i.merge_with b other) cell = true.
Proof.
  rewrite !contains_iff. unfold Box3i.merge_with, Box3i.end_. cbv zeta.
  destruct b as [[bx by_ bz] [sx sy sz]], other as [[ox oy oz] [tx ty tz]], cell as [cx cy cz].
  vsimpl. lia.
Qed.

Lemma within_distance_mono (center : Vector3i) (d d' : Z) (p : Vector3i) :
  d <= d' -> within_distance center d p -> within_distance center d' p.
Proof. unfold within_distance, vforall2. lia. Qed.

Section root_box.

Variable volume_settings : Settings.
Variable lod_count : nat.
Variable volume_bounds_in_voxels : Box3i.
Variable data_block_size_po2 : Z.
Variable can_mesh : bool.

Hypothesis mesh_block_size_po2_nonneg : 0 <= mesh_block_size_po2 volume_settings.
Hypothesis some_lod : (0 < lod_count)%nat.

Lemma root_mesh_block_size :
  Z.shiftl 1 (mesh_block_size_po2 volume_settings + Z.of_nat (lod_count - 1))
  = last_lod_mesh_block_size volume_settings lod_count
  /\ 0 < last_lod_mesh_block_size volume_settings lod_count.
Proof.
  unfold last_lod_mesh_block_size, mesh_block_size.
  rewrite Z.shiftl_shiftl by exact mesh_block_size_po2_nonneg. split; [reflexivity|].
  rewrite Z.shiftl_1_l. apply Z.pow_pos_nonneg; lia.
Qed.

Lemma planned_root_mesh_box_reaches position view_distance mesh_boxes voxel :
  within_distance position view_distance voxel ->
  let root := (lod_count - 1)%nat in
  let block := vfloordiv voxel (last_lod_mesh_block_size volume_settings lod_count) in
  Box3i.contains (volume_bounds_in_mesh_blocks volume_settings volume_bounds_in_voxels root)
                 block = true ->
  Box3i.contains (planned_mesh_box volume_settings lod_count volume_bounds_in_voxels
                                   position view_distance mesh_boxes root) block = true.
Proof.
  intros Hnear root block Hin. subst root block. unfold planned_mesh_box. cbv zeta.
  destruct root_mesh_block_size as [Hsize Hpos]. rewrite Hsize.
  unfold is_last_lod. rewrite bool_decide_eq_true_2 by reflexivity. cbn [negb].
  apply clipped_keeps_cells_in_limit; [|exact Hin].
  set (S := last_lod_mesh_block_size volume_settings lod_count) in *.
  assert (Hbase : Box3i.contains
                    (get_base_box_in_chunks position
                       (last_lod_distance_in_mesh_chunks volume_settings lod_count
                          view_distance * S) S false)
                    (vfloordiv voxel S) = true).
  { apply base_box_covers; [exact Hpos|].
    eapply within_distance_mono; [|exact Hnear].
    unfold last_lod_distance_in_mesh_chunks. fold S.
    pose proof (ceildiv_spec view_distance S Hpos) as [_ Hc].
    assert (math.ceildiv view_distance S
            <= Z.max (math.ceildiv view_distance S)
                     (lod_distance_in_mesh_chunks volume_settings)) by lia.
    nia. }
  destruct (lod_count - 1)%nat as [|child]; [exact Hbase|].
  apply merge_with_keeps_cells. exact Hbase.
Qed.

Lemma plan_viewer_root_mesh_box viewer pv :
  wf_paired_viewer lod_count pv ->
  root_mesh_box_reaches_view_distance volume_settings lod_count volume_bounds_in_voxels
    (plan_viewer volume_settings lod_count volume_bounds_in_voxels
                 data_block_size_po2 can_mesh viewer pv).
Proof.
  intros [Hm Hd] Hreq voxel Hnear root block Hin. unfold plan_viewer in *.
  cbn [pv_state] in *. cbv zeta in *.
  destruct (require_collisions viewer || require_visuals viewer && can_mesh) eqn:E;
    cbn [requires_collisions requires_meshes mesh_box_per_lod local_position_voxels
         view_distance_voxels] in *; [|congruence].
  destruct (fill_slots_invariant
              (planned_mesh_box volume_settings lod_count volume_bounds_in_voxels
                 (local_position viewer)
                 (Z.min (view_distance_scaled viewer)
                        (settings_view_distance_voxels volume_settings)))
              (fun j b => j = root -> Box3i.contains b block = true)
              lod_count (mesh_box_per_lod (pv_state pv)) Hm) with (j := root)
    as (mb & Hmb_at & Hmb); [|subst root; lia|].
  { intros acc j Hj _ _ ->. apply planned_root_mesh_box_reaches; assumption. }
  unfold box_at.
  change (foldl (plan_mesh_box volume_settings lod_count volume_bounds_in_voxels
                   (local_position viewer)
                   (Z.min (view_distance_scaled viewer)
                          (settings_view_distance_voxels volume_settings))))
    with (foldl (fill_slot (planned_mesh_box volume_settings lod_count
                   volume_bounds_in_voxels (local_position viewer)
                   (Z.min (view_distance_scaled viewer)
                          (settings_view_distance_voxels volume_settings))))).
  rewrite Hmb_at. cbn. apply Hmb. reflexivity.
Qed.

End root_box.

(** Property X7.  For a viewer that requires meshes or collisions, the mesh
    box that [process_viewers] plans at the root LOD holds the root mesh
    block of every voxel within the view distance of the viewer on each axis,
    as far as that block is within the bounds of the volume. *)
Theorem process_viewers_root_mesh_box
    (volume_settings : Settings) (lod_count : nat) (volume_bounds_in_voxels : Box3i)
    (data_block_size_po2 : Z) (can_mesh : bool)
    (cs : ClipboxStreamingState) (viewers : list (ViewerID * Viewer)) :
  0 <= mesh_block_size_po2 volume_settings ->
  (0 < lod_count)%nat ->
  well_formed lod_count cs ->
  forall pv,
    pv ∈ paired_viewers
           (process_viewers volume_settings lod_count volume_bounds_in_voxels
                            data_block_size_po2 can_mesh cs viewers).1 ->
    pv_id pv ∈ viewers.*1 ->
    root_mesh_box_reaches_view_distance volume_settings lod_count volume_bounds_in_voxels pv.
Proof.
  intros Hpo2 Hlod [Hnd Hwf]. apply process_viewers_planned; [|exact Hnd|exact Hwf].
  intros viewer pv Hpv. apply plan_viewer_root_mesh_box; assumption.
Qed.

Lemma process_viewers_root_mesh_box_witness :
  root_mesh_box_reaches_view_distance two_lod_settings 2 aligned_bounds
                                      (planned_in aligned_bounds).
Proof.
  apply (process_viewers_root_mesh_box two_lod_settings 2 aligned_bounds 4 true
           (mkClipboxStreamingState [] [] []) [(0%nat, origin_viewer)]).
  - cbn. lia.
  - lia.
  - split; constructor.
  - vm_compute. left.
  - vm_compute. left.
Defined.

(** ** Nesting of the mesh boxes *)

Section related_slots.

Context {A : Type}.
Variable g : list A -> nat -> A.

(** If each iteration establishes [Q] for the slot it writes and relates it
    by [R] to the slot before, the slots written are related by [R]. *)
Lemma fill_slots_related (Q : nat -> A -> Prop) (R : nat -> A -> A -> Prop)
    (n : nat) (l : list A) :
  (n <= length l)%nat ->
  (forall acc i, (i < n)%nat -> length acc = length l -> Q i (g acc i)) ->
  (forall acc i a, (S i < n)%nat -> length acc = length l -> acc !! i = Some a -> Q i a ->
                   R i a (g acc (S i))) ->
  forall j, (S j < n)%nat ->
    exists a b, foldl (fill_slot g) l (seq 0 n) !! j = Some a
                /\ foldl (fill_slot g) l (seq 0 n) !! S j = Some b /\ R j a b.
Proof.
  induction n as [|n IH]; intros Hn HQ HR j Hj; [lia|].
  rewrite seq_S, foldl_app. cbn [foldl Nat.add]. unfold fill_slot at 1 3.
  set (acc := foldl (fill_slot g) l (seq 0 n)) in *.
  assert (Hlen : length acc = length l) by apply fill_slots_length.
  destruct (decide (S j = n)) as [<-|Hne].
  - destruct (fill_slots_invariant g Q (S j) l ltac:(lia)) with (j := j)
      as (a & Ha & HQa); [|lia|].
    { intros acc' i Hi Hl' _. apply HQ; [lia|exact Hl']. }
    fold acc in Ha. exists a, (g acc (S j)).
    split; [rewrite list_lookup_insert_ne by lia; exact Ha|].
    split; [apply list_lookup_insert_eq; lia|].
    apply HR; [lia|exact Hlen|exact Ha|exact HQa].
  - destruct (IH ltac:(lia)) with (j := j) as (a & b & Ha & Hb & Hab); [| |lia|].
    { intros acc' i Hi. apply HQ. lia. }
    { intros acc' i a' Hi. apply HR. lia. }
    exists a, b. rewrite !list_lookup_insert_ne by lia. auto.
Qed.

End related_slots.

Lemma empty_box_holds_no_cell (cell : Vector3i) :
  Box3i.contains Box3i.empty cell = true -> False.
Proof. rewrite contains_iff. cbn. lia. Qed.

Lemma merge_with_keeps_cells_of_other (b other : Box3i) (cell : Vector3i) :
  Box3i.contains other cell = true -> Box3i.contains (Box3i.merge_with b other) cell = true.
Proof.
  rewrite !contains_iff. unfold Box3i.merge_with, Box3i.end_.
  destruct b as [[] []], other as [[] []], cell. vsimpl. lia.
Qed.

Lemma min_box_axis (p s c : Z) :
  p <= c < p + s ->
  p / 2 - 2 <= c / 2 < p / 2 - 2 + (s / 2 + 2 * 2).
Proof. intros H. Z.div_mod_to_equations. lia. Qed.

Lemma even_outwards_axis (m ms v : Z) :
  m <= v < m + ms ->
  m / 2 * 2 <= v < m / 2 * 2 + ((m + ms - 1) / 2 - m / 2 + 1) * 2.
Proof. intros H. Z.div_mod_to_equations. lia. Qed.

Lemma shiftr_1 (c : Z) : Z.shiftr c 1 = c / 2.
Proof. rewrite Z.shiftr_div_pow2 by lia. reflexivity. Qed.

Lemma neighboring_min_box_holds_parents (lod_count : nat) (child_box : Box3i)
    (lod_index : nat) (cell : Vector3i) :
  Box3i.contains child_box cell = true ->
  Box3i.contains (neighboring_min_box lod_count child_box lod_index) (vshr cell 1) = true.
Proof.
  rewrite !contains_iff. unfold neighboring_min_box. cbv zeta.
  destruct child_box as [[px py pz] [sx sy sz]], cell as [cx cy cz].
  intros (Hx & Hy & Hz).
  apply min_box_axis in Hx, Hy, Hz.
  destruct (is_last_lod lod_count lod_index).
  - unfold Box3i.padded.
    unfold vshr, vsub, vadd, vzip, vmap, Vector3iUtil.create. cbn [x y z pos size].
    rewrite !shiftr_1. auto.
  - unfold Box3i.scaled, Box3i.downscaled, Box3i.padded, Box3i.end_.
    unfold vshr, vsub, vadd, vzip, vmap, vscale, vfloordiv, Vector3iUtil.create,
      math.floordiv.
    cbn [x y z pos size]. rewrite !shiftr_1.
    split; [|split]; apply even_outwards_axis; assumption.
Qed.

Lemma volume_bounds_in_mesh_blocks_hold_parents volume_settings bounds (lod_index : nat)
    (cell : Vector3i) :
  0 <= mesh_block_size_po2 volume_settings ->
  Box3i.contains (volume_bounds_in_mesh_blocks volume_settings bounds lod_index) cell = true ->
  Box3i.contains (volume_bounds_in_mesh_blocks volume_settings bounds (S lod_index))
                 (vshr cell 1) = true.
Proof.
  intros Hpo2. rewrite !contains_iff. unfold volume_bounds_in_mesh_blocks, Box3i.downscaled.
  cbv zeta. rewrite !Z.shiftl_1_l.
  replace (mesh_block_size_po2 volume_settings + Z.of_nat (S lod_index))
    with (Z.succ (mesh_block_size_po2 volume_settings + Z.of_nat lod_index)) by lia.
  rewrite Z.pow_succ_r by lia.
  assert (Hs : 0 < 2 ^ (mesh_block_size_po2 volume_settings + Z.of_nat lod_index))
    by (apply Z.pow_pos_nonneg; lia).
  set (s := 2 ^ (mesh_block_size_po2 volume_settings + Z.of_nat lod_index)) in *.
  assert (Haxis : forall p e c, p / s <= c < p / s + (e / s - p / s + 1) ->
                    p / (2 * s) <= Z.shiftr c 1
                    < p / (2 * s) + (e / (2 * s) - p / (2 * s) + 1)).
  { intros p e c Hc. rewrite Z.shiftr_div_pow2 by lia. change (2 ^ 1) with 2.
    replace (2 * s) with (s * 2) by lia.
    rewrite <- !Z.div_div by lia.
    generalize dependent (p / s). generalize dependent (e / s). intros e' p' Hc.
    Z.div_mod_to_equations. lia. }
  destruct bounds as [[px py pz] [sx sy sz]], cell as [cx cy cz].
  unfold Box3i.end_. vsimpl. unfold math.floordiv.
  intros (Hx & Hy & Hz). split; [|split]; apply Haxis; assumption.
Qed.

Section nested.

Variable volume_settings : Settings.
Variable lod_count : nat.
Variable volume_bounds_in_voxels : Box3i.
Variable data_block_size_po2 : Z.
Variable can_mesh : bool.

Hypothesis mesh_block_size_po2_nonneg : 0 <= mesh_block_size_po2 volume_settings.
Hypothesis bounds_nonneg : vnonneg (size volume_bounds_in_voxels).

Lemma planned_mesh_box_holds_parents position view_distance (acc : list Box3i)
    (lod_index : nat) (child_box : Box3i) (cell : Vector3i) :
  acc !! lod_index = Some child_box ->
  box_within child_box
             (volume_bounds_in_mesh_blocks volume_settings volume_bounds_in_voxels lod_index) ->
  Box3i.contains child_box cell = true ->
  Box3i.contains (planned_mesh_box volume_settings lod_count volume_bounds_in_voxels
                                   position view_distance acc (S lod_index))
                 (vshr cell 1) = true.
Proof.
  intros Hat Hwithin Hcell. unfold planned_mesh_box. cbv zeta.
  apply clipped_keeps_cells_in_limit.
  - apply merge_with_keeps_cells_of_other. unfold box_at. rewrite Hat. cbn.
    apply neighboring_min_box_holds_parents. exact Hcell.
  - apply volume_bounds_in_mesh_blocks_hold_parents; [exact mesh_block_size_po2_nonneg|].
    apply Hwithin. exact Hcell.
Qed.

Lemma plan_viewer_mesh_boxes_nested viewer pv :
  wf_paired_viewer lod_count pv ->
  mesh_boxes_nested lod_count
    (plan_viewer volume_settings lod_count volume_bounds_in_voxels
                 data_block_size_po2 can_mesh viewer pv).
Proof.
  intros [Hm Hd] i Hi cell. unfold plan_viewer. cbn [pv_state]. cbv zeta.
  destruct (require_collisions viewer || require_visuals viewer && can_mesh);
    cbn [mesh_box_per_lod].
  - destruct (fill_slots_related
                (planned_mesh_box volume_settings lod_count volume_bounds_in_voxels
                   (local_position viewer)
                   (Z.min (view_distance_scaled viewer)
                          (settings_view_distance_voxels volume_settings)))
                (fun j b => box_within b (volume_bounds_in_mesh_blocks volume_settings
                                            volume_bounds_in_voxels j))
                (fun _ a b => forall cell, Box3i.contains a cell = true ->
                                           Box3i.contains b (vshr cell 1) = true)
                lod_count (mesh_box_per_lod (pv_state pv)) Hm) with (j := i)
      as (a & b & Ha & Hb & Hab); [| |exact Hi|].
    { intros acc j Hj _. unfold planned_mesh_box. cbv zeta.
      apply clipped_within. apply volume_bounds_in_mesh_blocks_nonneg. exact bounds_nonneg. }
    { intros acc j a Hj _ Ha Hwithin c Hc.
      apply (planned_mesh_box_holds_parents _ _ acc j a); assumption. }
    unfold box_at.
    change (foldl (plan_mesh_box volume_settings lod_count volume_bounds_in_voxels
                     (local_position viewer)
                     (Z.min (view_distance_scaled viewer)
                            (settings_view_distance_voxels volume_settings))))
      with (foldl (fill_slot (planned_mesh_box volume_settings lod_count
                     volume_bounds_in_voxels (local_position viewer)
                     (Z.min (view_distance_scaled viewer)
                            (settings_view_distance_voxels volume_settings))))).
    rewrite Ha, Hb. cbn. apply Hab.
  - destruct (fill_slots_invariant (fun _ _ => Box3i.empty)
                (fun _ b => b = Box3i.empty)
                lod_count (mesh_box_per_lod (pv_state pv)) Hm) with (j := i)
      as (mb & Hmb_at & ->); [reflexivity|lia|].
    unfold box_at.
    change (foldl (fun boxes lod_index => <[lod_index := Box3i.empty]> boxes))
      with (foldl (fill_slot (fun (_ : list Box3i) (_ : nat) => Box3i.empty))).
    rewrite Hmb_at. cbn. intros H. destruct (empty_box_holds_no_cell _ H).
Qed.

End nested.

(** Property X25.  When the mesh block size is a power of two with a
    non-negative exponent, the volume has no negative size and the paired
    viewers are well formed, the mesh boxes that [process_viewers] leaves are
    nested: the parent of every cell of the mesh box of a LOD is a cell of
    the mesh box of the next LOD, as the mesh differ asserts in development
    builds. *)
Theorem process_viewers_mesh_boxes_nested volume_settings lod_count volume_bounds_in_voxels
    data_block_size_po2 can_mesh cs viewers :
  0 <= mesh_block_size_po2 volume_settings ->
  vnonneg (size volume_bounds_in_voxels) ->
  well_formed lod_count cs ->
  forall pv,
    pv ∈ paired_viewers
           (process_viewers volume_settings lod_count volume_bounds_in_voxels
                            data_block_size_po2 can_mesh cs viewers).1 ->
    mesh_boxes_nested lod_count pv.
Proof.
  intros Hpo2 Hb [Hnd Hwf] pv Hin.
  destruct (decide (pv_id pv ∈ viewers.*1)) as [Hid|Hid].
  - revert pv Hin Hid. apply process_viewers_planned; [|exact Hnd|exact Hwf].
    intros viewer pv Hpv. apply plan_viewer_mesh_boxes_nested; assumption.
  - apply list_elem_of_lookup in Hin as [k Hk].
    destruct (process_viewers_destroyed_at _ _ _ _ _ _ _ _ _ Hk) as [_ Hold].
    destruct (Hold Hid) as (pv0 & _ & ->).
    destruct (unpair_destroyed_boxes_empty pv0) as [Hm _].
    intros i _ cell. rewrite Hm. intros H. destruct (empty_box_holds_no_cell _ H).
Qed.

Lemma process_viewers_mesh_boxes_nested_witness :
  mesh_boxes_nested 2 (planned_in aligned_bounds).
Proof.
  apply (process_viewers_mesh_boxes_nested two_lod_settings 2 aligned_bounds 4 true
           (mkClipboxStreamingState [] [] []) [(0%nat, origin_viewer)]).
  - cbn. lia.
  - unfold vnonneg. cbn. lia.
  - split; constructor.
  - vm_compute. left.
Defined.

(** ** Cells of boxes *)

Lemma elem_of_zrange (a n v : Z) : v ∈ zrange a n <-> a <= v < a + n.
Proof.
  unfold zrange. rewrite list_elem_of_fmap. split.
  - intros (i & -> & Hi). apply elem_of_seq in Hi. lia.
  - intros Hv. exists (Z.to_nat (v - a)). split; [lia|]. apply elem_of_seq. lia.
Qed.

Lemma elem_of_for_each_cell (b : Box3i) (c : Vector3i) :
  c ∈ Box3iCells.for_each_cell b <-> Box3i.contains b c = true.
Proof.
  rewrite contains_iff. unfold Box3iCells.for_each_cell.
  rewrite list_elem_of_bind. split.
  - intros (cz & Hc & Hz). apply list_elem_of_bind in Hc as (cy & Hc & Hy).
    apply list_elem_of_bind in Hc as (cx & Hc & Hx). apply list_elem_of_singleton in Hc.
    subst c. cbn. apply elem_of_zrange in Hx, Hy, Hz. lia.
  - intros (Hx & Hy & Hz). exists (z c). split; [|apply elem_of_zrange; lia].
    apply list_elem_of_bind. exists (y c). split; [|apply elem_of_zrange; lia].
    apply list_elem_of_bind. exists (x c). split; [|apply elem_of_zrange; lia].
    destruct c. cbn. apply list_elem_of_singleton. reflexivity.
Qed.

Lemma intersects_iff (a b : Box3i) :
  Box3i.intersects a b = true <->
  x (pos a) < x (pos b) + x (size b) /\ y (pos a) < y (pos b) + y (size b)
  /\ z (pos a) < z (pos b) + z (size b)
  /\ x (pos b) < x (pos a) + x (size a) /\ y (pos b) < y (pos a) + y (size a)
  /\ z (pos b) < z (pos a) + z (size a).
Proof.
  unfold Box3i.intersects, Box3i.end_. vsimpl.
  rewrite negb_true_iff, !orb_false_iff, !Z.leb_gt. lia.
Qed.

(** The boxes of [difference a b] hold the cells of [a] that are not in
    [b]. *)
Lemma elem_of_difference (a b : Box3i) (c : Vector3i) :
  (exists box, box ∈ Box3iCells.difference a b /\ Box3i.contains box c = true)
  <-> Box3i.contains a c = true /\ Box3i.contains b c = false.
Proof.
  rewrite <- (not_true_iff_false (Box3i.contains b c)), !contains_iff.
  unfold Box3iCells.difference.
  destruct (Box3i.intersects a b) eqn:Hi; cbn [negb].
  - apply intersects_iff in Hi.
    destruct a as [[ax ay az] [asx asy asz]], b as [[bx by_ bz] [bsx bsy bsz]], c as [cx cy cz].
    unfold Box3i.end_. vsimpl. cbv zeta.
    repeat case_bool_decide; cbn [app x y z pos size] in *;
      (split;
       [ intros (box & Hin & Hc); apply contains_iff in Hc;
         repeat (apply elem_of_cons in Hin as [->|Hin]; [cbn in Hc; lia|]);
         inversion Hin
       | intros Hc; apply Exists_exists;
         repeat first [rewrite Exists_cons | rewrite Exists_nil];
         rewrite ?contains_iff; cbn [x y z pos size]; lia ]).
  - apply not_true_iff_false in Hi. rewrite intersects_iff in Hi.
    split.
    + intros (box & Hin & Hc). apply list_elem_of_singleton in Hin. subst box.
      apply contains_iff in Hc. split; [exact Hc|]. lia.
    + intros [Hc _]. exists a. split; [left|]. apply contains_iff. exact Hc.
Qed.

(** ** Invariants of the per-LOD states *)

Section lod_invariant.

(** A property of a LOD that each elementary change of the streaming code
    keeps. *)
Variable I : Lod -> Prop.

Hypothesis I_default : I Lod_default.

Abbreviation all_lods := (Forall I).

Lemma I_lod_at ls i : all_lods ls -> I (lod_at ls i).
Proof.
  intros H. unfold lod_at. destruct (ls !! i) as [l|] eqn:E; cbn; [|exact I_default].
  rewrite Forall_forall in H. apply H. apply list_elem_of_lookup. eauto.
Qed.

Lemma I_insert ls i l : all_lods ls -> I l -> all_lods (<[i := l]> ls).
Proof. intros H Hl. apply Forall_insert; assumption. Qed.

Lemma I_alter (f : Lod -> Lod) ls i :
  (forall l, I l -> I (f l)) -> all_lods ls -> all_lods (alter f i ls).
Proof. intros Hf H. apply Forall_alter; [exact H|]. intros l _. apply Hf. Qed.

Lemma I_foldl {B : Type} (f : Lod -> B -> Lod) (bs : list B) (l : Lod) :
  (forall l b, I l -> I (f l b)) -> I l -> I (foldl f l bs).
Proof. intros Hf. revert l. induction bs as [|b bs IH]; intros l Hl; cbn; auto. Qed.

Lemma all_lods_foldl {B : Type} (f : list Lod -> B -> list Lod) (bs : list B) ls :
  (forall ls b, all_lods ls -> all_lods (f ls b)) -> all_lods ls -> all_lods (foldl f ls bs).
Proof. intros Hf. revert ls. induction bs as [|b bs IH]; intros ls Hl; cbn; auto. Qed.

(** *** The mesh differ, cell by cell *)

Section mesh_cells_invariant.

Variable settings : Settings.
Variable bounds_in_voxels : Box3i.
Variable lod_count : nat.
Variable is_full_load_mode : bool.
Variable can_load : bool.

Hypothesis I_view_mesh_cell : forall full l p, I l -> I (view_mesh_cell full l p).
Hypothesis I_unview_mesh_cell : forall l p, I l -> I (unview_mesh_cell l p).
Hypothesis I_show_parent_cell : forall l parent p, I parent -> I (show_parent_cell l parent p).
Hypothesis I_cancel_mesh_updates : forall box l, I l -> I (cancel_mesh_updates box l).

Lemma I_remove_out_of_range_box lod_index ls box :
  all_lods ls -> all_lods (remove_out_of_range_box lod_count lod_index ls box).
Proof.
  intros H. unfold remove_out_of_range_box. cbv zeta.
  assert (H1 : all_lods (<[lod_index := foldl unview_mesh_cell (lod_at ls lod_index)
                                            (Box3iCells.for_each_cell box)]> ls)).
  { apply I_insert; [exact H|]. apply I_foldl; [|apply I_lod_at; exact H].
    intros. apply I_unview_mesh_cell. assumption. }
  case_bool_decide; [|exact H1].
  apply I_insert; [exact H1|]. apply I_foldl; [|apply I_lod_at; exact H1].
  intros. apply I_show_parent_cell. assumption.
Qed.

Lemma I_add_entering_box lod_index ls box :
  all_lods ls -> all_lods (add_entering_box is_full_load_mode lod_index ls box).
Proof.
  intros H. unfold add_entering_box. apply I_alter; [|exact H].
  intros l Hl. apply I_foldl; [|exact Hl]. intros. apply I_view_mesh_cell. assumption.
Qed.

Lemma I_process_mesh_lod_cells pv lod_index ls :
  all_lods ls ->
  all_lods (process_mesh_lod settings bounds_in_voxels lod_count is_full_load_mode can_load
                             pv lod_index ls).1.
Proof.
  intros H. unfold process_mesh_lod. cbv zeta.
  destruct (negb _ && negb _); [exact H|]. cbn [fst].
  apply I_alter; [intros; apply I_cancel_mesh_updates; assumption|].
  case_bool_decide; [|exact H].
  apply all_lods_foldl; [intros; apply I_remove_out_of_range_box; assumption|].
  destruct can_load; [|exact H].
  apply all_lods_foldl; [intros; apply I_add_entering_box; assumption|exact H].
Qed.

End mesh_cells_invariant.

Section update_invariant.

(** What each elementary change of the streaming code keeps; the mesh differ
    is taken one LOD of one viewer at a time. *)
Hypothesis I_add_loading_block : forall l p, I l -> I (add_loading_block l p).1.
Hypothesis I_erase_loading_block :
  forall l p, I l -> I (set_loading_blocks (delete p (loading_blocks l)) l).
Hypothesis I_unview_loading_block :
  forall l p lb, I l -> loading_blocks l !! p = Some lb ->
    RefCount.remove (viewers lb) <> 0%nat ->
    I (set_loading_blocks
         (<[p := mkLoadingDataBlock (RefCount.remove (viewers lb))]> (loading_blocks l)) l).
Hypothesis I_cancel_updates_outside_data :
  forall box l, I l -> I (cancel_updates_outside_data box l).
Hypothesis I_process_mesh_lod :
  forall settings bounds_in_voxels lod_count is_full_load_mode can_load pv lod_index ls,
    all_lods ls ->
    all_lods (process_mesh_lod settings bounds_in_voxels lod_count is_full_load_mode can_load
                               pv lod_index ls).1.
Hypothesis I_trigger_meshing_at :
  forall data bounds shift lod_index l p,
    I l -> I (trigger_meshing_at data bounds shift lod_index l p).
Hypothesis I_activate_block : forall p l, I l -> I (activate_block p l).
Hypothesis I_deactivate_block : forall p l, I l -> I (deactivate_block p l).

(** *** The data differ *)

Lemma I_unview_missing_blocks lod_index l to_load missing :
  I l -> I (unview_missing_blocks lod_index l to_load missing).1.1.
Proof.
  revert l to_load. induction missing as [|p missing IH]; intros l to_load Hl; [exact Hl|].
  cbn [unview_missing_blocks]. destruct (loading_blocks l !! p) as [lb|] eqn:E; [|exact Hl].
  cbv zeta. case_bool_decide as Hc.
  - apply IH. apply I_erase_loading_block. exact Hl.
  - apply IH. eapply I_unview_loading_block; eauto.
Qed.

Lemma I_load_entering_blocks lod_index new_box prev_box c :
  all_lods (ds_lods c) -> all_lods (ds_lods (load_entering_blocks lod_index new_box prev_box c)).
Proof.
  intros H. unfold load_entering_blocks. cbv zeta. cbn [ds_lods].
  apply I_insert; [exact H|].
  match goal with
  | |- I (foldl ?f (?l0, ?t0) ?m).1 =>
      generalize t0; assert (Hl0 : I l0) by (apply I_lod_at; exact H);
      revert Hl0; generalize l0; generalize m
  end.
  intros m. induction m as [|p m IH]; intros l Hl t; [exact Hl|].
  cbn [foldl]. apply IH. cbn [fst]. apply I_add_loading_block. exact Hl.
Qed.

Lemma I_unload_leaving_blocks lod_index new_box prev_box c :
  all_lods (ds_lods c) ->
  all_lods (ds_lods (unload_leaving_blocks lod_index new_box prev_box c).1).
Proof.
  intros H. unfold unload_leaving_blocks. cbv zeta. cbn [fst ds_lods].
  apply I_insert; [exact H|]. apply I_unview_missing_blocks.
  match goal with
  | |- I (set_loading_blocks (foldl _ _ ?found) _) => generalize found
  end.
  intros found. assert (Hl0 : I (lod_at (ds_lods c) lod_index)) by (apply I_lod_at; exact H).
  revert Hl0. generalize (lod_at (ds_lods c) lod_index). intros l Hl.
  induction found as [|p found IH] using rev_ind.
  - cbn. destruct l; exact Hl.
  - rewrite foldl_app. cbn [foldl].
    specialize (I_erase_loading_block _ p IH). cbn in I_erase_loading_block.
    exact I_erase_loading_block.
Qed.

Section data_differ_invariant.

Variable settings : Settings.
Variable lod_count : nat.
Variable can_load : bool.

Lemma I_process_data_lod pv lod_index c :
  all_lods (ds_lods c) ->
  all_lods (ds_lods (process_data_lod settings can_load pv lod_index c).1).
Proof.
  intros H. unfold process_data_lod. cbv zeta.
  destruct (negb _ && negb _); [exact H|].
  match goal with
  | |- context [if bool_decide ?P then ?a else ?b] =>
      assert (Hr : all_lods (ds_lods (if bool_decide P then a else b).1));
      [|revert Hr; generalize (if bool_decide P then a else b)]
  end.
  { case_bool_decide; [|exact H]. apply I_unload_leaving_blocks.
    destruct can_load; [apply I_load_entering_blocks|]; exact H. }
  intros r Hr. destruct r.2; cbn [fst ds_lods]; try exact Hr;
    (apply I_alter; [|exact Hr]); intros l Hl; apply I_cancel_updates_outside_data; exact Hl.
Qed.

Lemma I_process_data_lods pv lod_indices c :
  all_lods (ds_lods c) ->
  all_lods (ds_lods (process_data_lods settings can_load pv lod_indices c).1).
Proof.
  revert c. induction lod_indices as [|i lod_indices IH]; intros c H; [exact H|].
  cbn [process_data_lods]. cbv zeta.
  pose proof (I_process_data_lod pv i c H) as Hr.
  destruct (process_data_lod settings can_load pv i c).2; cbn [fst]; auto.
Qed.

Lemma I_process_data_viewers pvs c :
  all_lods (ds_lods c) ->
  all_lods (ds_lods (process_data_viewers settings lod_count can_load pvs c)).
Proof.
  revert c. induction pvs as [|pv pvs IH]; intros c H; [exact H|].
  cbn [process_data_viewers]. cbv zeta.
  pose proof (I_process_data_lods pv (rev (seq 0 lod_count)) c H) as Hr.
  destruct (process_data_lods settings can_load pv (rev (seq 0 lod_count)) c).2; auto.
Qed.

Lemma I_process_data_blocks_sliding_box st data to_save to_load :
  all_lods (lods st) ->
  all_lods (ds_lods (process_data_blocks_sliding_box settings lod_count can_load st data
                                                     to_save to_load)).
Proof.
  intros H. unfold process_data_blocks_sliding_box. cbv zeta.
  destruct (streaming_enabled data); [|exact H]. apply I_process_data_viewers. exact H.
Qed.

End data_differ_invariant.

(** *** The mesh differ *)

Section mesh_differ_invariant.

Variable settings : Settings.
Variable bounds_in_voxels : Box3i.
Variable lod_count : nat.
Variable is_full_load_mode : bool.
Variable can_load : bool.

Lemma I_process_mesh_lods pv lod_indices ls :
  all_lods ls ->
  all_lods (process_mesh_lods settings bounds_in_voxels lod_count is_full_load_mode can_load
                              pv lod_indices ls).
Proof.
  revert ls. induction lod_indices as [|i lod_indices IH]; intros ls H; [exact H|].
  cbn [process_mesh_lods]. cbv zeta.
  pose proof (I_process_mesh_lod settings bounds_in_voxels lod_count is_full_load_mode
                                 can_load pv i ls H) as Hr.
  destruct (process_mesh_lod settings bounds_in_voxels lod_count is_full_load_mode can_load
                             pv i ls).2; auto.
Qed.

Lemma I_process_mesh_blocks_sliding_box st :
  all_lods (lods st) ->
  all_lods (lods (process_mesh_blocks_sliding_box settings bounds_in_voxels lod_count
                                                  is_full_load_mode can_load st)).
Proof.
  intros H. unfold process_mesh_blocks_sliding_box. cbn [lods].
  apply all_lods_foldl; [|exact H]. intros. apply I_process_mesh_lods. assumption.
Qed.

End mesh_differ_invariant.

(** *** Load completions *)

Lemma I_process_loaded_data_blocks_trigger_meshing data st settings bounds :
  all_lods (lods st) ->
  all_lods (lods (process_loaded_data_blocks_trigger_meshing data st settings bounds)).
Proof.
  intros H. unfold process_loaded_data_blocks_trigger_meshing.
  destruct (negb (streaming_enabled data)); [exact H|]. cbv zeta. cbn [lods].
  match goal with
  | |- all_lods (foldl ?f (?ls, ?s) ?bs).1 =>
      generalize s; revert H; generalize ls; generalize bs
  end.
  intros blocs. induction blocs as [|bloc blocs IH]; intros ls H checked; [exact H|].
  cbn [foldl]. 
  match goal with
  | |- all_lods (foldl ?f (foldl ?g (?ls, ?s) ?cells) ?bs).1 =>
      assert (Hc : all_lods (foldl g (ls, s) cells).1);
      [|destruct (foldl g (ls, s) cells) as [ls' checked']; apply IH; exact Hc]
  end.
  match goal with
  | |- all_lods (foldl ?g (?ls, ?s) ?cells).1 =>
      generalize s; revert H; generalize ls; generalize cells
  end.
  intros cells. induction cells as [|cell cells IHc]; intros ls' H' checked''; [exact H'|].
  cbn [foldl]. case_bool_decide.
  - destruct checked''; apply IHc; exact H'.
  - apply IHc. cbn [fst]. apply I_alter; [|exact H'].
    intros l Hl. apply I_trigger_meshing_at. exact Hl.
Qed.

Lemma I_update_mesh_block_load lod_count lod_index ls bpos :
  all_lods ls -> all_lods (update_mesh_block_load lod_count lod_index ls bpos).
Proof.
  revert ls bpos. induction lod_index as [|child IH]; intros ls bpos H.
  - cbn [update_mesh_block_load].
    destruct (mesh_map (lod_at ls 0) !! bpos) as [mb|]; [|exact H].
    destruct (negb (loaded mb)); [exact H|]. cbv zeta.
    case_bool_decide.
    + destruct (negb (active mb)); [|exact H].
      apply I_alter; [intros; apply I_activate_block; assumption|exact H].
    + destruct (mesh_map (lod_at ls 1) !! vshr bpos 1) as [pmb|]; [|exact H].
      destruct (active pmb && all_siblings_loaded (lod_at ls 0) (vshr bpos 1)); [|exact H].
      apply all_lods_foldl.
      * intros ls' i H'. apply I_alter; [intros; apply I_activate_block; assumption|exact H'].
      * apply I_alter; [intros; apply I_deactivate_block; assumption|exact H].
  - cbn [update_mesh_block_load].
    destruct (mesh_map (lod_at ls (S child)) !! bpos) as [mb|]; [|exact H].
    destruct (negb (loaded mb)); [exact H|]. cbv zeta.
    case_bool_decide.
    + apply all_lods_foldl; [intros; apply IH; assumption|].
      destruct (negb (active mb)); [|exact H].
      apply I_alter; [intros; apply I_activate_block; assumption|exact H].
    + destruct (mesh_map (lod_at ls (S (S child))) !! vshr bpos 1) as [pmb|]; [|exact H].
      destruct (active pmb && all_siblings_loaded (lod_at ls (S child)) (vshr bpos 1));
        [|exact H].
      apply all_lods_foldl.
      * intros ls' i H'. apply all_lods_foldl; [intros; apply IH; assumption|].
        apply I_alter; [intros; apply I_activate_block; assumption|exact H'].
      * apply I_alter; [intros; apply I_deactivate_block; assumption|exact H].
Qed.

Lemma I_process_loaded_mesh_blocks_trigger_visibility_changes st lod_count :
  all_lods (lods st) ->
  all_lods (lods (process_loaded_mesh_blocks_trigger_visibility_changes st lod_count)).
Proof.
  intros H. unfold process_loaded_mesh_blocks_trigger_visibility_changes. cbn [lods].
  apply all_lods_foldl; [|exact H]. intros. apply I_update_mesh_block_load. assumption.
Qed.

(** *** One update *)

Lemma I_process_clipbox_streaming st data viewers to_save to_load settings can_load can_mesh :
  all_lods (lods st) ->
  all_lods (lods (out_state (process_clipbox_streaming st data viewers to_save to_load
                                                       settings can_load can_mesh))).
Proof.
  intros H. unfold process_clipbox_streaming. cbv zeta.
  set (pv := process_viewers _ _ _ _ _ _ _).
  set (ds := if streaming_enabled data then _ else _).
  assert (Hds : all_lods (ds_lods ds)).
  { subst ds. destruct (streaming_enabled data); [|exact H].
    apply I_process_data_blocks_sliding_box. exact H. }
  destruct (negb (streaming_enabled data) && negb (full_load_completed data));
    [exact Hds|]. cbn [out_state].
  apply I_process_loaded_mesh_blocks_trigger_visibility_changes.
  assert (Hm : all_lods (lods (process_mesh_blocks_sliding_box settings (data_bounds data)
                                 (data_lod_count data) (negb (streaming_enabled data))
                                 can_load (mkState (ds_lods ds) pv.1))))
    by (apply I_process_mesh_blocks_sliding_box; exact Hds).
  destruct (streaming_enabled data); [|exact Hm].
  apply I_process_loaded_data_blocks_trigger_meshing. exact Hm.
Qed.

End update_invariant.

End lod_invariant.

(** The same, the mesh differ being taken cell by cell. *)
Lemma I_process_clipbox_streaming_cells (I : Lod -> Prop) :
  I Lod_default ->
  (forall l p, I l -> I (add_loading_block l p).1) ->
  (forall l p, I l -> I (set_loading_blocks (delete p (loading_blocks l)) l)) ->
  (forall l p lb, I l -> loading_blocks l !! p = Some lb ->
     RefCount.remove (viewers lb) <> 0%nat ->
     I (set_loading_blocks
          (<[p := mkLoadingDataBlock (RefCount.remove (viewers lb))]> (loading_blocks l)) l)) ->
  (forall box l, I l -> I (cancel_updates_outside_data box l)) ->
  (forall full l p, I l -> I (view_mesh_cell full l p)) ->
  (forall l p, I l -> I (unview_mesh_cell l p)) ->
  (forall l parent p, I parent -> I (show_parent_cell l parent p)) ->
  (forall box l, I l -> I (cancel_mesh_updates box l)) ->
  (forall data bounds shift lod_index l p,
     I l -> I (trigger_meshing_at data bounds shift lod_index l p)) ->
  (forall p l, I l -> I (activate_block p l)) ->
  (forall p l, I l -> I (deactivate_block p l)) ->
  forall st data viewers to_save to_load settings can_load can_mesh,
    Forall I (lods st) ->
    Forall I (lods (out_state (process_clipbox_streaming st data viewers to_save to_load
                                                         settings can_load can_mesh))).
Proof.
  intros H0 H1 H2 H3 H4 H5 H6 H7 H8 H9 H10 H11 st data viewers to_save to_load settings
         can_load can_mesh.
  apply (I_process_clipbox_streaming I H0 H1 H2 H3 H4); [|exact H9|exact H10|exact H11].
  intros settings' bounds lod_count full can_load' pv lod_index ls.
  apply (I_process_mesh_lod_cells I H0); assumption.
Qed.

(** ** Loading blocks always have a viewer *)

Lemma loading_blocks_viewed_any_mesh_change (l l' : Lod) :
  loading_blocks l' = loading_blocks l -> loading_blocks_viewed l -> loading_blocks_viewed l'.
Proof. unfold loading_blocks_viewed. intros ->. auto. Qed.

Lemma cancel_updates_outside_data_loading box l :
  loading_blocks (cancel_updates_outside_data box l) = loading_blocks l.
Proof. reflexivity. Qed.

Lemma view_mesh_cell_loading full l p :
  loading_blocks (view_mesh_cell full l p) = loading_blocks l.
Proof.
  unfold view_mesh_cell. destruct (mesh_map l !! p); [reflexivity|].
  destruct full; reflexivity.
Qed.

Lemma unview_mesh_cell_loading l p :
  loading_blocks (unview_mesh_cell l p) = loading_blocks l.
Proof.
  unfold unview_mesh_cell. destruct (mesh_map l !! p); [|reflexivity].
  cbv zeta. destruct (_ && _); reflexivity.
Qed.

Lemma show_parent_cell_loading l parent p :
  loading_blocks (show_parent_cell l parent p) = loading_blocks parent.
Proof.
  unfold show_parent_cell. destruct (mesh_map parent !! p) as [mb|]; [|reflexivity].
  destruct (negb (active mb)); [|reflexivity]. cbv zeta.
  destruct (mesh_map l !! vshl p 1); reflexivity.
Qed.

Lemma trigger_meshing_at_loading data bounds shift lod_index l p :
  loading_blocks (trigger_meshing_at data bounds shift lod_index l p) = loading_blocks l.
Proof.
  unfold trigger_meshing_at. destruct (mesh_map l !! p) as [mb|]; [|reflexivity].
  destruct (state mb); try reflexivity; cbv zeta;
    destruct (VoxelDataOps.has_all_blocks_in_area _ _ _); reflexivity.
Qed.

(** Property X12.  If every loading block counts at least one viewer before
    an update, so does every loading block after it: the update erases a
    loading block when its count reaches zero. *)
Theorem process_clipbox_streaming_loading_blocks_viewed st data viewers to_save to_load
    settings can_load can_mesh :
  Forall loading_blocks_viewed (lods st) ->
  Forall loading_blocks_viewed
         (lods (out_state (process_clipbox_streaming st data viewers to_save to_load
                                                     settings can_load can_mesh))).
Proof.
  revert st data viewers to_save to_load settings can_load can_mesh.
  apply I_process_clipbox_streaming_cells.
  - intros p lb H. cbn in H. rewrite lookup_empty in H. discriminate.
  - intros l p Hl. unfold add_loading_block.
    destruct (loading_blocks l !! p) as [lb|] eqn:E; cbn [fst];
      unfold loading_blocks_viewed; cbn [loading_blocks set_loading_blocks];
      (apply map_Forall_insert_2; [cbn; unfold RefCount.add; lia|exact Hl]).
  - intros l p Hl. unfold loading_blocks_viewed. cbn [loading_blocks set_loading_blocks].
    apply map_Forall_delete. exact Hl.
  - intros l p lb Hl E Hc. unfold loading_blocks_viewed.
    cbn [loading_blocks set_loading_blocks].
    apply map_Forall_insert_2; [cbn; lia|exact Hl].
  - intros box l. apply loading_blocks_viewed_any_mesh_change.
    apply cancel_updates_outside_data_loading.
  - intros full l p. apply loading_blocks_viewed_any_mesh_change. apply view_mesh_cell_loading.
  - intros l p. apply loading_blocks_viewed_any_mesh_change. apply unview_mesh_cell_loading.
  - intros l parent p. apply loading_blocks_viewed_any_mesh_change.
    apply show_parent_cell_loading.
  - intros box l. apply loading_blocks_viewed_any_mesh_change. reflexivity.
  - intros data' bounds shift lod_index l p. apply loading_blocks_viewed_any_mesh_change.
    apply trigger_meshing_at_loading.
  - intros p l. apply loading_blocks_viewed_any_mesh_change. reflexivity.
  - intros p l. apply loading_blocks_viewed_any_mesh_change. reflexivity.
Qed.

Lemma process_clipbox_streaming_loading_blocks_viewed_witness :
  Forall loading_blocks_viewed (lods (out_state RoundTrip.added)).
Proof.
  apply (process_clipbox_streaming_loading_blocks_viewed
           (initial_state 2) (initial_data 2 RoundTrip.bounds true false)
           [(7%nat, RoundTrip.viewer_at vzero)] [] [] RoundTrip.settings true true).
  cbn. repeat (apply Forall_cons_2 || apply Forall_nil_2); apply map_Forall_empty.
Defined.

(** ** Mesh blocks always have a viewer *)

Lemma mesh_blocks_viewed_any_loading_change (l l' : Lod) :
  mesh_map l' = mesh_map l -> mesh_blocks_viewed l -> mesh_blocks_viewed l'.
Proof. unfold mesh_blocks_viewed. intros ->. auto. Qed.

Lemma mesh_blocks_viewed_alter (f : MeshBlockState -> MeshBlockState) p
    (m : gmap Vector3i MeshBlockState) :
  (forall mb, mesh_viewers (f mb) = mesh_viewers mb
              /\ collision_viewers (f mb) = collision_viewers mb) ->
  map_Forall (fun _ mb => mesh_viewers mb = collision_viewers mb /\ (0 < mesh_viewers mb)%nat) m ->
  map_Forall (fun _ mb => mesh_viewers mb = collision_viewers mb /\ (0 < mesh_viewers mb)%nat)
             (alter f p m).
Proof.
  intros Hf Hm q mb Hq. rewrite lookup_alter in Hq. case_decide.
  - subst q. destruct (m !! p) as [mb0|] eqn:E; [|discriminate]. cbn in Hq.
    injection Hq as <-. destruct (Hf mb0) as [-> ->]. exact (Hm p mb0 E).
  - exact (Hm q mb Hq).
Qed.

Lemma mesh_blocks_viewed_revert dropped (m : gmap Vector3i MeshBlockState) :
  map_Forall (fun _ mb => mesh_viewers mb = collision_viewers mb /\ (0 < mesh_viewers mb)%nat) m ->
  map_Forall (fun _ mb => mesh_viewers mb = collision_viewers mb /\ (0 < mesh_viewers mb)%nat)
             (foldl (fun m p => alter (set_state MESH_NEED_UPDATE) p m) m dropped).
Proof.
  revert m. induction dropped as [|p dropped IH]; intros m Hm; [exact Hm|].
  cbn [foldl]. apply IH. apply mesh_blocks_viewed_alter; [|exact Hm]. intros; split; reflexivity.
Qed.

(** Property X13.  If every mesh block counts as many mesh viewers as
    collision viewers, and at least one, before an update, so does every mesh
    block after it. *)
Theorem process_clipbox_streaming_mesh_blocks_viewed st data viewers to_save to_load
    settings can_load can_mesh :
  Forall mesh_blocks_viewed (lods st) ->
  Forall mesh_blocks_viewed
         (lods (out_state (process_clipbox_streaming st data viewers to_save to_load
                                                     settings can_load can_mesh))).
Proof.
  revert st data viewers to_save to_load settings can_load can_mesh.
  apply I_process_clipbox_streaming_cells.
  - intros p mb H. cbn in H. rewrite lookup_empty in H. discriminate.
  - intros l p. apply mesh_blocks_viewed_any_loading_change.
    unfold add_loading_block. destruct (loading_blocks l !! p); reflexivity.
  - intros l p. apply mesh_blocks_viewed_any_loading_change. reflexivity.
  - intros l p lb Hl _ _. exact Hl.
  - intros box l Hl. unfold mesh_blocks_viewed, cancel_updates_outside_data.
    cbn [mesh_map set_pending_update set_mesh_map]. apply mesh_blocks_viewed_revert. exact Hl.
  - intros full l p Hl. unfold view_mesh_cell.
    destruct (mesh_map l !! p) as [mb|] eqn:E.
    + unfold mesh_blocks_viewed. cbn [mesh_map set_mesh_map].
      apply map_Forall_insert_2; [|exact Hl].
      destruct (Hl p mb E) as [Heq Hpos]. cbn. unfold RefCount.add. split; lia.
    + cbv zeta. unfold mesh_blocks_viewed.
      destruct full; cbn [mesh_map set_mesh_map set_pending_update];
        (apply map_Forall_insert_2; [cbn; unfold RefCount.add; split; lia|exact Hl]).
  - intros l p Hl. unfold unview_mesh_cell.
    destruct (mesh_map l !! p) as [mb|] eqn:E; [|exact Hl]. cbv zeta.
    destruct (Hl p mb E) as [Heq Hpos].
    destruct (bool_decide _ && bool_decide _) eqn:Hz.
    + unfold mesh_blocks_viewed. cbn [mesh_map push_to_unload set_mesh_map].
      apply map_Forall_delete. exact Hl.
    + unfold mesh_blocks_viewed. cbn [mesh_map set_mesh_map].
      apply map_Forall_insert_2; [|exact Hl]. cbn.
      apply andb_false_iff in Hz. unfold RefCount.remove in *.
      rewrite !bool_decide_eq_false in Hz. split; lia.
  - intros l parent p Hl. unfold show_parent_cell.
    destruct (mesh_map parent !! p) as [mb|] eqn:E; [|exact Hl].
    destruct (negb (active mb)); [|exact Hl]. cbv zeta.
    destruct (mesh_map l !! vshl p 1); [exact Hl|].
    unfold mesh_blocks_viewed. cbn [mesh_map push_to_activate set_mesh_map].
    apply map_Forall_insert_2; [|exact Hl]. exact (Hl p mb E).
  - intros box l. apply mesh_blocks_viewed_any_loading_change. reflexivity.
  - intros data' bounds shift lod_index l p Hl. unfold trigger_meshing_at.
    destruct (mesh_map l !! p) as [mb|] eqn:E; [|exact Hl].
    destruct (state mb); try exact Hl; cbv zeta;
      (destruct (VoxelDataOps.has_all_blocks_in_area _ _ _); [|exact Hl]);
      unfold mesh_blocks_viewed; cbn [mesh_map set_pending_update set_mesh_map];
      (apply map_Forall_insert_2; [exact (Hl p mb E)|exact Hl]).
  - intros p l Hl. unfold mesh_blocks_viewed, activate_block.
    cbn [mesh_map push_to_activate set_mesh_map].
    apply mesh_blocks_viewed_alter; [|exact Hl]. intros; split; reflexivity.
  - intros p l Hl. unfold mesh_blocks_viewed, deactivate_block.
    cbn [mesh_map push_to_deactivate set_mesh_map].
    apply mesh_blocks_viewed_alter; [|exact Hl]. intros; split; reflexivity.
Qed.

Lemma process_clipbox_streaming_mesh_blocks_viewed_witness :
  Forall mesh_blocks_viewed (lods (out_state TwoViewers.updated)).
Proof.
  apply (process_clipbox_streaming_mesh_blocks_viewed
           (initial_state 1) (initial_data 1 TwoViewers.bounds false true)
           TwoViewers.viewers [] [] TwoViewers.settings true true).
  cbn. repeat (apply Forall_cons_2 || apply Forall_nil_2); apply map_Forall_empty.
Defined.

(** ** Load requests of the data differ *)

Lemma blocks_at_alter_insert d lod_index cell blk k c :
  VoxelDataOps.blocks_at d lod_index !! cell = Some blk ->
  forall blk',
  VoxelDataOps.blocks_at
    (set_data_lods (alter (insert cell blk') lod_index (data_lods d)) d) k !! c = None
  <-> VoxelDataOps.blocks_at d k !! c = None.
Proof.
  intros Hcell blk'. unfold VoxelDataOps.blocks_at in *. cbn [data_lods set_data_lods].
  destruct (decide (k = lod_index)) as [->|Hne].
  - rewrite list_lookup_alter_eq. destruct (data_lods d !! lod_index) as [m|]; cbn in *.
    + destruct (decide (c = cell)) as [->|Hc].
      * rewrite lookup_insert_eq, Hcell. split; discriminate.
      * rewrite lookup_insert_ne by congruence. reflexivity.
    + reflexivity.
  - rewrite list_lookup_alter_ne by congruence. reflexivity.
Qed.

(** Viewing cells keeps the resident blocks resident and the absent ones
    absent; the cells reported missing are the absent ones. *)
Lemma view_cells_missing lod_index cells d out :
  let r := foldl (VoxelDataOps.view_cell lod_index) (d, out) cells in
  (forall k c, VoxelDataOps.blocks_at r.1 k !! c = None
               <-> VoxelDataOps.blocks_at d k !! c = None)
  /\ (forall c, c ∈ r.2 <-> c ∈ out \/ (c ∈ cells
                                        /\ VoxelDataOps.blocks_at d lod_index !! c = None)).
Proof.
  cbv zeta. revert d out. induction cells as [|cell cells IH]; intros d out; cbn [foldl].
  - cbn. split; [reflexivity|]. intros c. split; [auto|]. intros [H|[H _]]; [exact H|inversion H].
  - destruct (VoxelDataOps.blocks_at d lod_index !! cell) as [blk|] eqn:E.
    + assert (Hstep : VoxelDataOps.view_cell lod_index (d, out) cell
                      = (set_data_lods
                           (alter (insert cell (mkDataBlock (RefCount.add (view_count blk))
                                                            (modified_flag blk)))
                                  lod_index (data_lods d)) d, out)).
      { unfold VoxelDataOps.view_cell. cbn [fst snd]. rewrite E. reflexivity. }
      rewrite Hstep.
      match goal with
      | |- context [foldl _ (?d', out) cells] => destruct (IH d' out) as [IH1 IH2]
      end.
      pose proof (blocks_at_alter_insert d lod_index cell blk) as Hpres.
      split.
      * intros k c. rewrite IH1. apply Hpres. exact E.
      * intros c. rewrite IH2. rewrite (Hpres lod_index c E). rewrite elem_of_cons.
        split; [tauto|]. intros [H|[[->|H] Hn]]; [tauto|congruence|tauto].
    + assert (Hstep : VoxelDataOps.view_cell lod_index (d, out) cell = (d, out ++ [cell])).
      { unfold VoxelDataOps.view_cell. cbn [fst snd]. rewrite E. reflexivity. }
      rewrite Hstep.
      destruct (IH d (out ++ [cell])) as [IH1 IH2]. split; [exact IH1|].
      intros c. rewrite IH2, elem_of_app, list_elem_of_singleton, elem_of_cons.
      split; [|intros [H|[[->|H] Hn]]; tauto].
      intros [[H| ->]|H]; tauto.
Qed.

Lemma view_areas_missing lod_index boxes d out :
  let r := foldl (fun acc box => VoxelDataOps.view_area acc.1 box lod_index acc.2)
                 (d, out) boxes in
  (forall k c, VoxelDataOps.blocks_at r.1 k !! c = None
               <-> VoxelDataOps.blocks_at d k !! c = None)
  /\ (forall c, c ∈ r.2 <->
                c ∈ out \/ ((exists box, box ∈ boxes /\ Box3i.contains box c = true)
                            /\ VoxelDataOps.blocks_at d lod_index !! c = None)).
Proof.
  cbv zeta. revert d out. induction boxes as [|box boxes IH]; intros d out; cbn [foldl].
  - cbn. split; [reflexivity|]. intros c. split; [auto|].
    intros [H|[(box & H & _) _]]; [exact H|inversion H].
  - assert (Hstep : VoxelDataOps.view_area (d, out).1 box lod_index (d, out).2
                    = foldl (VoxelDataOps.view_cell lod_index) (d, out)
                            (Box3iCells.for_each_cell box)) by reflexivity.
    rewrite Hstep. clear Hstep.
    destruct (view_cells_missing lod_index (Box3iCells.for_each_cell box) d out) as [V1 V2].
    destruct (foldl (VoxelDataOps.view_cell lod_index) (d, out)
                    (Box3iCells.for_each_cell box)) as [d' out'] eqn:Ev.
    cbn [fst snd] in V1, V2. destruct (IH d' out') as [IH1 IH2]. split.
    + intros k c. rewrite IH1. apply V1.
    + intros c. rewrite IH2, V2, V1, elem_of_for_each_cell. split.
      * intros [[H|[H Hn]]|[(b & Hb & Hc) Hn]]; [tauto| |].
        -- right. split; [|exact Hn]. exists box. split; [left|exact H].
        -- right. split; [|exact Hn]. exists b. split; [right; exact Hb|exact Hc].
      * intros [H|[(b & Hb & Hc) Hn]]; [tauto|].
        apply elem_of_cons in Hb as [->|Hb]; [tauto|].
        right. split; [|exact Hn]. exists b. split; assumption.
Qed.

(** The loop over the missing cells: a request is pushed for each cell that
    has no loading block yet. *)
Lemma add_loading_blocks_requests lod_index missing l to_load :
  let r := foldl (fun (acc : Lod * list BlockLocation) bpos =>
                    let r := add_loading_block acc.1 bpos in
                    (r.1, if r.2 then acc.2 ++ [mkBlockLocation bpos lod_index] else acc.2))
                 (l, to_load) missing in
  forall b, b ∈ r.2 <->
            b ∈ to_load \/ (lod b = lod_index /\ position b ∈ missing
                            /\ loading_blocks l !! position b = None).
Proof.
  cbv zeta. revert l to_load. induction missing as [|p missing IH]; intros l to_load; cbn [foldl].
  - cbn. intros b. split; [auto|]. intros [H|(_ & H & _)]; [exact H|inversion H].
  - intros b. destruct (loading_blocks l !! p) as [lb|] eqn:E.
    + assert (Hstep : add_loading_block (l, to_load).1 p
                      = (set_loading_blocks
                           (<[p := mkLoadingDataBlock (RefCount.add (viewers lb))]>
                              (loading_blocks l)) l, false)).
      { unfold add_loading_block. cbn [fst]. rewrite E. reflexivity. }
      rewrite Hstep. cbn [fst snd]. rewrite IH.
      cbn [loading_blocks set_loading_blocks]. rewrite elem_of_cons. split.
      * intros [H|(Hl & Hin & Hn)]; [tauto|]. right. split; [exact Hl|]. split; [tauto|].
        destruct (decide (position b = p)) as [Hp|Hne].
        -- rewrite Hp, lookup_insert_eq in Hn. discriminate.
        -- rewrite lookup_insert_ne in Hn by congruence. exact Hn.
      * intros [H|(Hl & [Hp|Hin] & Hn)]; [tauto|congruence|].
        right. split; [exact Hl|]. split; [exact Hin|].
        destruct (decide (position b = p)) as [Hp|Hne]; [congruence|].
        rewrite lookup_insert_ne by congruence. exact Hn.
    + assert (Hstep : add_loading_block (l, to_load).1 p
                      = (set_loading_blocks
                           (<[p := mkLoadingDataBlock (RefCount.add 0)]> (loading_blocks l)) l,
                         true)).
      { unfold add_loading_block. cbn [fst]. rewrite E. reflexivity. }
      rewrite Hstep. cbn [fst snd]. rewrite IH.
      cbn [loading_blocks set_loading_blocks].
      rewrite elem_of_cons, elem_of_app, list_elem_of_singleton. split.
      * intros [[H|Hb]|(Hl & Hin & Hn)]; [tauto| |].
        -- right. subst b. cbn. tauto.
        -- right. split; [exact Hl|]. split; [tauto|].
           destruct (decide (position b = p)) as [Hp|Hne]; [congruence|].
           rewrite lookup_insert_ne in Hn by congruence. exact Hn.
      * intros [H|(Hl & Hin & Hn)]; [tauto|].
        destruct (decide (position b = p)) as [Hp|Hne].
        -- left. right. destruct b as [bp bl]. cbn in *. congruence.
        -- right. split; [exact Hl|]. destruct Hin as [Hp|Hin]; [congruence|].
           split; [exact Hin|]. rewrite lookup_insert_ne by congruence. exact Hn.
Qed.

(** Property X10.  When a data box has moved and loading is allowed, the
    blocks requested for loading are those already requested and, at the LOD
    of the box, the positions of the new box that are not in the previous
    box, hold no block in the data grid and had no loading block. *)
Theorem load_entering_blocks_requests (lod_index : nat) (new_data_box prev_data_box : Box3i)
    (c : DataStreaming) (b : BlockLocation) :
  b ∈ ds_blocks_to_load (load_entering_blocks lod_index new_data_box prev_data_box c)
  <-> b ∈ ds_blocks_to_load c
      \/ (lod b = lod_index
          /\ Box3i.contains new_data_box (position b) = true
          /\ Box3i.contains prev_data_box (position b) = false
          /\ VoxelDataOps.blocks_at (ds_data c) lod_index !! position b = None
          /\ loading_blocks (lod_at (ds_lods c) lod_index) !! position b = None).
Proof.
  unfold load_entering_blocks. cbv zeta. cbn [ds_blocks_to_load].
  destruct (view_areas_missing lod_index (Box3iCells.difference new_data_box prev_data_box)
              (ds_data c) []) as [_ Hmissing].
  rewrite add_loading_blocks_requests. cbv zeta in Hmissing.
  rewrite Hmissing, elem_of_difference. split.
  - intros [H|(Hl & [H|[[Hn Hp] Ha]] & Hload)]; [tauto|inversion H|]. right. tauto.
  - intros [H|(Hl & Hn & Hp & Ha & Hload)]; [tauto|]. right. tauto.
Qed.

(** ** Requesting and cancelling a load *)

Lemma set_loading_blocks_same (l : Lod) : set_loading_blocks (loading_blocks l) l = l.
Proof. destruct l; reflexivity. Qed.

Lemma remove_block_to_load_pushed (bloc : BlockLocation) (to_load : list BlockLocation) :
  remove_block_to_load bloc (to_load ++ [bloc]) = to_load.
Proof.
  unfold remove_block_to_load. rewrite last_snoc.
  destruct (list_find (fun b => b = bloc) (to_load ++ [bloc])) as [[i b]|] eqn:E.
  - apply list_find_Some in E as (Hi & -> & _).
    rewrite list_insert_id by exact Hi. apply removelast_last.
  - apply list_find_None in E. rewrite Forall_app, Forall_singleton in E. tauto.
Qed.

(** Property X11.  Requesting a block for a viewer and cancelling the request
    at once leaves the LOD and the list of requests as they were, provided a
    loading block that was there had a viewer. *)
Theorem add_then_unview_loading_block (lod_index : nat) (l : Lod)
    (to_load : list BlockLocation) (p : Vector3i) :
  (forall lb, loading_blocks l !! p = Some lb -> (0 < viewers lb)%nat) ->
  let r := add_loading_block l p in
  unview_missing_blocks lod_index r.1
    (if r.2 then to_load ++ [mkBlockLocation p lod_index] else to_load) [p]
  = (l, to_load, Continue).
Proof.
  intros Hpos. unfold add_loading_block.
  destruct (loading_blocks l !! p) as [lb|] eqn:E; cbv zeta; cbn [fst snd].
  - cbn [unview_missing_blocks loading_blocks set_loading_blocks].
    rewrite lookup_insert_eq. cbv zeta. cbn [viewers]. unfold RefCount.add, RefCount.remove.
    cbn [Nat.pred]. specialize (Hpos lb eq_refl).
    rewrite bool_decide_eq_false_2 by lia.
    cbn [loading_blocks set_loading_blocks]. rewrite insert_insert_eq.
    destruct lb as [n]. cbn [viewers]. rewrite insert_id by exact E.
    destruct l; reflexivity.
  - cbn [unview_missing_blocks loading_blocks set_loading_blocks].
    rewrite lookup_insert_eq. cbv zeta. cbn.
    rewrite delete_insert_eq, delete_id by exact E.
    rewrite remove_block_to_load_pushed. destruct l; reflexivity.
Qed.

Lemma add_then_unview_loading_block_witness :
  unview_missing_blocks 0 (add_loading_block Lod_default vzero).1
                        ([] ++ [mkBlockLocation vzero 0]) [vzero]
  = (Lod_default, [], Continue).
Proof.
  apply (add_then_unview_loading_block 0 Lod_default [] vzero).
  intros lb H. cbn in H. rewrite lookup_empty in H. discriminate.
Defined.

(** ** Updates that only cancel mesh updates *)

#[local] Instance cancelled_updates_only_preorder : PreOrder cancelled_updates_only.
Proof.
  split.
  - intros l. repeat split. set_solver.
  - intros l1 l2 l3 (A1 & A2 & A3 & A4 & A5 & A6) (B1 & B2 & B3 & B4 & B5 & B6).
    repeat split; try congruence. set_solver.
Qed.

Lemma same_but_cancelled_updates_refl ls : same_but_cancelled_updates ls ls.
Proof. unfold same_but_cancelled_updates. reflexivity. Qed.

Lemma same_but_cancelled_updates_trans ls1 ls2 ls3 :
  same_but_cancelled_updates ls1 ls2 -> same_but_cancelled_updates ls2 ls3 ->
  same_but_cancelled_updates ls1 ls3.
Proof. unfold same_but_cancelled_updates. intros H1 H2. etransitivity; eassumption. Qed.

Lemma same_but_cancelled_updates_alter (f : Lod -> Lod) (i : nat) (ls : list Lod) :
  (forall l, cancelled_updates_only l (f l)) ->
  same_but_cancelled_updates ls (alter f i ls).
Proof.
  intros Hf. apply Forall2_same_length_lookup. split; [symmetry; apply length_alter|].
  intros k l l' H1 H2. destruct (decide (k = i)) as [->|Hne].
  - rewrite list_lookup_alter_eq, H1 in H2. cbn in H2. injection H2 as <-. apply Hf.
  - rewrite list_lookup_alter_ne in H2 by congruence.
    assert (l = l') as -> by congruence. reflexivity.
Qed.

Lemma elem_of_rev_seq (n i : nat) : i ∈ rev (seq 0 n) -> (i < n)%nat.
Proof.
  rewrite list_elem_of_In, <- in_rev, <- list_elem_of_In, elem_of_seq. lia.
Qed.

Lemma revert_keeps_rest dropped (m : gmap Vector3i MeshBlockState) :
  viewed_block <$> foldl (fun m p => alter (set_state MESH_NEED_UPDATE) p m) m dropped
  = viewed_block <$> m.
Proof.
  revert m. induction dropped as [|p dropped IH]; intros m; [reflexivity|].
  cbn [foldl]. rewrite IH. apply map_eq. intros q. rewrite !lookup_fmap, lookup_alter.
  case_decide; [subst q|reflexivity]. destruct (m !! p); reflexivity.
Qed.

Lemma cancel_updates_outside_data_cancels box l :
  cancelled_updates_only l (cancel_updates_outside_data box l).
Proof.
  unfold cancelled_updates_only, cancel_updates_outside_data. cbn.
  split; [reflexivity|]. split; [apply revert_keeps_rest|].
  repeat (split; [reflexivity|]). intros p Hp. apply list_elem_of_filter in Hp. tauto.
Qed.

Lemma cancel_mesh_updates_cancels box l :
  cancelled_updates_only l (cancel_mesh_updates box l).
Proof.
  unfold cancelled_updates_only, cancel_mesh_updates. cbn. repeat (split; [reflexivity|]).
  intros p Hp. apply list_elem_of_filter in Hp. tauto.
Qed.

Section still_viewers.

Variable settings : Settings.
Variable lod_count : nat.
Variable can_load : bool.

Lemma process_data_lod_still pv lod_index c :
  box_at (data_box_per_lod (prev_state pv)) lod_index
  = box_at (data_box_per_lod (pv_state pv)) lod_index ->
  (process_data_lod settings can_load pv lod_index c).2 <> Return
  /\ data_streaming_still c (process_data_lod settings can_load pv lod_index c).1.
Proof.
  intros Heq. unfold process_data_lod. cbv zeta. rewrite Heq.
  destruct (negb _ && negb _).
  - split; [discriminate|]. repeat split. apply same_but_cancelled_updates_refl.
  - rewrite bool_decide_eq_false_2 by (intros H; apply H; reflexivity). cbn [fst snd].
    split; [discriminate|]. repeat split. cbn [ds_lods].
    apply same_but_cancelled_updates_alter. intros l. unfold cancel_data_updates. cbv zeta.
    apply cancel_updates_outside_data_cancels.
Qed.

Lemma data_streaming_still_trans c1 c2 c3 :
  data_streaming_still c1 c2 -> data_streaming_still c2 c3 -> data_streaming_still c1 c3.
Proof.
  intros (A1 & A2 & A3 & A4) (B1 & B2 & B3 & B4). repeat split; try congruence.
  all: eapply same_but_cancelled_updates_trans; [exact A4|exact B4].
Qed.

Lemma process_data_lods_still pv lod_indices c :
  Forall (fun i => box_at (data_box_per_lod (prev_state pv)) i
                   = box_at (data_box_per_lod (pv_state pv)) i) lod_indices ->
  (process_data_lods settings can_load pv lod_indices c).2 <> Return
  /\ data_streaming_still c (process_data_lods settings can_load pv lod_indices c).1.
Proof.
  intros H. revert c. induction H as [|i lod_indices Hi _ IH]; intros c.
  - cbn. split; [discriminate|]. repeat split. apply same_but_cancelled_updates_refl.
  - cbn [process_data_lods]. cbv zeta.
    destruct (process_data_lod_still pv i c Hi) as [Hflow Hstill].
    destruct (process_data_lod settings can_load pv i c) as [c' flow]. cbn [fst snd] in *.
    destruct flow; [|split; [discriminate|exact Hstill]|contradiction].
    destruct (IH c') as [IHflow IHstill]. split; [exact IHflow|].
    eapply data_streaming_still_trans; eauto.
Qed.

Lemma process_data_viewers_still pvs c :
  Forall (data_boxes_unchanged lod_count) pvs ->
  data_streaming_still c (process_data_viewers settings lod_count can_load pvs c).
Proof.
  intros H. revert c. induction H as [|pv pvs Hpv _ IH]; intros c.
  - repeat split. apply same_but_cancelled_updates_refl.
  - cbn [process_data_viewers]. cbv zeta.
    destruct (process_data_lods_still pv (rev (seq 0 lod_count)) c) as [Hflow Hstill].
    { apply Forall_forall. intros i Hi. apply Hpv. apply elem_of_rev_seq in Hi. exact Hi. }
    destruct (process_data_lods settings can_load pv (rev (seq 0 lod_count)) c)
      as [c' flow]. cbn [fst snd] in *.
    destruct flow; [| |contradiction];
      (eapply data_streaming_still_trans; [exact Hstill|apply IH]).
Qed.

End still_viewers.

Lemma process_data_blocks_sliding_box_still settings lod_count can_load st data
    to_save to_load :
  Forall (data_boxes_unchanged lod_count) (paired_viewers (clipbox_streaming st)) ->
  let r := process_data_blocks_sliding_box settings lod_count can_load st data
                                           to_save to_load in
  ds_data r = data /\ ds_blocks_to_save r = to_save /\ ds_blocks_to_load r = to_load
  /\ same_but_cancelled_updates (lods st) (ds_lods r).
Proof.
  intros H r. subst r. unfold process_data_blocks_sliding_box. cbv zeta.
  destruct (streaming_enabled data).
  - exact (process_data_viewers_still settings lod_count can_load _
             (mkDataStreaming (lods st) data to_save to_load) H).
  - repeat split. apply same_but_cancelled_updates_refl.
Qed.

Section still_mesh_viewers.

Variable settings : Settings.
Variable bounds_in_voxels : Box3i.
Variable lod_count : nat.
Variable is_full_load_mode : bool.
Variable can_load : bool.

Lemma process_mesh_lods_still pv lod_indices ls :
  Forall (fun i => box_at (mesh_box_per_lod (prev_state pv)) i
                   = box_at (mesh_box_per_lod (pv_state pv)) i) lod_indices ->
  same_but_cancelled_updates ls
    (process_mesh_lods settings bounds_in_voxels lod_count is_full_load_mode can_load
                       pv lod_indices ls).
Proof.
  intros H. revert ls. induction H as [|i lod_indices Hi _ IH]; intros ls.
  - apply same_but_cancelled_updates_refl.
  - cbn [process_mesh_lods]. cbv zeta. unfold process_mesh_lod. cbv zeta. rewrite Hi.
    destruct (negb _ && negb _); cbn [fst snd].
    + apply same_but_cancelled_updates_refl.
    + rewrite bool_decide_eq_false_2 by (intros H'; apply H'; reflexivity).
      eapply same_but_cancelled_updates_trans; [|apply IH].
      apply same_but_cancelled_updates_alter. intros l. apply cancel_mesh_updates_cancels.
Qed.

End still_mesh_viewers.

Lemma process_mesh_blocks_sliding_box_still settings bounds_in_voxels lod_count
    is_full_load_mode can_load st :
  Forall (mesh_boxes_unchanged lod_count) (paired_viewers (clipbox_streaming st)) ->
  let st' := process_mesh_blocks_sliding_box settings bounds_in_voxels lod_count
                                             is_full_load_mode can_load st in
  clipbox_streaming st' = clipbox_streaming st
  /\ same_but_cancelled_updates (lods st) (lods st').
Proof.
  intros H st'. subst st'. unfold process_mesh_blocks_sliding_box. cbn [lods clipbox_streaming].
  split; [reflexivity|]. revert H. generalize (paired_viewers (clipbox_streaming st)).
  generalize (lods st). intros ls pvs H. revert ls.
  induction H as [|pv pvs Hpv _ IH]; intros ls; [apply same_but_cancelled_updates_refl|].
  cbn [foldl]. eapply same_but_cancelled_updates_trans; [|apply IH].
  apply process_mesh_lods_still. apply Forall_forall. intros i Hi. apply Hpv.
  apply elem_of_rev_seq in Hi. exact Hi.
Qed.

(** ** Pending mesh updates *)

Lemma pending_updates_not_sent_same (l l' : Lod) :
  mesh_map l' = mesh_map l ->
  mesh_blocks_pending_update l' = mesh_blocks_pending_update l ->
  pending_updates_not_sent l -> pending_updates_not_sent l'.
Proof. unfold pending_updates_not_sent. intros -> ->. auto. Qed.

Lemma pending_updates_not_sent_weaken (box : Box3i) (l : Lod) :
  pending_updates_not_sent l -> pending_updates_not_sent_within box l.
Proof. intros [Hn H]. split; [exact Hn|]. intros p Hp _. apply H. exact Hp. Qed.

Lemma state_lookup_alter (f : MeshBlockState -> MeshBlockState) (k q : Vector3i)
    (m : gmap Vector3i MeshBlockState) :
  (forall mb, state (f mb) = state mb) ->
  state <$> alter f k m !! q = state <$> m !! q.
Proof.
  intros Hf. destruct (decide (k = q)) as [->|Hne].
  - rewrite lookup_alter_eq. destruct (m !! q); cbn; [rewrite Hf|]; reflexivity.
  - rewrite lookup_alter_ne by exact Hne. reflexivity.
Qed.

Lemma state_lookup_insert (k q : Vector3i) (mb mb' : MeshBlockState)
    (m : gmap Vector3i MeshBlockState) :
  m !! k = Some mb -> state mb' = state mb ->
  state <$> <[k := mb']> m !! q = state <$> m !! q.
Proof.
  intros Hk Hs. destruct (decide (k = q)) as [->|Hne].
  - rewrite lookup_insert_eq, Hk. cbn. rewrite Hs. reflexivity.
  - rewrite lookup_insert_ne by exact Hne. reflexivity.
Qed.

Lemma revert_lookup_other (dropped : list Vector3i) (m : gmap Vector3i MeshBlockState)
    (q : Vector3i) :
  q ∉ dropped ->
  foldl (fun m p => alter (set_state MESH_NEED_UPDATE) p m) m dropped !! q = m !! q.
Proof.
  revert m. induction dropped as [|p dropped IH]; intros m Hq; [reflexivity|].
  cbn [foldl]. rewrite IH by (intros H; apply Hq; right; exact H).
  apply lookup_alter_ne. intros ->. apply Hq. left.
Qed.

Lemma pending_cancel_updates_outside_data (box : Box3i) (l : Lod) :
  pending_updates_not_sent l -> pending_updates_not_sent (cancel_updates_outside_data box l).
Proof.
  intros [Hn H]. unfold cancel_updates_outside_data, pending_updates_not_sent. cbv zeta.
  cbn [mesh_blocks_pending_update mesh_map set_pending_update set_mesh_map]. split.
  - apply NoDup_filter. exact Hn.
  - intros p Hp. apply list_elem_of_filter in Hp as [Hin Hp].
    rewrite revert_lookup_other; [apply H; exact Hp|].
    intros Hd. apply list_elem_of_filter in Hd as [Hout _]. congruence.
Qed.

Lemma pending_view_mesh_cell (full : bool) (l : Lod) (p : Vector3i) :
  pending_updates_not_sent l -> pending_updates_not_sent (view_mesh_cell full l p).
Proof.
  intros [Hn H]. unfold view_mesh_cell.
  destruct (mesh_map l !! p) as [mb|] eqn:E.
  - split; cbn [mesh_blocks_pending_update mesh_map set_mesh_map]; [exact Hn|].
    intros q Hq. rewrite (state_lookup_insert p q mb) by (exact E || reflexivity).
    apply H. exact Hq.
  - assert (Hp : p ∉ mesh_blocks_pending_update l).
    { intros Hp. apply H in Hp. rewrite E in Hp. discriminate. }
    cbv zeta. unfold pending_updates_not_sent. destruct full;
      cbn [mesh_blocks_pending_update mesh_map set_mesh_map set_pending_update fst snd].
    + split.
      * apply NoDup_app. split; [exact Hn|]. split; [|apply NoDup_singleton].
        intros q Hq Hq'. apply list_elem_of_singleton in Hq'. subst q. contradiction.
      * intros q Hq. apply elem_of_app in Hq as [Hq|Hq].
        -- rewrite lookup_insert_ne by (intros ->; contradiction). apply H. exact Hq.
        -- apply list_elem_of_singleton in Hq. subst q. rewrite lookup_insert_eq. reflexivity.
    + split; [exact Hn|]. intros q Hq.
      rewrite lookup_insert_ne by (intros ->; contradiction). apply H. exact Hq.
Qed.

Lemma pending_unview_mesh_cell (box : Box3i) (l : Lod) (p : Vector3i) :
  Box3i.contains box p = false ->
  pending_updates_not_sent_within box l ->
  pending_updates_not_sent_within box (unview_mesh_cell l p).
Proof.
  intros Hout [Hn H]. unfold unview_mesh_cell.
  destruct (mesh_map l !! p) as [mb|] eqn:E; [|split; assumption]. cbv zeta.
  destruct (bool_decide _ && bool_decide _);
    (split; cbn [mesh_blocks_pending_update mesh_map set_mesh_map push_to_unload];
     [exact Hn|]); intros q Hq Hin;
    assert (Hne : p <> q) by (intros ->; congruence).
  - rewrite lookup_delete_ne by exact Hne. apply H; assumption.
  - rewrite lookup_insert_ne by exact Hne. apply H; assumption.
Qed.

Lemma pending_show_parent_cell (l parent : Lod) (p : Vector3i) :
  pending_updates_not_sent parent -> pending_updates_not_sent (show_parent_cell l parent p).
Proof.
  intros [Hn H]. unfold show_parent_cell.
  destruct (mesh_map parent !! p) as [mb|] eqn:E; [|split; assumption].
  destruct (negb (active mb)); [|split; assumption]. cbv zeta.
  destruct (mesh_map l !! vshl p 1); [split; assumption|].
  split; cbn [mesh_blocks_pending_update mesh_map set_mesh_map push_to_activate];
    [exact Hn|].
  intros q Hq. rewrite (state_lookup_insert p q mb) by (exact E || reflexivity).
  apply H. exact Hq.
Qed.

Lemma pending_cancel_mesh_updates (box : Box3i) (l : Lod) :
  pending_updates_not_sent_within box l -> pending_updates_not_sent (cancel_mesh_updates box l).
Proof.
  intros [Hn H]. unfold cancel_mesh_updates.
  split; cbn [mesh_blocks_pending_update mesh_map set_pending_update].
  - apply NoDup_filter. exact Hn.
  - intros q Hq. apply list_elem_of_filter in Hq as [Hin Hq]. apply H; assumption.
Qed.

Lemma pending_trigger_meshing_at data bounds shift lod_index (l : Lod) (p : Vector3i) :
  pending_updates_not_sent l ->
  pending_updates_not_sent (trigger_meshing_at data bounds shift lod_index l p).
Proof.
  intros [Hn H]. unfold trigger_meshing_at.
  destruct (mesh_map l !! p) as [mb|] eqn:E; [|split; assumption].
  assert (Hpush : state mb <> MESH_UPDATE_NOT_SENT ->
    pending_updates_not_sent
      (set_pending_update (mesh_blocks_pending_update l ++ [p])
         (set_mesh_map (<[p := set_state MESH_UPDATE_NOT_SENT mb]> (mesh_map l)) l))).
  { intros Hs.
    assert (Hp : p ∉ mesh_blocks_pending_update l).
    { intros Hp. apply H in Hp. rewrite E in Hp. cbn in Hp. congruence. }
    split; cbn [mesh_blocks_pending_update mesh_map set_mesh_map set_pending_update].
    - apply NoDup_app. split; [exact Hn|]. split; [|apply NoDup_singleton].
      intros q Hq Hq'. apply list_elem_of_singleton in Hq'. subst q. contradiction.
    - intros q Hq. apply elem_of_app in Hq as [Hq|Hq].
      + rewrite lookup_insert_ne by (intros ->; contradiction). apply H. exact Hq.
      + apply list_elem_of_singleton in Hq. subst q. rewrite lookup_insert_eq. reflexivity. }
  destruct (state mb) eqn:Es; try (split; assumption); cbv zeta;
    (destruct (VoxelDataOps.has_all_blocks_in_area _ _ _); [|split; assumption]);
    apply Hpush; discriminate.
Qed.

Lemma pending_activate_block (a : bool) (p : Vector3i) (l : Lod) :
  pending_updates_not_sent l ->
  pending_updates_not_sent (set_mesh_map (alter (set_active a) p (mesh_map l)) l).
Proof.
  intros [Hn H]. split; cbn [mesh_blocks_pending_update mesh_map set_mesh_map]; [exact Hn|].
  intros q Hq. rewrite state_lookup_alter by reflexivity. apply H. exact Hq.
Qed.

(** *** One LOD of the mesh differ *)

Section pending_mesh_lod.

Variable settings : Settings.
Variable bounds_in_voxels : Box3i.
Variable lod_count : nat.
Variable is_full_load_mode : bool.
Variable can_load : bool.

Lemma pending_default : pending_updates_not_sent Lod_default.
Proof.
  split; cbn; [apply NoDup_nil_2|]. intros p Hp. apply elem_of_nil in Hp. contradiction.
Qed.

Lemma pending_but_outside_at new_mesh_box k ls :
  pending_but_outside new_mesh_box k ls ->
  pending_updates_not_sent_within new_mesh_box (lod_at ls k).
Proof.
  intros H. unfold lod_at. destruct (ls !! k) as [l|] eqn:E; cbn.
  - specialize (H k l E). rewrite decide_True in H by reflexivity. exact H.
  - apply pending_updates_not_sent_weaken, pending_default.
Qed.

Lemma pending_but_outside_other new_mesh_box k ls j :
  j <> k -> pending_but_outside new_mesh_box k ls -> pending_updates_not_sent (lod_at ls j).
Proof.
  intros Hne H. unfold lod_at. destruct (ls !! j) as [l|] eqn:E; cbn.
  - specialize (H j l E). rewrite decide_False in H by exact Hne. exact H.
  - apply pending_default.
Qed.

Lemma pending_but_outside_insert new_mesh_box k ls j l :
  pending_but_outside new_mesh_box k ls ->
  (if decide (j = k) then pending_updates_not_sent_within new_mesh_box l
   else pending_updates_not_sent l) ->
  pending_but_outside new_mesh_box k (<[j := l]> ls).
Proof.
  intros H Hl i l' Hi. apply list_lookup_insert_Some in Hi as [(-> & -> & _)|[Hne Hi]].
  - exact Hl.
  - apply (H i l' Hi).
Qed.

Lemma pending_remove_out_of_range_box new_mesh_box k ls box :
  (forall cell, Box3i.contains box cell = true -> Box3i.contains new_mesh_box cell = false) ->
  pending_but_outside new_mesh_box k ls ->
  pending_but_outside new_mesh_box k (remove_out_of_range_box lod_count k ls box).
Proof.
  intros Hbox H. unfold remove_out_of_range_box. cbv zeta.
  set (l := foldl unview_mesh_cell (lod_at ls k) (Box3iCells.for_each_cell box)).
  assert (Hl : pending_updates_not_sent_within new_mesh_box l).
  { subst l.
    assert (Hcells : Forall (fun cell => Box3i.contains new_mesh_box cell = false)
                            (Box3iCells.for_each_cell box)).
    { apply Forall_forall. intros cell Hc. apply Hbox. apply elem_of_for_each_cell. exact Hc. }
    pose proof (pending_but_outside_at _ _ _ H) as Hat. revert Hat.
    generalize (lod_at ls k). induction Hcells as [|cell cells Hcell _ IH]; intros l0 Hl0.
    - exact Hl0.
    - cbn [foldl]. apply IH. apply pending_unview_mesh_cell; assumption. }
  assert (H1 : pending_but_outside new_mesh_box k (<[k := l]> ls)).
  { apply pending_but_outside_insert; [exact H|]. rewrite decide_True by reflexivity. exact Hl. }
  case_bool_decide; [|exact H1].
  apply pending_but_outside_insert; [exact H1|].
  rewrite decide_False by lia.
  pose proof (pending_but_outside_other new_mesh_box k _ (S k) ltac:(lia) H1) as Hp.
  revert Hp. generalize (lod_at (<[k := l]> ls) (S k)).
  match goal with |- forall _, _ -> _ (foldl _ _ ?cs) => generalize cs end.
  intros cells. induction cells as [|cell cells IH]; intros l0 Hl0; [exact Hl0|].
  cbn [foldl]. apply IH. apply pending_show_parent_cell. exact Hl0.
Qed.

Lemma pending_process_mesh_lod pv k ls :
  Forall pending_updates_not_sent ls ->
  Forall pending_updates_not_sent
         (process_mesh_lod settings bounds_in_voxels lod_count is_full_load_mode can_load
                           pv k ls).1.
Proof.
  intros H. unfold process_mesh_lod. cbv zeta.
  destruct (negb _ && negb _); [exact H|]. cbn [fst].
  set (new_mesh_box := box_at (mesh_box_per_lod (pv_state pv)) k).
  set (prev_mesh_box := box_at (mesh_box_per_lod (prev_state pv)) k).
  match goal with
  | |- Forall _ (alter _ _ ?ls2) =>
      assert (H2 : pending_but_outside new_mesh_box k ls2)
  end.
  { assert (Hweak : forall ls', Forall pending_updates_not_sent ls' ->
                                pending_but_outside new_mesh_box k ls').
    { intros ls' H' j l Hj. pose proof (Forall_lookup_1 _ _ _ _ H' Hj) as Hl.
      destruct (decide (j = k)); [apply pending_updates_not_sent_weaken|]; exact Hl. }
    case_bool_decide; [|apply Hweak; exact H].
    assert (Hadd : Forall pending_updates_not_sent
                     (if can_load
                      then foldl (add_entering_box is_full_load_mode k) ls
                                 (Box3iCells.difference new_mesh_box prev_mesh_box)
                      else ls)).
    { destruct can_load; [|exact H].
      generalize (Box3iCells.difference new_mesh_box prev_mesh_box). intros boxes.
      revert ls H. induction boxes as [|box boxes IH]; intros ls H; [exact H|].
      cbn [foldl]. apply IH. unfold add_entering_box. apply Forall_alter; [exact H|].
      intros l _ Hl. revert l Hl. generalize (Box3iCells.for_each_cell box).
      intros cells. induction cells as [|cell cells IHc]; intros l Hl; [exact Hl|].
      cbn [foldl]. apply IHc. apply pending_view_mesh_cell. exact Hl. }
    apply Hweak in Hadd. revert Hadd.
    match goal with |- _ ?ls0 -> _ => generalize ls0 end.
    assert (Hboxes : Forall (fun box => forall cell, Box3i.contains box cell = true ->
                                          Box3i.contains new_mesh_box cell = false)
                            (Box3iCells.difference prev_mesh_box new_mesh_box)).
    { apply Forall_forall. intros box Hb cell Hc.
      apply (elem_of_difference prev_mesh_box new_mesh_box cell). eauto. }
    induction Hboxes as [|box boxes Hbox _ IH]; intros ls0 Hls0; [exact Hls0|].
    cbn [foldl]. apply IH. apply pending_remove_out_of_range_box; assumption. }
  apply Forall_lookup_2. intros j l Hj.
  destruct (decide (j = k)) as [->|Hne].
  - rewrite list_lookup_alter_eq in Hj.
    match type of Hj with _ <$> ?ls2 !! k = _ => destruct (ls2 !! k) as [l0|] eqn:Hl0 end;
      [|discriminate].
    cbn in Hj. injection Hj as <-. apply pending_cancel_mesh_updates.
    specialize (H2 k l0 Hl0). rewrite decide_True in H2 by reflexivity. exact H2.
  - rewrite list_lookup_alter_ne in Hj by (intros Heq; apply Hne; symmetry; exact Heq).
    specialize (H2 j l Hj). rewrite decide_False in H2 by exact Hne. exact H2.
Qed.

End pending_mesh_lod.

(** Property X23.  If before an update the pending mesh updates of every LOD
    are distinct and each is for a block of the mesh map in state
    [MESH_UPDATE_NOT_SENT], so it is after the update: no update is queued
    twice, and none is left for a block that was unloaded. *)
Theorem process_clipbox_streaming_pending_updates st data viewers to_save to_load
    settings can_load can_mesh :
  Forall pending_updates_not_sent (lods st) ->
  Forall pending_updates_not_sent
         (lods (out_state (process_clipbox_streaming st data viewers to_save to_load
                                                     settings can_load can_mesh))).
Proof.
  apply I_process_clipbox_streaming.
  - apply pending_default.
  - intros l p. apply pending_updates_not_sent_same;
      unfold add_loading_block; destruct (loading_blocks l !! p); reflexivity.
  - intros l p. apply pending_updates_not_sent_same; reflexivity.
  - intros l p lb Hl _ _. revert Hl. apply pending_updates_not_sent_same; reflexivity.
  - intros box l. apply pending_cancel_updates_outside_data.
  - intros. apply pending_process_mesh_lod. assumption.
  - intros. apply pending_trigger_meshing_at. assumption.
  - intros p l Hl. apply (pending_activate_block true p l) in Hl. exact Hl.
  - intros p l Hl. apply (pending_activate_block false p l) in Hl. exact Hl.
Qed.

Lemma process_clipbox_streaming_pending_updates_witness :
  Forall pending_updates_not_sent (lods (out_state TwoViewers.updated)).
Proof.
  apply (process_clipbox_streaming_pending_updates
           (initial_state 1) (initial_data 1 TwoViewers.bounds false true)
           TwoViewers.viewers [] [] TwoViewers.settings true true).
  cbn. repeat (apply Forall_cons_2 || apply Forall_nil_2).
  split; cbn; [apply NoDup_nil_2|]. intros p Hp. apply elem_of_nil in Hp. contradiction.
Defined.

(** ** The configuration of the data grid is left alone *)

Lemma same_config_refl d : same_config d d.
Proof. repeat split. Qed.

Lemma same_config_trans d1 d2 d3 : same_config d1 d2 -> same_config d2 d3 -> same_config d1 d3.
Proof. unfold same_config. intros (?&?&?&?&?) (?&?&?&?&?). repeat split; congruence. Qed.

Lemma view_area_config d box lod_index out :
  same_config d (VoxelDataOps.view_area d box lod_index out).1.
Proof.
  unfold VoxelDataOps.view_area. generalize (Box3iCells.for_each_cell box). intros cells.
  revert d out. induction cells as [|cell cells IH]; intros d out; [apply same_config_refl|].
  cbn [foldl]. unfold VoxelDataOps.view_cell at 2. cbn [fst snd].
  destruct (VoxelDataOps.blocks_at d lod_index !! cell); [|apply IH].
  eapply same_config_trans; [|apply IH]. repeat split.
Qed.

Lemma unview_area_config acc box lod_index :
  same_config (VoxelDataOps.uv_data acc)
              (VoxelDataOps.uv_data (VoxelDataOps.unview_area acc box lod_index)).
Proof.
  unfold VoxelDataOps.unview_area. generalize (Box3iCells.for_each_cell box). intros cells.
  revert acc. induction cells as [|cell cells IH]; intros acc; [apply same_config_refl|].
  cbn [foldl]. eapply same_config_trans; [|apply IH].
  unfold VoxelDataOps.unview_cell. cbv zeta.
  destruct (VoxelDataOps.blocks_at (VoxelDataOps.uv_data acc) lod_index !! cell);
    [|apply same_config_refl].
  case_bool_decide; repeat split.
Qed.

Lemma load_entering_blocks_config lod_index new_box prev_box c :
  same_config (ds_data c) (ds_data (load_entering_blocks lod_index new_box prev_box c)).
Proof.
  unfold load_entering_blocks. cbv zeta. cbn [ds_data].
  generalize (@nil Vector3i). generalize (ds_data c).
  generalize (Box3iCells.difference new_box prev_box). intros boxes.
  induction boxes as [|box boxes IH]; intros d out; [apply same_config_refl|].
  cbn [foldl fst snd]. eapply same_config_trans; [apply (view_area_config d box lod_index out)|].
  destruct (VoxelDataOps.view_area d box lod_index out) as [d' out']. apply IH.
Qed.

Lemma unload_leaving_blocks_config lod_index new_box prev_box c :
  same_config (ds_data c) (ds_data (unload_leaving_blocks lod_index new_box prev_box c).1).
Proof.
  unfold unload_leaving_blocks. cbv zeta. cbn [fst ds_data].
  change (ds_data c) with (VoxelDataOps.uv_data
                             (VoxelDataOps.mkUnviewed (ds_data c) [] [] (ds_blocks_to_save c)))
    at 1.
  generalize (VoxelDataOps.mkUnviewed (ds_data c) [] [] (ds_blocks_to_save c)).
  generalize (Box3iCells.difference prev_box new_box). intros boxes.
  induction boxes as [|box boxes IH]; intros acc; [apply same_config_refl|].
  cbn [foldl]. eapply same_config_trans; [apply (unview_area_config acc box lod_index)|].
  apply IH.
Qed.

Section config.

Variable settings : Settings.
Variable lod_count : nat.
Variable can_load : bool.

Lemma process_data_lod_config pv lod_index c :
  same_config (ds_data c) (ds_data (process_data_lod settings can_load pv lod_index c).1).
Proof.
  unfold process_data_lod. cbv zeta.
  destruct (negb _ && negb _); [apply same_config_refl|].
  match goal with
  | |- context [if bool_decide ?P then ?a else ?b] =>
      assert (Hr : same_config (ds_data c) (ds_data (if bool_decide P then a else b).1));
      [|revert Hr; generalize (if bool_decide P then a else b)]
  end.
  { case_bool_decide; [|apply same_config_refl].
    destruct can_load.
    - eapply same_config_trans; [apply load_entering_blocks_config|].
      apply unload_leaving_blocks_config.
    - apply unload_leaving_blocks_config. }
  intros r Hr. destruct r.2; exact Hr.
Qed.

Lemma process_data_lods_config pv lod_indices c :
  same_config (ds_data c) (ds_data (process_data_lods settings can_load pv lod_indices c).1).
Proof.
  revert c. induction lod_indices as [|i lod_indices IH]; intros c; [apply same_config_refl|].
  cbn [process_data_lods]. cbv zeta.
  pose proof (process_data_lod_config pv i c) as Hr.
  destruct (process_data_lod settings can_load pv i c) as [c' flow]. cbn [fst snd] in *.
  destruct flow; try exact Hr. eapply same_config_trans; [exact Hr|apply IH].
Qed.

Lemma process_data_blocks_sliding_box_config st data to_save to_load :
  same_config data
    (ds_data (process_data_blocks_sliding_box settings lod_count can_load st data
                                              to_save to_load)).
Proof.
  unfold process_data_blocks_sliding_box. cbv zeta.
  destruct (streaming_enabled data); [|apply same_config_refl].
  change data with (ds_data (mkDataStreaming (lods st) data to_save to_load)) at 1.
  generalize (mkDataStreaming (lods st) data to_save to_load).
  generalize (paired_viewers (clipbox_streaming st)). intros pvs.
  induction pvs as [|pv pvs IH]; intros c; [apply same_config_refl|].
  cbn [process_data_viewers]. cbv zeta.
  pose proof (process_data_lods_config pv (rev (seq 0 lod_count)) c) as Hr.
  destruct (process_data_lods settings can_load pv (rev (seq 0 lod_count)) c) as [c' flow].
  cbn [fst snd] in *.
  destruct flow; try exact Hr; (eapply same_config_trans; [exact Hr|apply IH]).
Qed.

End config.

Lemma process_clipbox_streaming_config st data viewers to_save to_load settings
    can_load can_mesh :
  same_config data
    (out_data (process_clipbox_streaming st data viewers to_save to_load settings
                                         can_load can_mesh)).
Proof.
  unfold process_clipbox_streaming. cbv zeta.
  set (ds := if streaming_enabled data then _ else _).
  assert (Hds : same_config data (ds_data ds)).
  { subst ds. destruct (streaming_enabled data); [|apply same_config_refl].
    apply process_data_blocks_sliding_box_config. }
  destruct (negb (streaming_enabled data) && negb (full_load_completed data)); exact Hds.
Qed.

(** ** An update in which nothing moves *)

Lemma process_viewers_inboxes settings lod_count bounds po2 can_mesh cs viewers :
  loaded_data_blocks (process_viewers settings lod_count bounds po2 can_mesh cs viewers).1
  = loaded_data_blocks cs
  /\ loaded_mesh_blocks (process_viewers settings lod_count bounds po2 can_mesh cs viewers).1
     = loaded_mesh_blocks cs.
Proof. split; reflexivity. Qed.

(** An update in which no box changes and no load completed. *)
Lemma process_clipbox_streaming_when_still st data viewers to_save to_load settings
    can_load can_mesh :
  (runs_differs data = true ->
   viewers_still (data_lod_count data)
     (process_viewers settings (data_lod_count data) (data_bounds data)
                      (data_block_size_po2_ data) can_mesh (clipbox_streaming st) viewers).1
   /\ inboxes_empty data (clipbox_streaming st)) ->
  let s := process_clipbox_streaming st data viewers to_save to_load settings
                                     can_load can_mesh in
  out_data s = data /\ out_blocks_to_save s = to_save /\ out_blocks_to_load s = to_load
  /\ same_but_cancelled_updates (lods st) (lods (out_state s)).
Proof.
  intros Hstill s. subst s. unfold process_clipbox_streaming. cbv zeta.
  remember (process_viewers settings (data_lod_count data) (data_bounds data)
              (data_block_size_po2_ data) can_mesh (clipbox_streaming st) viewers) as r eqn:Hr.
  unfold runs_differs in Hstill.
  destruct (streaming_enabled data) eqn:Es; cbn [negb andb orb] in *.
  - destruct (Hstill eq_refl) as [Hv [Hmi Hdi]]. specialize (Hdi Es).
    assert (Hdata : Forall (data_boxes_unchanged (data_lod_count data)) (paired_viewers r.1))
      by (eapply Forall_impl; [exact Hv|]; cbn; tauto).
    assert (Hmesh : Forall (mesh_boxes_unchanged (data_lod_count data)) (paired_viewers r.1))
      by (eapply Forall_impl; [exact Hv|]; cbn; tauto).
    destruct (process_data_blocks_sliding_box_still settings (data_lod_count data) can_load
                (mkState (lods st) r.1) data to_save to_load Hdata)
      as (D1 & D2 & D3 & D4).
    set (ds := process_data_blocks_sliding_box settings (data_lod_count data) can_load
                 (mkState (lods st) r.1) data to_save to_load) in *.
    cbn [out_data out_blocks_to_save out_blocks_to_load out_state].
    split; [exact D1|]. split; [exact D2|]. split; [exact D3|].
    destruct (process_mesh_blocks_sliding_box_still settings (data_bounds data)
                (data_lod_count data) false can_load (mkState (ds_lods ds) r.1) Hmesh)
      as [M1 M2].
    set (st_m := process_mesh_blocks_sliding_box settings (data_bounds data)
                   (data_lod_count data) false can_load (mkState (ds_lods ds) r.1)) in *.
    cbn [lods clipbox_streaming] in *.
    eapply same_but_cancelled_updates_trans; [exact D4|].
    eapply same_but_cancelled_updates_trans; [exact M2|].
    unfold process_loaded_mesh_blocks_trigger_visibility_changes,
      process_loaded_data_blocks_trigger_meshing.
    rewrite D1, Es. cbn [negb]. cbv zeta.
    cbn [lods clipbox_streaming loaded_data_blocks loaded_mesh_blocks paired_viewers].
    subst st_m. rewrite !M1. cbn [loaded_data_blocks loaded_mesh_blocks].
    destruct (process_viewers_inboxes settings (data_lod_count data) (data_bounds data)
                (data_block_size_po2_ data) can_mesh (clipbox_streaming st) viewers)
      as [Hi1 Hi2].
    rewrite <- Hr in Hi1, Hi2. rewrite Hi1, Hi2, Hmi, Hdi. cbn [foldl fst].
    apply same_but_cancelled_updates_refl.
  - destruct (full_load_completed data) eqn:Ef; cbn [negb andb orb] in *.
    + destruct (Hstill eq_refl) as [Hv [Hmi _]].
      assert (Hmesh : Forall (mesh_boxes_unchanged (data_lod_count data)) (paired_viewers r.1))
        by (eapply Forall_impl; [exact Hv|]; cbn; tauto).
      cbn [out_data out_blocks_to_save out_blocks_to_load out_state ds_data
             ds_blocks_to_save ds_blocks_to_load ds_lods].
      repeat (split; [reflexivity|]).
      destruct (process_mesh_blocks_sliding_box_still settings (data_bounds data)
                  (data_lod_count data) true can_load (mkState (lods st) r.1) Hmesh)
        as [M1 M2].
      set (st_m := process_mesh_blocks_sliding_box settings (data_bounds data)
                     (data_lod_count data) true can_load (mkState (lods st) r.1)) in *.
      cbn [lods clipbox_streaming] in *.
      eapply same_but_cancelled_updates_trans; [exact M2|].
      unfold process_loaded_mesh_blocks_trigger_visibility_changes.
      cbn [lods clipbox_streaming loaded_data_blocks loaded_mesh_blocks paired_viewers].
      subst st_m. rewrite !M1. cbn [loaded_mesh_blocks].
      destruct (process_viewers_inboxes settings (data_lod_count data) (data_bounds data)
                  (data_block_size_po2_ data) can_mesh (clipbox_streaming st) viewers)
        as [Hi1 Hi2].
      rewrite <- Hr in Hi2. rewrite Hi2, Hmi. cbn [foldl].
      apply same_but_cancelled_updates_refl.
    + cbn. repeat (split; [reflexivity|]). apply same_but_cancelled_updates_refl.
Qed.

(** ** Updating twice with the same viewers *)

Lemma process_clipbox_streaming_outputs st data viewers to_save to_load settings
    can_load can_mesh :
  runs_differs data = true ->
  let r := process_viewers settings (data_lod_count data) (data_bounds data)
                           (data_block_size_po2_ data) can_mesh (clipbox_streaming st)
                           viewers in
  let cs := clipbox_streaming
              (out_state (process_clipbox_streaming st data viewers to_save to_load
                                                    settings can_load can_mesh)) in
  paired_viewers cs = remove_unpaired_viewers r.2 (paired_viewers r.1)
  /\ inboxes_empty data cs.
Proof.
  intros Hmode r cs. subst cs. unfold inboxes_empty.
  pose proof (process_data_blocks_sliding_box_config settings (data_lod_count data) can_load
                (mkState (lods st) r.1) data to_save to_load) as (_ & _ & _ & Hs & _).
  unfold process_clipbox_streaming. cbv zeta. fold r.
  unfold runs_differs in Hmode.
  destruct (streaming_enabled data) eqn:Es; cbn [negb andb orb] in *.
  - cbn [out_state]. unfold process_loaded_mesh_blocks_trigger_visibility_changes,
      process_loaded_data_blocks_trigger_meshing. rewrite Hs. cbn. auto.
  - rewrite Hmode. cbn. split; [reflexivity|]. split; [reflexivity|discriminate].
Qed.

Section twice.

Variable settings : Settings.
Variable can_load can_mesh : bool.
Variable viewers : list (ViewerID * Viewer).
Hypothesis viewers_distinct : NoDup viewers.*1.

Variable st : State.
Variable data : VoxelData.
Variable to_save to_load : list BlockLocation.
Hypothesis st_well_formed : well_formed (data_lod_count data) (clipbox_streaming st).
Hypothesis data_runs_differs : runs_differs data = true.

Abbreviation lod_count := (data_lod_count data).
Abbreviation planned cs :=
  (process_viewers settings lod_count (data_bounds data) (data_block_size_po2_ data)
                   can_mesh cs viewers).
Abbreviation plan :=
  (plan_viewer settings lod_count (data_bounds data) (data_block_size_po2_ data) can_mesh).
Abbreviation s1 :=
  (process_clipbox_streaming st data viewers to_save to_load settings can_load can_mesh).
Abbreviation cs1 := (clipbox_streaming (out_state s1)).

Lemma viewer_of_id (i : ViewerID) : i ∈ viewers.*1 -> exists v, (i, v) ∈ viewers.
Proof.
  intros Hin. apply list_elem_of_fmap in Hin as ([j v] & -> & Hin). exists v. exact Hin.
Qed.

Lemma viewer_unique (i : ViewerID) (v v' : Viewer) :
  (i, v) ∈ viewers -> (i, v') ∈ viewers -> v = v'.
Proof.
  intros H1 H2. apply list_elem_of_lookup in H1 as [k1 H1], H2 as [k2 H2].
  assert (k1 = k2).
  { apply (NoDup_lookup _ _ _ i viewers_distinct); rewrite list_lookup_fmap.
    - rewrite H1. reflexivity.
    - rewrite H2. reflexivity. }
  subst k2. congruence.
Qed.

(** After the update, every paired viewer was planned from a well-formed
    paired viewer for the viewer that has its id. *)
Lemma paired_after_update pv1 :
  pv1 ∈ paired_viewers cs1 ->
  exists v pv0, (pv_id pv1, v) ∈ viewers /\ pv1 = plan v pv0
                /\ wf_paired_viewer lod_count pv0.
Proof.
  intros Hin.
  destruct (process_clipbox_streaming_outputs st data viewers to_save to_load settings
              can_load can_mesh data_runs_differs) as [Hout _].
  cbv zeta in Hout. rewrite Hout in Hin.
  destruct (remove_unpaired_viewers_elem_of (planned (clipbox_streaming st)).2
              (paired_viewers (planned (clipbox_streaming st)).1)) as [Hrem _].
  { apply process_destroyed_viewers_sorted. }
  { apply process_viewers_indices_in_range. }
  apply Hrem in Hin as (k & Hk & Hnot).
  destruct (process_viewers_destroyed_at _ _ _ _ _ _ _ _ _ Hk) as [Hiff _].
  assert (Hid : pv_id pv1 ∈ viewers.*1).
  { destruct (decide (pv_id pv1 ∈ viewers.*1)) as [H|H]; [exact H|].
    exfalso. apply Hnot. apply Hiff. exact H. }
  destruct (viewer_of_id _ Hid) as [v Hv]. destruct st_well_formed as [Hnd Hwf].
  unfold process_viewers in Hk. cbn [fst paired_viewers] in Hk.
  destruct (foldl_pair_and_plan_live settings lod_count (data_bounds data)
              (data_block_size_po2_ data) can_mesh viewers _ k pv1 v viewers_distinct
              ltac:(rewrite process_destroyed_viewers_ids; exact Hnd) Hk Hv)
    as (pv0 & Hpv1 & Hfrom).
  exists v, pv0. split; [exact Hv|]. split; [exact Hpv1|].
  destruct Hfrom as [Hk0|[-> _]].
  - pose proof (process_destroyed_viewers_wf lod_count viewers _ 0 Hwf) as Hwf'.
    rewrite Forall_forall in Hwf'. apply Hwf'. apply list_elem_of_lookup. eauto.
  - split; cbn; rewrite length_replicate; lia.
Qed.

Lemma paired_after_update_ids (i : ViewerID) :
  i ∈ pv_id <$> paired_viewers cs1 <-> i ∈ viewers.*1.
Proof.
  destruct (process_clipbox_streaming_outputs st data viewers to_save to_load settings
              can_load can_mesh data_runs_differs) as [Hout _].
  cbv zeta in Hout. rewrite Hout.
  destruct (remove_unpaired_viewers_elem_of (planned (clipbox_streaming st)).2
              (paired_viewers (planned (clipbox_streaming st)).1)) as [Hrem _].
  { apply process_destroyed_viewers_sorted. }
  { apply process_viewers_indices_in_range. }
  rewrite list_elem_of_fmap. split.
  - intros (pv & -> & Hpv). apply Hrem in Hpv as (k & Hk & Hnot).
    destruct (process_viewers_destroyed_at _ _ _ _ _ _ _ _ _ Hk) as [Hiff _].
    destruct (decide (pv_id pv ∈ viewers.*1)) as [Hid|Hid]; [exact Hid|].
    exfalso. apply Hnot. apply Hiff. exact Hid.
  - intros Hid.
    assert (Hp : i ∈ pv_id <$> paired_viewers (planned (clipbox_streaming st)).1).
    { apply process_viewers_ids. left. exact Hid. }
    apply list_elem_of_fmap in Hp as (pv & -> & Hpv).
    exists pv. split; [reflexivity|]. apply Hrem.
    apply list_elem_of_lookup in Hpv as [k Hk]. exists k. split; [exact Hk|].
    destruct (process_viewers_destroyed_at _ _ _ _ _ _ _ _ _ Hk) as [Hiff _].
    intros Hrem'. apply Hiff in Hrem'. contradiction.
Qed.

(** Planning again for the same viewers changes no box. *)
Lemma planned_again_still : viewers_still lod_count (planned cs1).1.
Proof.
  pose proof (process_clipbox_streaming_well_formed st data viewers to_save to_load settings
                can_load can_mesh st_well_formed) as [Hnd1 Hwf1].
  apply Forall_forall. intros pv2 Hin2. apply list_elem_of_lookup in Hin2 as [k Hk].
  assert (Hid : pv_id pv2 ∈ viewers.*1).
  { assert (H : pv_id pv2 ∈ pv_id <$> paired_viewers (planned cs1).1)
      by (apply list_elem_of_fmap_2; apply list_elem_of_lookup; eauto).
    apply process_viewers_ids in H as [H|H]; [exact H|].
    apply paired_after_update_ids. exact H. }
  destruct (viewer_of_id _ Hid) as [v Hv].
  unfold process_viewers in Hk. cbn [fst paired_viewers] in Hk.
  destruct (foldl_pair_and_plan_live settings lod_count (data_bounds data)
              (data_block_size_po2_ data) can_mesh viewers _ k pv2 v viewers_distinct
              ltac:(rewrite process_destroyed_viewers_ids; exact Hnd1) Hk Hv)
    as (pv1 & Hpv2 & Hfrom).
  destruct Hfrom as [Hk1|[_ Hnew]].
  2:{ exfalso. apply Hnew. rewrite process_destroyed_viewers_ids.
      apply paired_after_update_ids. exact Hid. }
  rewrite process_destroyed_viewers_lookup in Hk1.
  destruct (paired_viewers cs1 !! k) as [p|] eqn:Hp; [|discriminate]. cbn in Hk1.
  assert (Hpin : p ∈ paired_viewers cs1) by (apply list_elem_of_lookup; eauto).
  assert (Hpid : pv_id p ∈ viewers.*1).
  { apply paired_after_update_ids. apply list_elem_of_fmap_2. exact Hpin. }
  apply contains_true_iff in Hpid. rewrite Hpid in Hk1. injection Hk1 as <-.
  destruct (paired_after_update p Hpin) as (v' & pv0 & Hv' & Hp0 & Hwf0).
  assert (Hsame_id : pv_id pv2 = pv_id p) by (rewrite Hpv2; reflexivity).
  rewrite Hsame_id in Hv. assert (v' = v) as -> by (eapply viewer_unique; eauto).
  assert (Hwfp : wf_paired_viewer lod_count p).
  { rewrite Forall_forall in Hwf1. apply Hwf1. exact Hpin. }
  split; intros i Hi; rewrite Hpv2; cbn [prev_state plan_viewer];
    destruct (plan_viewer_boxes_agree settings lod_count (data_bounds data)
                (data_block_size_po2_ data) can_mesh v p pv0 Hwfp Hwf0 i Hi) as [Hm Hd].
  - rewrite Hd. rewrite Hp0 at 1. reflexivity.
  - rewrite Hm. rewrite Hp0 at 1. reflexivity.
Qed.

End twice.

(** Property X16.  Updating a second time with the same viewers, distinct by
    id, from a well-formed state changes nothing but pending mesh updates:
    the data grid is the same, no block is added to the lists to save and to
    load, and each LOD is as the first update left it, but for mesh updates
    that are cancelled. *)
Theorem process_clipbox_streaming_twice settings can_load can_mesh
    (viewers : list (ViewerID * Viewer)) (st : State) (data : VoxelData)
    (to_save to_load to_save' to_load' : list BlockLocation) :
  NoDup viewers.*1 ->
  well_formed (data_lod_count data) (clipbox_streaming st) ->
  let s1 := process_clipbox_streaming st data viewers to_save to_load settings
                                      can_load can_mesh in
  let s2 := process_clipbox_streaming (out_state s1) (out_data s1) viewers to_save' to_load'
                                      settings can_load can_mesh in
  out_data s2 = out_data s1
  /\ out_blocks_to_save s2 = to_save'
  /\ out_blocks_to_load s2 = to_load'
  /\ same_but_cancelled_updates (lods (out_state s1)) (lods (out_state s2)).
Proof.
  intros Hnd Hwf s1 s2. subst s2.
  apply process_clipbox_streaming_when_still.
  destruct (process_clipbox_streaming_config st data viewers to_save to_load settings
              can_load can_mesh) as (C1 & C2 & C3 & C4 & C5).
  fold s1 in C1, C2, C3, C4, C5.
  unfold runs_differs. rewrite C1, C2, C3, C4, C5. intros Hmode. split.
  - exact (planned_again_still settings can_load can_mesh viewers Hnd st data to_save to_load
             Hwf Hmode).
  - destruct (process_clipbox_streaming_outputs st data viewers to_save to_load settings
                can_load can_mesh Hmode) as [_ [Hm Hd]].
    split; [exact Hm|]. rewrite C4. exact Hd.
Qed.

Lemma process_clipbox_streaming_twice_witness :
  let again := tick RoundTrip.settings true true RoundTrip.added
                    [(7%nat, RoundTrip.viewer_at vzero)] in
  out_data again = out_data RoundTrip.added
  /\ out_blocks_to_save again = []
  /\ out_blocks_to_load again = []
  /\ same_but_cancelled_updates (lods (out_state RoundTrip.added)) (lods (out_state again)).
Proof.
  apply (process_clipbox_streaming_twice RoundTrip.settings true true
           [(7%nat, RoundTrip.viewer_at vzero)]
           (out_state (initial 2 RoundTrip.bounds true false))
           (out_data (initial 2 RoundTrip.bounds true false)) [] [] [] []).
  - cbn. apply NoDup_singleton.
  - apply initial_state_well_formed.
Defined.

(** ** The inboxes of loaded blocks *)

(** Property X24.  An update empties the inbox of loaded mesh blocks, unless
    it returns early because the full load is not completed; it empties the
    inbox of loaded data blocks when streaming is on, and leaves it as it is
    in full load mode. *)
Theorem process_clipbox_streaming_inboxes st data viewers to_save to_load settings
    can_load can_mesh :
  let cs := clipbox_streaming
              (out_state (process_clipbox_streaming st data viewers to_save to_load
                                                    settings can_load can_mesh)) in
  loaded_mesh_blocks cs
  = (if runs_differs data then [] else loaded_mesh_blocks (clipbox_streaming st))
  /\ loaded_data_blocks cs
     = (if streaming_enabled data then [] else loaded_data_blocks (clipbox_streaming st)).
Proof.
  cbv zeta.
  pose proof (process_viewers_inboxes settings (data_lod_count data) (data_bounds data)
                (data_block_size_po2_ data) can_mesh (clipbox_streaming st) viewers)
    as [Hd Hm].
  pose proof (process_data_blocks_sliding_box_config settings (data_lod_count data) can_load
                (mkState (lods st)
                   (process_viewers settings (data_lod_count data) (data_bounds data)
                      (data_block_size_po2_ data) can_mesh (clipbox_streaming st) viewers).1)
                data to_save to_load) as (_ & _ & _ & Hs & _).
  unfold process_clipbox_streaming, runs_differs. cbv zeta.
  destruct (streaming_enabled data) eqn:Es; cbn [negb andb orb].
  - cbn [out_state]. unfold process_loaded_mesh_blocks_trigger_visibility_changes,
      process_loaded_data_blocks_trigger_meshing. rewrite Hs. cbn. auto.
  - destruct (full_load_completed data); cbn; auto.
Qed.

(** ** Children of a mesh block *)

Lemma child_bits (i : nat) :
  (i < 8)%nat ->
  let b := Z.of_nat i in
  (Z.land b 1 = 0 \/ Z.land b 1 = 1)
  /\ (Z.shiftr (Z.land b 2) 1 = 0 \/ Z.shiftr (Z.land b 2) 1 = 1)
  /\ (Z.shiftr (Z.land b 4) 2 = 0 \/ Z.shiftr (Z.land b 4) 2 = 1)
  /\ b = Z.land b 1 + 2 * Z.shiftr (Z.land b 2) 1 + 4 * Z.shiftr (Z.land b 4) 2.
Proof.
  intros Hi. do 8 (destruct i as [|i]; [vm_compute; tauto|]). lia.
Qed.

Lemma shiftr_1_double (p b : Z) : 0 <= b <= 1 -> Z.shiftr (p * 2 + b) 1 = p.
Proof.
  intros Hb. rewrite Z.shiftr_div_pow2 by lia. change (2 ^ 1) with 2.
  symmetry. apply (Z.div_unique_pos _ _ _ b); lia.
Qed.

(** Property X15.  The eight children of a mesh block are distinct, each has
    the block for parent (its position shifted right by one), and every
    position that has the block for parent is one of them. *)
Theorem get_child_position_children (parent_position : Vector3i) :
  (forall child_index, (child_index < 8)%nat ->
     vshr (get_child_position parent_position child_index) 1 = parent_position)
  /\ (forall i j, (i < 8)%nat -> (j < 8)%nat ->
        get_child_position parent_position i = get_child_position parent_position j -> i = j)
  /\ (forall position, vshr position 1 = parent_position ->
        exists child_index, (child_index < 8)%nat
                            /\ position = get_child_position parent_position child_index).
Proof.
  destruct parent_position as [px py pz].
  unfold get_child_position, get_child_position_from_first_sibling. vsimpl.
  split; [|split].
  - intros i Hi. destruct (child_bits i Hi) as (Hx & Hy & Hz & _). cbv zeta in *.
    f_equal; apply shiftr_1_double; lia.
  - intros i j Hi Hj Heq. injection Heq as Ex Ey Ez.
    destruct (child_bits i Hi) as (_ & _ & _ & Hsum_i).
    destruct (child_bits j Hj) as (_ & _ & _ & Hsum_j). cbv zeta in *. lia.
  - intros [cx cy cz] Hp. vsimpl. injection Hp as Hx Hy Hz.
    rewrite Z.shiftr_div_pow2 in Hx, Hy, Hz by lia. change (2 ^ 1) with 2 in *.
    assert (Hbx : 0 <= cx - px * 2 <= 1) by (Z.div_mod_to_equations; lia).
    assert (Hby : 0 <= cy - py * 2 <= 1) by (Z.div_mod_to_equations; lia).
    assert (Hbz : 0 <= cz - pz * 2 <= 1) by (Z.div_mod_to_equations; lia).
    exists (Z.to_nat ((cx - px * 2) + 2 * (cy - py * 2) + 4 * (cz - pz * 2))).
    split; [lia|].
    assert (Hcases : (cx - px * 2 = 0 \/ cx - px * 2 = 1)
                     /\ (cy - py * 2 = 0 \/ cy - py * 2 = 1)
                     /\ (cz - pz * 2 = 0 \/ cz - pz * 2 = 1)) by lia.
    destruct Hcases as ([Ex|Ex] & [Ey|Ey] & [Ez|Ez]); rewrite Ex, Ey, Ez;
      vm_compute Z.to_nat; f_equal;
      match goal with |- ?c = _ => vm_compute Z.land; vm_compute Z.shiftr end; lia.
Qed.

(** ** Viewing and unviewing a mesh cell *)

(** Property X14.  Viewing a mesh cell and unviewing it at once leaves the
    mesh map, the loading blocks and the lists of blocks to activate and to
    deactivate as they were, provided a block that was there had a viewer.  A
    cell that was not in the map is created and dropped again: it is reported
    for unloading and, in full load mode, its update stays pending. *)
Theorem view_then_unview_mesh_cell (is_full_load_mode : bool) (l : Lod) (bpos : Vector3i) :
  (forall mesh_block, mesh_map l !! bpos = Some mesh_block ->
     (0 < mesh_viewers mesh_block)%nat \/ (0 < collision_viewers mesh_block)%nat) ->
  let l' := unview_mesh_cell (view_mesh_cell is_full_load_mode l bpos) bpos in
  let is_new := bool_decide (mesh_map l !! bpos = None) in
  mesh_map l' = mesh_map l
  /\ loading_blocks l' = loading_blocks l
  /\ mesh_blocks_to_activate l' = mesh_blocks_to_activate l
  /\ mesh_blocks_to_deactivate l' = mesh_blocks_to_deactivate l
  /\ mesh_blocks_to_unload l'
     = mesh_blocks_to_unload l ++ (if is_new then [bpos] else [])
  /\ mesh_blocks_pending_update l'
     = mesh_blocks_pending_update l ++ (if is_new && is_full_load_mode then [bpos] else []).
Proof.
  intros Hviewed. cbv zeta. unfold view_mesh_cell.
  destruct (mesh_map l !! bpos) as [mb|] eqn:E.
  - rewrite bool_decide_eq_false_2 by discriminate. cbn [andb]. rewrite !app_nil_r.
    unfold unview_mesh_cell. cbn [mesh_map set_mesh_map]. rewrite lookup_insert_eq.
    cbv zeta. cbn [mesh_viewers collision_viewers set_viewers].
    unfold RefCount.add, RefCount.remove. cbn [Nat.pred].
    destruct (Hviewed mb eq_refl) as [Hm|Hc].
    + rewrite (bool_decide_eq_false_2 (mesh_viewers mb = 0%nat)) by lia. cbn [andb].
      cbn. rewrite insert_insert_eq. split; [|repeat split].
      destruct mb. cbn. apply insert_id. exact E.
    + rewrite (bool_decide_eq_false_2 (collision_viewers mb = 0%nat)) by lia.
      rewrite andb_false_r. cbn. rewrite insert_insert_eq. split; [|repeat split].
      destruct mb. cbn. apply insert_id. exact E.
  - rewrite bool_decide_eq_true_2 by reflexivity. cbv zeta.
    unfold unview_mesh_cell.
    destruct is_full_load_mode; cbn [mesh_map set_mesh_map set_pending_update];
      rewrite lookup_insert_eq; cbn; rewrite delete_insert_eq, delete_id by exact E;
      rewrite ?app_nil_r; repeat split.
Qed.

Lemma view_then_unview_mesh_cell_witness :
  let l' := unview_mesh_cell (view_mesh_cell true Lod_default vzero) vzero in
  mesh_map l' = ∅ /\ mesh_blocks_to_unload l' = [vzero]
  /\ mesh_blocks_pending_update l' = [vzero].
Proof.
  destruct (view_then_unview_mesh_cell true Lod_default vzero) as (H1 & _ & _ & _ & H5 & H6).
  - intros mb H. cbn in H. rewrite lookup_empty in H. discriminate.
  - split; [exact H1|]. split; [exact H5|exact H6].
Defined.

(** ** Running [prepare] case by case *)

(** The loop over the extra parameters changes nothing of the state; it
    yields the uniforms when every parameter is a valid texture, and stops
    the run otherwise. *)
Lemma append_param_uniforms_run (e : GPU.EngineShaders) (params : list GPU.Param)
    (uniforms : list GPU.RID) (s : GPU.PrepState) :
  GPU.append_param_uniforms e params uniforms s
  = (s, if forallb (fun p => GPU.resource_is_valid (GPU.resource p)
                             && GPU.resource_is_texture (GPU.resource p)) params
        then Some (uniforms ++ params ≫= (fun p => [GPU.filtering_sampler e;
                                                     GPU.get_rid (GPU.resource p)]))
        else None).
Proof.
  revert uniforms. induction params as [|p params IH]; intros uniforms.
  - cbn. rewrite app_nil_r. reflexivity.
  - cbn [GPU.append_param_uniforms forallb]. unfold GPU.bind at 1, GPU.ZN_ASSERT at 1.
    destruct (GPU.resource_is_valid (GPU.resource p)); cbn [andb]; [|reflexivity].
    unfold GPU.bind at 1, GPU.ZN_ASSERT at 1.
    destruct (GPU.resource_is_texture (GPU.resource p)); [|reflexivity].
    rewrite IH. cbn [mbind list_bind]. rewrite <- app_assoc. reflexivity.
Qed.

Lemma extra_params_run (e : GPU.EngineShaders) (t : GPU.Task) (uniforms : list GPU.RID)
    (s : GPU.PrepState) :
  GPU.extra_params e t uniforms s
  = (s, if GPUCalls.params_are_textures t
        then Some (uniforms ++ GPUCalls.extra_shader_params t
                                ≫= (fun p => [GPU.filtering_sampler e;
                                               GPU.get_rid (GPU.resource p)]))
        else None).
Proof.
  unfold GPU.extra_params, GPUCalls.params_are_textures, GPUCalls.extra_shader_params.
  destruct (GPU.shader_params t) as [params|]; cbn [default].
  - case_bool_decide as Hlen; [apply append_param_uniforms_run|].
    destruct params; [|cbn in Hlen; lia]. cbn. rewrite app_nil_r. reflexivity.
  - cbn. rewrite app_nil_r. reflexivity.
Qed.

(** Unfolds the steps of [prepare] down to the checks it makes. *)
Ltac prepare_steps :=
  cbv beta iota zeta
      delta [GPU.run_prepare GPU.prepare GPU.create_checked GPU.create GPU.bind GPU.ret
             GPU.rd GPU.store GPU.ERR_FAIL_COND GPU.device GPU.rids GPU.calls GPU.answer
             length app fst snd].

(** Splits the run on a check; [leaf] settles the run that ends there. *)
Ltac prepare_check c leaf :=
  destruct c eqn:?; cbv beta iota; [solve [leaf]|].

(** The runs of [prepare]: [leaf] settles those that a check made before the
    compute list ends, [stopped] the one that an assertion on a parameter
    stops; the run that reaches the end is left. *)
Ltac prepare_cases e t answers leaf stopped :=
  prepare_steps;
  prepare_check (bool_decide (GPU.mesh_vertices t = 0%nat)) leaf;
  prepare_check (bool_decide (GPU.mesh_indices t = 0%nat)) leaf;
  prepare_check (bool_decide (GPU.cell_triangles t = 0%nat)) leaf;
  destruct (GPU.shader t) as [sh|] eqn:?; cbv beta iota; [|solve [leaf]];
  prepare_check (negb (GPU.is_valid sh)) leaf;
  prepare_check (GPU.is_null (answers 0%nat)) leaf;
  prepare_check (GPU.is_null (answers 1%nat)) leaf;
  prepare_check (GPU.is_null (answers 2%nat)) leaf;
  prepare_check (GPU.is_null (answers 3%nat)) leaf;
  prepare_check (GPU.is_null (answers 4%nat)) leaf;
  prepare_check (GPU.is_null (answers 5%nat)) leaf;
  prepare_check (GPU.is_null (answers 6%nat)) leaf;
  prepare_check (GPU.is_null (answers 12%nat)) leaf;
  prepare_check (GPU.is_null (GPU.detail_gather_hits_compute_shader e)) leaf;
  prepare_check (GPU.is_null (answers 13%nat)) leaf;
  prepare_check (GPU.is_null (answers 14%nat)) leaf;
  prepare_check (GPU.is_null (GPU.detail_normalmap_compute_shader e)) leaf;
  prepare_check (GPU.is_null (answers 15%nat)) leaf;
  prepare_check (GPU.is_null (GPU.dilate_normalmap_compute_shader e)) leaf;
  prepare_check (GPU.is_null (answers 16%nat)) leaf;
  rewrite extra_params_run;
  destruct (GPUCalls.params_are_textures t) eqn:?; cbv beta iota;
  [prepare_steps|solve [stopped]].

Lemma not_begun (cs : list GPU.DeviceCall) :
  forallb GPUCalls.creates_resource cs = true -> GPU.begins_compute_list cs = false.
Proof.
  intros H. unfold GPU.begins_compute_list. apply bool_decide_eq_false_2. intros Hin.
  rewrite forallb_forall in H. apply list_elem_of_In in Hin. apply H in Hin. discriminate.
Qed.

(** Property X17.  [prepare] fails and touches neither the device nor the
    task when the mesh has no vertex, no index or no cell triangle, or when
    the modifier shader is missing or invalid. *)
Theorem prepare_rejects_invalid_input (e : GPU.EngineShaders) (t : GPU.Task)
    (s : GPU.PrepState) :
  GPU.mesh_vertices t = 0%nat \/ GPU.mesh_indices t = 0%nat \/ GPU.cell_triangles t = 0%nat
  \/ GPU.shader t = None
  \/ (exists sh, GPU.shader t = Some sh /\ GPU.is_valid sh = false) ->
  GPU.prepare e t s = (s, None).
Proof.
  intros H. prepare_steps.
  destruct (bool_decide (GPU.mesh_vertices t = 0%nat)) eqn:E1; cbv beta iota; [reflexivity|].
  destruct (bool_decide (GPU.mesh_indices t = 0%nat)) eqn:E2; cbv beta iota; [reflexivity|].
  destruct (bool_decide (GPU.cell_triangles t = 0%nat)) eqn:E3; cbv beta iota; [reflexivity|].
  apply bool_decide_eq_false in E1, E2, E3.
  destruct (GPU.shader t) as [sh|] eqn:Es; cbv beta iota; [|reflexivity].
  destruct (GPU.is_valid sh) eqn:Ev; cbv beta iota delta [negb]; [|reflexivity].
  exfalso. destruct H as [H|[H|[H|[H|(sh' & H & Hv)]]]]; try contradiction; congruence.
Qed.

Lemma prepare_rejects_invalid_input_witness :
  GPU.run_prepare Prepare.engine (GPU.mkTask 0%nat 3%nat 1%nat 4%nat None None 16 64 64)
                  Prepare.healthy = ([], false).
Proof.
  unfold GPU.run_prepare.
  rewrite (prepare_rejects_invalid_input Prepare.engine
             (GPU.mkTask 0%nat 3%nat 1%nat 4%nat None None 16 64 64)
             (GPU.mkPrepState [] (GPU.mkRenderingDevice Prepare.healthy []))
             (or_introl eq_refl)).
  reflexivity.
Defined.

(** Property X18.  A run of [prepare] that reaches its end has begun the
    compute list once, recorded five dispatches and ended the list once, by
    its last call.  When every extra parameter of the modifier shader is a
    valid texture, the list is begun, and a dispatch recorded, in no other
    run.  A run that stops after the list is begun is one that an assertion
    on a parameter stopped: it has recorded one dispatch, its last call is a
    barrier, and the list is never ended. *)
Theorem prepare_brackets_compute_list (e : GPU.EngineShaders) (t : GPU.Task)
    (answers : nat -> GPU.RID) :
  let r := GPU.run_prepare e t answers in
  (r.2 = true ->
   GPUCalls.params_are_textures t = true
   /\ last r.1 = Some GPU.ComputeListEnd
   /\ length (GPU.dispatches r.1) = 5%nat
   /\ length (filter (fun c => c = GPU.ComputeListBegin) r.1) = 1%nat
   /\ length (filter (fun c => c = GPU.ComputeListEnd) r.1) = 1%nat)
  /\ (GPUCalls.params_are_textures t = true ->
      GPU.begins_compute_list r.1 = r.2 /\ GPU.records_dispatch r.1 = r.2)
  /\ (r.2 = false -> GPU.begins_compute_list r.1 = true ->
      GPUCalls.params_are_textures t = false
      /\ length (GPU.dispatches r.1) = 1%nat
      /\ last r.1 = Some GPU.ComputeListAddBarrier
      /\ length (filter (fun c => c = GPU.ComputeListEnd) r.1) = 0%nat).
Proof.
  match goal with |- let r := ?run in @?P r => set (Q := P); change (Q run) end.
  prepare_cases e t answers
    ltac:(subst Q; cbv beta; cbn [fst snd];
          split; [discriminate|];
          split; [intros _; split; [apply not_begun; reflexivity|reflexivity]|];
          intros _ Hb; rewrite not_begun in Hb by reflexivity; discriminate)
    ltac:(subst Q; cbv beta; cbn [fst snd];
          split; [discriminate|]; split; [discriminate|]; intros _ _;
          repeat split; vm_compute; reflexivity).
  subst Q. cbv beta. cbn [fst snd].
  split; [|split; [intros _; split; reflexivity|discriminate]].
  intros _. split; [reflexivity|]. split; [reflexivity|]. split; [reflexivity|].
  split; vm_compute; reflexivity.
Qed.

Lemma prepare_brackets_compute_list_witness :
  let r := GPU.run_prepare Prepare.engine (Prepare.task_with_parameter false)
                           Prepare.healthy in
  GPUCalls.params_are_textures (Prepare.task_with_parameter false) = false
  /\ length (GPU.dispatches r.1) = 1%nat
  /\ last r.1 = Some GPU.ComputeListAddBarrier
  /\ length (filter (fun c => c = GPU.ComputeListEnd) r.1) = 0%nat.
Proof.
  apply (prepare_brackets_compute_list Prepare.engine (Prepare.task_with_parameter false)
           Prepare.healthy); vm_compute; reflexivity.
Defined.

(** Property X19.  In every run of [prepare], complete or not, no texture,
    buffer or pipeline is created once the compute list is begun, and every
    handle the device answered for one is stored in a field of the task, in
    the order of creation, no field being assigned twice. *)
Theorem prepare_creates_resources_first (e : GPU.EngineShaders) (t : GPU.Task)
    (answers : nat -> GPU.RID) :
  let s := GPUCalls.prepared e t answers in
  let cs := GPU.calls (GPU.device s) in
  existsb GPUCalls.creates_resource (GPUCalls.from_compute_list_begin cs) = false
  /\ length (GPU.rids s) = length (filter (fun c => Is_true (GPUCalls.creates_resource c)) cs)
  /\ (GPU.rids s).*2 = answers <$> seq 0 (length (GPU.rids s))
  /\ NoDup (GPU.rids s).*1.
Proof.
  match goal with |- let s := ?run in @?P s => set (Q := P); change (Q run) end.
  unfold GPUCalls.prepared.
  prepare_cases e t answers
    ltac:(subst Q; cbv beta zeta; repeat split; vm_compute; repeat constructor;
          rewrite ?not_elem_of_cons; repeat split; try discriminate; apply not_elem_of_nil)
    ltac:(subst Q; cbv beta zeta; repeat split; vm_compute; repeat constructor;
          rewrite ?not_elem_of_cons; repeat split; try discriminate; apply not_elem_of_nil).
  subst Q. cbv beta zeta. repeat split; try (vm_compute; reflexivity).
  vm_compute. repeat constructor;
    rewrite ?not_elem_of_cons; repeat split; try discriminate; apply not_elem_of_nil.
Qed.

(** ** The cleanup of the GPU task *)

Lemma cleanup_indices_permutation :
  [0; 1; 13; 14; 15; 16; 2; 3; 4; 5; 6; 12; 7; 8; 9; 10; 11]%nat ≡ₚ seq 0 17.
Proof.
  apply NoDup_Permutation.
  - apply (bool_decide_unpack _). vm_compute. exact I.
  - apply NoDup_seq.
  - intros i. rewrite elem_of_seq. split.
    + intros Hi. repeat (apply elem_of_cons in Hi as [->|Hi]; [lia|]). inversion Hi.
    + intros Hi. do 17 (destruct i as [|i]; [apply (bool_decide_unpack _); vm_compute; exact I|]).
      lia.
Qed.

(** Property X20.  After a run of [prepare] that reached its end,
    [collect_texture_and_cleanup] first downloads layer 0 of the first
    texture created, then frees the seventeen handles that [prepare] stored,
    each once and no other. *)
Theorem collect_frees_what_prepare_stored (e : GPU.EngineShaders) (t : GPU.Task)
    (answers : nat -> GPU.RID) :
  (GPU.run_prepare e t answers).2 = true ->
  let rids := GPU.rids (GPUCalls.prepared e t answers) in
  let cs := GPUCalls.collect_texture_and_cleanup rids in
  head cs = Some (GPUCalls.TextureGetData (answers 0%nat) 0)
  /\ GPUCalls.freed cs ≡ₚ rids.*2
  /\ length (GPUCalls.freed cs) = 17%nat.
Proof.
  unfold GPU.run_prepare, GPUCalls.prepared. cbv zeta.
  match goal with
  | |- context [GPU.prepare e t ?s0] => set (run := GPU.prepare e t s0)
  end.
  pattern run. match goal with |- ?P run => set (Q := P) end. subst run.
  prepare_cases e t answers
    ltac:(subst Q; cbv beta; cbn [fst snd]; discriminate)
    ltac:(subst Q; cbv beta; cbn [fst snd]; discriminate).
  subst Q. cbv beta zeta. intros _. cbn [fst snd GPU.rids].
  split; [reflexivity|]. split; [|reflexivity].
  change (answers <$> [0; 1; 13; 14; 15; 16; 2; 3; 4; 5; 6; 12; 7; 8; 9; 10; 11]%nat
          ≡ₚ answers <$> seq 0 17).
  apply fmap_Permutation. exact cleanup_indices_permutation.
Qed.

Lemma collect_frees_what_prepare_stored_witness :
  let rids := GPU.rids (GPUCalls.prepared Prepare.engine Prepare.task Prepare.healthy) in
  let cs := GPUCalls.collect_texture_and_cleanup rids in
  head cs = Some (GPUCalls.TextureGetData 1%nat 0)
  /\ GPUCalls.freed cs ≡ₚ rids.*2
  /\ length (GPUCalls.freed cs) = 17%nat.
Proof.
  apply (collect_frees_what_prepare_stored Prepare.engine Prepare.task Prepare.healthy).
  vm_compute. reflexivity.
Defined.

(** ** Blocks of voxel data *)

Lemma created_block_has_voxels (bpos : Vector3i) (buffer : option VoxelBuffer)
    (size : Z) (lod_index : nat) (block : VoxelDataBlock.t) :
  VoxelDataBlock.create bpos buffer size lod_index = Some block ->
  is_Some (VoxelDataBlock.get_voxels block)
  /\ VoxelDataBlock.position block = bpos
  /\ VoxelDataBlock.lod_index block = lod_index.
Proof.
  unfold VoxelDataBlock.create. cbv zeta. destruct buffer as [b|]; [|discriminate].
  case_bool_decide; [discriminate|]. intros [= <-]. cbn. eauto.
Qed.

(** Property X21.  Whatever setters are called on a block that [create]
    made, in whatever order and with whatever arguments, the block keeps a
    buffer that is not null, so that [get_voxels] never meets the null
    buffer it would crash on; its position and its LOD are those given to
    [create]. *)
Theorem VoxelDataBlock_always_has_voxels (bpos : Vector3i) (buffer : option VoxelBuffer)
    (size : Z) (lod_index : nat) (block : VoxelDataBlock.t)
    (calls : list VoxelDataBlock.Setter) :
  VoxelDataBlock.create bpos buffer size lod_index = Some block ->
  let block' := foldl VoxelDataBlock.call block calls in
  is_Some (VoxelDataBlock.get_voxels block')
  /\ VoxelDataBlock.position block' = bpos
  /\ VoxelDataBlock.lod_index block' = lod_index.
Proof.
  intros Hc. apply created_block_has_voxels in Hc. cbv zeta.
  revert block Hc. induction calls as [|s calls IH]; intros blk H; [exact H|].
  cbn [foldl]. apply IH. destruct H as (Hv & Hp & Hl).
  destruct s as [[b'|]|m|n]; cbn; eauto.
Qed.

Lemma VoxelDataBlock_always_has_voxels_witness :
  let buffer := Some (mkVoxelBuffer (Vector3iUtil.create 16)) in
  let block := VoxelDataBlock.mk vzero 0 0 buffer false false false in
  let block' := foldl VoxelDataBlock.call block
                      [VoxelDataBlock.SetVoxels None; VoxelDataBlock.SetModified true] in
  is_Some (VoxelDataBlock.get_voxels block')
  /\ VoxelDataBlock.position block' = vzero
  /\ VoxelDataBlock.lod_index block' = 0%nat.
Proof.
  apply (VoxelDataBlock_always_has_voxels vzero
           (Some (mkVoxelBuffer (Vector3iUtil.create 16))) 16 0).
  reflexivity.
Defined.

(** Property X22.  For a block size of [2 ^ block_size_pow2] voxels,
    [process_block] hands the provider a buffer of that size on each axis,
    the LOD, and an origin such that the voxels from the origin up to
    [2 ^ (block_size_pow2 + lod)] further on each axis are exactly the voxels
    whose coordinates shifted right by [block_size_pow2 + lod] give the
    block position; the buffer loaded is never null. *)
Theorem process_block_asks_for_the_block (emerge_block : VoxelDataLoader.EmergeBlock -> VoxelBuffer)
    (block_size_pow2 : Z) (block_position : Vector3i) (lod : nat) :
  0 <= block_size_pow2 ->
  let r := VoxelDataLoader.process_block emerge_block block_size_pow2 block_position lod in
  get_size (VoxelDataLoader.out_buffer r.1) = Vector3iUtil.create (2 ^ block_size_pow2)
  /\ VoxelDataLoader.emerge_lod r.1 = lod
  /\ r.2 = Some (emerge_block r.1)
  /\ forall voxel,
       Box3i.contains
         (mkBox3i (VoxelDataLoader.origin_in_voxels r.1)
                  (Vector3iUtil.create (2 ^ (block_size_pow2 + Z.of_nat lod)))) voxel = true
       <-> vshr voxel (block_size_pow2 + Z.of_nat lod) = block_position.
Proof.
  intros Hp. cbv zeta. unfold VoxelDataLoader.process_block. cbv zeta.
  cbn [fst snd VoxelDataLoader.out_buffer VoxelDataLoader.emerge_lod
       VoxelDataLoader.origin_in_voxels get_size].
  rewrite Z.shiftl_shiftl by exact Hp. rewrite !Z.shiftl_1_l.
  split; [reflexivity|]. split; [reflexivity|]. split; [reflexivity|].
  intros voxel. rewrite contains_iff.
  assert (Hpos : 0 < 2 ^ (block_size_pow2 + Z.of_nat lod)) by (apply Z.pow_pos_nonneg; lia).
  destruct block_position as [bx by_ bz], voxel as [vx vy vz]. vsimpl.
  rewrite !Z.shiftr_div_pow2 by lia.
  set (s := 2 ^ (block_size_pow2 + Z.of_nat lod)) in *.
  assert (Haxis : forall b v, (b * s <= v < b * s + s) <-> v / s = b).
  { intros b v. split.
    - intros H. symmetry. apply (Z.div_unique_pos _ _ _ (v - b * s)); lia.
    - intros <-. pose proof (Z.mul_div_le v s Hpos). pose proof (Z.mul_succ_div_gt v s Hpos).
      lia. }
  rewrite !Haxis. split.
  - intros (-> & -> & ->). reflexivity.
  - intros [= -> -> ->]. auto.
Qed.

Lemma process_block_asks_for_the_block_witness :
  let r := VoxelDataLoader.process_block VoxelDataLoader.out_buffer 4 (mkVector3i 1 (-1) 0) 1 in
  get_size (VoxelDataLoader.out_buffer r.1) = Vector3iUtil.create (2 ^ 4)
  /\ VoxelDataLoader.emerge_lod r.1 = 1%nat
  /\ r.2 = Some (VoxelDataLoader.out_buffer r.1)
  /\ forall voxel,
       Box3i.contains
         (mkBox3i (VoxelDataLoader.origin_in_voxels r.1)
                  (Vector3iUtil.create (2 ^ (4 + Z.of_nat 1)))) voxel = true
       <-> vshr voxel (4 + Z.of_nat 1) = mkVector3i 1 (-1) 0.
Proof.
  apply (process_block_asks_for_the_block VoxelDataLoader.out_buffer 4 (mkVector3i 1 (-1) 0) 1).
  lia.
Defined.

(** * The differs and the subdivision, step by step *)

(** ** The cells that leave a box *)

Lemma child_of_parent (parent_position : Vector3i) (child_index : nat) :
  (child_index < 8)%nat ->
  vshr (get_child_position parent_position child_index) 1 = parent_position.
Proof.
  intros Hi. destruct parent_position as [px py pz].
  unfold get_child_position, get_child_position_from_first_sibling. vsimpl.
  destruct (child_bits child_index Hi) as (Hx & Hy & Hz & _). cbv zeta in *.
  f_equal; apply shiftr_1_double; lia.
Qed.

Lemma children_distinct (parent_position : Vector3i) (i j : nat) :
  (i < 8)%nat -> (j < 8)%nat ->
  get_child_position parent_position i = get_child_position parent_position j -> i = j.
Proof.
  intros Hi Hj. destruct parent_position as [px py pz].
  unfold get_child_position, get_child_position_from_first_sibling. vsimpl.
  intros Heq. injection Heq as Ex Ey Ez.
  destruct (child_bits i Hi) as (_ & _ & _ & Hsum_i).
  destruct (child_bits j Hj) as (_ & _ & _ & Hsum_j). cbv zeta in *. lia.
Qed.

Lemma zrange_NoDup (a n : Z) : NoDup (zrange a n).
Proof.
  unfold zrange. apply NoDup_fmap_2_strong; [|apply NoDup_seq].
  intros i j _ _ H. lia.
Qed.

Lemma for_each_cell_NoDup (b : Box3i) : NoDup (Box3iCells.for_each_cell b).
Proof.
  unfold Box3iCells.for_each_cell.
  apply NoDup_bind; [| |apply zrange_NoDup].
  - intros z1 z2 c _ _ H1 H2.
    apply list_elem_of_bind in H1 as (y1 & H1 & _), H2 as (y2 & H2 & _).
    apply list_elem_of_bind in H1 as (x1 & H1 & _), H2 as (x2 & H2 & _).
    apply list_elem_of_singleton in H1, H2. subst c. congruence.
  - intros cz _. apply NoDup_bind; [| |apply zrange_NoDup].
    + intros y1 y2 c _ _ H1 H2.
      apply list_elem_of_bind in H1 as (x1 & H1 & _), H2 as (x2 & H2 & _).
      apply list_elem_of_singleton in H1, H2. subst c. congruence.
    + intros cy _. apply NoDup_bind; [| |apply zrange_NoDup].
      * intros x1 x2 c _ _ H1 H2. apply list_elem_of_singleton in H1, H2.
        subst c. congruence.
      * intros cx _. apply NoDup_singleton.
Qed.

(** The cells of a list of boxes of which no two share a cell. *)
Lemma cells_NoDup_cons (box : Box3i) (boxes : list Box3i) :
  (forall c other, other ∈ boxes -> Box3i.contains box c = true ->
                   Box3i.contains other c = true -> False) ->
  NoDup (boxes ≫= Box3iCells.for_each_cell) ->
  NoDup ((box :: boxes) ≫= Box3iCells.for_each_cell).
Proof.
  intros Hd Hnd. cbn. apply NoDup_app. split; [apply for_each_cell_NoDup|]. split; [|exact Hnd].
  intros c Hc Hin. apply list_elem_of_bind in Hin as (other & Hin & Ho).
  apply elem_of_for_each_cell in Hc, Hin. eauto.
Qed.

(** No cell is visited twice. *)
Lemma leaving_cells_NoDup (a b : Box3i) :
  vnonneg (size b) -> NoDup (leaving_cells a b).
Proof.
  intros (Hsx & Hsy & Hsz). unfold leaving_cells, Box3iCells.difference.
  destruct (Box3i.intersects a b) eqn:Hi; cbn [negb].
  - destruct a as [[ax ay az] [asx asy asz]], b as [[bx by_ bz] [bsx bsy bsz]].
    unfold Box3i.end_. vsimpl. cbv zeta.
    repeat case_bool_decide; cbn [app x y z pos size] in *;
      repeat (apply cells_NoDup_cons;
              [intros c other Hin Hc Ho; apply contains_iff in Hc;
               repeat (apply elem_of_cons in Hin as [->|Hin];
                       [apply contains_iff in Ho; cbn [x y z pos size] in *; lia|]);
               inversion Hin|]);
      apply NoDup_nil_2.
  - cbn. rewrite app_nil_r. apply for_each_cell_NoDup.
Qed.

(** ** Unviewing the cells of a box *)

Lemma unview_mesh_cell_lookup (l : Lod) (bpos cell : Vector3i) :
  mesh_map (unview_mesh_cell l bpos) !! cell
  = if decide (cell = bpos) then unviewed (mesh_map l !! bpos) else mesh_map l !! cell.
Proof.
  unfold unview_mesh_cell, unviewed, erased_when_unviewed, RefCount.remove.
  destruct (mesh_map l !! bpos) as [mb|] eqn:E; cbv zeta.
  - rewrite <- !Nat.sub_1_r.
    destruct (decide (cell = bpos)) as [->|Hne].
    + destruct (bool_decide (mesh_viewers mb - 1 = 0)%nat) eqn:E1;
        destruct (bool_decide (collision_viewers mb - 1 = 0)%nat) eqn:E2; cbn [andb];
        try apply bool_decide_eq_true in E1; try apply bool_decide_eq_true in E2;
        try apply bool_decide_eq_false in E1; try apply bool_decide_eq_false in E2;
        [rewrite bool_decide_eq_true_2 by tauto; cbn; apply lookup_delete_eq
        |rewrite bool_decide_eq_false_2 by tauto; cbn; apply lookup_insert_eq ..].
    + destruct (_ && _); cbn;
        [rewrite lookup_delete_ne by congruence|rewrite lookup_insert_ne by congruence];
        reflexivity.
  - destruct (decide (cell = bpos)) as [->|Hne]; [exact E|reflexivity].
Qed.

Lemma unview_mesh_cell_to_unload (l : Lod) (bpos : Vector3i) :
  mesh_blocks_to_unload (unview_mesh_cell l bpos)
  = mesh_blocks_to_unload l ++ filter (erased_cell (mesh_map l)) [bpos].
Proof.
  unfold unview_mesh_cell, RefCount.remove.
  destruct (mesh_map l !! bpos) as [mb|] eqn:E; cbv zeta.
  - rewrite <- !Nat.sub_1_r.
    destruct (bool_decide (mesh_viewers mb - 1 = 0)%nat) eqn:E1;
      destruct (bool_decide (collision_viewers mb - 1 = 0)%nat) eqn:E2; cbn [andb];
      try apply bool_decide_eq_true in E1; try apply bool_decide_eq_true in E2;
      try apply bool_decide_eq_false in E1; try apply bool_decide_eq_false in E2.
    + rewrite filter_cons_True; [reflexivity|]. exists mb. split; [exact E|].
      apply bool_decide_eq_true. tauto.
    + rewrite filter_cons_False; [cbn; rewrite app_nil_r; reflexivity|].
      intros (mb' & Hm & He). rewrite E in Hm. injection Hm as <-.
      apply bool_decide_eq_true in He. tauto.
    + rewrite filter_cons_False; [cbn; rewrite app_nil_r; reflexivity|].
      intros (mb' & Hm & He). rewrite E in Hm. injection Hm as <-.
      apply bool_decide_eq_true in He. tauto.
    + rewrite filter_cons_False; [cbn; rewrite app_nil_r; reflexivity|].
      intros (mb' & Hm & He). rewrite E in Hm. injection Hm as <-.
      apply bool_decide_eq_true in He. tauto.
  - rewrite filter_cons_False; [cbn; rewrite app_nil_r; reflexivity|].
    intros (mb' & Hm & _). congruence.
Qed.

(** The parts of a LOD that viewing and unviewing mesh cells leave alone. *)
Lemma unview_mesh_cell_rest (l : Lod) (bpos : Vector3i) :
  loading_blocks (unview_mesh_cell l bpos) = loading_blocks l
  /\ mesh_blocks_pending_update (unview_mesh_cell l bpos) = mesh_blocks_pending_update l
  /\ mesh_blocks_to_activate (unview_mesh_cell l bpos) = mesh_blocks_to_activate l
  /\ mesh_blocks_to_deactivate (unview_mesh_cell l bpos) = mesh_blocks_to_deactivate l.
Proof.
  unfold unview_mesh_cell. destruct (mesh_map l !! bpos) as [mb|]; cbv zeta;
    [destruct (_ && _)|]; repeat split.
Qed.

Lemma filter_erased_cell_ext (m m' : gmap Vector3i MeshBlockState) (cells : list Vector3i) :
  (forall c, c ∈ cells -> m' !! c = m !! c) ->
  filter (erased_cell m') cells = filter (erased_cell m) cells.
Proof.
  induction cells as [|c cells IH]; intros H; [reflexivity|].
  assert (Hc : erased_cell m' c <-> erased_cell m c).
  { unfold erased_cell. rewrite (H c ltac:(left)). reflexivity. }
  rewrite !filter_cons. rewrite IH by (intros; apply H; right; assumption).
  destruct (decide (erased_cell m' c)), (decide (erased_cell m c)); tauto.
Qed.

Lemma foldl_unview_mesh_cell (cells : list Vector3i) (l : Lod) :
  NoDup cells ->
  let l' := foldl unview_mesh_cell l cells in
  (forall cell, mesh_map l' !! cell
                = if bool_decide (cell ∈ cells) then unviewed (mesh_map l !! cell)
                  else mesh_map l !! cell)
  /\ mesh_blocks_to_unload l'
     = mesh_blocks_to_unload l ++ filter (erased_cell (mesh_map l)) cells
  /\ loading_blocks l' = loading_blocks l
  /\ mesh_blocks_pending_update l' = mesh_blocks_pending_update l
  /\ mesh_blocks_to_activate l' = mesh_blocks_to_activate l
  /\ mesh_blocks_to_deactivate l' = mesh_blocks_to_deactivate l.
Proof.
  intros Hnd. revert l. induction Hnd as [|c cells Hc Hnd IH]; intros l; cbv zeta.
  - cbn. rewrite app_nil_r. repeat split.
  - cbn [foldl]. destruct (IH (unview_mesh_cell l c)) as (Hm & Hu & H1 & H2 & H3 & H4).
    destruct (unview_mesh_cell_rest l c) as (R1 & R2 & R3 & R4).
    split; [|split; [|repeat split; congruence]].
    + intros cell. rewrite Hm, unview_mesh_cell_lookup.
      destruct (decide (cell = c)) as [->|Hne].
      * rewrite bool_decide_eq_false_2 by exact Hc.
        rewrite bool_decide_eq_true_2 by left. reflexivity.
      * destruct (decide (cell ∈ cells)) as [Hin|Hin].
        -- rewrite !bool_decide_eq_true_2 by (try right; exact Hin). reflexivity.
        -- rewrite !bool_decide_eq_false_2; [reflexivity| |exact Hin].
           rewrite elem_of_cons. tauto.
    + rewrite Hu, unview_mesh_cell_to_unload, <- app_assoc. f_equal.
      rewrite (filter_cons _ c cells). 
      rewrite (filter_erased_cell_ext (mesh_map l) (mesh_map (unview_mesh_cell l c)) cells).
      * cbn. destruct (decide (erased_cell (mesh_map l) c)); reflexivity.
      * intros c' Hc'. rewrite unview_mesh_cell_lookup.
        destruct (decide (c' = c)) as [->|]; [contradiction|reflexivity].
Qed.

(** ** Viewing the cells of a box *)

Lemma view_mesh_cell_lookup (full : bool) (l : Lod) (bpos cell : Vector3i) :
  mesh_map (view_mesh_cell full l bpos) !! cell
  = if decide (cell = bpos) then Some (viewed full (mesh_map l !! bpos))
    else mesh_map l !! cell.
Proof.
  unfold view_mesh_cell, viewed, RefCount.add.
  destruct (mesh_map l !! bpos) as [mb|] eqn:E; cbv zeta;
    destruct (decide (cell = bpos)) as [->|Hne]; destruct full; cbn;
    rewrite ?lookup_insert_eq, ?lookup_insert_ne by congruence; reflexivity.
Qed.

Lemma view_mesh_cell_rest (full : bool) (l : Lod) (bpos : Vector3i) :
  loading_blocks (view_mesh_cell full l bpos) = loading_blocks l
  /\ mesh_blocks_to_unload (view_mesh_cell full l bpos) = mesh_blocks_to_unload l
  /\ mesh_blocks_to_activate (view_mesh_cell full l bpos) = mesh_blocks_to_activate l
  /\ mesh_blocks_to_deactivate (view_mesh_cell full l bpos) = mesh_blocks_to_deactivate l.
Proof.
  unfold view_mesh_cell. destruct (mesh_map l !! bpos) as [mb|]; cbv zeta;
    destruct full; repeat split.
Qed.

Lemma foldl_view_mesh_cell (full : bool) (cells : list Vector3i) (l : Lod) :
  NoDup cells ->
  let l' := foldl (view_mesh_cell full) l cells in
  (forall cell, mesh_map l' !! cell
                = if bool_decide (cell ∈ cells) then Some (viewed full (mesh_map l !! cell))
                  else mesh_map l !! cell)
  /\ loading_blocks l' = loading_blocks l
  /\ mesh_blocks_to_unload l' = mesh_blocks_to_unload l
  /\ mesh_blocks_to_activate l' = mesh_blocks_to_activate l
  /\ mesh_blocks_to_deactivate l' = mesh_blocks_to_deactivate l.
Proof.
  intros Hnd. revert l. induction Hnd as [|c cells Hc Hnd IH]; intros l; cbv zeta.
  - cbn. repeat split.
  - cbn [foldl]. destruct (IH (view_mesh_cell full l c)) as (Hm & H1 & H2 & H3 & H4).
    destruct (view_mesh_cell_rest full l c) as (R1 & R2 & R3 & R4).
    split; [|repeat split; congruence].
    intros cell. rewrite Hm, view_mesh_cell_lookup.
    destruct (decide (cell = c)) as [->|Hne].
    + rewrite bool_decide_eq_false_2 by exact Hc.
      rewrite bool_decide_eq_true_2 by left. reflexivity.
    + destruct (decide (cell ∈ cells)) as [Hin|Hin].
      * rewrite !bool_decide_eq_true_2 by (try right; exact Hin). reflexivity.
      * rewrite !bool_decide_eq_false_2; [reflexivity| |exact Hin].
        rewrite elem_of_cons. tauto.
Qed.

(** ** Showing the parents of a box *)

Lemma show_parent_cell_lookup (l parent_lod : Lod) (bpos p : Vector3i) :
  mesh_map (show_parent_cell l parent_lod bpos) !! p
  = if decide (p = bpos /\ shown_again (mesh_map l) (mesh_map parent_lod) bpos)
    then set_active true <$> mesh_map parent_lod !! p
    else mesh_map parent_lod !! p.
Proof.
  destruct (decide (p = bpos /\ _)) as [[-> (mb & Hm & Ha & Hc)]|Hn]; unfold show_parent_cell.
  - rewrite Hm, Ha, Hc. cbn. apply lookup_insert_eq.
  - destruct (mesh_map parent_lod !! bpos) as [mb|] eqn:E; [|reflexivity].
    destruct (active mb) eqn:Ea; [reflexivity|]. cbn [negb].
    destruct (mesh_map l !! vshl bpos 1) eqn:Ec; [reflexivity|].
    cbn [mesh_map push_to_activate set_mesh_map].
    apply lookup_insert_ne. intros <-. apply Hn. split; [reflexivity|]. exists mb. auto.
Qed.

Lemma show_parent_cell_to_activate (l parent_lod : Lod) (bpos : Vector3i) :
  mesh_blocks_to_activate (show_parent_cell l parent_lod bpos)
  = mesh_blocks_to_activate parent_lod
    ++ filter (shown_again (mesh_map l) (mesh_map parent_lod)) [bpos].
Proof.
  unfold show_parent_cell.
  destruct (decide (shown_again (mesh_map l) (mesh_map parent_lod) bpos)) as [H|H].
  - rewrite filter_cons_True by exact H. destruct H as (mb & -> & -> & ->). reflexivity.
  - rewrite filter_cons_False by exact H. cbn. rewrite app_nil_r.
    destruct (mesh_map parent_lod !! bpos) as [mb|] eqn:E; [|reflexivity].
    destruct (active mb) eqn:Ea; [reflexivity|]. cbn [negb].
    destruct (mesh_map l !! vshl bpos 1) eqn:Ec; [reflexivity|].
    exfalso. apply H. exists mb. auto.
Qed.

Lemma show_parent_cell_rest (l parent_lod : Lod) (bpos : Vector3i) :
  loading_blocks (show_parent_cell l parent_lod bpos) = loading_blocks parent_lod
  /\ mesh_blocks_pending_update (show_parent_cell l parent_lod bpos)
     = mesh_blocks_pending_update parent_lod
  /\ mesh_blocks_to_unload (show_parent_cell l parent_lod bpos)
     = mesh_blocks_to_unload parent_lod
  /\ mesh_blocks_to_deactivate (show_parent_cell l parent_lod bpos)
     = mesh_blocks_to_deactivate parent_lod.
Proof.
  unfold show_parent_cell. destruct (mesh_map parent_lod !! bpos) as [mb|]; [|repeat split].
  destruct (negb (active mb)); [|repeat split].
  destruct (mesh_map l !! vshl bpos 1); repeat split.
Qed.

Lemma filter_shown_again_ext (m : gmap Vector3i MeshBlockState)
    (parents parents' : gmap Vector3i MeshBlockState) (cells : list Vector3i) :
  (forall p, p ∈ cells -> parents' !! p = parents !! p) ->
  filter (shown_again m parents') cells = filter (shown_again m parents) cells.
Proof.
  induction cells as [|c cells IH]; intros H; [reflexivity|].
  assert (Hc : shown_again m parents' c <-> shown_again m parents c).
  { unfold shown_again. rewrite (H c ltac:(left)). reflexivity. }
  rewrite !filter_cons. rewrite IH by (intros; apply H; right; assumption).
  destruct (decide (shown_again m parents' c)), (decide (shown_again m parents c)); tauto.
Qed.

Lemma foldl_show_parent_cell (l : Lod) (cells : list Vector3i) (parent_lod : Lod) :
  NoDup cells ->
  let parent_lod' := foldl (show_parent_cell l) parent_lod cells in
  (forall p, mesh_map parent_lod' !! p
             = if decide (p ∈ cells /\ shown_again (mesh_map l) (mesh_map parent_lod) p)
               then set_active true <$> mesh_map parent_lod !! p
               else mesh_map parent_lod !! p)
  /\ mesh_blocks_to_activate parent_lod'
     = mesh_blocks_to_activate parent_lod
       ++ filter (shown_again (mesh_map l) (mesh_map parent_lod)) cells
  /\ loading_blocks parent_lod' = loading_blocks parent_lod
  /\ mesh_blocks_pending_update parent_lod' = mesh_blocks_pending_update parent_lod
  /\ mesh_blocks_to_unload parent_lod' = mesh_blocks_to_unload parent_lod
  /\ mesh_blocks_to_deactivate parent_lod' = mesh_blocks_to_deactivate parent_lod.
Proof.
  intros Hnd. revert parent_lod.
  induction Hnd as [|c cells Hc Hnd IH]; intros parent_lod; cbv zeta.
  - cbn. rewrite app_nil_r. split; [|repeat split].
    intros p. rewrite decide_False; [reflexivity|]. intros [H _]. inversion H.
  - cbn [foldl].
    destruct (IH (show_parent_cell l parent_lod c)) as (Hm & Ha & H1 & H2 & H3 & H4).
    destruct (show_parent_cell_rest l parent_lod c) as (R1 & R2 & R3 & R4).
    assert (Hother : forall p, p ∈ cells ->
              mesh_map (show_parent_cell l parent_lod c) !! p = mesh_map parent_lod !! p).
    { intros p Hp. rewrite show_parent_cell_lookup. rewrite decide_False; [reflexivity|].
      intros [-> _]. contradiction. }
    split; [|split; [|repeat split; congruence]].
    + intros p. rewrite Hm.
      destruct (decide (p ∈ cells)) as [Hin|Hin].
      * assert (Hs : shown_again (mesh_map l) (mesh_map (show_parent_cell l parent_lod c)) p
                     <-> shown_again (mesh_map l) (mesh_map parent_lod) p).
        { unfold shown_again. rewrite (Hother p Hin). reflexivity. }
        rewrite (Hother p Hin).
        destruct (decide (shown_again (mesh_map l) (mesh_map parent_lod) p)) as [Hp|Hp].
        -- rewrite !decide_True; [reflexivity| |]; split; try tauto. right. exact Hin.
        -- rewrite !decide_False; [reflexivity| |]; tauto.
      * rewrite (decide_False (P := p ∈ cells /\ _)) by tauto.
        rewrite show_parent_cell_lookup.
        destruct (decide (p = c)) as [->|Hne].
        -- destruct (decide (shown_again (mesh_map l) (mesh_map parent_lod) c)) as [Hp|Hp].
           ++ rewrite !decide_True; [reflexivity| |]; split; try tauto. left.
           ++ rewrite !decide_False; [reflexivity| |]; tauto.
        -- rewrite !decide_False; [reflexivity| |]; rewrite ?elem_of_cons; tauto.
    + rewrite Ha, show_parent_cell_to_activate, <- app_assoc. f_equal.
      rewrite (filter_cons _ c cells).
      rewrite (filter_shown_again_ext (mesh_map l) (mesh_map parent_lod) _ cells Hother).
      cbn. destruct (decide (shown_again (mesh_map l) (mesh_map parent_lod) c)); reflexivity.
Qed.

(** ** Even boxes and their parents *)

Lemma even_half (v : Z) : Z.even v = true -> exists k, v = 2 * k /\ Z.shiftr v 1 = k.
Proof.
  intros H. apply Z.even_spec in H as [k ->]. exists k. split; [reflexivity|].
  rewrite shiftr_1. rewrite Z.mul_comm. apply Z.div_mul. lia.
Qed.

(** The parent box of an even box holds the parents of its cells, and a box
    holds the eight children of every cell of its parent box. *)
Lemma parent_box_contains (b : Box3i) (c : Vector3i) :
  Box3i.even_box b ->
  Box3i.contains (parent_box b) (vshr c 1) = Box3i.contains b c.
Proof.
  intros [(Px & Py & Pz) (Sx & Sy & Sz)].
  apply even_half in Px as (px & Ex & Hx), Py as (py & Ey & Hy), Pz as (pz & Ez & Hz).
  apply even_half in Sx as (sx & Fx & Gx), Sy as (sy & Fy & Gy), Sz as (sz & Fz & Gz).
  apply eq_true_iff_eq. rewrite !contains_iff. unfold parent_box. vsimpl.
  rewrite Hx, Hy, Hz, Gx, Gy, Gz, Ex, Ey, Ez, Fx, Fy, Fz, !shiftr_1.
  split; intros (? & ? & ?); repeat split; Z.div_mod_to_equations; lia.
Qed.

Lemma parent_box_contains_children (b : Box3i) (p : Vector3i) (child_index : nat) :
  Box3i.even_box b -> (child_index < 8)%nat ->
  Box3i.contains b (get_child_position p child_index) = Box3i.contains (parent_box b) p.
Proof.
  intros Hb Hi. rewrite <- (parent_box_contains b _ Hb).
  rewrite (child_of_parent p child_index Hi). reflexivity.
Qed.

Lemma parent_box_contains_first_child (b : Box3i) (p : Vector3i) :
  Box3i.even_box b ->
  Box3i.contains b (vshl p 1) = Box3i.contains (parent_box b) p.
Proof.
  intros Hb. rewrite <- first_child_position. apply parent_box_contains_children; [exact Hb|lia].
Qed.

(** The boxes of the difference of two even boxes are even. *)
Lemma difference_even (a b box : Box3i) :
  Box3i.even_box a -> Box3i.even_box b ->
  box ∈ Box3iCells.difference a b -> Box3i.even_box box.
Proof.
  intros Ha Hb. unfold Box3iCells.difference.
  destruct (Box3i.intersects a b); cbn [negb].
  - destruct Ha as [(? & ? & ?) (? & ? & ?)], Hb as [(? & ? & ?) (? & ? & ?)].
    destruct a as [[ax ay az] [asx asy asz]], b as [[bx by_ bz] [bsx bsy bsz]].
    unfold Box3i.end_. vsimpl. cbv zeta.
    repeat case_bool_decide; cbn [app x y z pos size] in *; intros Hin;
      repeat (apply elem_of_cons in Hin as [->|Hin];
              [split; apply veven_intro; auto 6 with evenness|]);
      inversion Hin.
  - intros Hin. apply list_elem_of_singleton in Hin. subst box. exact Ha.
Qed.

(** ** The mesh differ, box by box *)

Lemma list_filter_iff_in {A : Type} (P Q : A -> Prop) `{!forall x, Decision (P x)}
    `{!forall x, Decision (Q x)} (l : list A) :
  (forall x, x ∈ l -> P x <-> Q x) -> filter P l = filter Q l.
Proof.
  induction l as [|a l IH]; intros Hiff; [reflexivity|].
  rewrite !filter_cons. rewrite IH by (intros; apply Hiff; right; assumption).
  pose proof (Hiff a ltac:(left)). destruct (decide (P a)), (decide (Q a)); tauto.
Qed.

Lemma shown_again_ext (m m' parents parents' : gmap Vector3i MeshBlockState) (p : Vector3i) :
  m' !! vshl p 1 = m !! vshl p 1 -> parents' !! p = parents !! p ->
  shown_again m' parents' p <-> shown_again m parents p.
Proof. unfold shown_again. intros -> ->. reflexivity. Qed.

Lemma lod_at_insert_eq (ls : list Lod) (i : nat) (l : Lod) :
  (i < length ls)%nat -> lod_at (<[i := l]> ls) i = l.
Proof. intros H. unfold lod_at. rewrite list_lookup_insert_eq by exact H. reflexivity. Qed.

Lemma lod_at_insert_ne (ls : list Lod) (i j : nat) (l : Lod) :
  i <> j -> lod_at (<[i := l]> ls) j = lod_at ls j.
Proof. intros H. unfold lod_at. rewrite list_lookup_insert_ne by exact H. reflexivity. Qed.

Section mesh_lod.

Variable settings : Settings.
Variable bounds_in_voxels : Box3i.
Variable lod_count : nat.
Variable is_full_load_mode : bool.
Variable can_load : bool.

Abbreviation remove_box := (remove_out_of_range_box lod_count).
Abbreviation add_box := (add_entering_box is_full_load_mode).
Abbreviation mesh_lod := (process_mesh_lod settings bounds_in_voxels lod_count
                                           is_full_load_mode can_load).
Abbreviation mesh_lods := (process_mesh_lods settings bounds_in_voxels lod_count
                                             is_full_load_mode can_load).

(** *** One box out of range *)

Lemma remove_out_of_range_box_length lod_index ls box :
  length (remove_box lod_index ls box) = length ls.
Proof.
  unfold remove_out_of_range_box. cbv zeta. case_bool_decide; rewrite ?length_insert; reflexivity.
Qed.

Lemma remove_out_of_range_box_child_lod lod_index ls box :
  (lod_index < length ls)%nat ->
  lod_at (remove_box lod_index ls box) lod_index
  = foldl unview_mesh_cell (lod_at ls lod_index) (Box3iCells.for_each_cell box).
Proof.
  intros Hi. unfold remove_out_of_range_box. cbv zeta. case_bool_decide.
  - rewrite lod_at_insert_ne by lia. apply lod_at_insert_eq. exact Hi.
  - apply lod_at_insert_eq. exact Hi.
Qed.

Lemma remove_out_of_range_box_parent_lod lod_index ls box :
  (S lod_index < lod_count)%nat -> (S lod_index < length ls)%nat ->
  lod_at (remove_box lod_index ls box) (S lod_index)
  = foldl (show_parent_cell (lod_at (remove_box lod_index ls box) lod_index))
          (lod_at ls (S lod_index)) (Box3iCells.for_each_cell (parent_box box)).
Proof.
  intros Hc Hi. rewrite remove_out_of_range_box_child_lod by lia.
  unfold remove_out_of_range_box. cbv zeta. rewrite bool_decide_eq_true_2 by exact Hc.
  rewrite lod_at_insert_eq by (rewrite length_insert; exact Hi).
  rewrite lod_at_insert_ne by lia. reflexivity.
Qed.

Lemma remove_out_of_range_box_other_lods lod_index ls box j :
  j <> lod_index -> (j <> S lod_index \/ ~ (S lod_index < lod_count)%nat) ->
  lod_at (remove_box lod_index ls box) j = lod_at ls j.
Proof.
  intros H1 H2. unfold remove_out_of_range_box. cbv zeta. case_bool_decide.
  - destruct H2 as [H2|H2]; [|contradiction].
    rewrite !lod_at_insert_ne by congruence. reflexivity.
  - apply lod_at_insert_ne. congruence.
Qed.

(** *** The boxes out of range *)

Lemma foldl_remove_out_of_range_box_length lod_index boxes ls :
  length (foldl (remove_box lod_index) ls boxes) = length ls.
Proof.
  revert ls. induction boxes as [|b boxes IH]; intros ls; [reflexivity|].
  cbn [foldl]. rewrite IH. apply remove_out_of_range_box_length.
Qed.

Lemma foldl_remove_out_of_range_box_child_lod lod_index boxes ls :
  (lod_index < length ls)%nat ->
  lod_at (foldl (remove_box lod_index) ls boxes) lod_index
  = foldl unview_mesh_cell (lod_at ls lod_index) (boxes ≫= Box3iCells.for_each_cell).
Proof.
  revert ls. induction boxes as [|b boxes IH]; intros ls Hi; [reflexivity|].
  cbn [foldl]. rewrite IH by (rewrite remove_out_of_range_box_length; exact Hi).
  rewrite remove_out_of_range_box_child_lod by exact Hi.
  cbn. rewrite foldl_app. reflexivity.
Qed.

Lemma foldl_remove_out_of_range_box_other_lods lod_index boxes ls j :
  j <> lod_index -> (j <> S lod_index \/ ~ (S lod_index < lod_count)%nat) ->
  lod_at (foldl (remove_box lod_index) ls boxes) j = lod_at ls j.
Proof.
  intros H1 H2. revert ls. induction boxes as [|b boxes IH]; intros ls; [reflexivity|].
  cbn [foldl]. rewrite IH. apply remove_out_of_range_box_other_lods; assumption.
Qed.

(** The parents of the cells of even boxes that share no cell. *)
Lemma parents_of_boxes (boxes : list Box3i) (p : Vector3i) :
  Forall Box3i.even_box boxes ->
  p ∈ boxes ≫= (fun b => Box3iCells.for_each_cell (parent_box b))
  <-> vshl p 1 ∈ boxes ≫= Box3iCells.for_each_cell.
Proof.
  intros He. rewrite !list_elem_of_bind. rewrite Forall_forall in He.
  split; intros (b & Hp & Hb); exists b; (split; [|exact Hb]);
    apply elem_of_for_each_cell; apply elem_of_for_each_cell in Hp;
    rewrite parent_box_contains_first_child in * by (apply He; exact Hb); exact Hp.
Qed.

Lemma parents_of_boxes_NoDup (boxes : list Box3i) :
  Forall Box3i.even_box boxes ->
  NoDup (boxes ≫= Box3iCells.for_each_cell) ->
  NoDup (boxes ≫= (fun b => Box3iCells.for_each_cell (parent_box b))).
Proof.
  intros He. induction He as [|b boxes Hb He IH]; [intros; apply NoDup_nil_2|].
  cbn. rewrite !NoDup_app. intros (_ & Hd & Hnd).
  split; [apply for_each_cell_NoDup|]. split; [|apply IH; exact Hnd].
  intros p Hp Hin. apply (Hd (vshl p 1)).
  - apply elem_of_for_each_cell. apply elem_of_for_each_cell in Hp.
    rewrite parent_box_contains_first_child by exact Hb. exact Hp.
  - apply parents_of_boxes; assumption.
Qed.

(** What removing the boxes out of range does to the parent LOD, when the
    boxes are even and share no cell. *)
Lemma foldl_remove_out_of_range_box_parent_lod lod_index boxes ls :
  (S lod_index < lod_count)%nat -> (S lod_index < length ls)%nat ->
  Forall Box3i.even_box boxes ->
  NoDup (boxes ≫= Box3iCells.for_each_cell) ->
  let ls' := foldl (remove_box lod_index) ls boxes in
  let m := mesh_map (lod_at ls' lod_index) in
  let parents := boxes ≫= (fun b => Box3iCells.for_each_cell (parent_box b)) in
  let parent_lod := lod_at ls (S lod_index) in
  let parent_lod' := lod_at ls' (S lod_index) in
  (forall p, mesh_map parent_lod' !! p
             = if decide (p ∈ parents /\ shown_again m (mesh_map parent_lod) p)
               then set_active true <$> mesh_map parent_lod !! p
               else mesh_map parent_lod !! p)
  /\ mesh_blocks_to_activate parent_lod'
     = mesh_blocks_to_activate parent_lod ++ filter (shown_again m (mesh_map parent_lod)) parents
  /\ loading_blocks parent_lod' = loading_blocks parent_lod
  /\ mesh_blocks_pending_update parent_lod' = mesh_blocks_pending_update parent_lod
  /\ mesh_blocks_to_unload parent_lod' = mesh_blocks_to_unload parent_lod
  /\ mesh_blocks_to_deactivate parent_lod' = mesh_blocks_to_deactivate parent_lod.
Proof.
  intros Hc Hi. induction boxes as [|b boxes IH] using rev_ind; intros He Hnd; cbv zeta.
  - cbn. rewrite app_nil_r. split; [|repeat split].
    intros p. rewrite decide_False; [reflexivity|]. intros [H _]. inversion H.
  - apply Forall_app in He as [He Hb]. rewrite Forall_singleton in Hb.
    rewrite bind_app in Hnd. cbn in Hnd. rewrite app_nil_r in Hnd.
    apply NoDup_app in Hnd as (Hnd & Hdisj & Hndb).
    specialize (IH He Hnd). cbv zeta in IH.
    destruct IH as (IHm & IHa & IH1 & IH2 & IH3 & IH4).
    rewrite foldl_app. cbn [foldl].
    set (ls1 := foldl (remove_box lod_index) ls boxes) in *.
    assert (Hlen : length ls1 = length ls)
      by apply foldl_remove_out_of_range_box_length.
    rewrite remove_out_of_range_box_parent_lod by (try exact Hc; lia).
    rewrite remove_out_of_range_box_child_lod by lia.
    set (lb := foldl unview_mesh_cell (lod_at ls1 lod_index) (Box3iCells.for_each_cell b)).
    destruct (foldl_unview_mesh_cell (Box3iCells.for_each_cell b) (lod_at ls1 lod_index) Hndb)
      as (Hlb & _). fold lb in Hlb.
    destruct (foldl_show_parent_cell lb (Box3iCells.for_each_cell (parent_box b))
                (lod_at ls1 (S lod_index)) (for_each_cell_NoDup _))
      as (Sm & Sa & S1 & S2 & S3 & S4).
    rewrite bind_app. cbn [mbind list_bind]. 
    change ([b] ≫= (fun b0 => Box3iCells.for_each_cell (parent_box b0)))
      with (Box3iCells.for_each_cell (parent_box b) ++ []).
    rewrite app_nil_r.
    set (parents := boxes ≫= (fun b0 => Box3iCells.for_each_cell (parent_box b0))) in *.
    set (pb := Box3iCells.for_each_cell (parent_box b)) in *.
    set (P0 := lod_at ls (S lod_index)) in *.
    set (P1 := lod_at ls1 (S lod_index)) in *.
    set (m1 := mesh_map (lod_at ls1 lod_index)) in *.
    (* the parents of [b] are not those of the boxes before *)
    assert (Hpb : forall p, p ∈ pb -> (p ∉ parents) /\ mesh_map P1 !! p = mesh_map P0 !! p).
    { intros p Hp. assert (Hn : p ∉ parents).
      { intros Hin. apply (parents_of_boxes boxes p He) in Hin. apply (Hdisj _ Hin).
        apply elem_of_for_each_cell. apply elem_of_for_each_cell in Hp.
        rewrite parent_box_contains_first_child by exact Hb. exact Hp. }
      split; [exact Hn|]. rewrite IHm. apply decide_False. tauto. }
    (* the first child of a parent seen before is not in [b] *)
    assert (Hparents : forall p, p ∈ parents ->
              (p ∉ pb) /\ mesh_map lb !! vshl p 1 = m1 !! vshl p 1).
    { intros p Hp. assert (Hn : vshl p 1 ∉ Box3iCells.for_each_cell b).
      { apply Hdisj. apply parents_of_boxes; assumption. }
      split.
      - intros Hin. apply Hn. apply elem_of_for_each_cell. apply elem_of_for_each_cell in Hin.
        rewrite parent_box_contains_first_child by exact Hb. exact Hin.
      - rewrite Hlb. rewrite bool_decide_eq_false_2 by exact Hn. reflexivity. }
    split; [|split; [|repeat split; congruence]].
    + intros p. rewrite Sm.
      destruct (decide (p ∈ pb)) as [Hin|Hin].
      * destruct (Hpb p Hin) as [Hn Hsame]. rewrite Hsame.
        pose proof (shown_again_ext (mesh_map lb) (mesh_map lb) (mesh_map P0) (mesh_map P1) p
                      eq_refl Hsame) as Hs.
        destruct (decide (shown_again (mesh_map lb) (mesh_map P0) p)) as [Hp|Hp].
        -- rewrite !decide_True; [reflexivity| |]; rewrite ?elem_of_app; tauto.
        -- rewrite !decide_False; [reflexivity| |]; tauto.
      * rewrite (decide_False (P := p ∈ pb /\ _)) by tauto. rewrite IHm.
        destruct (decide (p ∈ parents)) as [Hp|Hp].
        -- destruct (Hparents p Hp) as [_ Hsame].
           pose proof (shown_again_ext m1 (mesh_map lb) (mesh_map P0) (mesh_map P0) p
                         Hsame eq_refl) as Hs.
           destruct (decide (shown_again m1 (mesh_map P0) p)) as [Hsh|Hsh].
           ++ rewrite !decide_True; [reflexivity| |]; rewrite ?elem_of_app; tauto.
           ++ rewrite !decide_False; [reflexivity| |]; tauto.
        -- rewrite !decide_False; [reflexivity| |]; rewrite ?elem_of_app; tauto.
    + rewrite Sa, IHa, <- app_assoc, filter_app. f_equal. f_equal.
      * apply list_filter_iff_in. intros p Hp. destruct (Hparents p Hp) as [_ Hsame].
        symmetry. apply shown_again_ext; [exact Hsame|reflexivity].
      * apply list_filter_iff_in. intros p Hp. destruct (Hpb p Hp) as [_ Hsame].
        apply shown_again_ext; [reflexivity|exact Hsame].
Qed.

End mesh_lod.

(** ** The mesh differ, LOD by LOD *)

Lemma elem_of_leaving_cells (prev_mesh_box new_mesh_box : Box3i) (cell : Vector3i) :
  cell ∈ leaving_cells prev_mesh_box new_mesh_box
  <-> Box3i.contains prev_mesh_box cell = true /\ Box3i.contains new_mesh_box cell = false.
Proof.
  rewrite <- elem_of_difference. unfold leaving_cells. rewrite list_elem_of_bind.
  split; intros (box & H1 & H2); exists box; split; try assumption;
    apply elem_of_for_each_cell; assumption.
Qed.

Lemma elem_of_entering_cells (prev_mesh_box new_mesh_box : Box3i) (cell : Vector3i) :
  cell ∈ entering_cells prev_mesh_box new_mesh_box
  <-> Box3i.contains new_mesh_box cell = true /\ Box3i.contains prev_mesh_box cell = false.
Proof. apply elem_of_leaving_cells. Qed.

Lemma leaving_cells_same (box : Box3i) : leaving_cells box box = [].
Proof.
  destruct (leaving_cells box box) as [|c cells] eqn:E; [reflexivity|].
  assert (H : c ∈ leaving_cells box box) by (rewrite E; left).
  apply elem_of_leaving_cells in H. destruct H. congruence.
Qed.

Lemma entering_cells_NoDup (prev_mesh_box new_mesh_box : Box3i) :
  vnonneg (size prev_mesh_box) -> NoDup (entering_cells prev_mesh_box new_mesh_box).
Proof. apply leaving_cells_NoDup. Qed.

Lemma parents_of_leaving_cells_same (box : Box3i) :
  vnonneg (size box) -> parents_of_leaving_cells box box = [].
Proof.
  intros (Hx & Hy & Hz). unfold parents_of_leaving_cells.
  pose proof (leaving_cells_same box) as Hl. unfold leaving_cells in Hl.
  unfold Box3iCells.difference in *.
  destruct (Box3i.intersects box box) eqn:Hi; cbn [negb] in *.
  - destruct box as [[ax ay az] [asx asy asz]]. unfold Box3i.end_ in *. vsimpl. cbv zeta in *.
    repeat case_bool_decide; cbn [x y z pos size] in *; try lia. reflexivity.
  - cbn. rewrite app_nil_r. cbn in Hl. rewrite app_nil_r in Hl.
    apply not_true_iff_false in Hi. rewrite intersects_iff in Hi.
    destruct (Box3iCells.for_each_cell (parent_box box)) as [|c cells] eqn:E; [reflexivity|].
    assert (Hc : c ∈ Box3iCells.for_each_cell (parent_box box)) by (rewrite E; left).
    apply elem_of_for_each_cell, contains_iff in Hc. unfold parent_box in Hc. vsimpl.
    rewrite !shiftr_1 in Hc. exfalso. Z.div_mod_to_equations. lia.
Qed.

Lemma foldl_view_mesh_cell_other (full : bool) (cells : list Vector3i) (l : Lod)
    (cell : Vector3i) :
  cell ∉ cells ->
  mesh_map (foldl (view_mesh_cell full) l cells) !! cell = mesh_map l !! cell.
Proof.
  revert l. induction cells as [|c cells IH]; intros l Hn; [reflexivity|].
  rewrite not_elem_of_cons in Hn. cbn [foldl]. rewrite IH by tauto.
  rewrite view_mesh_cell_lookup. apply decide_False. tauto.
Qed.

Lemma foldl_view_mesh_cell_rest (full : bool) (cells : list Vector3i) (l : Lod) :
  let l' := foldl (view_mesh_cell full) l cells in
  mesh_blocks_to_unload l' = mesh_blocks_to_unload l
  /\ loading_blocks l' = loading_blocks l
  /\ mesh_blocks_to_activate l' = mesh_blocks_to_activate l
  /\ mesh_blocks_to_deactivate l' = mesh_blocks_to_deactivate l.
Proof.
  revert l. induction cells as [|c cells IH]; intros l; [repeat split|].
  cbv zeta. cbn [foldl]. destruct (IH (view_mesh_cell full l c)) as (-> & -> & -> & ->).
  destruct (view_mesh_cell_rest full l c) as (R1 & R2 & R3 & R4).
  repeat split; assumption.
Qed.

Section mesh_lod_step.

Variable settings : Settings.
Variable bounds_in_voxels : Box3i.
Variable lod_count : nat.
Variable is_full_load_mode : bool.
Variable can_load : bool.

Abbreviation remove_box := (remove_out_of_range_box lod_count).
Abbreviation add_box := (add_entering_box is_full_load_mode).
Abbreviation mesh_lod := (process_mesh_lod settings bounds_in_voxels lod_count
                                           is_full_load_mode can_load).
Abbreviation mesh_lods := (process_mesh_lods settings bounds_in_voxels lod_count
                                             is_full_load_mode can_load).
Abbreviation outside := (mesh_boxes_outside_bounds settings bounds_in_voxels).

(** *** The boxes entering range *)

Lemma foldl_add_entering_box_length lod_index boxes ls :
  length (foldl (add_box lod_index) ls boxes) = length ls.
Proof.
  revert ls. induction boxes as [|b boxes IH]; intros ls; [reflexivity|].
  cbn [foldl]. rewrite IH. unfold add_entering_box. apply length_alter.
Qed.

Lemma foldl_add_entering_box_lod lod_index boxes ls :
  (lod_index < length ls)%nat ->
  lod_at (foldl (add_box lod_index) ls boxes) lod_index
  = foldl (view_mesh_cell is_full_load_mode) (lod_at ls lod_index)
          (boxes ≫= Box3iCells.for_each_cell).
Proof.
  revert ls. induction boxes as [|b boxes IH]; intros ls Hi; [reflexivity|].
  cbn [foldl]. rewrite IH by (unfold add_entering_box; rewrite length_alter; exact Hi).
  unfold add_entering_box. rewrite lod_at_alter_eq by exact Hi.
  cbn. rewrite foldl_app. reflexivity.
Qed.

Lemma foldl_add_entering_box_other_lods lod_index boxes ls j :
  j <> lod_index -> lod_at (foldl (add_box lod_index) ls boxes) j = lod_at ls j.
Proof.
  intros Hj. revert ls. induction boxes as [|b boxes IH]; intros ls; [reflexivity|].
  cbn [foldl]. rewrite IH. unfold add_entering_box. apply lod_at_alter_ne. congruence.
Qed.

(** *** One LOD of one paired viewer *)

Lemma process_mesh_lod_flow pv lod_index ls :
  (mesh_lod pv lod_index ls).2 = if outside pv lod_index then Break else Continue.
Proof.
  unfold process_mesh_lod, mesh_boxes_outside_bounds. cbv zeta.
  destruct (negb _ && negb _); reflexivity.
Qed.

Lemma process_mesh_lod_outside pv lod_index ls :
  outside pv lod_index = true -> (mesh_lod pv lod_index ls).1 = ls.
Proof.
  unfold process_mesh_lod, mesh_boxes_outside_bounds. cbv zeta. intros ->. reflexivity.
Qed.

Abbreviation moved_boxes := (moved_boxes lod_count is_full_load_mode can_load).

Lemma process_mesh_lod_inside pv lod_index ls :
  outside pv lod_index = false ->
  let new_mesh_box := box_at (mesh_box_per_lod (pv_state pv)) lod_index in
  let prev_mesh_box := box_at (mesh_box_per_lod (prev_state pv)) lod_index in
  (mesh_lod pv lod_index ls).1
  = alter (cancel_mesh_updates new_mesh_box) lod_index
          (if bool_decide (prev_mesh_box <> new_mesh_box)
           then moved_boxes prev_mesh_box new_mesh_box lod_index ls else ls).
Proof.
  unfold process_mesh_lod, mesh_boxes_outside_bounds. cbv zeta. intros ->. reflexivity.
Qed.

Lemma moved_boxes_length prev_mesh_box new_mesh_box lod_index ls :
  length (moved_boxes prev_mesh_box new_mesh_box lod_index ls) = length ls.
Proof.
  unfold moved_boxes. rewrite foldl_remove_out_of_range_box_length.
  destruct can_load; [apply foldl_add_entering_box_length|reflexivity].
Qed.

Lemma process_mesh_lod_length pv lod_index ls :
  length (mesh_lod pv lod_index ls).1 = length ls.
Proof.
  destruct (outside pv lod_index) eqn:E.
  - rewrite process_mesh_lod_outside by exact E. reflexivity.
  - rewrite process_mesh_lod_inside by exact E. cbv zeta. rewrite length_alter.
    case_bool_decide; [apply moved_boxes_length|reflexivity].
Qed.

Lemma process_mesh_lods_length pv lod_indices ls :
  length (mesh_lods pv lod_indices ls) = length ls.
Proof.
  revert ls. induction lod_indices as [|i lod_indices IH]; intros ls; [reflexivity|].
  cbn [process_mesh_lods]. cbv zeta.
  pose proof (process_mesh_lod_length pv i ls) as Hl.
  destruct (mesh_lod pv i ls).2; rewrite ?IH; exact Hl.
Qed.

(** The LODs that a step of the loop leaves alone. *)
Lemma process_mesh_lod_other_lods pv lod_index ls j :
  j <> lod_index -> (j <> S lod_index \/ ~ (S lod_index < lod_count)%nat) ->
  lod_at (mesh_lod pv lod_index ls).1 j = lod_at ls j.
Proof.
  intros H1 H2. destruct (outside pv lod_index) eqn:E.
  - rewrite process_mesh_lod_outside by exact E. reflexivity.
  - rewrite process_mesh_lod_inside by exact E. cbv zeta.
    rewrite lod_at_alter_ne by congruence. case_bool_decide; [|reflexivity].
    unfold moved_boxes. rewrite foldl_remove_out_of_range_box_other_lods by assumption.
    destruct can_load; [|reflexivity]. apply foldl_add_entering_box_other_lods. exact H1.
Qed.

Lemma process_mesh_lods_larger_lods pv lod_indices ls j :
  (forall i, i ∈ lod_indices -> (S i < j)%nat) ->
  lod_at (mesh_lods pv lod_indices ls) j = lod_at ls j.
Proof.
  revert ls. induction lod_indices as [|i lod_indices IH]; intros ls H; [reflexivity|].
  cbn [process_mesh_lods]. cbv zeta.
  assert (Hi : (S i < j)%nat) by (apply H; left).
  pose proof (process_mesh_lod_other_lods pv i ls j ltac:(lia) ltac:(left; lia)) as Hs.
  destruct (mesh_lod pv i ls).2; try exact Hs.
  rewrite IH by (intros; apply H; right; assumption). exact Hs.
Qed.

(** The mesh map and the lists of the LOD that a step of the loop handles. *)
Lemma process_mesh_lod_child_lod pv lod_index ls :
  outside pv lod_index = false ->
  (lod_index < length ls)%nat ->
  let new_mesh_box := box_at (mesh_box_per_lod (pv_state pv)) lod_index in
  let prev_mesh_box := box_at (mesh_box_per_lod (prev_state pv)) lod_index in
  vnonneg (size new_mesh_box) ->
  let l := lod_at ls lod_index in
  let l' := lod_at (mesh_lod pv lod_index ls).1 lod_index in
  (forall cell, cell ∈ leaving_cells prev_mesh_box new_mesh_box ->
                mesh_map l' !! cell = unviewed (mesh_map l !! cell))
  /\ (forall cell, cell ∉ leaving_cells prev_mesh_box new_mesh_box ->
        (can_load = false \/ cell ∉ entering_cells prev_mesh_box new_mesh_box) ->
        mesh_map l' !! cell = mesh_map l !! cell)
  /\ (vnonneg (size prev_mesh_box) ->
      forall cell, can_load = true -> cell ∈ entering_cells prev_mesh_box new_mesh_box ->
                   mesh_map l' !! cell = Some (viewed is_full_load_mode (mesh_map l !! cell)))
  /\ mesh_blocks_to_unload l'
     = mesh_blocks_to_unload l
       ++ filter (erased_cell (mesh_map l)) (leaving_cells prev_mesh_box new_mesh_box)
  /\ loading_blocks l' = loading_blocks l
  /\ mesh_blocks_to_activate l' = mesh_blocks_to_activate l
  /\ mesh_blocks_to_deactivate l' = mesh_blocks_to_deactivate l.
Proof.
  intros Hout Hi new_mesh_box prev_mesh_box Hnew l l'.
  subst l'. rewrite process_mesh_lod_inside by exact Hout. cbv zeta.
  fold new_mesh_box prev_mesh_box.
  assert (Hcancel : forall ls', length ls' = length ls ->
            let c := lod_at (alter (cancel_mesh_updates new_mesh_box) lod_index ls') lod_index in
            mesh_map c = mesh_map (lod_at ls' lod_index)
            /\ mesh_blocks_to_unload c = mesh_blocks_to_unload (lod_at ls' lod_index)
            /\ loading_blocks c = loading_blocks (lod_at ls' lod_index)
            /\ mesh_blocks_to_activate c = mesh_blocks_to_activate (lod_at ls' lod_index)
            /\ mesh_blocks_to_deactivate c = mesh_blocks_to_deactivate (lod_at ls' lod_index)).
  { intros ls' Hl. cbv zeta. rewrite lod_at_alter_eq by lia. repeat split. }
  case_bool_decide as Hmoved.
  - destruct (Hcancel (moved_boxes prev_mesh_box new_mesh_box lod_index ls)
                (moved_boxes_length _ _ _ _)) as (-> & -> & -> & -> & ->).
    unfold moved_boxes.
    set (added := if can_load then _ else ls).
    assert (Hlen : length added = length ls)
      by (subst added; destruct can_load; [apply foldl_add_entering_box_length|reflexivity]).
    rewrite foldl_remove_out_of_range_box_child_lod by lia.
    fold (leaving_cells prev_mesh_box new_mesh_box).
    destruct (foldl_unview_mesh_cell (leaving_cells prev_mesh_box new_mesh_box)
                (lod_at added lod_index) (leaving_cells_NoDup _ _ Hnew))
      as (Hm & Hu & H1 & _ & H3 & H4).
    (* what the first pass did *)
    assert (Hadded :
      (forall cell, (can_load = false \/ cell ∉ entering_cells prev_mesh_box new_mesh_box) ->
         mesh_map (lod_at added lod_index) !! cell = mesh_map l !! cell)
      /\ (vnonneg (size prev_mesh_box) ->
          forall cell, can_load = true -> cell ∈ entering_cells prev_mesh_box new_mesh_box ->
            mesh_map (lod_at added lod_index) !! cell
            = Some (viewed is_full_load_mode (mesh_map l !! cell)))
      /\ mesh_blocks_to_unload (lod_at added lod_index) = mesh_blocks_to_unload l
      /\ loading_blocks (lod_at added lod_index) = loading_blocks l
      /\ mesh_blocks_to_activate (lod_at added lod_index) = mesh_blocks_to_activate l
      /\ mesh_blocks_to_deactivate (lod_at added lod_index) = mesh_blocks_to_deactivate l).
    { subst added. destruct can_load.
      - rewrite foldl_add_entering_box_lod by exact Hi.
        fold (entering_cells prev_mesh_box new_mesh_box). fold l.
        split; [|split].
        + intros cell [Hf|Hn]; [discriminate|].
          apply foldl_view_mesh_cell_other. exact Hn.
        + intros Hprev cell _ Hin.
          destruct (foldl_view_mesh_cell is_full_load_mode _ l
                      (entering_cells_NoDup prev_mesh_box new_mesh_box Hprev)) as (Hv & _).
          rewrite Hv. rewrite bool_decide_eq_true_2 by exact Hin. reflexivity.
        + apply foldl_view_mesh_cell_rest.
      - split; [reflexivity|]. split; [intros; discriminate|]. repeat split. }
    destruct Hadded as (Ha1 & Ha2 & Ha3 & Ha4 & Ha5 & Ha6).
    assert (Hexcl : forall cell, cell ∈ leaving_cells prev_mesh_box new_mesh_box ->
                                 cell ∉ entering_cells prev_mesh_box new_mesh_box).
    { intros cell Hl He. apply elem_of_leaving_cells in Hl. apply elem_of_entering_cells in He.
      destruct Hl, He. congruence. }
    split; [|split; [|split; [|split; [|repeat split; congruence]]]].
    + intros cell Hl. rewrite Hm, bool_decide_eq_true_2 by exact Hl.
      rewrite Ha1 by (right; apply Hexcl; exact Hl). reflexivity.
    + intros cell Hl He. rewrite Hm, bool_decide_eq_false_2 by exact Hl. apply Ha1. exact He.
    + intros Hprev cell Hc He. rewrite Hm, bool_decide_eq_false_2.
      * apply Ha2; assumption.
      * intros Hl. exact (Hexcl cell Hl He).
    + rewrite Hu, Ha3. f_equal. apply filter_erased_cell_ext.
      intros cell Hl. apply Ha1. right. apply Hexcl. exact Hl.
  - idtac.
    destruct (Hcancel ls eq_refl) as (-> & -> & -> & -> & ->). fold l.
    rewrite Hmoved, leaving_cells_same. cbn. rewrite app_nil_r.
    split; [intros cell Hc; inversion Hc|]. split; [reflexivity|].
    split; [|repeat split].
    intros _ cell _ Hc. apply elem_of_entering_cells in Hc. destruct Hc. congruence.
Qed.

(** The parent LOD after a step of the loop, when both mesh boxes are
    even. *)
Lemma process_mesh_lod_parent_lod pv lod_index ls :
  outside pv lod_index = false ->
  (S lod_index < lod_count)%nat -> (S lod_index < length ls)%nat ->
  let new_mesh_box := box_at (mesh_box_per_lod (pv_state pv)) lod_index in
  let prev_mesh_box := box_at (mesh_box_per_lod (prev_state pv)) lod_index in
  vnonneg (size new_mesh_box) -> vnonneg (size prev_mesh_box) ->
  Box3i.even_box new_mesh_box -> Box3i.even_box prev_mesh_box ->
  let m := mesh_map (lod_at (mesh_lod pv lod_index ls).1 lod_index) in
  let parents := parents_of_leaving_cells prev_mesh_box new_mesh_box in
  let parent_lod := lod_at ls (S lod_index) in
  let parent_lod' := lod_at (mesh_lod pv lod_index ls).1 (S lod_index) in
  NoDup parents
  /\ (forall p, p ∈ parents <-> vshl p 1 ∈ leaving_cells prev_mesh_box new_mesh_box)
  /\ (forall p, mesh_map parent_lod' !! p
                = if decide (p ∈ parents /\ shown_again m (mesh_map parent_lod) p)
                  then set_active true <$> mesh_map parent_lod !! p
                  else mesh_map parent_lod !! p)
  /\ mesh_blocks_to_activate parent_lod'
     = mesh_blocks_to_activate parent_lod ++ filter (shown_again m (mesh_map parent_lod)) parents
  /\ loading_blocks parent_lod' = loading_blocks parent_lod
  /\ mesh_blocks_pending_update parent_lod' = mesh_blocks_pending_update parent_lod
  /\ mesh_blocks_to_unload parent_lod' = mesh_blocks_to_unload parent_lod
  /\ mesh_blocks_to_deactivate parent_lod' = mesh_blocks_to_deactivate parent_lod.
Proof.
  intros Hout Hc Hi new_mesh_box prev_mesh_box Hnew Hprev Enew Eprev. cbv zeta.
  rewrite process_mesh_lod_inside by exact Hout. cbv zeta.
  fold new_mesh_box prev_mesh_box.
  assert (Heven : Forall Box3i.even_box (Box3iCells.difference prev_mesh_box new_mesh_box)).
  { apply Forall_forall. intros box Hin. exact (difference_even _ _ _ Eprev Enew Hin). }
  split; [apply parents_of_boxes_NoDup; [exact Heven|apply leaving_cells_NoDup; exact Hnew]|].
  split; [intros p; apply parents_of_boxes; exact Heven|].
  assert (Hcancel : forall ls',
            mesh_map (lod_at (alter (cancel_mesh_updates new_mesh_box) lod_index ls') lod_index)
            = mesh_map (lod_at ls' lod_index)).
  { intros ls'. destruct (decide (lod_index < length ls')%nat).
    - rewrite lod_at_alter_eq by assumption. reflexivity.
    - unfold lod_at. rewrite list_lookup_alter_eq, (lookup_ge_None_2 ls') by lia. reflexivity. }
  rewrite Hcancel, !lod_at_alter_ne by lia.
  case_bool_decide as Hmoved.
  - unfold moved_boxes. set (added := if can_load then _ else ls).
    assert (Hlen : length added = length ls)
      by (subst added; destruct can_load; [apply foldl_add_entering_box_length|reflexivity]).
    assert (Hsame : lod_at added (S lod_index) = lod_at ls (S lod_index)).
    { subst added. destruct can_load; [|reflexivity].
      apply foldl_add_entering_box_other_lods. lia. }
    rewrite <- Hsame.
    apply (foldl_remove_out_of_range_box_parent_lod lod_count lod_index
             (Box3iCells.difference prev_mesh_box new_mesh_box) added Hc ltac:(lia) Heven).
    apply leaving_cells_NoDup. exact Hnew.
  - rewrite Hmoved.
    rewrite parents_of_leaving_cells_same by exact Hnew. cbn. rewrite app_nil_r.
    split; [|repeat split]. intros p. rewrite decide_False; [reflexivity|].
    intros [H _]. inversion H.
Qed.

(** *** The loop over LODs *)

Lemma process_mesh_lods_app pv lod_indices rest ls :
  (forall i, i ∈ lod_indices -> outside pv i = false) ->
  mesh_lods pv (lod_indices ++ rest) ls = mesh_lods pv rest (mesh_lods pv lod_indices ls).
Proof.
  revert ls. induction lod_indices as [|i lod_indices IH]; intros ls H; [reflexivity|].
  cbn [app process_mesh_lods]. cbv zeta.
  rewrite process_mesh_lod_flow, (H i ltac:(left)).
  apply IH. intros. apply H. right. assumption.
Qed.

Lemma lod_loop_reaches_spec pv lod_index :
  lod_loop_reaches settings bounds_in_voxels lod_count pv lod_index = true
  <-> forall j, (lod_index <= j < lod_count)%nat -> outside pv j = false.
Proof.
  unfold lod_loop_reaches. rewrite forallb_forall. split.
  - intros H j Hj. specialize (H j ltac:(apply in_seq; lia)).
    apply negb_true_iff in H. exact H.
  - intros H j Hj. apply in_seq in Hj. apply negb_true_iff. apply H. lia.
Qed.

Lemma rev_seq_split (n i : nat) :
  (i < n)%nat -> rev (seq 0 n) = rev (seq (S i) (n - S i)) ++ i :: rev (seq 0 i).
Proof.
  intros Hi. replace n with (i + (1 + (n - S i)))%nat at 1 by lia.
  rewrite !seq_app, !rev_app_distr. cbn [seq rev app]. rewrite <- app_assoc.
  replace (0 + i + 1)%nat with (S i) by lia. reflexivity.
Qed.

Lemma process_mesh_viewer_steps ls pv lod_index :
  (lod_index < lod_count)%nat ->
  lod_loop_reaches settings bounds_in_voxels lod_count pv lod_index = true ->
  process_mesh_viewer settings bounds_in_voxels lod_count is_full_load_mode can_load ls pv
  = mesh_lods pv (rev (seq 0 lod_index))
      (mesh_lod pv lod_index
         (mesh_lods pv (rev (seq (S lod_index) (lod_count - S lod_index))) ls)).1.
Proof.
  intros Hi Hreach.
  pose proof (proj1 (lod_loop_reaches_spec pv lod_index) Hreach) as Hin.
  unfold process_mesh_viewer. rewrite (rev_seq_split lod_count lod_index Hi).
  rewrite process_mesh_lods_app.
  - cbn [process_mesh_lods]. cbv zeta.
    rewrite process_mesh_lod_flow, (Hin lod_index ltac:(lia)). reflexivity.
  - intros j Hj. apply list_elem_of_In in Hj. apply in_rev in Hj. apply in_seq in Hj.
    apply Hin. lia.
Qed.

Lemma foldl_process_mesh_viewer_length ls pvs :
  length (foldl (process_mesh_viewer settings bounds_in_voxels lod_count is_full_load_mode
                                     can_load) ls pvs)
  = length ls.
Proof.
  revert ls. induction pvs as [|pv pvs IH]; intros ls; [reflexivity|].
  cbn [foldl]. rewrite IH. apply process_mesh_lods_length.
Qed.

(** [process_mesh_blocks_sliding_box] goes through the step for one LOD of
    one paired viewer whenever the loop over LODs of that viewer reaches
    it. *)
Lemma process_mesh_blocks_sliding_box_steps st seen pv rest lod_index :
  paired_viewers (clipbox_streaming st) = seen ++ pv :: rest ->
  (lod_index < lod_count)%nat ->
  lod_loop_reaches settings bounds_in_voxels lod_count pv lod_index = true ->
  let before := lods_before_mesh_lod settings bounds_in_voxels lod_count is_full_load_mode
                                     can_load (lods st) seen pv lod_index in
  lods (process_mesh_blocks_sliding_box settings bounds_in_voxels lod_count is_full_load_mode
                                        can_load st)
  = lods_after_mesh_lod settings bounds_in_voxels lod_count is_full_load_mode can_load
                        (mesh_lod pv lod_index before).1 pv lod_index rest
  /\ (mesh_lod pv lod_index before).2 = Continue
  /\ length before = length (lods st).
Proof.
  intros Hpvs Hi Hreach. cbv zeta.
  pose proof (proj1 (lod_loop_reaches_spec pv lod_index) Hreach) as Hin.
  split; [|split].
  - unfold process_mesh_blocks_sliding_box, lods_after_mesh_lod, lods_before_mesh_lod.
    cbn [lods]. rewrite Hpvs.
    change (fun ls paired_viewer => mesh_lods paired_viewer (rev (seq 0 lod_count)) ls)
      with (process_mesh_viewer settings bounds_in_voxels lod_count is_full_load_mode can_load).
    rewrite foldl_app. cbn [foldl]. f_equal.
    apply process_mesh_viewer_steps; assumption.
  - rewrite process_mesh_lod_flow, (Hin lod_index ltac:(lia)). reflexivity.
  - unfold lods_before_mesh_lod. rewrite process_mesh_lods_length.
    apply foldl_process_mesh_viewer_length.
Qed.

End mesh_lod_step.

(** ** The cells that leave the mesh box of a viewer *)


(** ** Showing the parent again when children leave *)

Lemma unviewed_counts (o o' : option MeshBlockState) :
  viewer_counts <$> o = viewer_counts <$> o' ->
  viewer_counts <$> unviewed o = viewer_counts <$> unviewed o'.
Proof.
  destruct o as [mb|], o' as [mb'|]; cbn; try discriminate; [|reflexivity].
  intros [= Hm Hc]. unfold erased_when_unviewed. rewrite Hm, Hc.
  destruct (bool_decide _); cbn; [reflexivity|]. unfold viewer_counts. cbn. congruence.
Qed.

Lemma counts_None (o o' : option MeshBlockState) :
  viewer_counts <$> o = viewer_counts <$> o' -> o = None -> o' = None.
Proof. intros H ->. destruct o'; [discriminate|reflexivity]. Qed.

(** Whether the children of a block are viewed alike can be decided entry by
    entry. *)
Lemma siblings_viewed_alike_by_evaluation (m : gmap Vector3i MeshBlockState) :
  map_Forall (fun k mesh_block =>
                Forall (fun j => viewer_counts <$> m !! get_child_position (vshr k 1) j
                                 = Some (viewer_counts mesh_block)) (seq 0 8)) m ->
  siblings_viewed_alike m.
Proof.
  intros H parent i j Hi Hj.
  assert (Hfrom : forall a b mb, (a < 8)%nat -> (b < 8)%nat ->
            m !! get_child_position parent a = Some mb ->
            viewer_counts <$> m !! get_child_position parent b = Some (viewer_counts mb)).
  { intros a b mb Ha Hb Hm. specialize (H _ _ Hm). cbv beta in H.
    rewrite (child_of_parent parent a Ha) in H.
    rewrite Forall_forall in H. apply H. apply elem_of_seq. lia. }
  destruct (m !! get_child_position parent i) as [mb|] eqn:Ei.
  - rewrite (Hfrom i j mb Hi Hj Ei). reflexivity.
  - destruct (m !! get_child_position parent j) as [mb|] eqn:Ej; [|reflexivity].
    pose proof (Hfrom j i mb Hj Hi Ej) as Hc. rewrite Ei in Hc. discriminate.
Qed.

(** With even boxes, the eight children of a block leave together. *)
Lemma siblings_leave_together (prev_mesh_box new_mesh_box : Box3i) (parent : Vector3i)
    (i j : nat) :
  Box3i.even_box prev_mesh_box -> Box3i.even_box new_mesh_box ->
  (i < 8)%nat -> (j < 8)%nat ->
  get_child_position parent i ∈ leaving_cells prev_mesh_box new_mesh_box ->
  get_child_position parent j ∈ leaving_cells prev_mesh_box new_mesh_box.
Proof.
  intros Hp Hn Hi Hj. rewrite !elem_of_leaving_cells.
  rewrite !(parent_box_contains_children prev_mesh_box) by assumption.
  rewrite !(parent_box_contains_children new_mesh_box) by assumption. tauto.
Qed.

(** When the loop over LODs of a paired viewer gets to a LOD below the root,
    the two mesh boxes of the viewer at that LOD being even with no negative
    size and the eight children of every block being viewed alike in the mesh
    map of that LOD: the blocks of the parent LOD that the step activates
    again and pushes onto [mesh_blocks_to_activate] are exactly the parents of
    a leaving cell that are in the mesh map and inactive and of which no
    child is left in the mesh map of the LOD; each is pushed once, and no
    other entry of the parent LOD changes. *)
Lemma mesh_differ_shows_parents
    (settings : Settings) (bounds_in_voxels : Box3i) (lod_count : nat)
    (is_full_load_mode can_load : bool) (st : State)
    (seen : list PairedViewer) (paired_viewer : PairedViewer) (rest : list PairedViewer)
    (lod_index : nat) :
  paired_viewers (clipbox_streaming st) = seen ++ paired_viewer :: rest ->
  (S lod_index < lod_count <= length (lods st))%nat ->
  lod_loop_reaches settings bounds_in_voxels lod_count paired_viewer lod_index = true ->
  let new_mesh_box := box_at (mesh_box_per_lod (pv_state paired_viewer)) lod_index in
  let prev_mesh_box := box_at (mesh_box_per_lod (prev_state paired_viewer)) lod_index in
  vnonneg (size new_mesh_box) -> vnonneg (size prev_mesh_box) ->
  Box3i.even_box new_mesh_box -> Box3i.even_box prev_mesh_box ->
  let before := lods_before_mesh_lod settings bounds_in_voxels lod_count is_full_load_mode
                                     can_load (lods st) seen paired_viewer lod_index in
  let after := (process_mesh_lod settings bounds_in_voxels lod_count is_full_load_mode
                                 can_load paired_viewer lod_index before).1 in
  siblings_viewed_alike (mesh_map (lod_at before lod_index)) ->
  let parent_lod := lod_at before (S lod_index) in
  let parent_lod' := lod_at after (S lod_index) in
  lods (process_mesh_blocks_sliding_box settings bounds_in_voxels lod_count is_full_load_mode
                                        can_load st)
  = lods_after_mesh_lod settings bounds_in_voxels lod_count is_full_load_mode can_load
                        after paired_viewer lod_index rest
  /\ exists shown : list Vector3i,
       mesh_blocks_to_activate parent_lod' = mesh_blocks_to_activate parent_lod ++ shown
       /\ NoDup shown
       /\ (forall parent,
             parent ∈ shown
             <-> (exists mesh_block, mesh_map parent_lod !! parent = Some mesh_block
                                     /\ active mesh_block = false)
                 /\ (exists child_index,
                       (child_index < 8)%nat
                       /\ Box3i.contains prev_mesh_box (get_child_position parent child_index)
                          = true
                       /\ Box3i.contains new_mesh_box (get_child_position parent child_index)
                          = false)
                 /\ no_child_left (mesh_map (lod_at after lod_index)) parent)
       /\ (forall parent,
             mesh_map parent_lod' !! parent
             = if bool_decide (parent ∈ shown)
               then set_active true <$> mesh_map parent_lod !! parent
               else mesh_map parent_lod !! parent).
Proof.
  intros Hpvs [Hi Hlen] Hreach new_mesh_box prev_mesh_box Hnew Hprev Enew Eprev before after
         Halike parent_lod parent_lod'.
  destruct (process_mesh_blocks_sliding_box_steps settings bounds_in_voxels lod_count
              is_full_load_mode can_load st seen paired_viewer rest lod_index Hpvs
              ltac:(lia) Hreach) as (Hsteps & _ & Hbefore).
  fold before in Hsteps, Hbefore. fold after in Hsteps.
  pose proof (proj1 (lod_loop_reaches_spec settings bounds_in_voxels lod_count paired_viewer
                       lod_index) Hreach lod_index ltac:(lia)) as Hinside.
  destruct (process_mesh_lod_child_lod settings bounds_in_voxels lod_count is_full_load_mode
              can_load paired_viewer lod_index before Hinside ltac:(lia) Hnew)
    as (Hleft & _).
  destruct (process_mesh_lod_parent_lod settings bounds_in_voxels lod_count is_full_load_mode
              can_load paired_viewer lod_index before Hinside ltac:(lia) ltac:(lia)
              Hnew Hprev Enew Eprev) as (Hnd & Hparents & Hmap & Hact & _).
  fold new_mesh_box prev_mesh_box after in Hleft, Hnd, Hparents, Hmap, Hact.
  fold parent_lod parent_lod' in Hmap, Hact.
  split; [exact Hsteps|].
  set (m := mesh_map (lod_at after lod_index)) in *.
  set (parents := parents_of_leaving_cells prev_mesh_box new_mesh_box) in *.
  exists (filter (shown_again m (mesh_map parent_lod)) parents).
  split; [exact Hact|]. split; [apply NoDup_filter; exact Hnd|].
  assert (Hshown : forall parent,
            parent ∈ filter (shown_again m (mesh_map parent_lod)) parents
            <-> parent ∈ parents /\ shown_again m (mesh_map parent_lod) parent).
  { intros parent. rewrite list_elem_of_filter. tauto. }
  split.
  - intros parent. rewrite Hshown, Hparents, <- first_child_position. split.
    + intros (Hleaving & mb & Hm & Ha & Hfirst).
      split; [eauto|]. split.
      * exists 0%nat. apply elem_of_leaving_cells in Hleaving. split; [lia|exact Hleaving].
      * intros i Hi'.
        pose proof (siblings_leave_together _ _ parent 0 i Eprev Enew ltac:(lia) Hi' Hleaving)
          as Hleaves.
        subst m. rewrite (Hleft _ Hleaves).
        rewrite <- first_child_position, (Hleft _ Hleaving) in Hfirst.
        eapply counts_None; [|exact Hfirst].
        apply unviewed_counts. apply Halike; lia.
    + intros ((mb & Hm & Ha) & (i & Hi' & Hc1 & Hc2) & Hnone).
      split.
      * apply (siblings_leave_together _ _ parent i 0 Eprev Enew Hi' ltac:(lia)).
        apply elem_of_leaving_cells. split; assumption.
      * exists mb. split; [exact Hm|]. split; [exact Ha|].
        rewrite <- first_child_position. apply Hnone. lia.
  - intros parent. rewrite Hmap.
    destruct (decide (parent ∈ parents /\ shown_again m (mesh_map parent_lod) parent)) as [H|H].
    + rewrite bool_decide_eq_true_2 by (apply Hshown; exact H). reflexivity.
    + rewrite bool_decide_eq_false_2 by (rewrite Hshown; exact H). reflexivity.
Qed.

(** ** What [update_mesh_block_load] leaves alone *)

Lemma unless_active_set_active (a : bool) (mb : MeshBlockState) :
  unless_active (set_active a mb) = unless_active mb.
Proof. reflexivity. Qed.

Section kept.

(** A view of a mesh block that does not show whether it is active. *)
Context {A : Type} (f : MeshBlockState -> A).
Hypothesis f_set_active : forall a mb, f (set_active a mb) = f mb.

Lemma same_up_to_refl ls : same_up_to f ls ls.
Proof. split; [reflexivity|]. intros k. reflexivity. Qed.

Lemma same_up_to_trans ls1 ls2 ls3 :
  same_up_to f ls1 ls2 -> same_up_to f ls2 ls3 -> same_up_to f ls1 ls3.
Proof.
  intros [L12 H12] [L23 H23]. split; [congruence|]. intros k. rewrite H23. apply H12.
Qed.

Lemma same_up_to_alter (g : Lod -> Lod) (ls : list Lod) (i : nat) :
  (forall l, f <$> mesh_map (g l) = f <$> mesh_map l) ->
  same_up_to f ls (alter g i ls).
Proof.
  intros Hg. split; [apply length_alter|].
  intros k. destruct (decide (i = k)) as [<-|Hne].
  - destruct (decide (i < length ls)%nat) as [Hi|Hi].
    + rewrite lod_at_alter_eq by exact Hi. apply Hg.
    + unfold lod_at. rewrite list_lookup_alter_eq, (lookup_ge_None_2 ls i) by lia. reflexivity.
  - rewrite lod_at_alter_ne by exact Hne. reflexivity.
Qed.

Lemma same_up_to_insert (l : Lod) (ls : list Lod) (i : nat) :
  f <$> mesh_map l = f <$> mesh_map (lod_at ls i) ->
  same_up_to f ls (<[i := l]> ls).
Proof.
  intros Hl. split; [apply length_insert|].
  intros k. unfold lod_at. destruct (decide (i = k)) as [<-|Hne].
  - destruct (decide (i < length ls)%nat) as [Hi|Hi].
    + rewrite list_lookup_insert_eq by exact Hi. exact Hl.
    + rewrite list_insert_ge by lia. reflexivity.
  - rewrite list_lookup_insert_ne by exact Hne. reflexivity.
Qed.

Lemma same_up_to_foldl {B : Type} (g : list Lod -> B -> list Lod) (l : list B)
    (ls : list Lod) :
  (forall ls b, same_up_to f ls (g ls b)) -> same_up_to f ls (foldl g ls l).
Proof.
  intros Hg. revert ls. induction l as [|b l IH]; intros ls; [apply same_up_to_refl|].
  cbn. eapply same_up_to_trans; [apply Hg|apply IH].
Qed.

Lemma alter_set_active_keeps (a : bool) (p : Vector3i) (m : gmap Vector3i MeshBlockState) :
  f <$> alter (set_active a) p m = f <$> m.
Proof.
  apply map_eq. intros k. rewrite !lookup_fmap, lookup_alter.
  case_decide; [subst|reflexivity]. destruct (m !! k); cbn; [|reflexivity].
  rewrite f_set_active. reflexivity.
Qed.

Lemma activate_block_keeps (p : Vector3i) (l : Lod) :
  f <$> mesh_map (activate_block p l) = f <$> mesh_map l.
Proof. apply alter_set_active_keeps. Qed.

Lemma deactivate_block_keeps (p : Vector3i) (l : Lod) :
  f <$> mesh_map (deactivate_block p l) = f <$> mesh_map l.
Proof. apply alter_set_active_keeps. Qed.

(** [update_mesh_block_load] changes nothing of a mesh block but its [active]
    flag. *)
Lemma update_mesh_block_load_keeps (lod_count lod_index : nat) (ls : list Lod)
    (bpos : Vector3i) :
  same_up_to f ls (update_mesh_block_load lod_count lod_index ls bpos).
Proof.
  revert ls bpos. induction lod_index as [|child_lod_index IH]; intros ls bpos;
    rewrite update_mesh_block_load_unfold; cbv zeta;
    (destruct (mesh_map (lod_at ls _) !! bpos) as [mesh_block|];
     [|apply same_up_to_refl]);
    (destruct (negb (loaded mesh_block)); [apply same_up_to_refl|]);
    destruct (bool_decide _).
  - destruct (negb (active mesh_block)); [|apply same_up_to_refl].
    apply same_up_to_alter, activate_block_keeps.
  - destruct (mesh_map _ !! vshr bpos 1) as [parent|]; [|apply same_up_to_refl].
    destruct (_ && _); [|apply same_up_to_refl].
    eapply same_up_to_trans;
      [apply same_up_to_alter, deactivate_block_keeps|].
    apply same_up_to_foldl. intros ls' i.
    apply same_up_to_alter, activate_block_keeps.
  - eapply same_up_to_trans; [|apply same_up_to_foldl; intros; apply IH].
    destruct (negb (active mesh_block)); [|apply same_up_to_refl].
    apply same_up_to_alter, activate_block_keeps.
  - destruct (mesh_map _ !! vshr bpos 1) as [parent|]; [|apply same_up_to_refl].
    destruct (_ && _); [|apply same_up_to_refl].
    eapply same_up_to_trans;
      [apply same_up_to_alter, deactivate_block_keeps|].
    apply same_up_to_foldl. intros ls' i.
    eapply same_up_to_trans;
      [apply same_up_to_alter, activate_block_keeps|].
    apply same_up_to_foldl. intros. apply IH.
Qed.

End kept.

Lemma update_mesh_block_load_length (lod_count lod_index : nat) (ls : list Lod)
    (bpos : Vector3i) :
  length (update_mesh_block_load lod_count lod_index ls bpos) = length ls.
Proof.
  assert (Hfold : forall {B : Type} (f : list Lod -> B -> list Lod) (l : list B) ls0,
            (forall ls b, length (f ls b) = length ls) -> length (foldl f ls0 l) = length ls0).
  { intros B f l. induction l as [|b l IHl]; intros ls0 Hf; [reflexivity|].
    cbn. rewrite IHl by exact Hf. apply Hf. }
  revert ls bpos. induction lod_index as [|child_lod_index IH]; intros ls bpos;
    rewrite update_mesh_block_load_unfold; cbv zeta;
    (destruct (mesh_map (lod_at ls _) !! bpos) as [mesh_block|]; [|reflexivity]);
    (destruct (negb (loaded mesh_block)); [reflexivity|]);
    destruct (bool_decide _).
  - destruct (negb (active mesh_block)); [|reflexivity]. apply length_alter.
  - destruct (mesh_map _ !! vshr bpos 1) as [parent|]; [|reflexivity].
    destruct (_ && _); [|reflexivity].
    rewrite Hfold by (intros; apply length_alter). apply length_alter.
  - rewrite Hfold by (intros; apply IH).
    destruct (negb (active mesh_block)); [|reflexivity]. apply length_alter.
  - destruct (mesh_map _ !! vshr bpos 1) as [parent|]; [|reflexivity].
    destruct (_ && _); [|reflexivity].
    rewrite Hfold; [apply length_alter|].
    intros ls' i. rewrite Hfold by (intros; apply IH). apply length_alter.
Qed.

Lemma all_siblings_loaded_keeps (l l' : Lod) (parent_bpos : Vector3i) :
  unless_active <$> mesh_map l' = unless_active <$> mesh_map l ->
  all_siblings_loaded l' parent_bpos = all_siblings_loaded l parent_bpos.
Proof.
  intros H. unfold all_siblings_loaded.
  assert (Hk : forall i,
            match mesh_map l' !! get_child_position parent_bpos i with
            | Some sibling => loaded sibling
            | None => false
            end
            = match mesh_map l !! get_child_position parent_bpos i with
              | Some sibling => loaded sibling
              | None => false
              end).
  { intros i.
    assert (Hi : unless_active <$> mesh_map l' !! get_child_position parent_bpos i
                 = unless_active <$> mesh_map l !! get_child_position parent_bpos i)
      by (rewrite <- !lookup_fmap, H; reflexivity).
    destruct (mesh_map l' !! _) as [mb'|], (mesh_map l !! _) as [mb|];
      cbn in Hi; try discriminate; [|reflexivity].
    injection Hi. intros. assumption. }
  induction (seq 0 8) as [|i indices IH]; [reflexivity|].
  cbn [forallb]. rewrite Hk, IH. reflexivity.
Qed.

(** ** What [update_mesh_block_load] does above the LOD of the block *)

Lemma foldl_lod_at {B : Type} (f : list Lod -> B -> list Lod) (l : list B) (ls : list Lod)
    (k : nat) :
  (forall ls b, lod_at (f ls b) k = lod_at ls k) -> lod_at (foldl f ls l) k = lod_at ls k.
Proof.
  intros Hf. revert ls. induction l as [|b l IH]; intros ls; [reflexivity|].
  cbn. rewrite IH. apply Hf.
Qed.

(** The LODs above the parent LOD are left alone. *)
Lemma update_mesh_block_load_above (lod_count lod_index : nat) (ls : list Lod)
    (bpos : Vector3i) (k : nat) :
  (S lod_index < k)%nat ->
  lod_at (update_mesh_block_load lod_count lod_index ls bpos) k = lod_at ls k.
Proof.
  revert ls bpos k. induction lod_index as [|child_lod_index IH]; intros ls bpos k Hk;
    rewrite update_mesh_block_load_unfold; cbv zeta;
    (destruct (mesh_map (lod_at ls _) !! bpos) as [mesh_block|]; [|reflexivity]);
    (destruct (negb (loaded mesh_block)); [reflexivity|]);
    destruct (bool_decide _).
  - destruct (negb (active mesh_block)); [|reflexivity]. apply lod_at_alter_ne. lia.
  - destruct (mesh_map _ !! vshr bpos 1) as [parent|]; [|reflexivity].
    destruct (_ && _); [|reflexivity].
    rewrite foldl_lod_at by (intros; apply lod_at_alter_ne; lia).
    apply lod_at_alter_ne. lia.
  - rewrite foldl_lod_at by (intros; apply IH; lia).
    destruct (negb (active mesh_block)); [|reflexivity]. apply lod_at_alter_ne. lia.
  - destruct (mesh_map _ !! vshr bpos 1) as [parent|]; [|reflexivity].
    destruct (_ && _); [|reflexivity].
    rewrite foldl_lod_at; [apply lod_at_alter_ne; lia|].
    intros ls' i. rewrite foldl_lod_at by (intros; apply IH; lia).
    apply lod_at_alter_ne. lia.
Qed.

(** The parent LOD changes only when the parent is subdivided: the parent
    is then deactivated. *)
Lemma update_mesh_block_load_parent_lod (lod_count lod_index : nat) (ls : list Lod)
    (bpos : Vector3i) :
  (S lod_index < length ls)%nat ->
  lod_at (update_mesh_block_load lod_count lod_index ls bpos) (S lod_index)
  = if subdivides lod_count lod_index ls bpos
    then deactivate_block (vshr bpos 1) (lod_at ls (S lod_index))
    else lod_at ls (S lod_index).
Proof.
  intros Hlen. rewrite update_mesh_block_load_unfold. unfold subdivides. cbv zeta.
  destruct (mesh_map (lod_at ls lod_index) !! bpos) as [mesh_block|]; [|reflexivity].
  destruct (loaded mesh_block); cbn [negb andb]; [|reflexivity].
  destruct (bool_decide (S lod_index = lod_count)); cbn [negb andb].
  - assert (Hact : lod_at (if negb (active mesh_block)
                           then alter (activate_block bpos) lod_index ls else ls) (S lod_index)
                   = lod_at ls (S lod_index)).
    { destruct (negb (active mesh_block)); [|reflexivity]. apply lod_at_alter_ne. lia. }
    destruct lod_index as [|child_lod_index]; [exact Hact|].
    rewrite foldl_lod_at by (intros; apply update_mesh_block_load_above; lia). exact Hact.
  - destruct (mesh_map _ !! vshr bpos 1) as [parent|]; [|reflexivity].
    destruct (_ && _); [|reflexivity].
    rewrite foldl_lod_at.
    + apply lod_at_alter_eq. exact Hlen.
    + intros ls' i. cbv zeta. destruct lod_index as [|child_lod_index].
      * apply lod_at_alter_ne. lia.
      * rewrite foldl_lod_at by (intros; apply update_mesh_block_load_above; lia).
        apply lod_at_alter_ne. lia.
Qed.

(** When nothing is subdivided, nothing changes below the root. *)
Lemma update_mesh_block_load_not_subdivided (lod_count lod_index : nat) (ls : list Lod)
    (bpos : Vector3i) :
  S lod_index <> lod_count ->
  subdivides lod_count lod_index ls bpos = false ->
  update_mesh_block_load lod_count lod_index ls bpos = ls.
Proof.
  intros Hroot. rewrite update_mesh_block_load_unfold. unfold subdivides. cbv zeta.
  destruct (mesh_map (lod_at ls lod_index) !! bpos) as [mesh_block|]; [|reflexivity].
  destruct (loaded mesh_block); cbn [negb andb]; [|reflexivity].
  rewrite bool_decide_eq_false_2 by exact Hroot. cbn [negb].
  destruct (mesh_map _ !! vshr bpos 1) as [parent|]; [|reflexivity].
  cbn [andb]. intros ->. reflexivity.
Qed.

(** ** Repeated calls on one child *)

Lemma deactivated_parent_not_subdivided (lod_count lod_index : nat) (ls : list Lod)
    (bpos : Vector3i) :
  (forall mb, mesh_map (lod_at ls (S lod_index)) !! vshr bpos 1 = Some mb -> active mb = false) ->
  subdivides lod_count lod_index ls bpos = false.
Proof.
  intros H. unfold subdivides.
  destruct (mesh_map (lod_at ls lod_index) !! bpos) as [mb|]; [|reflexivity].
  destruct (mesh_map (lod_at ls (S lod_index)) !! vshr bpos 1) as [pmb|] eqn:E;
    [|apply andb_false_r].
  rewrite (H pmb eq_refl). cbn. apply andb_false_r.
Qed.

Lemma repeated_updates_not_subdivided (lod_count lod_index : nat) (bpos : Vector3i)
    {B : Type} (visits : list B) (ls : list Lod) :
  S lod_index <> lod_count ->
  subdivides lod_count lod_index ls bpos = false ->
  foldl (fun ls _ => update_mesh_block_load lod_count lod_index ls bpos) ls visits = ls.
Proof.
  intros Hroot Hs. induction visits as [|v visits IH]; [reflexivity|].
  cbn [foldl]. rewrite update_mesh_block_load_not_subdivided by assumption. exact IH.
Qed.

(** Calling [update_mesh_block_load] several times on one block below the
    root amounts to calling it once, as far as the parent LOD goes. *)
Lemma repeated_updates_parent_lod (lod_count lod_index : nat) (bpos : Vector3i)
    {B : Type} (v : B) (visits : list B) (ls : list Lod) :
  S lod_index <> lod_count -> (S lod_index < length ls)%nat ->
  let ls' := foldl (fun ls _ => update_mesh_block_load lod_count lod_index ls bpos) ls
                   (v :: visits) in
  lod_at ls' (S lod_index)
  = if subdivides lod_count lod_index ls bpos
    then deactivate_block (vshr bpos 1) (lod_at ls (S lod_index))
    else lod_at ls (S lod_index).
Proof.
  intros Hroot Hlen. cbv zeta. cbn [foldl].
  destruct (subdivides lod_count lod_index ls bpos) eqn:Hs.
  - rewrite repeated_updates_not_subdivided.
    + rewrite update_mesh_block_load_parent_lod, Hs by exact Hlen. reflexivity.
    + exact Hroot.
    + apply deactivated_parent_not_subdivided. intros mb.
      rewrite update_mesh_block_load_parent_lod, Hs by exact Hlen.
      unfold deactivate_block. cbn. rewrite lookup_alter_eq.
      destruct (mesh_map (lod_at ls (S lod_index)) !! vshr bpos 1); cbn; [|discriminate].
      intros [= <-]. reflexivity.
  - rewrite update_mesh_block_load_not_subdivided by assumption.
    rewrite repeated_updates_not_subdivided by assumption. reflexivity.
Qed.

(** ** Showing the siblings *)

Lemma show_sibling_eq (further : bool) (sibling_bpos : Vector3i) (l : Lod) :
  show_sibling further sibling_bpos l
  = (if further then deactivate_block sibling_bpos else fun l => l)
      (activate_block sibling_bpos l).
Proof. destruct further; reflexivity. Qed.

Section siblings.

Variable lod_count : nat.
Variable lod_index : nat.
Variable ls : list Lod.
Variable parent_bpos : Vector3i.

Hypothesis below_root : (S lod_index < lod_count)%nat.
Hypothesis lods_there : (lod_count <= length ls)%nat.
Hypothesis all_loaded : all_siblings_loaded (lod_at ls lod_index) parent_bpos = true.

Abbreviation sibling := (get_child_position parent_bpos).

Abbreviation show_sibling_step := (show_sibling_step lod_count lod_index parent_bpos).

Lemma show_sibling_step_spec (cur : list Lod) (i : nat) :
  (i < 8)%nat -> same_up_to unless_active ls cur -> length cur = length ls ->
  let out := show_sibling_step cur i in
  same_up_to unless_active ls out /\ length out = length ls
  /\ lod_at out (S lod_index) = lod_at cur (S lod_index)
  /\ lod_at out lod_index
     = show_sibling (subdivided_further lod_index ls (sibling i)) (sibling i)
                    (lod_at cur lod_index).
Proof.
  intros Hi Hsame Hlen. cbv zeta. unfold show_sibling_step. cbv zeta.
  set (cur1 := alter (activate_block (sibling i)) lod_index cur).
  assert (Hsame1 : same_up_to unless_active ls cur1).
  { eapply same_up_to_trans; [exact Hsame|].
    apply same_up_to_alter, (activate_block_keeps _ unless_active_set_active). }
  assert (Hlen1 : length cur1 = length ls) by (subst cur1; rewrite length_alter; exact Hlen).
  assert (Hl1 : lod_at cur1 lod_index = activate_block (sibling i) (lod_at cur lod_index))
    by (apply lod_at_alter_eq; lia).
  assert (Hp1 : lod_at cur1 (S lod_index) = lod_at cur (S lod_index))
    by (apply lod_at_alter_ne; lia).
  rewrite show_sibling_eq.
  destruct lod_index as [|child_lod_index] eqn:El.
  - cbn [subdivided_further].
    split; [exact Hsame1|]. split; [exact Hlen1|]. split; assumption.
  - cbn [subdivided_further].
    split; [|split; [|split]].
    + eapply same_up_to_trans; [exact Hsame1|].
      apply same_up_to_foldl. intros. apply (update_mesh_block_load_keeps _ unless_active_set_active).
    + clear -Hlen1. revert Hlen1. generalize cur1. generalize (seq 0 8).
      intros l. induction l as [|v l IH]; intros c Hc; [exact Hc|].
      cbn [foldl]. apply IH. rewrite update_mesh_block_load_length. exact Hc.
    + rewrite foldl_lod_at by (intros; apply update_mesh_block_load_above; lia). exact Hp1.
    + change (seq 0 8) with (0%nat :: seq 1 7).
      rewrite (repeated_updates_parent_lod lod_count child_lod_index
                 (get_child_position (sibling i) i) 0%nat (seq 1 7) cur1) by lia.
      rewrite parent_of_child by exact Hi. rewrite Hl1.
      (* whether the sibling is subdivided in turn *)
      assert (Hsub : subdivides lod_count child_lod_index cur1 (get_child_position (sibling i) i)
                     = all_siblings_loaded (lod_at ls child_lod_index) (sibling i)).
      { unfold subdivides. rewrite parent_of_child by exact Hi. rewrite Hl1.
        rewrite (all_siblings_loaded_keeps (lod_at ls child_lod_index)
                   (lod_at cur1 child_lod_index)) by apply (proj2 Hsame1).
        destruct (all_siblings_loaded (lod_at ls child_lod_index) (sibling i)) eqn:Ha.
        - destruct (proj1 (all_siblings_loaded_true _ _) Ha i Hi) as (child & Hc & Hcl).
          assert (Hc1 : exists child1, mesh_map (lod_at cur1 child_lod_index)
                                       !! get_child_position (sibling i) i = Some child1
                                       /\ loaded child1 = true).
          { pose proof (proj2 Hsame1 child_lod_index) as Hk.
            apply (f_equal (fun m => m !! get_child_position (sibling i) i)) in Hk.
            rewrite !lookup_fmap, Hc in Hk.
            destruct (mesh_map (lod_at cur1 child_lod_index) !! _) as [child1|];
              cbn in Hk; [|discriminate].
            exists child1. split; [reflexivity|]. injection Hk. intros. congruence. }
          destruct Hc1 as (child1 & -> & ->).
          rewrite bool_decide_eq_false_2 by lia. cbn [negb andb].
          destruct (proj1 (all_siblings_loaded_true _ _) all_loaded i Hi) as (sib & Hs & _).
          assert (Hs1 : exists sib1, mesh_map (lod_at cur (S child_lod_index)) !! sibling i
                                     = Some sib1).
          { pose proof (proj2 Hsame (S child_lod_index)) as Hk.
            apply (f_equal (fun m => m !! sibling i)) in Hk.
            rewrite !lookup_fmap, Hs in Hk.
            destruct (mesh_map (lod_at cur (S child_lod_index)) !! _) as [sib1|];
              cbn in Hk; [eauto|discriminate]. }
          destruct Hs1 as (sib1 & Hs1).
          unfold activate_block. cbn [mesh_map push_to_activate set_mesh_map].
          rewrite lookup_alter_eq, Hs1. reflexivity.
        - destruct (mesh_map (lod_at cur1 child_lod_index) !! _); [|reflexivity].
          destruct (mesh_map (activate_block (sibling i) (lod_at cur (S child_lod_index)))
                      !! sibling i); rewrite ?andb_false_r; reflexivity. }
      rewrite Hsub.
      destruct (all_siblings_loaded (lod_at ls child_lod_index) (sibling i)); reflexivity.
Qed.

Lemma show_sibling_steps_spec (indices : list nat) (cur : list Lod) :
  (forall i, i ∈ indices -> (i < 8)%nat) ->
  same_up_to unless_active ls cur -> length cur = length ls ->
  let out := foldl show_sibling_step cur indices in
  same_up_to unless_active ls out /\ length out = length ls
  /\ lod_at out (S lod_index) = lod_at cur (S lod_index)
  /\ lod_at out lod_index
     = foldl (fun l i => show_sibling (subdivided_further lod_index ls (sibling i))
                                      (sibling i) l)
             (lod_at cur lod_index) indices.
Proof.
  revert cur. induction indices as [|i indices IH]; intros cur Hlt Hsame Hlen; cbv zeta.
  - split; [exact Hsame|]. split; [exact Hlen|]. split; reflexivity.
  - cbn [foldl].
    destruct (show_sibling_step_spec cur i (Hlt i ltac:(left)) Hsame Hlen)
      as (S1 & S2 & S3 & S4).
    destruct (IH (show_sibling_step cur i) ltac:(intros; apply Hlt; right; assumption) S1 S2)
      as (T1 & T2 & T3 & T4).
    split; [exact T1|]. split; [exact T2|]. split; congruence.
Qed.

(** What showing siblings one after the other does to their LOD. *)
Lemma foldl_show_sibling (further : Vector3i -> bool) (positions : list Vector3i) (l : Lod) :
  NoDup positions ->
  let l' := foldl (fun l p => show_sibling (further p) p l) l positions in
  mesh_blocks_to_activate l' = mesh_blocks_to_activate l ++ positions
  /\ mesh_blocks_to_deactivate l'
     = mesh_blocks_to_deactivate l ++ filter (fun p => further p = true) positions
  /\ (forall p, mesh_map l' !! p
                = if bool_decide (p ∈ positions)
                  then set_active (negb (further p)) <$> mesh_map l !! p
                  else mesh_map l !! p)
  /\ loading_blocks l' = loading_blocks l
  /\ mesh_blocks_pending_update l' = mesh_blocks_pending_update l
  /\ mesh_blocks_to_unload l' = mesh_blocks_to_unload l.
Proof.
  intros Hnd. revert l. induction Hnd as [|q positions Hq Hnd IH]; intros l; cbv zeta.
  - cbn. rewrite !app_nil_r. repeat split.
  - cbn [foldl]. destruct (IH (show_sibling (further q) q l)) as (-> & -> & Hm & -> & -> & ->).
    split; [|split; [|split; [|split; [|split]]]].
    + unfold show_sibling. destruct (further q); cbn; rewrite <- app_assoc; reflexivity.
    + rewrite filter_cons. unfold show_sibling.
      destruct (further q); cbn.
      * rewrite decide_True by reflexivity. rewrite <- app_assoc. reflexivity.
      * rewrite decide_False by discriminate. reflexivity.
    + intros p. rewrite Hm.
      destruct (decide (p = q)) as [->|Hne].
      * rewrite bool_decide_eq_false_2 by exact Hq.
        rewrite bool_decide_eq_true_2 by left.
        unfold show_sibling. destruct (further q); cbn;
          rewrite ?lookup_alter_eq; destruct (mesh_map l !! q); reflexivity.
      * assert (Hsame : mesh_map (show_sibling (further q) q l) !! p = mesh_map l !! p).
        { unfold show_sibling. destruct (further q); cbn;
            rewrite ?lookup_alter_ne by congruence; reflexivity. }
        rewrite Hsame. destruct (decide (p ∈ positions)) as [Hin|Hin].
        -- rewrite !bool_decide_eq_true_2 by (try right; exact Hin). reflexivity.
        -- rewrite !bool_decide_eq_false_2; [reflexivity| |exact Hin].
           rewrite elem_of_cons. tauto.
    + unfold show_sibling. destruct (further q); reflexivity.
    + unfold show_sibling. destruct (further q); reflexivity.
    + unfold show_sibling. destruct (further q); reflexivity.
Qed.

End siblings.

(** ** C1: what a loaded mesh block changes *)

Lemma siblings_NoDup (parent_bpos : Vector3i) :
  NoDup (get_child_position parent_bpos <$> seq 0 8).
Proof.
  apply NoDup_fmap_2_strong; [|apply NoDup_seq].
  intros i j Hi Hj. apply elem_of_seq in Hi, Hj.
  apply (children_distinct parent_bpos); lia.
Qed.

Lemma foldl_fmap_positions {A B : Type} (f : A -> B -> A) (g : nat -> B) (a : A)
    (indices : list nat) :
  foldl (fun a i => f a (g i)) a indices = foldl f a (g <$> indices).
Proof. revert a. induction indices as [|i indices IH]; intros a; cbn; auto. Qed.

(** Claim C1.  Let a mesh block below the root be in the mesh map and loaded,
    and let its parent be in the mesh map and active.

    If the eight siblings at this LOD are all in the mesh map and loaded:
    the parent is deactivated and pushed onto [mesh_blocks_to_deactivate] of
    its LOD; the eight siblings are pushed onto [mesh_blocks_to_activate] of
    theirs, in order; each sibling ends up active, unless its own eight
    children are in the mesh map and loaded, in which case the recursion
    deactivates it in turn and pushes it onto [mesh_blocks_to_deactivate];
    and the resulting state is the one obtained by deactivating the parent,
    then activating each sibling and running the activation check on each of
    its eight children.

    If a sibling is missing or not loaded, the state does not change. *)
Theorem update_mesh_block_load_subdivides (lod_count lod_index : nat) (ls : list Lod)
    (bpos : Vector3i) (mesh_block parent_mesh_block : MeshBlockState) :
  (S lod_index < lod_count <= length ls)%nat ->
  mesh_map (lod_at ls lod_index) !! bpos = Some mesh_block ->
  loaded mesh_block = true ->
  mesh_map (lod_at ls (S lod_index)) !! vshr bpos 1 = Some parent_mesh_block ->
  active parent_mesh_block = true ->
  let parent_bpos := vshr bpos 1 in
  let siblings := get_child_position parent_bpos <$> seq 0 8 in
  let all_loaded :=
    forall sibling_bpos, sibling_bpos ∈ siblings ->
      exists sibling, mesh_map (lod_at ls lod_index) !! sibling_bpos = Some sibling
                      /\ loaded sibling = true in
  let ls' := update_mesh_block_load lod_count lod_index ls bpos in
  (all_loaded ->
   mesh_map (lod_at ls' (S lod_index)) !! parent_bpos
   = Some (set_active false parent_mesh_block)
   /\ mesh_blocks_to_deactivate (lod_at ls' (S lod_index))
      = mesh_blocks_to_deactivate (lod_at ls (S lod_index)) ++ [parent_bpos]
   /\ mesh_blocks_to_activate (lod_at ls' lod_index)
      = mesh_blocks_to_activate (lod_at ls lod_index) ++ siblings
   /\ (forall sibling_bpos sibling,
         sibling_bpos ∈ siblings ->
         mesh_map (lod_at ls lod_index) !! sibling_bpos = Some sibling ->
         mesh_map (lod_at ls' lod_index) !! sibling_bpos
         = Some (set_active (negb (subdivided_further lod_index ls sibling_bpos)) sibling))
   /\ mesh_blocks_to_deactivate (lod_at ls' lod_index)
      = mesh_blocks_to_deactivate (lod_at ls lod_index)
        ++ filter (fun sibling_bpos => subdivided_further lod_index ls sibling_bpos = true)
                  siblings
   /\ ls' = subdivide_as_specified lod_count lod_index ls parent_bpos)
  /\ (~ all_loaded -> ls' = ls).
Proof.
  intros [Hroot Hlen] Hblock Hloaded Hparent Hactive parent_bpos siblings all_loaded ls'.
  assert (Hall_iff : all_loaded
                     <-> all_siblings_loaded (lod_at ls lod_index) parent_bpos = true).
  { rewrite all_siblings_loaded_true. subst all_loaded siblings. split.
    - intros H i Hi. apply H. apply list_elem_of_fmap. exists i. split; [reflexivity|].
      apply elem_of_seq. lia.
    - intros H p Hp. apply list_elem_of_fmap in Hp as (i & -> & Hi).
      apply elem_of_seq in Hi. apply H. lia. }
  assert (Hunfold : ls' = if all_siblings_loaded (lod_at ls lod_index) parent_bpos
                          then subdivide lod_count lod_index ls parent_bpos else ls).
  { subst ls'. rewrite update_mesh_block_load_unfold. cbv zeta.
    rewrite Hblock, Hloaded, Hparent, Hactive. cbn [negb andb].
    rewrite bool_decide_eq_false_2 by lia. reflexivity. }
  split.
  - intros Hall. pose proof (proj1 Hall_iff Hall) as Hasl. rewrite Hasl in Hunfold.
    set (start := alter (deactivate_block parent_bpos) (S lod_index) ls).
    assert (Hsub : ls' = foldl (show_sibling_step lod_count lod_index parent_bpos) start
                               (seq 0 8)) by (rewrite Hunfold; reflexivity).
    assert (Hstart : same_up_to unless_active ls start)
      by apply same_up_to_alter, (deactivate_block_keeps _ unless_active_set_active).
    destruct (show_sibling_steps_spec lod_count lod_index ls parent_bpos ltac:(lia) ltac:(lia)
                Hasl (seq 0 8) start
                ltac:(intros i Hi; apply elem_of_seq in Hi; lia) Hstart
                ltac:(subst start; apply length_alter))
      as (_ & _ & Hp & Hl).
    rewrite <- Hsub in Hp, Hl.
    assert (Hp0 : lod_at start (S lod_index)
                  = deactivate_block parent_bpos (lod_at ls (S lod_index)))
      by (apply lod_at_alter_eq; lia).
    assert (Hl0 : lod_at start lod_index = lod_at ls lod_index)
      by (apply lod_at_alter_ne; lia).
    rewrite Hp0 in Hp. rewrite Hl0 in Hl.
    rewrite (foldl_fmap_positions
               (fun l p => show_sibling (subdivided_further lod_index ls p) p l)
               (get_child_position parent_bpos)) in Hl.
    fold siblings in Hl.
    destruct (foldl_show_sibling (subdivided_further lod_index ls) siblings
                (lod_at ls lod_index) (siblings_NoDup parent_bpos))
      as (Ha & Hd & Hm & _).
    rewrite <- Hl in Ha, Hd, Hm.
    split; [|split; [|split; [|split; [|split]]]].
    + rewrite Hp. unfold deactivate_block. cbn. rewrite lookup_alter_eq.
      fold parent_bpos in Hparent. rewrite Hparent. reflexivity.
    + rewrite Hp. reflexivity.
    + exact Ha.
    + intros p sib Hp' Hs. rewrite Hm, bool_decide_eq_true_2 by exact Hp'.
      rewrite Hs. reflexivity.
    + exact Hd.
    + rewrite Hunfold.
      apply (subdivide_as_specified_eq lod_count lod_index ls parent_bpos Hroot Hasl).
  - intros Hnot. rewrite Hunfold.
    destruct (all_siblings_loaded (lod_at ls lod_index) parent_bpos) eqn:E; [|reflexivity].
    exfalso. apply Hnot, Hall_iff. reflexivity.
Qed.

Lemma update_mesh_block_load_subdivides_witness :
  let ls' := update_mesh_block_load 3 1 Subdivision.lods Subdivision.loaded_block in
  active <$> mesh_map (lod_at ls' 2) !! vzero = Some false
  /\ mesh_blocks_to_deactivate (lod_at ls' 2) = [vzero]
  /\ mesh_blocks_to_activate (lod_at ls' 1) = get_child_position vzero <$> seq 0 8
  /\ active <$> mesh_map (lod_at ls' 1) !! Subdivision.loaded_block = Some true
  /\ active <$> mesh_map (lod_at ls' 1) !! vzero = Some false
  /\ mesh_blocks_to_deactivate (lod_at ls' 1) = [vzero].
Proof.
  cbv zeta.
  destruct (update_mesh_block_load_subdivides 3 1 Subdivision.lods
              Subdivision.loaded_block (Subdivision.block false) (Subdivision.block true))
    as [Hall _].
  - vm_compute. lia.
  - vm_compute. reflexivity.
  - reflexivity.
  - vm_compute. reflexivity.
  - reflexivity.
  - destruct Hall as (Hp & Hpd & Ha & Hs & Hd & _).
    + intros p Hp. exists (Subdivision.block false).
      repeat (apply elem_of_cons in Hp as [->|Hp]; [split; vm_compute; reflexivity|]).
      inversion Hp.
    + change (vshr Subdivision.loaded_block 1) with vzero in *.
      split; [rewrite Hp; reflexivity|]. split; [rewrite Hpd; reflexivity|].
      split; [rewrite Ha; reflexivity|]. split; [|split].
      * rewrite (Hs Subdivision.loaded_block (Subdivision.block false)); 
          [reflexivity| |vm_compute; reflexivity].
        apply (list_elem_of_fmap_2' (get_child_position vzero) _ 1%nat);
          [apply elem_of_seq; lia|vm_compute; reflexivity].
      * rewrite (Hs vzero (Subdivision.block false));
          [reflexivity| |vm_compute; reflexivity].
        apply (list_elem_of_fmap_2' (get_child_position vzero) _ 0%nat);
          [apply elem_of_seq; lia|vm_compute; reflexivity].
      * rewrite Hd. vm_compute. reflexivity.
Defined.

(** ** What the rest of an update leaves of the mesh maps *)

Section kept_by_the_rest.

(** A view of a mesh block that shows neither whether it is active nor its
    state. *)
Context {A : Type} (f : MeshBlockState -> A).
Hypothesis f_set_active : forall a mb, f (set_active a mb) = f mb.
Hypothesis f_set_state : forall s mb, f (set_state s mb) = f mb.

Lemma revert_keeps (dropped : list Vector3i) (m : gmap Vector3i MeshBlockState) :
  f <$> foldl (fun m bpos => alter (set_state MESH_NEED_UPDATE) bpos m) m dropped = f <$> m.
Proof.
  revert m. induction dropped as [|p dropped IH]; intros m; [reflexivity|].
  cbn [foldl]. rewrite IH. apply map_eq. intros k. rewrite !lookup_fmap, lookup_alter.
  case_decide; [subst|reflexivity]. destruct (m !! k); cbn; [|reflexivity].
  rewrite f_set_state. reflexivity.
Qed.

Lemma cancel_updates_outside_data_keeps (box : Box3i) (l : Lod) :
  f <$> mesh_map (cancel_updates_outside_data box l) = f <$> mesh_map l.
Proof. unfold cancel_updates_outside_data. cbn. apply revert_keeps. Qed.

Lemma add_loading_block_keeps (l : Lod) (p : Vector3i) :
  mesh_map (add_loading_block l p).1 = mesh_map l.
Proof. unfold add_loading_block. destruct (loading_blocks l !! p); reflexivity. Qed.

Lemma unview_missing_blocks_keeps (lod_index : nat) (l : Lod) (to_load : list BlockLocation)
    (missing : list Vector3i) :
  mesh_map (unview_missing_blocks lod_index l to_load missing).1.1 = mesh_map l.
Proof.
  revert l to_load. induction missing as [|p missing IH]; intros l to_load; [reflexivity|].
  cbn [unview_missing_blocks]. destruct (loading_blocks l !! p) as [lb|]; [|reflexivity].
  cbv zeta. case_bool_decide; rewrite IH; reflexivity.
Qed.

Lemma foldl_add_loading_block_keeps (lod_index : nat) (cells : list Vector3i) (l : Lod)
    (to_load : list BlockLocation) :
  mesh_map (foldl (fun (acc : Lod * list BlockLocation) bpos =>
                     let r := add_loading_block acc.1 bpos in
                     (r.1, if r.2 then acc.2 ++ [mkBlockLocation bpos lod_index] else acc.2))
                  (l, to_load) cells).1
  = mesh_map l.
Proof.
  revert l to_load. induction cells as [|p cells IH]; intros l t; [reflexivity|].
  cbn [foldl]. rewrite IH. cbn [fst]. apply add_loading_block_keeps.
Qed.

Lemma load_entering_blocks_keeps lod_index new_box prev_box c :
  same_up_to f (ds_lods c) (ds_lods (load_entering_blocks lod_index new_box prev_box c)).
Proof.
  unfold load_entering_blocks. cbv zeta. cbn [ds_lods]. apply same_up_to_insert.
  rewrite foldl_add_loading_block_keeps. reflexivity.
Qed.

Lemma unload_leaving_blocks_keeps lod_index new_box prev_box c :
  same_up_to f (ds_lods c) (ds_lods (unload_leaving_blocks lod_index new_box prev_box c).1).
Proof.
  unfold unload_leaving_blocks. cbv zeta. cbn [fst ds_lods]. apply same_up_to_insert.
  rewrite unview_missing_blocks_keeps. reflexivity.
Qed.

Section data_differ_keeps.

Variable settings : Settings.
Variable lod_count : nat.
Variable can_load : bool.

Lemma process_data_lod_keeps pv lod_index c :
  same_up_to f (ds_lods c) (ds_lods (process_data_lod settings can_load pv lod_index c).1).
Proof.
  unfold process_data_lod. cbv zeta.
  destruct (negb _ && negb _); [apply same_up_to_refl|].
  match goal with
  | |- context [if bool_decide ?P then ?a else ?b] =>
      assert (Hr : same_up_to f (ds_lods c) (ds_lods (if bool_decide P then a else b).1));
      [|revert Hr; generalize (if bool_decide P then a else b)]
  end.
  { case_bool_decide; [|apply same_up_to_refl].
    eapply same_up_to_trans; [|apply unload_leaving_blocks_keeps].
    destruct can_load; [apply load_entering_blocks_keeps|apply same_up_to_refl]. }
  intros r Hr. destruct r.2; cbn [fst ds_lods]; try exact Hr;
    (eapply same_up_to_trans; [exact Hr|]); apply same_up_to_alter; intros l;
    apply cancel_updates_outside_data_keeps.
Qed.

Lemma process_data_lods_keeps pv lod_indices c :
  same_up_to f (ds_lods c) (ds_lods (process_data_lods settings can_load pv lod_indices c).1).
Proof.
  revert c. induction lod_indices as [|i lod_indices IH]; intros c; [apply same_up_to_refl|].
  cbn [process_data_lods]. cbv zeta.
  pose proof (process_data_lod_keeps pv i c) as Hr.
  destruct (process_data_lod settings can_load pv i c).2; cbn [fst]; try exact Hr.
  eapply same_up_to_trans; [exact Hr|apply IH].
Qed.

Lemma process_data_viewers_keeps pvs c :
  same_up_to f (ds_lods c) (ds_lods (process_data_viewers settings lod_count can_load pvs c)).
Proof.
  revert c. induction pvs as [|pv pvs IH]; intros c; [apply same_up_to_refl|].
  cbn [process_data_viewers]. cbv zeta.
  pose proof (process_data_lods_keeps pv (rev (seq 0 lod_count)) c) as Hr.
  destruct (process_data_lods settings can_load pv (rev (seq 0 lod_count)) c).2;
    try exact Hr; (eapply same_up_to_trans; [exact Hr|apply IH]).
Qed.

Lemma process_data_blocks_sliding_box_keeps st data to_save to_load :
  same_up_to f (lods st)
    (ds_lods (process_data_blocks_sliding_box settings lod_count can_load st data
                                              to_save to_load)).
Proof.
  unfold process_data_blocks_sliding_box. cbv zeta.
  destruct (streaming_enabled data); [|apply same_up_to_refl].
  apply (process_data_viewers_keeps _ (mkDataStreaming _ _ _ _)).
Qed.

End data_differ_keeps.

Lemma trigger_meshing_at_keeps data bounds shift lod_index l p :
  f <$> mesh_map (trigger_meshing_at data bounds shift lod_index l p) = f <$> mesh_map l.
Proof.
  unfold trigger_meshing_at. destruct (mesh_map l !! p) as [mb|] eqn:E; [|reflexivity].
  assert (Hset : f <$> <[p := set_state MESH_UPDATE_NOT_SENT mb]> (mesh_map l)
                 = f <$> mesh_map l).
  { apply map_eq. intros k. rewrite !lookup_fmap.
    destruct (decide (k = p)) as [->|Hne].
    - rewrite lookup_insert_eq, E. cbn. rewrite f_set_state. reflexivity.
    - rewrite lookup_insert_ne by congruence. reflexivity. }
  destruct (state mb); try reflexivity;
    cbv zeta; destruct (VoxelDataOps.has_all_blocks_in_area _ _ _); try reflexivity;
    exact Hset.
Qed.

Lemma process_loaded_data_blocks_trigger_meshing_keeps data st settings bounds :
  same_up_to f (lods st)
    (lods (process_loaded_data_blocks_trigger_meshing data st settings bounds)).
Proof.
  unfold process_loaded_data_blocks_trigger_meshing.
  destruct (negb (streaming_enabled data)); [apply same_up_to_refl|]. cbv zeta. cbn [lods].
  match goal with
  | |- same_up_to f _ (foldl ?g (_, ?s) ?bs).1 =>
      assert (Hg : forall bl ls checked, same_up_to f ls (foldl g (ls, checked) bl).1);
      [|apply Hg]
  end.
  intros blocs. induction blocs as [|bloc blocs IH]; intros ls checked;
    [apply same_up_to_refl|].
  cbn [foldl].
  match goal with
  | |- same_up_to f ls (foldl ?g (foldl ?h (ls, ?s) ?cells) ?bs).1 =>
      assert (Hc : forall cs ls' checked', same_up_to f ls' (foldl h (ls', checked') cs).1);
      [|specialize (Hc cells ls s);
        destruct (foldl h (ls, s) cells) as [ls' checked'];
        eapply same_up_to_trans; [exact Hc|apply IH]]
  end.
  intros cells. induction cells as [|cell cells IHc]; intros ls' checked'';
    [apply same_up_to_refl|].
  cbn [foldl]. case_bool_decide.
  - destruct checked''; apply IHc.
  - eapply same_up_to_trans; [|apply IHc]. cbn [fst].
    apply same_up_to_alter. intros l. apply trigger_meshing_at_keeps.
Qed.

Lemma process_loaded_mesh_blocks_trigger_visibility_changes_keeps st lod_count :
  same_up_to f (lods st)
    (lods (process_loaded_mesh_blocks_trigger_visibility_changes st lod_count)).
Proof.
  unfold process_loaded_mesh_blocks_trigger_visibility_changes. cbn [lods].
  apply same_up_to_foldl. intros. apply update_mesh_block_load_keeps. exact f_set_active.
Qed.

End kept_by_the_rest.

Lemma viewer_counts_set_active (a : bool) (mb : MeshBlockState) :
  viewer_counts (set_active a mb) = viewer_counts mb.
Proof. reflexivity. Qed.

Lemma viewer_counts_set_state (s : MeshState) (mb : MeshBlockState) :
  viewer_counts (set_state s mb) = viewer_counts mb.
Proof. reflexivity. Qed.

(** Mesh maps that show the same reference counts have their siblings
    viewed alike together. *)
Lemma siblings_viewed_alike_same_counts (m m' : gmap Vector3i MeshBlockState) :
  viewer_counts <$> m' = viewer_counts <$> m ->
  siblings_viewed_alike m -> siblings_viewed_alike m'.
Proof.
  intros H Hm parent i j Hi Hj. rewrite <- !lookup_fmap, H, !lookup_fmap. apply Hm; assumption.
Qed.

(** ** The mesh differ keeps siblings viewed alike *)

Lemma viewed_counts (full : bool) (o o' : option MeshBlockState) :
  viewer_counts <$> o = viewer_counts <$> o' ->
  viewer_counts (viewed full o) = viewer_counts (viewed full o').
Proof.
  destruct o as [mb|], o' as [mb'|]; cbn; try discriminate; [|reflexivity].
  intros [= Hm Hc]. unfold viewer_counts. cbn. congruence.
Qed.

Section alike.

Variable settings : Settings.
Variable bounds_in_voxels : Box3i.
Variable lod_count : nat.
Variable is_full_load_mode : bool.
Variable can_load : bool.

Abbreviation mesh_lod := (process_mesh_lod settings bounds_in_voxels lod_count
                                           is_full_load_mode can_load).
Abbreviation mesh_lods := (process_mesh_lods settings bounds_in_voxels lod_count
                                             is_full_load_mode can_load).
Abbreviation in_order := (mesh_boxes_in_order settings lod_count bounds_in_voxels).

Hypothesis bounds_aligned :
  bounds_aligned_to_root_blocks settings lod_count bounds_in_voxels.

Lemma process_mesh_lod_alike pv j ls :
  (lod_count <= length ls)%nat ->
  in_order (pv_state pv) -> in_order (prev_state pv) ->
  alike_below_root lod_count ls ->
  alike_below_root lod_count (mesh_lod pv j ls).1.
Proof.
  intros Hlen Hnew Hprev Halike L HL.
  destruct (mesh_boxes_outside_bounds settings bounds_in_voxels pv j) eqn:Hout.
  { rewrite process_mesh_lod_outside by exact Hout. apply Halike. exact HL. }
  destruct (decide (L = j)) as [->|Hne].
  - destruct (Hnew j ltac:(lia)) as (_ & Nn & En). destruct (En HL) as [En0 _].
    destruct (Hprev j ltac:(lia)) as (_ & Np & Ep). destruct (Ep HL) as [Ep0 _].
    pose proof (En0 bounds_aligned) as En'. pose proof (Ep0 bounds_aligned) as Ep'.
    destruct (process_mesh_lod_child_lod settings bounds_in_voxels lod_count
                is_full_load_mode can_load pv j ls Hout ltac:(lia) Nn)
      as (Hleft & Hsame & Hent & _).
    specialize (Hent Np).
    set (new_mesh_box := box_at (mesh_box_per_lod (pv_state pv)) j) in *.
    set (prev_mesh_box := box_at (mesh_box_per_lod (prev_state pv)) j) in *.
    intros parent i1 i2 H1 H2. specialize (Halike j HL parent i1 i2 H1 H2).
    destruct (decide (get_child_position parent i1 ∈ leaving_cells prev_mesh_box new_mesh_box))
      as [Hl|Hl].
    + pose proof (siblings_leave_together _ _ parent i1 i2 Ep' En' H1 H2 Hl) as Hl2.
      rewrite (Hleft _ Hl), (Hleft _ Hl2). apply unviewed_counts. exact Halike.
    + assert (Hl2 : get_child_position parent i2 ∉ leaving_cells prev_mesh_box new_mesh_box).
      { intros Hl2. apply Hl.
        exact (siblings_leave_together _ _ parent i2 i1 Ep' En' H2 H1 Hl2). }
      destruct (decide (can_load = true
                        /\ get_child_position parent i1
                           ∈ entering_cells prev_mesh_box new_mesh_box)) as [[Hc He]|Hn].
      * pose proof (siblings_leave_together _ _ parent i1 i2 En' Ep' H1 H2 He) as He2.
        rewrite (Hent _ Hc He), (Hent _ Hc He2). cbn. f_equal. apply viewed_counts.
        exact Halike.
      * assert (Hn2 : can_load = false
                      \/ get_child_position parent i2
                         ∉ entering_cells prev_mesh_box new_mesh_box).
        { destruct can_load; [right|left; reflexivity]. intros He2. apply Hn.
          split; [reflexivity|].
          exact (siblings_leave_together _ _ parent i2 i1 En' Ep' H2 H1 He2). }
        rewrite (Hsame _ Hl), (Hsame _ Hl2 Hn2); [exact Halike|].
        destruct can_load; [right|left; reflexivity]. tauto.
  - destruct (decide (L = S j)) as [->|Hne'].
    + destruct (Hnew j ltac:(lia)) as (_ & Nn & En). destruct (En ltac:(lia)) as [En0 _].
      destruct (Hprev j ltac:(lia)) as (_ & Np & Ep). destruct (Ep ltac:(lia)) as [Ep0 _].
      pose proof (En0 bounds_aligned) as En'. pose proof (Ep0 bounds_aligned) as Ep'.
      destruct (process_mesh_lod_parent_lod settings bounds_in_voxels lod_count
                  is_full_load_mode can_load pv j ls Hout ltac:(lia) ltac:(lia)
                  Nn Np En' Ep') as (_ & _ & Hmap & _).
      apply (siblings_viewed_alike_same_counts (mesh_map (lod_at ls (S j))));
        [|apply Halike; exact HL].
      apply map_eq. intros p. rewrite !lookup_fmap, Hmap.
      destruct (decide _); [|reflexivity]. destruct (mesh_map (lod_at ls (S j)) !! p); reflexivity.
    + rewrite process_mesh_lod_other_lods by (try left; congruence). apply Halike. exact HL.
Qed.

Lemma process_mesh_lods_alike pv lod_indices ls :
  (lod_count <= length ls)%nat ->
  in_order (pv_state pv) -> in_order (prev_state pv) ->
  alike_below_root lod_count ls ->
  alike_below_root lod_count (mesh_lods pv lod_indices ls).
Proof.
  intros Hlen Hnew Hprev. revert ls Hlen.
  induction lod_indices as [|i lod_indices IH]; intros ls Hlen Halike; [exact Halike|].
  cbn [process_mesh_lods]. cbv zeta.
  pose proof (process_mesh_lod_alike pv i ls Hlen Hnew Hprev Halike) as Hr.
  pose proof (process_mesh_lod_length settings bounds_in_voxels lod_count is_full_load_mode
                can_load pv i ls) as Hl.
  destruct (mesh_lod pv i ls).2; try exact Hr. apply IH; [lia|exact Hr].
Qed.

Lemma foldl_process_mesh_viewer_alike pvs ls :
  (lod_count <= length ls)%nat ->
  Forall (viewer_boxes_in_order settings lod_count bounds_in_voxels) pvs ->
  alike_below_root lod_count ls ->
  alike_below_root lod_count
    (foldl (process_mesh_viewer settings bounds_in_voxels lod_count is_full_load_mode
                                can_load) ls pvs).
Proof.
  intros Hlen Hpvs. revert ls Hlen.
  induction Hpvs as [|pv pvs (_ & Hnew & Hprev) _ IH]; intros ls Hlen Halike; [exact Halike|].
  cbn [foldl]. apply IH.
  - unfold process_mesh_viewer. rewrite process_mesh_lods_length. exact Hlen.
  - apply process_mesh_lods_alike; assumption.
Qed.

End alike.

Lemma process_mesh_blocks_sliding_box_in_order settings bounds_in_voxels lod_count
    is_full_load_mode can_load st :
  mesh_streaming_in_order settings lod_count bounds_in_voxels st ->
  mesh_streaming_in_order settings lod_count bounds_in_voxels
    (process_mesh_blocks_sliding_box settings bounds_in_voxels lod_count is_full_load_mode
                                     can_load st).
Proof.
  intros (Hlen & Hpvs & Halike). unfold mesh_streaming_in_order, process_mesh_blocks_sliding_box.
  cbn [lods clipbox_streaming].
  change (fun ls paired_viewer =>
            process_mesh_lods settings bounds_in_voxels lod_count is_full_load_mode can_load
                              paired_viewer (rev (seq 0 lod_count)) ls)
    with (process_mesh_viewer settings bounds_in_voxels lod_count is_full_load_mode can_load).
  split; [rewrite foldl_process_mesh_viewer_length; exact Hlen|].
  split; [exact Hpvs|]. intros Hal. apply foldl_process_mesh_viewer_alike; auto.
Qed.

(** ** The loop over LODs gets to every LOD that a cell leaves *)

Section reaches.

Variable settings : Settings.
Variable bounds_in_voxels : Box3i.
Variable lod_count : nat.

Abbreviation in_order := (mesh_boxes_in_order settings lod_count bounds_in_voxels).

Lemma common_cell_intersects (a b : Box3i) (cell : Vector3i) :
  Box3i.contains a cell = true -> Box3i.contains b cell = true ->
  Box3i.intersects a b = true.
Proof. rewrite intersects_iff, !contains_iff. lia. Qed.

Lemma lod_loop_reaches_cell pv lod_index cell :
  (lod_index < lod_count)%nat ->
  in_order (prev_state pv) ->
  Box3i.contains (box_at (mesh_box_per_lod (prev_state pv)) lod_index) cell = true ->
  lod_loop_reaches settings bounds_in_voxels lod_count pv lod_index = true.
Proof.
  intros Hi Hprev Hcell. apply lod_loop_reaches_spec. intros j Hj.
  assert (Hup : forall d, (lod_index + d < lod_count)%nat ->
            exists c, Box3i.contains (box_at (mesh_box_per_lod (prev_state pv))
                                             (lod_index + d)) c = true).
  { induction d as [|d IH]; intros Hd.
    - rewrite Nat.add_0_r. eauto.
    - destruct (IH ltac:(lia)) as (c & Hc).
      destruct (Hprev (lod_index + d)%nat ltac:(lia)) as (_ & _ & Hnest).
      destruct (Hnest ltac:(lia)) as [_ Hn].
      exists (vshr c 1). replace (lod_index + S d)%nat with (S (lod_index + d)) by lia.
      apply Hn. exact Hc. }
  destruct (Hup (j - lod_index)%nat ltac:(lia)) as (c & Hc).
  replace (lod_index + (j - lod_index))%nat with j in Hc by lia.
  destruct (Hprev j ltac:(lia)) as (Hwithin & _).
  pose proof (common_cell_intersects _ _ c Hc (Hwithin c Hc)) as Hint.
  unfold volume_bounds_in_mesh_blocks in Hint.
  unfold mesh_boxes_outside_bounds. cbv zeta. rewrite Hint. apply andb_false_r.
Qed.

End reaches.

(** ** The boxes of the paired viewers stay in order *)

Lemma empty_box_even : Box3i.even_box Box3i.empty.
Proof. split; repeat split. Qed.

Lemma empty_boxes_in_order settings lod_count bounds (s : ViewerBoxState) :
  (forall lod_index, box_at (mesh_box_per_lod s) lod_index = Box3i.empty) ->
  mesh_boxes_in_order settings lod_count bounds s.
Proof.
  intros H i Hi. cbv zeta. rewrite !H.
  split; [apply empty_box_within|]. split; [unfold vnonneg; cbn; lia|].
  intros _. split; [intros _; apply empty_box_even|].
  intros cell Hc. destruct (empty_box_holds_no_cell _ Hc).
Qed.

Lemma box_at_replicate_empty (n lod_index : nat) :
  box_at (replicate n Box3i.empty) lod_index = Box3i.empty.
Proof.
  unfold box_at. destruct (replicate n Box3i.empty !! lod_index) as [b|] eqn:E; [|reflexivity].
  apply lookup_replicate in E as [-> _]. reflexivity.
Qed.

Section boxes_in_order.

Variable volume_settings : Settings.
Variable lod_count : nat.
Variable volume_bounds_in_voxels : Box3i.
Variable data_block_size_po2 : Z.
Variable can_mesh : bool.

Hypothesis mesh_block_size_po2_nonneg : 0 <= mesh_block_size_po2 volume_settings.
Hypothesis bounds_nonneg : vnonneg (size volume_bounds_in_voxels).

Abbreviation plan := (plan_viewer volume_settings lod_count volume_bounds_in_voxels
                                  data_block_size_po2 can_mesh).
Abbreviation in_order := (mesh_boxes_in_order volume_settings lod_count volume_bounds_in_voxels).
Abbreviation viewer_in_order :=
  (viewer_boxes_in_order volume_settings lod_count volume_bounds_in_voxels).

Lemma plan_viewer_in_order viewer pv :
  wf_paired_viewer lod_count pv -> in_order (pv_state (plan viewer pv)).
Proof.
  intros Hwf i Hi. cbv zeta.
  destruct (plan_viewer_within_bounds volume_settings lod_count volume_bounds_in_voxels
              data_block_size_po2 can_mesh bounds_nonneg viewer pv Hwf i Hi)
    as (Hw & _ & Hn & _).
  split; [exact Hw|]. split; [exact Hn|]. intros HS. split.
  - intros bounds_aligned.
    destruct (requires_collisions (pv_state (plan viewer pv))
              || requires_meshes (pv_state (plan viewer pv))) eqn:Hreq.
    + apply (plan_viewer_mesh_boxes_even volume_settings lod_count volume_bounds_in_voxels
               data_block_size_po2 can_mesh mesh_block_size_po2_nonneg bounds_aligned
               viewer pv Hwf Hreq i HS).
    + destruct Hwf as [Hm Hd]. unfold plan_viewer in *. cbn [pv_state] in *.
      destruct (require_collisions viewer || require_visuals viewer && can_mesh) eqn:E;
        [cbn in Hreq; congruence|].
      cbn [mesh_box_per_lod].
      destruct (fill_slots_invariant (fun _ _ => Box3i.empty)
                  (fun _ b => b = Box3i.empty)
                  lod_count (mesh_box_per_lod (pv_state pv)) Hm) with (j := i)
        as (mb & Hmb_at & ->); [reflexivity|lia|].
      unfold box_at.
      change (foldl (fun boxes lod_index => <[lod_index := Box3i.empty]> boxes))
        with (foldl (fill_slot (fun (_ : list Box3i) (_ : nat) => Box3i.empty))).
      rewrite Hmb_at. apply empty_box_even.
  - apply (plan_viewer_mesh_boxes_nested volume_settings lod_count volume_bounds_in_voxels
             data_block_size_po2 can_mesh mesh_block_size_po2_nonneg bounds_nonneg
             viewer pv Hwf i HS).
Qed.

Lemma plan_viewer_boxes_in_order viewer pv :
  viewer_in_order pv -> viewer_in_order (plan viewer pv).
Proof.
  intros (Hwf & Hs & _). split; [|split].
  - apply plan_viewer_wf. exact Hwf.
  - apply plan_viewer_in_order. exact Hwf.
  - exact Hs.
Qed.

Lemma unpair_destroyed_boxes_in_order pv :
  viewer_in_order pv -> viewer_in_order (unpair_destroyed pv).
Proof.
  intros ([Hm Hd] & Hs & _). split; [|split].
  - unfold wf_paired_viewer, unpair_destroyed. cbn. rewrite !length_fmap. auto.
  - apply empty_boxes_in_order. apply unpair_destroyed_boxes_empty.
  - exact Hs.
Qed.

Lemma new_viewer_boxes_in_order (i : ViewerID) :
  viewer_in_order (PairedViewer_new lod_count i).
Proof.
  split; [|split].
  - split; cbn; rewrite length_replicate; lia.
  - apply empty_boxes_in_order. intros j. apply box_at_replicate_empty.
  - apply empty_boxes_in_order. intros j. apply box_at_replicate_empty.
Qed.

Lemma process_destroyed_viewers_in_order viewers pvs k :
  Forall viewer_in_order pvs ->
  Forall viewer_in_order (process_destroyed_viewers viewers pvs k).1.
Proof.
  intros H. revert k. induction H as [|pv pvs Hpv _ IH]; intros k; cbn; [constructor|].
  destruct (contains viewers (pv_id pv)); cbn; constructor; auto.
  apply unpair_destroyed_boxes_in_order. exact Hpv.
Qed.

Lemma pair_and_plan_in_order pvs viewer_and_id :
  Forall viewer_in_order pvs ->
  Forall viewer_in_order
    (pair_and_plan volume_settings lod_count volume_bounds_in_voxels data_block_size_po2
                   can_mesh pvs viewer_and_id).
Proof.
  intros H. unfold pair_and_plan. cbv zeta.
  apply Forall_alter; [|intros; apply plan_viewer_boxes_in_order; assumption].
  destruct (find_index pv_id pvs viewer_and_id.1); cbn [fst]; [exact H|].
  apply Forall_app. split; [exact H|]. constructor; [|constructor].
  apply new_viewer_boxes_in_order.
Qed.

Lemma process_viewers_in_order cs viewers :
  Forall viewer_in_order (paired_viewers cs) ->
  Forall viewer_in_order
    (paired_viewers (process_viewers volume_settings lod_count volume_bounds_in_voxels
                                     data_block_size_po2 can_mesh cs viewers).1).
Proof.
  intros H. unfold process_viewers. cbn [fst paired_viewers].
  generalize (process_destroyed_viewers_in_order viewers (paired_viewers cs) 0 H).
  generalize (process_destroyed_viewers viewers (paired_viewers cs) 0).1.
  induction viewers as [|v viewers IH]; intros pvs Hpvs; [exact Hpvs|].
  cbn [foldl]. apply IH. apply pair_and_plan_in_order. exact Hpvs.
Qed.

End boxes_in_order.

Lemma remove_unpaired_viewers_Forall (P : PairedViewer -> Prop) (indices : list nat)
    (pvs : list PairedViewer) :
  Forall P pvs -> Forall P (remove_unpaired_viewers indices pvs).
Proof.
  unfold remove_unpaired_viewers. generalize (rev indices). clear indices.
  intros indices. revert pvs. induction indices as [|vi indices IH]; intros pvs H; [exact H|].
  cbn [foldl]. apply IH.
  destruct (remove_unpaired_viewer_sublist pvs vi) as (kept & Hperm & Hsub).
  rewrite Hperm. rewrite Forall_forall in *. intros pv Hin. apply H.
  eapply elem_of_sublist; [exact Hin|exact Hsub].
Qed.

(** ** Every update keeps the state in order *)

Lemma alike_below_root_same_counts (lod_count : nat) (ls ls' : list Lod) :
  same_up_to viewer_counts ls ls' ->
  alike_below_root lod_count ls -> alike_below_root lod_count ls'.
Proof.
  intros [_ H] Ha i Hi.
  apply (siblings_viewed_alike_same_counts (mesh_map (lod_at ls i))); [apply H|].
  apply Ha. exact Hi.
Qed.

Lemma initial_state_in_order settings (lod_count : nat) bounds :
  mesh_streaming_in_order settings lod_count bounds (initial_state lod_count).
Proof.
  split; [cbn; rewrite length_replicate; lia|]. split; [constructor|].
  intros _ i _ parent a b _ _. unfold lod_at, initial_state. cbn.
  destruct (replicate lod_count Lod_default !! i) as [l|] eqn:E; [|reflexivity].
  apply lookup_replicate in E as [-> _]. reflexivity.
Qed.

Section update_in_order.

Variable settings : Settings.
Variable data : VoxelData.
Variable can_load can_mesh : bool.

Hypothesis mesh_block_size_po2_nonneg : 0 <= mesh_block_size_po2 settings.
Hypothesis bounds_nonneg : vnonneg (size (data_bounds data)).

Abbreviation state_in_order :=
  (mesh_streaming_in_order settings (data_lod_count data) (data_bounds data)).

(** The state that an update hands to the mesh differ. *)
Lemma state_of_mesh_differ_in_order st viewers to_save to_load :
  state_in_order st ->
  let cs := (process_viewers settings (data_lod_count data) (data_bounds data)
                             (data_block_size_po2_ data) can_mesh (clipbox_streaming st)
                             viewers).1 in
  let ds := if streaming_enabled data
            then process_data_blocks_sliding_box settings (data_lod_count data) can_load
                                                 (mkState (lods st) cs) data to_save to_load
            else mkDataStreaming (lods st) data to_save to_load in
  state_in_order (mkState (ds_lods ds) cs).
Proof.
  intros (Hlen & Hpvs & Halike) cs ds.
  assert (Hsame : same_up_to viewer_counts (lods st) (ds_lods ds)).
  { subst ds. destruct (streaming_enabled data); [|apply same_up_to_refl].
    apply (process_data_blocks_sliding_box_keeps viewer_counts viewer_counts_set_state
             settings (data_lod_count data) can_load (mkState (lods st) cs)). }
  split; [|split]; cbn [lods clipbox_streaming].
  - destruct Hsame as [-> _]. exact Hlen.
  - apply process_viewers_in_order; assumption.
  - intros Hal. apply (alike_below_root_same_counts _ _ _ Hsame (Halike Hal)).
Qed.

Lemma process_clipbox_streaming_in_order st viewers to_save to_load :
  state_in_order st ->
  state_in_order (out_state (process_clipbox_streaming st data viewers to_save to_load
                                                       settings can_load can_mesh)).
Proof.
  intros Hst.
  pose proof (state_of_mesh_differ_in_order st viewers to_save to_load Hst) as Hd.
  cbv zeta in Hd. unfold process_clipbox_streaming. cbv zeta.
  set (pv := process_viewers _ _ _ _ _ _ _) in *.
  set (ds := if streaming_enabled data then _ else _) in *.
  destruct (negb (streaming_enabled data) && negb (full_load_completed data));
    [exact Hd|]. cbn [out_state].
  apply (process_mesh_blocks_sliding_box_in_order settings (data_bounds data)
           (data_lod_count data) (negb (streaming_enabled data)) can_load) in Hd.
  set (md := process_mesh_blocks_sliding_box _ _ _ _ _ _) in *.
  destruct Hd as (Hlen & Hpvs & Halike).
  set (removed := mkState (lods md) _).
  assert (Hremoved : state_in_order removed).
  { split; [exact Hlen|]. split; [|exact Halike].
    cbn. apply remove_unpaired_viewers_Forall. exact Hpvs. }
  assert (Htrig : state_in_order
                    (if streaming_enabled data
                     then process_loaded_data_blocks_trigger_meshing (ds_data ds) removed
                                                                     settings (data_bounds data)
                     else removed)).
  { destruct (streaming_enabled data); [|exact Hremoved].
    destruct Hremoved as (Hl & Hp & Ha).
    pose proof (process_loaded_data_blocks_trigger_meshing_keeps viewer_counts
                  viewer_counts_set_state (ds_data ds) removed settings (data_bounds data))
      as Hsame.
    split; [|split].
    - destruct Hsame as [-> _]. exact Hl.
    - unfold process_loaded_data_blocks_trigger_meshing.
      destruct (negb (streaming_enabled (ds_data ds))); [exact Hp|]. exact Hp.
    - intros Hal. apply (alike_below_root_same_counts _ _ _ Hsame (Ha Hal)). }
  revert Htrig.
  match goal with |- state_in_order ?t -> _ => generalize t end.
  intros trig (Hl & Hp & Ha).
  pose proof (process_loaded_mesh_blocks_trigger_visibility_changes_keeps viewer_counts
                viewer_counts_set_active trig (data_lod_count data)) as Hsame.
  split; [|split].
  - destruct Hsame as [-> _]. exact Hl.
  - exact Hp.
  - intros Hal. apply (alike_below_root_same_counts _ _ _ Hsame (Ha Hal)).
Qed.

End update_in_order.

(** ** What the mesh differ finds in a state in order *)

(** In a state in order, whenever a cell of the previous mesh box of a
    paired viewer is to be looked at, the loop over LODs gets to its LOD, and
    there the boxes have no negative size; below the root, when the bounds
    are multiples of the root block size, they are even, and the children of
    every block are viewed alike when the loop gets there. *)
Lemma mesh_differ_in_order settings bounds_in_voxels lod_count is_full_load_mode can_load
    st seen pv rest lod_index cell :
  mesh_streaming_in_order settings lod_count bounds_in_voxels st ->
  paired_viewers (clipbox_streaming st) = seen ++ pv :: rest ->
  (lod_index < lod_count)%nat ->
  let new_mesh_box := box_at (mesh_box_per_lod (pv_state pv)) lod_index in
  let prev_mesh_box := box_at (mesh_box_per_lod (prev_state pv)) lod_index in
  Box3i.contains prev_mesh_box cell = true ->
  (lod_count <= length (lods st))%nat
  /\ lod_loop_reaches settings bounds_in_voxels lod_count pv lod_index = true
  /\ vnonneg (size new_mesh_box) /\ vnonneg (size prev_mesh_box)
  /\ ((S lod_index < lod_count)%nat ->
      bounds_aligned_to_root_blocks settings lod_count bounds_in_voxels ->
      Box3i.even_box new_mesh_box /\ Box3i.even_box prev_mesh_box
      /\ siblings_viewed_alike
           (mesh_map (lod_at (lods_before_mesh_lod settings bounds_in_voxels lod_count
                                is_full_load_mode can_load (lods st) seen pv lod_index)
                             lod_index))).
Proof.
  intros (Hlen & Hpvs & Halike) Hsplit Hi new_mesh_box prev_mesh_box Hcell.
  rewrite Hsplit in Hpvs. apply Forall_app in Hpvs as [Hseen Hrest].
  apply Forall_cons in Hrest as [(Hwf & Hnew & Hprev) _].
  split; [exact Hlen|]. split.
  { apply (lod_loop_reaches_cell settings bounds_in_voxels lod_count pv lod_index cell);
      assumption. }
  destruct (Hnew lod_index Hi) as (_ & Nn & En).
  destruct (Hprev lod_index Hi) as (_ & Np & Ep).
  split; [exact Nn|]. split; [exact Np|]. intros HS Hal.
  split; [apply (En HS); exact Hal|]. split; [apply (Ep HS); exact Hal|].
  unfold lods_before_mesh_lod.
  apply (process_mesh_lods_alike settings bounds_in_voxels lod_count is_full_load_mode
           can_load Hal pv); try assumption.
  - rewrite foldl_process_mesh_viewer_length. exact Hlen.
  - apply foldl_process_mesh_viewer_alike; auto.
Qed.

(** ** The mesh differ in the states that updates reach *)

(** The state that the mesh differ starts from in the second update of the
    scenario [Moved] is in order. *)
Lemma moved_planned_in_order :
  mesh_streaming_in_order two_lod_settings 2 Moved.bounds Moved.planned.
Proof.
  assert (Hpo2 : 0 <= mesh_block_size_po2 two_lod_settings) by (cbn; lia).
  assert (Hb : vnonneg (size Moved.bounds)) by (unfold vnonneg; cbn; lia).
  pose proof (process_clipbox_streaming_in_order two_lod_settings
                (initial_data 2 Moved.bounds false true) true true Hpo2 Hb
                (initial_state 2) [(1%nat, Moved.viewer_at vzero)] [] []
                (initial_state_in_order _ _ _)) as H1.
  change (mesh_streaming_in_order two_lod_settings 2 Moved.bounds (out_state Moved.first)) in H1.
  assert (Hc : same_config (initial_data 2 Moved.bounds false true) (out_data Moved.first))
    by apply process_clipbox_streaming_config.
  destruct Hc as (Eb & Ep & El & Es & _).
  change (data_bounds (out_data Moved.first) = Moved.bounds) in Eb.
  change (data_block_size_po2_ (out_data Moved.first) = 4) in Ep.
  change (data_lod_count (out_data Moved.first) = 2%nat) in El.
  change (streaming_enabled (out_data Moved.first) = false) in Es.
  pose proof (state_of_mesh_differ_in_order two_lod_settings (out_data Moved.first) true true
                Hpo2) as H2.
  rewrite Eb, El, Ep, Es in H2.
  exact (H2 Hb (out_state Moved.first) [(1%nat, Moved.viewer_at (mkVector3i 32 0 0))] [] [] H1).
Qed.

(** ** C10: the mesh blocks that leave the mesh box of a viewer *)



(** ** C5: showing the parent again when children leave *)

(** Claim C5, as amended.  Let the bounds of the volume be multiples of the
    root block size, and let the mesh differ start from a state in order, as
    the planner and the updates leave it.  Whenever a cell leaves the mesh
    box of a paired viewer at a LOD below the root, the differ goes through
    the step of that viewer for that LOD, and in that step a block of the
    parent LOD that is the parent of a leaving cell, is in the mesh map and
    is inactive, is activated again and pushed onto
    [mesh_blocks_to_activate] if and only if no child of it is left in the
    mesh map of the LOD.  Each such block is pushed once; no other entry of
    the parent LOD changes and nothing else is pushed. *)
Theorem process_mesh_blocks_sliding_box_shows_parents
    (settings : Settings) (bounds_in_voxels : Box3i) (lod_count : nat)
    (is_full_load_mode can_load : bool) (st : State)
    (seen : list PairedViewer) (paired_viewer : PairedViewer) (rest : list PairedViewer)
    (lod_index : nat) (cell : Vector3i) :
  bounds_aligned_to_root_blocks settings lod_count bounds_in_voxels ->
  mesh_streaming_in_order settings lod_count bounds_in_voxels st ->
  paired_viewers (clipbox_streaming st) = seen ++ paired_viewer :: rest ->
  (S lod_index < lod_count)%nat ->
  let new_mesh_box := box_at (mesh_box_per_lod (pv_state paired_viewer)) lod_index in
  let prev_mesh_box := box_at (mesh_box_per_lod (prev_state paired_viewer)) lod_index in
  Box3i.contains prev_mesh_box cell = true ->
  Box3i.contains new_mesh_box cell = false ->
  let before := lods_before_mesh_lod settings bounds_in_voxels lod_count is_full_load_mode
                                     can_load (lods st) seen paired_viewer lod_index in
  let after := (process_mesh_lod settings bounds_in_voxels lod_count is_full_load_mode
                                 can_load paired_viewer lod_index before).1 in
  let parent_lod := lod_at before (S lod_index) in
  let parent_lod' := lod_at after (S lod_index) in
  lods (process_mesh_blocks_sliding_box settings bounds_in_voxels lod_count is_full_load_mode
                                        can_load st)
  = lods_after_mesh_lod settings bounds_in_voxels lod_count is_full_load_mode can_load
                        after paired_viewer lod_index rest
  /\ exists shown : list Vector3i,
       mesh_blocks_to_activate parent_lod' = mesh_blocks_to_activate parent_lod ++ shown
       /\ NoDup shown
       /\ (forall parent,
             parent ∈ shown
             <-> (exists mesh_block, mesh_map parent_lod !! parent = Some mesh_block
                                     /\ active mesh_block = false)
                 /\ (exists child_index,
                       (child_index < 8)%nat
                       /\ Box3i.contains prev_mesh_box (get_child_position parent child_index)
                          = true
                       /\ Box3i.contains new_mesh_box (get_child_position parent child_index)
                          = false)
                 /\ no_child_left (mesh_map (lod_at after lod_index)) parent)
       /\ (forall parent,
             mesh_map parent_lod' !! parent
             = if bool_decide (parent ∈ shown)
               then set_active true <$> mesh_map parent_lod !! parent
               else mesh_map parent_lod !! parent).
Proof.
  intros Hal Hst Hpvs Hi new_mesh_box prev_mesh_box Hprev Hnew before after
         parent_lod parent_lod'.
  destruct (mesh_differ_in_order settings bounds_in_voxels lod_count is_full_load_mode
              can_load st seen paired_viewer rest lod_index cell Hst Hpvs ltac:(lia) Hprev)
    as (Hlen & Hreach & Nn & Np & Heven).
  destruct (Heven Hi Hal) as (En & Ep & Halike).
  exact (mesh_differ_shows_parents settings bounds_in_voxels lod_count is_full_load_mode
           can_load st seen paired_viewer rest lod_index Hpvs (conj Hi Hlen) Hreach
           Nn Np En Ep Halike).
Qed.

Lemma process_mesh_blocks_sliding_box_shows_parents_witness :
  let before := lods_before_mesh_lod two_lod_settings Moved.bounds 2 true true
                                     (lods Moved.planned) [] Moved.paired_viewer 0 in
  let after := (process_mesh_lod two_lod_settings Moved.bounds 2 true true Moved.paired_viewer
                                 0 before).1 in
  active <$> mesh_map (lod_at before 1) !! mkVector3i (-1) 0 0 = Some false
  /\ active <$> mesh_map (lod_at after 1) !! mkVector3i (-1) 0 0 = Some true
  /\ mkVector3i (-1) 0 0 ∈ mesh_blocks_to_activate (lod_at after 1).
Proof.
  cbv zeta.
  destruct (process_mesh_blocks_sliding_box_shows_parents two_lod_settings Moved.bounds
              2 true true Moved.planned [] Moved.paired_viewer [] 0 (mkVector3i (-2) 0 0))
    as (_ & shown & Hact & _ & Hshown & Hmap).
  - split; repeat split; ((exists (-2); reflexivity) || (exists 4; reflexivity)).
  - exact moved_planned_in_order.
  - vm_compute. reflexivity.
  - lia.
  - vm_compute. reflexivity.
  - vm_compute. reflexivity.
  - assert (Hin : mkVector3i (-1) 0 0 ∈ shown).
    { apply Hshown. split; [|split].
      - eexists. split; vm_compute; reflexivity.
      - exists 0%nat. split; [lia|]. split; vm_compute; reflexivity.
      - intros i Hi. do 8 (destruct i as [|i]; [vm_compute; reflexivity|]). lia. }
    split; [vm_compute; reflexivity|]. split.
    + rewrite Hmap. rewrite bool_decide_eq_true_2 by exact Hin. vm_compute. reflexivity.
    + rewrite Hact. apply elem_of_app. right. exact Hin.
Defined.

(** Claim C5 as stated fails when the bounds are not multiples of the root
    block size.  With bounds [-16,32)^3 and two viewers at the origin, the
    LOD-0 mesh boxes are [-1,2)^3 and the cell [(-1,-1,-1)] is the only child
    of its parent in them.  When the first viewer goes away, all its cells
    leave its mesh box; the parent, in the mesh map and inactive, is
    activated again and pushed, although its child is still in the LOD-0
    mesh map, viewed by the second viewer.  With one viewer that moves by two
    blocks along x, that child leaves and is erased, no child of the parent
    is left, and yet the parent, in the mesh map and inactive, is not
    activated again. *)
Lemma parent_shown_while_child_left_counterexample :
  (let before := lods (out_state Unaligned.two_viewers) in
   let after := lods (out_state Unaligned.one_gone_away) in
   let pv := default (PairedViewer_new 2 0%nat)
                     (head (paired_viewers (clipbox_streaming
                                              (out_state Unaligned.one_gone_away)))) in
   pv_id pv = 1%nat
   /\ Box3i.contains (box_at (mesh_box_per_lod (prev_state pv)) 0) Unaligned.child = true
   /\ Box3i.contains (box_at (mesh_box_per_lod (pv_state pv)) 0) Unaligned.child = false
   /\ vshr Unaligned.child 1 = Unaligned.parent
   /\ active <$> mesh_map (lod_at before 1) !! Unaligned.parent = Some false
   /\ active <$> mesh_map (lod_at after 1) !! Unaligned.parent = Some true
   /\ mesh_blocks_to_activate (lod_at after 1) = [Unaligned.parent]
   /\ viewer_counts <$> mesh_map (lod_at after 0) !! Unaligned.child = Some (1%nat, 1%nat))
  /\ (let before := lods (out_state Unaligned.one_viewer) in
      let after := lods (out_state Unaligned.one_moved) in
      let pv := default (PairedViewer_new 2 0%nat)
                        (head (paired_viewers (clipbox_streaming
                                                 (out_state Unaligned.one_moved)))) in
      Box3i.contains (box_at (mesh_box_per_lod (prev_state pv)) 0) Unaligned.child = true
      /\ Box3i.contains (box_at (mesh_box_per_lod (pv_state pv)) 0) Unaligned.child = false
      /\ active <$> mesh_map (lod_at before 1) !! Unaligned.parent = Some false
      /\ Forall (fun i => mesh_map (lod_at after 0) !! get_child_position Unaligned.parent i
                          = None) (seq 0 8)
      /\ active <$> mesh_map (lod_at after 1) !! Unaligned.parent = Some false
      /\ mesh_blocks_to_activate (lod_at after 1) = []).
Proof.
  split; cbv zeta; repeat split; try (vm_compute; reflexivity).
  vm_compute. repeat constructor.
Qed.

(** ** C3: the data boxes of every paired viewer after the planner *)

(** Claim C3, as amended.  After the planner has run on well-formed paired
    viewers, every paired viewer is in one of two cases.  If its viewer is
    among the viewers given to the update and it requires meshes (or
    collisions) then, for every LOD index, its data box equals the mesh box
    scaled by [mesh_to_data_factor], padded by 1 and clipped to the volume
    bounds in data blocks of that LOD, and it contains every cell of the
    scaled and padded mesh box that lies within those bounds.  If its viewer
    is not among them any more, every one of its boxes, mesh and data, is the
    default box, whatever it requires. *)
Theorem process_viewers_data_boxes
    (volume_settings : Settings) (lod_count : nat) (volume_bounds_in_voxels : Box3i)
    (data_block_size_po2 : Z) (can_mesh : bool)
    (cs : ClipboxStreamingState) (viewers : list (ViewerID * Viewer)) :
  well_formed lod_count cs ->
  forall pv,
    pv ∈ paired_viewers
           (process_viewers volume_settings lod_count volume_bounds_in_voxels
                            data_block_size_po2 can_mesh cs viewers).1 ->
    (pv_id pv ∈ viewers.*1 ->
     data_boxes_follow_mesh_boxes volume_settings lod_count volume_bounds_in_voxels
                                  data_block_size_po2 pv)
    /\ (pv_id pv ∉ viewers.*1 -> all_boxes_empty (pv_state pv)).
Proof.
  intros Hwf pv Hin. split.
  - apply (process_viewers_data_boxes_planned volume_settings lod_count
             volume_bounds_in_voxels data_block_size_po2 can_mesh cs viewers Hwf pv Hin).
  - intros Hid. apply list_elem_of_lookup in Hin as [k Hk].
    destruct (process_viewers_destroyed_at _ _ _ _ _ _ _ _ _ Hk) as [_ Hold].
    destruct (Hold Hid) as (pv0 & _ & ->). apply unpair_destroyed_boxes_empty.
Qed.

Lemma process_viewers_data_boxes_witness :
  box_at (data_box_per_lod (pv_state corner_paired_viewer)) 0%nat
  = Box3i.clipped
      (padded_mesh_box_in_data_blocks corner_settings 4
         (box_at (mesh_box_per_lod (pv_state corner_paired_viewer)) 0%nat))
      (volume_bounds_in_data_blocks corner_bounds 4 0%nat).
Proof.
  refine (proj1 (proj1 (process_viewers_data_boxes corner_settings 1 corner_bounds 4 true
                          (mkClipboxStreamingState [] [] []) [(0%nat, corner_viewer)]
                          _ corner_paired_viewer _) _ _ 0%nat _)).
  - split; constructor.
  - apply list_elem_of_In. vm_compute. left. reflexivity.
  - apply list_elem_of_In. vm_compute. left. reflexivity.
  - vm_compute. reflexivity.
  - lia.
Defined.

(** The paired viewer of a viewer that is gone stays in the list during the
    update, still requires meshes, and has the default box for data box,
    which is not the padded mesh box clipped to the bounds. *)
Example removed_viewer_data_box_is_default :
  paired_viewers corner_removed = [corner_removed_paired_viewer]
  /\ requires_meshes (pv_state corner_removed_paired_viewer) = true
  /\ box_at (mesh_box_per_lod (pv_state corner_removed_paired_viewer)) 0%nat = Box3i.empty
  /\ box_at (data_box_per_lod (pv_state corner_removed_paired_viewer)) 0%nat = Box3i.empty
  /\ Box3i.clipped
       (padded_mesh_box_in_data_blocks corner_settings 4
          (box_at (mesh_box_per_lod (pv_state corner_removed_paired_viewer)) 0%nat))
       (volume_bounds_in_data_blocks corner_bounds 4 0%nat)
     = mkBox3i vzero (mkVector3i 1 1 1).
Proof. vm_compute. repeat split; reflexivity. Qed.
